(* ===== verification/_CoqProject ===== *)
-Q . S2P
Prelude.v
RustStd.v
Net.v
Http.v
HttpModel.v
Pom.v
Matcher.v
LoadBalancing.v
RoundRobin.v
LeastConnection.v
StickyCookie.v
HttpClient.v
Strategy.v
Effects.v
Events.v
Middleware.v
RateLimiter.v
Compression.v
MaxBodySize.v
HttpsRedirector.v
Toml.v
CustomErrorPages.v
Authentication.v
Pool.v
Health.v
HealthLoop.v
Acme.v
Server.v
World.v
Tls.v
Configuration.v
Watch.v
System.v
Equivalence.v
Listeners.v
Logging.v
Main.v
Tests.v
