(* ===== verification/Prelude.v ===== *)
(** * Another Rust Load Balancer: a verification development

    The program (sources under src/src/) is a layer-7 load balancer.  A connection
    accepted on the HTTP or HTTPS listener is served by [MainService::call]
    (server.rs): ACME challenges are answered from the open challenges (acme.rs);
    otherwise the first backend pool whose schemes and matcher accept the request
    (backend_pool_matcher.rs) is used.  The pool's addresses are filtered by the
    flags that the health checks (health.rs) maintain, the pool's strategy
    (load_balancing/) selects one of them, and the request goes through the pool's
    middleware chain (middleware/) to that backend; the response travels back through
    the chain and the strategy's response mapper.  The client that talks to the
    backends (http_client.rs) tells the strategy about opened and closed
    connections.  A configuration file is converted to this structure and reloaded
    when it changes (configuration.rs, tls.rs).

    ** How the code is modelled

    - A computation that may panic has type [outcome]; [Result] is [result]; [Option]
      is [option].  Integers are [Z] with the bounds of their type written out where the
      code depends on them ([checked], [as_u32], [as_u16], [parse_i64]).  Strings are
      byte strings.
    - Objects with interior mutability (strategies, the rate limiter, the ACME
      handler) are state passed explicitly; what runs under one lock is one
      function.  Lock poisoning is part of the state where a panic can happen under
      the lock.
    - Handlers of requests are programs over effects (Effects, Events): between two
      effects other handlers may run.  [runs p tr o] says that [p] performs exactly
      the effects and gets the answers listed in [tr] and ends in [o]; statements over
      all runs hold for every behaviour of the environment.
    - Crates that are not part of the repository are type classes ([Http], [Pom],
      [RegexCrate], [UrlCrate], [CookieCrate], [LinkedHashMap], [TlsCrate], [WatchCrate]
      for the watch channel and [TryJoin] for [try_join!] of tokio, ...), and what
      the code relies on are their law classes.  Each law class used by a theorem
      has a concrete instance ([http_model], [pom_model], [cookie_model], [lhm_model],
      [watch_model], [try_join_model]) with which the theorem is applied in its witness.
      The random source ([draw] with [draw_ok]), the hash function and the iteration order
      of a [HashMap] are parameters.
    - Shared objects have a location: a pool's location stands for its [Arc], the
      cells of its health flags, its strategy, and the state of its rate limiter.
    - The whole program is a transition system (System): a step is one effect of one
      request handler, one notification of a pool's client, one move of the health
      loop, one event of the file watcher or of the reload loop, or the passing of
      time.  Effects on the program's own state are answered by that state
      ([World.handle]), effects on the outside by an [Oracle] that is arbitrary in the
      theorems and concrete in the witnesses.

    ** Files

    - Prelude: panics, results, machine integers, automation, generic lemmas.
      RustStd: what is used of the Rust standard library.  Net: IP addresses and
      their texts as the standard library prints them.
    - Http, HttpModel: the interface of http and hyper, error_response.rs, utils.rs,
      [Scheme]; a concrete instance.
    - Pom, Matcher: parser combinators; backend_pool_matcher.rs: the parser accepts
      exactly the grammar and returns its tree, its recursion terminates; evaluation of a
      query.
    - LoadBalancing, RoundRobin, LeastConnection, StickyCookie: the trait
      [LoadBalancingStrategy] with the contract [StrategyContract], the forwarder, and
      the five strategies.  Round robin visits every backend once per cycle; least
      connection; the cookie of a response leads the client back; IP hash is stable.
    - HttpClient: http_client.rs as a step relation; the counters of least connection
      are the live streams, so it selects a least-used backend.
    - Strategy: boxed strategies as configured; every configured strategy returns an
      offered backend, whatever happened before, and when least connection panics.
    - Effects, Events: programs, runs, their equivalence [same_runs], the effects of
      handlers, health data.
    - Middleware: the trait, the chain, the backend request, forwarding.  The chain is
      an onion; the headers the backend sees; at most one backend request.
    - RateLimiter, Compression, MaxBodySize, HttpsRedirector, CustomErrorPages (with
      Toml), Authentication: the six middlewares, each with the theorem that says what
      it lets through and what it changes; the rate limiter refines independent counters.
    - Equivalence: chains with the same behaviour, a congruence for every configured
      middleware; the HTTPS redirector makes no difference on HTTPS.
    - Pool, Server: pools and their builder, [pool_by_req], [call]: a request is sent at
      most once, to a working backend of the first matching pool.
    - Health, HealthLoop: checks and rounds, whose concurrent checks settle every flag;
      the loop with its timers: rounds are spaced by the interval in force and go on.
    - Acme: challenges, answers to challenge requests, and the dialogue between the worker
      thread and the task of [initiate_challenge] under every schedule: it ends, restores
      the challenges, and which proofs are served when.
    - Tls: loading keys, resolving certificates.
    - Configuration, Watch: conversions and certificates; the thread that watches the
      file and the reload loop as a step relation, and how both end.
    - World: the shared state, what each effect does to it, and that a handler run
      without interference is the plain function [serve_snapshot] of that state.
    - System: the composition.  Every reachable state satisfies [system_ok]; in every
      interleaving a request is forwarded at most once and to a backend that was
      offered, every limiter keeps to its abstract counters, the counters of least
      connection are the live streams, and a reload starts with fresh state.
    - Listeners: listeners.rs and [server::create], the accept loops as state machines.
    - Logging, Main: the logger's set-up; start-up, the four tasks and, for every state
      of System and every history of the listeners, whether and how the process ends,
      panics included.
    - Tests: the unit tests of the sources, evaluated on the definitions.

    ** Fuel and bounds

    The recursive matcher parser ([Matcher.value]) has fuel: the conversion uses one more
    than the length of the input, and [Matcher.value_terminates] shows that the parser left
    without fuel is never reached, whatever it is.  The ACME dialogue inside a reload
    ([Acme.run_dialogue]) has the number of steps [dialogue_budget], which no schedule
    exceeds ([Acme.acme_dialogue_ends], [Acme.initiate_challenge_order]).  All other
    recursion is structural.  In HttpClient a connection is opened only while the number of live
    streams fits a [usize]; RateLimiter assumes non-decreasing times under the lock,
    which System provides.

    ** Not modelled

    The parsing of HTTP and the connection handling of hyper, the TLS handshake itself,
    the command line parser; deserialization by serde and the parser of socket
    addresses (parameters); the encoders of the compression; the texts of log messages
    and of I/O errors (the kind is kept); streaming of bodies.

    In System a reload is one step, its ACME dialogue included; meanwhile requests are
    answered from arbitrary open challenges, so the theorems hold for those of any moment
    of the dialogue.  The [acme_handler] of a [RuntimeConfig] is the value of the shared
    handler when the configuration was made.

    ** Plan

    Next: the standard library's parser of socket addresses with its round trip
    against Net; the ACME handler's challenges as part of World, interleaved with
    requests; the settling of the health flags, now proved per round, for every
    reachable state of System. *)

From Stdlib Require Export ZArith Lia Ascii.
From stdpp Require Export base tactics strings gmap option.
From stdpp Require Export list.

(** ** Panics

    A Rust computation either returns or panics ([unwrap] on [None], an index
    out of range, an empty [gen_range], a division by zero, an overflow). *)
Inductive outcome (A : Type) : Type :=
| Returned (a : A)
| Panic.
Arguments Returned {A} a.
Arguments Panic {A}.

#[export] Instance outcome_ret : MRet outcome := fun A a => Returned a.
#[export] Instance outcome_bind : MBind outcome := fun A B f m =>
  match m with Returned a => f a | Panic => Panic end.
#[export] Instance outcome_fmap : FMap outcome := fun A B f m =>
  match m with Returned a => Returned (f a) | Panic => Panic end.

Definition unwrap {A} (o : option A) : outcome A :=
  match o with Some a => Returned a | None => Panic end.

Definition index {A} (l : list A) (i : nat) : outcome A := unwrap (l !! i).

(** ** Results

    [Result<T, E>] of the source. *)
Inductive result (T E : Type) : Type :=
| Ok (t : T)
| Err (e : E).
Arguments Ok {T E} t.
Arguments Err {T E} e.

Definition ok {T E} (r : result T E) : option T :=
  match r with Ok t => Some t | Err _ => None end.

Definition ok_or_else {T E} (o : option T) (e : E) : result T E :=
  match o with Some t => Ok t | None => Err e end.

Definition map_err {T E F} (f : E -> F) (r : result T E) : result T F :=
  match r with Ok t => Ok t | Err e => Err (f e) end.

(** The early return of the [?] operator on a [Result]. *)
Declare Scope rust_scope.
Delimit Scope rust_scope with rust.
Notation "'let?' x ':=' c 'in' k" :=
  (match c with Ok x => k | Err e => Err e end)
  (at level 10, x name, c at level 100, k at level 200) : rust_scope.
Open Scope rust_scope.

(** ** Machine integers *)
Definition u32_max : Z := 4294967295.
Definition u64_max : Z := 18446744073709551615.
Definition i64_min : Z := -9223372036854775808.
Definition i64_max : Z := 9223372036854775807.
Definition usize_max : Z := u64_max.

(** [as u32], [as u16]: truncation to the low bits. *)
Definition as_u32 (z : Z) : Z := z mod 2 ^ 32.
Definition as_u16 (z : Z) : Z := z mod 2 ^ 16.

(** Checked arithmetic of a build with overflow checks. *)
Definition checked (lo hi z : Z) : outcome Z :=
  if decide ((lo <= z <= hi)%Z) then Returned z else Panic.

(** String concatenation reduces on a constructor. *)
#[global] Arguments String.append : simpl nomatch.

(** ** Automation *)
Create HintDb arlb.

(** Case analysis on every [match] of the goal and the hypotheses. *)
Ltac case_all := repeat (case_match; simplify_eq/=; try done).

(** Decide a side condition by evaluation. *)
Ltac by_compute := vm_compute; repeat split; try reflexivity; try lia.

(** ** Generic lemmas *)
Lemma checked_Returned lo hi z : (lo <= z <= hi)%Z -> checked lo hi z = Returned z.
Proof. intros. unfold checked. by rewrite decide_True. Qed.

Lemma index_lt {A} (l : list A) i : i < length l -> exists x, index l i = Returned x /\ l !! i = Some x.
Proof.
  intros [x Hx]%lookup_lt_is_Some. exists x. unfold index. by rewrite Hx.
Qed.

Lemma index_Some {A} (l : list A) i x : l !! i = Some x -> index l i = Returned x.
Proof. unfold index. by intros ->. Qed.

Lemma index_Returned {A} (l : list A) i x : index l i = Returned x -> l !! i = Some x.
Proof. unfold index, unwrap. by case_match; intros; simplify_eq. Qed.

Lemma unwrap_Returned {A} (o : option A) x : unwrap o = Returned x <-> o = Some x.
Proof. unfold unwrap. split; [by case_match; intros; simplify_eq | by intros ->]. Qed.

Lemma as_u32_small z : (0 <= z <= u32_max)%Z -> as_u32 z = z.
Proof. intros. unfold as_u32, u32_max in *. apply Z.mod_small. lia. Qed.

Lemma foldl_reverse_foldr {A B} (f : B -> A -> B) b (l : list A) :
  foldl f b (reverse l) = foldr (fun a acc => f acc a) b l.
Proof. induction l as [|a l IH]; [done|]. by rewrite reverse_cons, foldl_app, IH. Qed.

#[export] Hint Resolve index_Some checked_Returned as_u32_small : arlb.
