(* ===== verification/RustStd.v ===== *)
(** * What the program uses of the Rust standard library

    Strings are byte strings ([String.string], one [ascii] per byte of the
    UTF-8 text).  Each definition follows the documented behaviour of the
    [std] function it is named after. *)
From S2P Require Import Prelude.
From stdpp Require Import sorting pretty.

Local Open Scope Z_scope.

(** ** [str] *)

(** [str::split(char)]: the pieces between the separators, always at least one. *)
Fixpoint str_split (c : ascii) (s : string) : list string :=
  match s with
  | EmptyString => [EmptyString]
  | String a s' =>
      if decide (a = c) then EmptyString :: str_split c s'
      else match str_split c s' with
           | [] => [String a EmptyString]
           | p :: ps => String a p :: ps
           end
  end.

(** [str::splitn(2, char)]: at most two pieces, the second is the whole rest. *)
Fixpoint str_splitn2 (c : ascii) (s : string) : list string :=
  match s with
  | EmptyString => [EmptyString]
  | String a s' =>
      if decide (a = c) then [EmptyString; s']
      else match str_splitn2 c s' with
           | [] => [String a EmptyString]
           | p :: ps => String a p :: ps
           end
  end.

(** [str::strip_prefix]. *)
Fixpoint str_strip_prefix (p s : string) : option string :=
  match p, s with
  | EmptyString, _ => Some s
  | String a p', String b s' => if decide (a = b) then str_strip_prefix p' s' else None
  | String _ _, EmptyString => None
  end.

(** [str::starts_with]. *)
Definition str_starts_with (s p : string) : bool := bool_decide (is_Some (str_strip_prefix p s)).

Fixpoint str_len (s : string) : nat :=
  match s with EmptyString => 0%nat | String _ s' => S (str_len s') end.

(** The ASCII characters of the Unicode property [White_Space]. *)
Definition is_ascii_whitespace (a : ascii) : bool :=
  let n := N_of_ascii a in (((9 <=? n) && (n <=? 13)) || (n =? 32))%N.

Fixpoint str_trim_start (s : string) : string :=
  match s with
  | String a s' => if is_ascii_whitespace a then str_trim_start s' else s
  | EmptyString => EmptyString
  end.

Fixpoint str_trim_end (s : string) : string :=
  match s with
  | EmptyString => EmptyString
  | String a s' =>
      match str_trim_end s' with
      | EmptyString => if is_ascii_whitespace a then EmptyString else String a EmptyString
      | t => String a t
      end
  end.

(** [str::trim] on ASCII text. *)
Definition str_trim (s : string) : string := str_trim_end (str_trim_start s).

Definition ascii_to_lower (a : ascii) : ascii :=
  let n := N_of_ascii a in
  if ((65 <=? n) && (n <=? 90))%N then ascii_of_N (n + 32) else a.

(** [str::to_lowercase] on ASCII text. *)
Fixpoint str_to_lowercase (s : string) : string :=
  match s with
  | EmptyString => EmptyString
  | String a s' => String (ascii_to_lower a) (str_to_lowercase s')
  end.

Fixpoint str_replicate (n : nat) (a : ascii) : string :=
  match n with O => EmptyString | S n' => String a (str_replicate n' a) end.

(** [format!("{:0<w}", s)]: pad on the right with ['0'] up to width [w]. *)
Definition str_pad_right_zeros (w : nat) (s : string) : string :=
  s +:+ str_replicate (w - str_len s) "0"%char.

(** [Path::join]: an absolute path replaces the directory. *)
Definition path_join (dir path : string) : string :=
  if str_starts_with path "/" then path
  else match String.get (str_len dir - 1) dir with
       | None => path
       | Some a => if decide (a = "/"%char) then dir +:+ path else dir +:+ "/" +:+ path
       end.

(** ** Integers from strings

    [<i64 as FromStr>::from_str] and [<u32 as FromStr>::from_str]: an optional
    sign ([-] for signed types only), at least one digit, digits only, and
    every intermediate value within the type's bounds. *)
Definition digit_of (a : ascii) : option Z :=
  let n := N_of_ascii a in
  if ((48 <=? n) && (n <=? 57))%N then Some (Z.of_N n - 48) else None.

Fixpoint parse_digits (sign lo hi acc : Z) (s : string) : option Z :=
  match s with
  | EmptyString => Some acc
  | String a s' =>
      d ← digit_of a;
      let acc' := acc * 10 + sign * d in
      if decide (lo <= acc' <= hi) then parse_digits sign lo hi acc' s' else None
  end.

Definition parse_int (signed : bool) (lo hi : Z) (s : string) : option Z :=
  match s with
  | EmptyString => None
  | String a s' =>
      if decide (a = "+"%char) then
        match s' with EmptyString => None | _ => parse_digits 1 lo hi 0 s' end
      else if decide (a = "-"%char) then
        match s' with
        | EmptyString => None
        | _ => if signed then parse_digits (-1) lo hi 0 s' else None
        end
      else parse_digits 1 lo hi 0 s
  end.

Definition parse_i64 : string -> option Z := parse_int true i64_min i64_max.
Definition parse_u32 : string -> option Z := parse_int false 0 u32_max.

(** ** Iterators and slices *)

(** [Iterator::take_while]. *)
Fixpoint take_while {A} (p : A -> bool) (l : list A) : list A :=
  match l with
  | [] => []
  | x :: l' => if p x then x :: take_while p l' else []
  end.

(** [Iterator::find]. *)
Fixpoint iter_find {A} (p : A -> bool) (l : list A) : option A :=
  match l with
  | [] => None
  | x :: l' => if p x then Some x else iter_find p l'
  end.

(** [Iterator::find_map]. *)
Fixpoint find_map {A B} (f : A -> option B) (l : list A) : option B :=
  match l with
  | [] => None
  | x :: l' => match f x with Some y => Some y | None => find_map f l' end
  end.

(** [Iterator::position]. *)
Fixpoint position {A} (p : A -> bool) (l : list A) : option nat :=
  match l with
  | [] => None
  | x :: l' => if p x then Some 0%nat else S <$> position p l'
  end.

(** [Iterator::max_by_key]: the last of the elements with the largest key. *)
Definition max_by_key {A} (key : A -> Z) (l : list A) : option A :=
  foldl (fun acc x =>
           match acc with
           | None => Some x
           | Some y => if decide (key y <= key x) then Some x else Some y
           end) None l.

(** [slice::sort_by] with the comparison of a key: a stable sort. *)
Definition key_le {A} (key : A -> Z) (x y : A) : Prop := key x <= key y.

#[export] Instance key_le_dec {A} (key : A -> Z) x y : Decision (key_le key x y) :=
  decide (key x <= key y).

Definition sort_by_key {A} (key : A -> Z) (l : list A) : list A := merge_sort (key_le key) l.

(** [HashMap] built by [collect]: a later pair replaces an earlier one. *)
Definition collect_map {V} (l : list (string * V)) : gmap string V :=
  foldl (fun m kv => <[kv.1 := kv.2]> m) ∅ l.

(** ** [std::net] *)
Inductive IpAddr : Type :=
| V4 (bits : Z)
| V6 (bits : Z).

Record SocketAddr := { sa_ip : IpAddr; sa_port : Z }.

#[export] Instance IpAddr_eq_dec : EqDecision IpAddr.
Proof. solve_decision. Defined.
#[export] Instance SocketAddr_eq_dec : EqDecision SocketAddr.
Proof. solve_decision. Defined.

(** ** Lemmas on strings *)
Lemma str_split_ne c s : str_split c s <> [].
Proof. destruct s; simpl; [done|]. case_decide; [done|]. by case_match. Qed.

Lemma str_splitn2_ne c s : str_splitn2 c s <> [].
Proof. destruct s; simpl; [done|]. case_decide; [done|]. by case_match. Qed.

Lemma str_strip_prefix_Some p s t :
  str_strip_prefix p s = Some t <-> s = p +:+ t.
Proof.
  revert s. induction p as [|a p IH]; intros s; simpl.
  - split; [by intros [= ->]|by intros ->].
  - destruct s as [|b s]; [done|]. case_decide as Hab.
    + subst. rewrite IH. split; [by intros ->|by intros [= ->]].
    + split; [done|]. intros [= -> _]. done.
Qed.

Lemma str_starts_with_spec s p : str_starts_with s p = true <-> exists t, s = p +:+ t.
Proof.
  unfold str_starts_with. rewrite bool_decide_eq_true. unfold is_Some.
  by setoid_rewrite str_strip_prefix_Some.
Qed.

Lemma str_len_append s t : str_len (s +:+ t) = (str_len s + str_len t)%nat.
Proof. induction s as [|a s IH]; simpl; [done|]. by rewrite IH. Qed.

Lemma str_len_replicate n a : str_len (str_replicate n a) = n.
Proof. induction n as [|n IH]; simpl; [done|]. by rewrite IH. Qed.

Lemma append_nil_r s : s +:+ "" = s.
Proof. induction s as [|a s IH]; simpl; [done|]. by rewrite IH. Qed.

Lemma append_assoc s t u :
  s +:+ (t +:+ u) = (s +:+ t) +:+ u.
Proof. induction s as [|a s IH]; simpl; [done|]. by rewrite IH. Qed.

(** ** Lemmas on numbers *)
Lemma digit_of_range a d : digit_of a = Some d -> 0 <= d <= 9.
Proof.
  unfold digit_of. destruct (_ && _)%N eqn:E; [|done]. intros [= <-].
  apply andb_prop in E as [?%N.leb_le ?%N.leb_le]. lia.
Qed.

Lemma parse_digits_bounds sign lo hi acc s z :
  lo <= acc <= hi -> parse_digits sign lo hi acc s = Some z -> lo <= z <= hi.
Proof.
  revert acc. induction s as [|a s IH]; intros acc Hacc; simpl; [by intros [= <-]|].
  destruct (digit_of a); simpl; [|done]. case_decide; [|done]. by apply IH.
Qed.

Lemma parse_int_bounds signed lo hi s z :
  lo <= 0 <= hi -> parse_int signed lo hi s = Some z -> lo <= z <= hi.
Proof.
  intros H0. unfold parse_int. destruct s as [|a s]; [done|].
  repeat case_decide; repeat case_match; try done; by apply parse_digits_bounds.
Qed.

(** The number a string of digits denotes. *)
Fixpoint decimal (acc : Z) (s : string) : option Z :=
  match s with
  | EmptyString => Some acc
  | String a s' => d ← digit_of a; decimal (acc * 10 + d) s'
  end.

Lemma decimal_app acc s t : decimal acc (s +:+ t) = v ← decimal acc s; decimal v t.
Proof. revert acc. induction s as [|a s IH]; intros acc; simpl; [done|]. by destruct (digit_of a); simpl. Qed.

Lemma decimal_zeros acc n : decimal acc (str_replicate n "0"%char) = Some (acc * 10 ^ Z.of_nat n).
Proof.
  revert acc. induction n as [|n IH]; intros acc; [simpl; f_equal; lia|]. cbn [str_replicate decimal].
  change (digit_of "0"%char) with (Some 0). cbn [mbind option_bind]. rewrite IH. f_equal.
  rewrite Nat2Z.inj_succ, Z.pow_succ_r by lia. lia.
Qed.

Lemma decimal_bounds acc s v :
  0 <= acc -> decimal acc s = Some v ->
  acc * 10 ^ Z.of_nat (str_len s) <= v < (acc + 1) * 10 ^ Z.of_nat (str_len s).
Proof.
  revert acc. induction s as [|a s IH]; intros acc Hacc; [simpl; intros [= <-]; lia|].
  cbn [decimal str_len]. destruct (digit_of a) as [d|] eqn:Hd; simpl; [|done]. intros Hv.
  apply digit_of_range in Hd. apply IH in Hv; [|lia].
  rewrite Nat2Z.inj_succ, Z.pow_succ_r by lia. pose proof (Z.pow_pos_nonneg 10 (Z.of_nat (str_len s))). nia.
Qed.

(** Within the bounds of the type, [parse_digits] reads the decimal number. *)
Lemma parse_digits_decimal lo hi acc s v :
  lo <= 0 -> 0 <= acc -> decimal acc s = Some v -> v <= hi -> parse_digits 1 lo hi acc s = Some v.
Proof.
  intros Hlo. revert acc. induction s as [|a s IH]; intros acc Hacc; [done|]. cbn [decimal parse_digits].
  destruct (digit_of a) as [d|] eqn:Hd; simpl; [|done]. intros Hv Hle. apply digit_of_range in Hd.
  replace (acc * 10 + 1 * d) with (acc * 10 + d) by lia.
  assert (acc * 10 + d <= v) as Hlow.
  { apply decimal_bounds in Hv; [|lia]. pose proof (Z.pow_pos_nonneg 10 (Z.of_nat (str_len s))). nia. }
  rewrite decide_True by lia. apply IH; [lia|done|done].
Qed.

Lemma parse_digits_inv lo hi acc s v : parse_digits 1 lo hi acc s = Some v -> decimal acc s = Some v.
Proof.
  revert acc. induction s as [|a s IH]; intros acc; [done|]. cbn [decimal parse_digits].
  destruct (digit_of a) as [d|]; simpl; [|done]. case_decide; [|done].
  replace (acc * 10 + 1 * d) with (acc * 10 + d) by lia. apply IH.
Qed.

(** Beyond the bound of the type, [parse_digits] fails. *)
Lemma parse_digits_overflow lo hi acc s v :
  acc <= hi -> decimal acc s = Some v -> hi < v -> parse_digits 1 lo hi acc s = None.
Proof.
  revert acc. induction s as [|a s IH]; intros acc Hacc; [simpl; intros [= <-]; lia|].
  cbn [decimal parse_digits]. destruct (digit_of a) as [d|]; simpl; [|done].
  replace (acc * 10 + 1 * d) with (acc * 10 + d) by lia. case_decide; [|done]. intros. apply IH; [lia|done|done].
Qed.

(** ** Lemmas on iterators *)
Lemma take_while_all {A} (p : A -> bool) l : forallb p (take_while p l) = true.
Proof. induction l as [|x l IH]; simpl; [done|]. destruct (p x) eqn:E; simpl; by rewrite ?E, ?IH. Qed.

Lemma take_while_prefix {A} (p : A -> bool) l : take_while p l `prefix_of` l.
Proof.
  induction l as [|x l IH]; simpl; [done|]. destruct (p x); [by apply prefix_cons|apply prefix_nil].
Qed.

Lemma find_map_Some {A B} (f : A -> option B) l y :
  find_map f l = Some y <-> exists l1 x l2, l = l1 ++ x :: l2 /\ f x = Some y /\ Forall (fun z => f z = None) l1.
Proof.
  induction l as [|x l IH]; simpl.
  - split; [done|]. intros (l1 & ? & ? & ? & _). by destruct l1.
  - destruct (f x) as [y'|] eqn:E.
    + split.
      * intros [= ->]. by exists [], x, l.
      * intros (l1 & z & l2 & Heq & Hz & Hl1). destruct l1 as [|w l1]; simplify_eq/=; [done|].
        inversion Hl1; simplify_eq.
    + rewrite IH. split.
      * intros (l1 & z & l2 & -> & Hz & Hl1). exists (x :: l1), z, l2. by repeat constructor.
      * intros (l1 & z & l2 & Heq & Hz & Hl1). destruct l1 as [|w l1]; simplify_eq/=.
        inversion Hl1; simplify_eq. by exists l1, z, l2.
Qed.

Lemma find_map_None {A B} (f : A -> option B) l : find_map f l = None <-> Forall (fun z => f z = None) l.
Proof.
  induction l as [|x l IH]; simpl; [by split; [constructor|]|].
  rewrite Forall_cons, <-IH. destruct (f x); naive_solver.
Qed.

Lemma iter_find_find_map {A} (p : A -> bool) l :
  iter_find p l = find_map (fun x => if p x then Some x else None) l.
Proof. induction l as [|x l IH]; simpl; [done|]. by destruct (p x). Qed.

Lemma iter_find_Some {A} (p : A -> bool) l x :
  iter_find p l = Some x <-> exists l1 l2, l = l1 ++ x :: l2 /\ p x = true /\ Forall (fun z => p z = false) l1.
Proof.
  rewrite iter_find_find_map, find_map_Some. split.
  - intros (l1 & y & l2 & -> & Hy & Hl1). destruct (p y) eqn:E; simplify_eq. exists l1, l2.
    split_and!; [done..|]. eapply Forall_impl; [done|]. intros z Hz. simpl in Hz. by destruct (p z).
  - intros (l1 & l2 & -> & Hx & Hl1). exists l1, x, l2. rewrite Hx. split_and!; [done..|].
    eapply Forall_impl; [done|]. intros z Hz. by rewrite Hz.
Qed.

Lemma iter_find_None {A} (p : A -> bool) l : iter_find p l = None <-> Forall (fun z => p z = false) l.
Proof.
  rewrite iter_find_find_map, find_map_None. rewrite !Forall_forall.
  split; intros H x Hx; specialize (H x Hx); by destruct (p x).
Qed.

Lemma position_Some {A} (p : A -> bool) l i :
  position p l = Some i -> exists x, l !! i = Some x /\ p x = true /\ Forall (fun z => p z = false) (take i l).
Proof.
  revert i. induction l as [|x l IH]; intros i; simpl; [done|]. destruct (p x) eqn:E.
  - intros [= <-]. simpl. eauto.
  - rewrite fmap_Some. intros (j & Hj & ->). destruct (IH _ Hj) as (y & ? & ? & ?).
    exists y. simpl. eauto.
Qed.

Lemma position_None {A} (p : A -> bool) l : position p l = None <-> Forall (fun z => p z = false) l.
Proof.
  induction l as [|x l IH]; simpl; [by split; [constructor|]|].
  rewrite Forall_cons, <-IH. destruct (p x); rewrite ?fmap_None; naive_solver.
Qed.

(** On a reversed list, [max_by_key] gives the first of the largest elements. *)
Lemma max_by_key_reverse {A} (key : A -> Z) l x :
  max_by_key key (reverse l) = Some x <->
  exists l1 l2, l = l1 ++ x :: l2 /\ Forall (fun y => key y < key x) l1 /\ Forall (fun y => key y <= key x) l2.
Proof.
  revert x. induction l as [|a l IH]; intros x.
  { split; [done|]. by intros ([|? ?] & ? & ? & _). }
  unfold max_by_key in *. rewrite reverse_cons, foldl_app. simpl.
  destruct (foldl _ None (reverse l)) as [y|] eqn:E.
  - destruct (proj1 (IH y) eq_refl) as (l1 & l2 & -> & H1 & H2).
    assert (Forall (fun z => key z <= key y) (l1 ++ y :: l2)) as Hall.
    { apply Forall_app. split; [eapply Forall_impl; [done|]; simpl; lia|]. by constructor. }
    destruct (decide (key y <= key a)) as [Hle|Hgt].
    + split; [intros [= <-]|].
      * exists [], (l1 ++ y :: l2). split_and!; [done|constructor|]. eapply Forall_impl; [done|]. simpl. lia.
      * intros (k1 & k2 & Heq & Hk1 & Hk2). destruct k1 as [|b k1]; injection Heq as -> Heq; [done|]. exfalso.
        apply Forall_cons in Hk1 as [Hb _]. rewrite Heq in Hall.
        apply Forall_app in Hall as [_ [? _]%Forall_cons]. lia.
    + split; [intros [= <-]|].
      * exists (a :: l1), l2. split_and!; [done|constructor; [lia|done]|done].
      * intros (k1 & k2 & Heq & Hk1 & Hk2). destruct k1 as [|b k1]; injection Heq as -> Heq.
        -- exfalso. subst k2. apply Forall_app in Hk2 as [_ [? _]%Forall_cons]. lia.
        -- apply IH. apply Forall_cons in Hk1 as [_ Hk1]. by exists k1, k2.
  - assert (l = []) as ->.
    { destruct l as [|b l]; [done|]. rewrite reverse_cons, foldl_app in E. simpl in E. by repeat case_match. }
    simpl. split; [intros [= <-]; by exists [], []|].
    intros ([|? [|? ?]] & ? & ? & _); by simplify_eq/=.
Qed.

Lemma sort_by_key_perm {A} (key : A -> Z) l : sort_by_key key l ≡ₚ l.
Proof. apply merge_sort_Permutation. Qed.

Lemma sort_by_key_sorted {A} (key : A -> Z) l :
  StronglySorted (key_le key) (sort_by_key key l).
Proof.
  apply StronglySorted_merge_sort; unfold key_le.
  - intros x y z ??. lia.
  - intros x y. lia.
Qed.

Lemma collect_map_snoc {V} (l : list (string * V)) k v :
  collect_map (l ++ [(k, v)]) = <[k := v]> (collect_map l).
Proof. unfold collect_map. by rewrite foldl_app. Qed.

(** The last pair with a key decides its value. *)
Lemma collect_map_lookup {V} (l : list (string * V)) k v :
  collect_map l !! k = Some v <->
  exists l1 l2, l = l1 ++ (k, v) :: l2 /\ Forall (fun kv => kv.1 <> k) l2.
Proof.
  induction l as [|[k' v'] l IH] using rev_ind.
  - split; [unfold collect_map; simpl; by rewrite lookup_empty|]. intros (l1 & l2 & ? & _). by destruct l1.
  - rewrite collect_map_snoc, lookup_insert_Some, IH. split.
    + intros [[-> ->]|[Hne (l1 & l2 & -> & Hl2)]].
      * exists l, []. by repeat constructor.
      * exists l1, (l2 ++ [(k', v')]). rewrite <-app_assoc. split; [done|].
        apply Forall_app. by repeat constructor.
    + intros (l1 & l2 & Heq & Hl2). destruct l2 as [|[k'' v''] l2 _] using rev_ind.
      * apply app_inj_tail in Heq as [_ ?]. naive_solver.
      * rewrite app_comm_cons, app_assoc in Heq. apply app_inj_tail in Heq as [-> ?]; simplify_eq.
        apply Forall_app in Hl2 as [? Hk]. rewrite Forall_singleton in Hk. simpl in Hk. right. split; [done|]. by exists l1, l2.
Qed.
