(* ===== verification/Net.v ===== *)
(** * Text of network addresses: [Display] of [std::net::IpAddr]

    As in the standard library of the toolchain the repository builds with (Rust 1.50): an
    IPv6 address is printed with its longest run of zero segments compressed, and the
    addresses that embed an IPv4 address with that address in dotted form. *)
From S2P Require Import Prelude RustStd.
From stdpp Require Import pretty.

Local Open Scope Z_scope.

(** Printable ASCII, the characters of which [to_str] is documented to accept. *)
Definition visible_ascii (a : ascii) : bool :=
  let n := N_of_ascii a in ((32 <=? n) && (n <=? 126))%N.

Fixpoint str_forallb (p : ascii -> bool) (s : string) : bool :=
  match s with EmptyString => true | String a s' => p a && str_forallb p s' end.

Lemma str_forallb_app p s t : str_forallb p (s +:+ t) = str_forallb p s && str_forallb p t.
Proof. induction s as [|a s IH]; simpl; [done|]. by rewrite IH, andb_assoc. Qed.

(** ** IPv4 *)

(** The octets, most significant first. *)
Definition octets (bits : Z) : list Z :=
  (fun i => Z.land (Z.shiftr bits (8 * i)) 255) <$> [3; 2; 1; 0].

Fixpoint str_join (sep : string) (l : list string) : string :=
  match l with [] => "" | [s] => s | s :: l => s +:+ sep +:+ str_join sep l end.

Definition ipv4_to_string (bits : Z) : string := str_join "." (pretty <$> octets bits).

(** ** IPv6 *)
Definition segments (bits : Z) : list Z :=
  (fun i => Z.land (Z.shiftr bits (16 * i)) 65535) <$> [7; 6; 5; 4; 3; 2; 1; 0].

Definition hex_digit (d : Z) : ascii :=
  match String.get (Z.to_nat d) "0123456789abcdef" with Some a => a | None => "0"%char end.

(** [{:x}] of a [u16]: no leading zeros. *)
Definition hex_u16 (z : Z) : string :=
  let digit i := hex_digit (Z.land (Z.shiftr z (4 * i)) 15) in
  if z <? 16 then String (digit 0) ""
  else if z <? 256 then String (digit 1) (String (digit 0) "")
  else if z <? 4096 then String (digit 2) (String (digit 1) (String (digit 0) ""))
  else String (digit 3) (String (digit 2) (String (digit 1) (String (digit 0) ""))).

Definition fmt_subslice (chunk : list Z) : string := str_join ":" (hex_u16 <$> chunk).

(** The first longest run of zero segments, as start and length. *)
Definition longest_zeroes (segs : list Z) : nat * nat :=
  (foldl (fun acc iz =>
     let '(longest, current) := acc in
     if decide (iz.2 = 0) then
       let current := if decide (current.2 = 0%nat) then (iz.1, 1%nat) else (current.1, S current.2) in
       (if decide (longest.2 < current.2)%nat then current else longest, current)
     else (longest, (0, 0)%nat)) ((0, 0), (0, 0))%nat (imap pair segs)).1.

(** [Ipv6Addr::to_ipv4]: the bits of an IPv4-compatible or IPv4-mapped address. *)
Definition to_ipv4 (segs : list Z) : option Z :=
  if decide (take 5 segs = [0; 0; 0; 0; 0]) then
    match drop 5 segs with
    | [m; ab; cd] => if decide (m = 0 \/ m = 65535) then Some (ab * 65536 + cd) else None
    | _ => None
    end
  else None.

Definition ipv6_to_string (bits : Z) : string :=
  let segs := segments bits in
  if decide (bits = 0) then "::"
  else if decide (bits = 1) then "::1"
  else match to_ipv4 segs with
       | Some ipv4 => (if decide (nth 5 segs 0 = 0) then "::" else "::ffff:") +:+ ipv4_to_string ipv4
       | None =>
           let '(start, len) := longest_zeroes segs in
           if decide (1 < len)%nat then
             fmt_subslice (take start segs) +:+ "::" +:+ fmt_subslice (drop (start + len) segs)
           else fmt_subslice segs
       end.

Definition ip_to_string (ip : IpAddr) : string :=
  match ip with V4 bits => ipv4_to_string bits | V6 bits => ipv6_to_string bits end.

(** ** The text is printable ASCII *)
Lemma str_join_visible sep l :
  str_forallb visible_ascii sep = true -> Forall (fun s => str_forallb visible_ascii s = true) l ->
  str_forallb visible_ascii (str_join sep l) = true.
Proof.
  intros Hsep. induction 1 as [|s l Hs Hl IH]; [done|]. destruct l as [|s' l]; [done|].
  change (str_join sep (s :: s' :: l)) with (s +:+ sep +:+ str_join sep (s' :: l)).
  by rewrite !str_forallb_app, Hs, Hsep, IH.
Qed.

Lemma octet_visible z : 0 <= z <= 255 -> str_forallb visible_ascii (pretty z) = true.
Proof.
  assert (forallb (fun n => str_forallb visible_ascii (pretty (Z.of_nat n))) (seq 0 256) = true) as Hall
    by (vm_compute; reflexivity).
  intros Hz. rewrite forallb_forall in Hall. specialize (Hall (Z.to_nat z)). rewrite Z2Nat.id in Hall by lia.
  apply Hall, list_elem_of_In, elem_of_seq. lia.
Qed.

Lemma str_forallb_get p s n a : str_forallb p s = true -> String.get n s = Some a -> p a = true.
Proof.
  revert n. induction s as [|b s IH]; intros [|n]; simpl; try done; intros [Hb Hs]%andb_prop; [by intros [= <-]|].
  by apply IH.
Qed.

Lemma hex_digit_visible d : visible_ascii (hex_digit d) = true.
Proof.
  unfold hex_digit. destruct (String.get _ _) as [a|] eqn:E; [|done].
  by apply (str_forallb_get visible_ascii "0123456789abcdef" (Z.to_nat d)).
Qed.

Lemma fmt_subslice_visible chunk : str_forallb visible_ascii (fmt_subslice chunk) = true.
Proof.
  apply str_join_visible; [done|]. apply Forall_fmap, Forall_true. intros z. simpl. unfold hex_u16.
  repeat case_match; cbn [str_forallb]; by rewrite !hex_digit_visible.
Qed.

Lemma ipv4_visible bits : str_forallb visible_ascii (ipv4_to_string bits) = true.
Proof.
  apply str_join_visible; [done|]. unfold octets. rewrite <-list_fmap_compose. apply Forall_fmap, Forall_true.
  intros i. apply octet_visible. rewrite (Z.land_ones _ 8) by lia.
  pose proof (Z.mod_pos_bound (Z.shiftr bits (8 * i)) (2 ^ 8)). lia.
Qed.

Lemma ip_to_string_visible ip : str_forallb visible_ascii (ip_to_string ip) = true.
Proof.
  destruct ip as [bits|bits]; cbn [ip_to_string]; [apply ipv4_visible|]. unfold ipv6_to_string. generalize (segments bits). intros segs.
  destruct (decide (bits = 0)); [done|]. destruct (decide (bits = 1)); [done|]. destruct (to_ipv4 segs) as [ipv4|].
  - rewrite str_forallb_app, ipv4_visible. by destruct (decide (nth 5 segs 0 = 0)).
  - destruct (longest_zeroes segs) as [start len]. destruct (decide (1 < len)%nat); [|apply fmt_subslice_visible].
    by rewrite !str_forallb_app, !fmt_subslice_visible.
Qed.

Example display_localhost : ip_to_string (V4 2130706433) = "127.0.0.1".
Proof. reflexivity. Qed.

(** 2001:db8::1:0:0:1 has two runs of zeroes; the longer one is compressed. *)
Example display_v6 : ip_to_string (V6 (8193 * 2 ^ 112 + 3512 * 2 ^ 96 + 2 ^ 48 + 1)) = "2001:db8::1:0:0:1".
Proof. vm_compute. reflexivity. Qed.

Example display_mapped : ip_to_string (V6 (65535 * 2 ^ 32 + 2130706433)) = "::ffff:127.0.0.1".
Proof. vm_compute. reflexivity. Qed.
