(* ===== verification/Http.v ===== *)
(** * The interface of the [http] and [hyper] crates, and [error_response.rs]

    The crates are not part of the repository.  What the program uses of them is
    the class [Http]: types and operations with no definition here.  What the
    program relies on is the class [HttpLaws]: documented facts about those
    operations.  [HttpModel] is a concrete implementation that satisfies them. *)
From S2P Require Export Net.
From S2P Require Import Prelude RustStd.

Local Open Scope Z_scope.

(** ** The crates' types and operations *)
Class Http := {
  (** [http::Method], [http::Version], [hyper::Body] *)
  Method : Type;
  Method_eq_dec :: EqDecision Method;
  Method_from_str : string -> option Method;
  Method_default : Method;
  Version : Type;
  Version_default : Version;
  Body : Type;
  Body_empty : Body;
  Body_from : string -> Body;
  (** [http::HeaderMap], keyed by lower-case header names; a header value is
      its bytes *)
  HeaderMap : Type;
  headers_new : HeaderMap;
  headers_get_all : HeaderMap -> string -> list string;
  headers_get : HeaderMap -> string -> option string;
  headers_contains_key : HeaderMap -> string -> bool;
  headers_insert : string -> string -> HeaderMap -> HeaderMap;
  headers_append : string -> string -> HeaderMap -> HeaderMap;
  headers_remove : string -> HeaderMap -> HeaderMap;
  headers_iter : HeaderMap -> list (string * string);
  (** [HeaderValue::to_str], [HeaderValue::from_str] *)
  hv_to_str : string -> option string;
  hv_from_str : string -> option string;
  (** [http::Uri] *)
  Authority : Type;
  Authority_from_str : string -> option Authority;
  Authority_to_string : Authority -> string;
  PathAndQuery : Type;
  PathAndQuery_from_str : string -> option PathAndQuery;
  PathAndQuery_to_string : PathAndQuery -> string;
  Uri : Type;
  Uri_build : string -> Authority -> PathAndQuery -> option Uri;
  uri_scheme : Uri -> option string;
  uri_authority : Uri -> option Authority;
  uri_path_and_query : Uri -> option PathAndQuery;
  uri_path : Uri -> string;
  uri_query : Uri -> option string;
  uri_to_string : Uri -> string;
  Uri_default : Uri;
  (** [StatusCode::canonical_reason] *)
  canonical_reason : Z -> option string;
}.

(** ** What the program relies on *)
Class HttpLaws `{Http} : Prop := {
  headers_get_all_new k : headers_get_all headers_new k = [];
  headers_get_spec m k : headers_get m k = head (headers_get_all m k);
  headers_contains_key_spec m k :
    headers_contains_key m k = bool_decide (headers_get_all m k <> []);
  headers_get_all_insert m k k' v :
    headers_get_all (headers_insert k v m) k' =
    if decide (k = k') then [v] else headers_get_all m k';
  headers_get_all_append m k k' v :
    headers_get_all (headers_append k v m) k' =
    if decide (k = k') then headers_get_all m k' ++ [v] else headers_get_all m k';
  headers_get_all_remove m k k' :
    headers_get_all (headers_remove k m) k' =
    if decide (k = k') then [] else headers_get_all m k';
  (** [iter] yields every pair, the values of one name in their order *)
  headers_iter_spec m k :
    (filter (fun kv => kv.1 = k) (headers_iter m)).*2 = headers_get_all m k;
  hv_to_str_sound v s : hv_to_str v = Some s -> s = v;
  hv_to_str_visible v : str_forallb visible_ascii v = true -> hv_to_str v = Some v;
  hv_from_str_sound s v : hv_from_str s = Some v -> v = s;
  hv_from_str_visible s : str_forallb visible_ascii s = true -> hv_from_str s = Some s;
  (** text that [to_str] accepts is a header value again *)
  hv_to_from_str v s : hv_to_str v = Some s -> hv_from_str s = Some s;
  (** validity is a property of each byte *)
  hv_from_str_app s t :
    is_Some (hv_from_str s) -> is_Some (hv_from_str t) -> is_Some (hv_from_str (s +:+ t));
  Authority_from_str_sound s a : Authority_from_str s = Some a -> Authority_to_string a = s;
  Uri_build_parts sch a p u :
    Uri_build sch a p = Some u ->
    uri_scheme u = Some sch /\ uri_authority u = Some a /\ uri_path_and_query u = Some p;
  Uri_build_http a p : is_Some (Uri_build "http" a p);
  Uri_build_https a p : is_Some (Uri_build "https" a p);
  (** the [Display] text of a URI with a scheme and an authority *)
  uri_to_string_full u sch a p :
    uri_scheme u = Some sch -> uri_authority u = Some a -> uri_path_and_query u = Some p ->
    uri_to_string u = sch +:+ "://" +:+ Authority_to_string a +:+ PathAndQuery_to_string p;
}.

(** ** Messages *)
Record Request `{Http} := mk_request {
  req_method : Method;
  req_uri : Uri;
  req_version : Version;
  req_headers : HeaderMap;
  req_body : Body;
}.

Record Response `{Http} := mk_response {
  resp_status : Z;
  resp_headers : HeaderMap;
  resp_body : Body;
}.

(** ** [server::Scheme] *)
Inductive Scheme : Type := HTTP | HTTPS.

#[export] Instance Scheme_eq_dec : EqDecision Scheme.
Proof. solve_decision. Defined.

(** [impl Display for Scheme] *)
Definition scheme_to_string (s : Scheme) : string :=
  match s with HTTP => "http" | HTTPS => "https" end.

(** ** [error_response.rs] *)
Section ErrorResponse.
Context `{Http}.

Definition respond (status : Z) (b : Body) : Response := mk_response _ status headers_new b.

Definition not_found : Response := respond 404 (Body_from "404 - page not found").
Definition bad_gateway : Response := respond 502 Body_empty.
Definition bad_request (message : string) : Response := respond 400 (Body_from message).
Definition internal_server_error : Response := respond 500 Body_empty.
Definition request_entity_to_large : Response := respond 413 Body_empty.
Definition too_many_requests : Response := respond 429 (Body_from "429 - Too Many Requests").

(** The two [handle_] functions log the error and answer with a fixed response. *)
Definition handle_bad_gateway {E} (error : E) : Response := bad_gateway.
Definition handle_internal_server_error {E} (error : E) : Response := internal_server_error.

End ErrorResponse.

(** ** [utils.rs] *)

(** [split_once]: the text before and after the first occurrence. *)
Definition split_once (s : string) (pattern : ascii) : option (string * string) :=
  match str_splitn2 pattern s with
  | first :: second :: _ => Some (first, second)
  | _ => None
  end.

Definition unwrap_result {T} (r : result T T) : T :=
  match r with Ok t => t | Err t => t end.

Lemma str_forallb_impl (p q : ascii -> bool) s :
  (forall a, p a = true -> q a = true) -> str_forallb p s = true -> str_forallb q s = true.
Proof. intros H. induction s; simpl; [done|]. intros [? ?]%andb_prop. rewrite H; auto. Qed.

(** ** Derived facts *)
Section HttpFacts.
Context `{HL : HttpLaws}.

Lemma headers_get_new k : headers_get headers_new k = None.
Proof. by rewrite headers_get_spec, headers_get_all_new. Qed.

Lemma headers_get_append m k k' v :
  headers_get (headers_append k v m) k' =
  if decide (k = k') then Some (default v (headers_get m k)) else headers_get m k'.
Proof.
  rewrite !headers_get_spec, headers_get_all_append. case_decide; [subst|done].
  by destruct (headers_get_all m k').
Qed.

(** Copying the pairs of [iter] with [append] rebuilds the map. *)
Lemma headers_copy_get_all m m0 k :
  headers_get_all (foldl (fun acc kv => headers_append kv.1 kv.2 acc) m0 (headers_iter m)) k =
  headers_get_all m0 k ++ headers_get_all m k.
Proof.
  rewrite <-(headers_iter_spec m k). generalize (headers_iter m). intros l. revert m0.
  induction l as [|[k' v] l IH]; intros m0; simpl; [by rewrite app_nil_r|].
  rewrite IH, headers_get_all_append, filter_cons. simpl.
  destruct (decide (k' = k)); simpl; [by rewrite <-app_assoc|done].
Qed.

End HttpFacts.

(** Before and after the separator, and nothing is lost. *)
Lemma split_once_Some s c a b :
  split_once s c = Some (a, b) <->
  s = a +:+ String c b /\ str_forallb (fun x => negb (bool_decide (x = c))) a = true.
Proof.
  unfold split_once. revert a. induction s as [|x s IH]; intros a; simpl.
  - split; [done|]. intros [Heq _]. by destruct a.
  - case_decide as Hx; subst.
    + split; [by intros [= <- <-]|]. destruct a as [|y a]; simpl; [by intros [[= ->] _]|].
      intros [[= <- ->] Hf]. by rewrite bool_decide_eq_true_2 in Hf.
    + destruct (str_splitn2 c s) as [|p [|q ps]] eqn:E.
      * by destruct (str_splitn2_ne c s).
      * split; [done|]. destruct a as [|y a]; simpl; intros [Heq Hf]; simplify_eq.
        apply andb_prop in Hf as [_ Hf]. destruct (IH a) as [_ Ha].
        by specialize (Ha (conj eq_refl Hf)).
      * split.
        -- intros [= <- <-]. destruct (IH p) as [[-> Hp] _]; [done|]. split; [done|].
           simpl. by rewrite bool_decide_eq_false_2, Hp.
        -- destruct a as [|y a]; simpl; intros [Heq Hf]; simplify_eq.
           apply andb_prop in Hf as [_ Hf]. destruct (IH a) as [_ Ha].
           specialize (Ha (conj eq_refl Hf)). by simplify_eq.
Qed.
