(* ===== verification/HttpModel.v ===== *)
(** * A concrete implementation of the [Http] interface

    It shows that [HttpLaws] can be satisfied, and lets the definitions of the
    other files be evaluated on concrete requests.  Headers are an association
    list, URIs are their parts, bodies are strings.  Nothing here models code of
    the repository. *)
From S2P Require Import Prelude RustStd Http.

Local Open Scope Z_scope.

Record uri := mk_uri { u_scheme : option string; u_authority : option string; u_pq : option string }.

Definition m_uri_path (u : uri) : string :=
  match u_pq u with
  | None => ""
  | Some pq => default pq (fst <$> split_once pq "?"%char)
  end.

Definition m_uri_query (u : uri) : option string :=
  pq ← u_pq u; snd <$> split_once pq "?"%char.

Definition m_uri_to_string (u : uri) : string :=
  match u_scheme u, u_authority u with
  | Some s, Some a => s +:+ "://" +:+ a +:+ default "" (u_pq u)
  | _, _ => default "" (u_authority u) +:+ default "" (u_pq u)
  end.

Definition m_nonempty (s : string) : option string :=
  match s with EmptyString => None | _ => Some s end.

Definition m_visible (s : string) : option string :=
  if str_forallb visible_ascii s then Some s else None.

Definition m_get_all (m : list (string * string)) (k : string) : list string :=
  (filter (fun kv => kv.1 = k) m).*2.

Definition m_remove (k : string) (m : list (string * string)) : list (string * string) :=
  filter (fun kv => kv.1 <> k) m.

Definition m_reason (z : Z) : option string :=
  if decide (z = 404) then Some "Not Found"
  else if decide (z = 500) then Some "Internal Server Error" else None.

Definition http_model : Http := {|
  Method := string;
  Method_from_str := m_nonempty;
  Method_default := "GET";
  Version := Z;
  Version_default := 11;
  Body := string;
  Body_empty := "";
  Body_from := id;
  HeaderMap := list (string * string);
  headers_new := [];
  headers_get_all := m_get_all;
  headers_get m k := head (m_get_all m k);
  headers_contains_key m k := bool_decide (m_get_all m k <> []);
  headers_insert k v m := m_remove k m ++ [(k, v)];
  headers_append k v m := m ++ [(k, v)];
  headers_remove := m_remove;
  headers_iter := id;
  hv_to_str := m_visible;
  hv_from_str := m_visible;
  Authority := string;
  Authority_from_str := m_nonempty;
  Authority_to_string := id;
  PathAndQuery := string;
  PathAndQuery_from_str := Some;
  PathAndQuery_to_string := id;
  Uri := uri;
  Uri_build s a p := Some (mk_uri (Some s) (Some a) (Some p));
  uri_scheme := u_scheme;
  uri_authority := u_authority;
  uri_path_and_query := u_pq;
  uri_path := m_uri_path;
  uri_query := m_uri_query;
  uri_to_string := m_uri_to_string;
  Uri_default := mk_uri None None (Some "/");
  canonical_reason := m_reason;
|}.

#[local] Existing Instance http_model.

Lemma m_get_all_app m m' k : m_get_all (m ++ m') k = m_get_all m k ++ m_get_all m' k.
Proof. unfold m_get_all. by rewrite filter_app, fmap_app. Qed.

Lemma m_get_all_one k k' v : m_get_all [(k, v)] k' = if decide (k = k') then [v] else [].
Proof.
  unfold m_get_all. rewrite filter_cons. simpl. by repeat case_decide.
Qed.

Lemma m_get_all_remove m k k' :
  m_get_all (m_remove k m) k' = if decide (k = k') then [] else m_get_all m k'.
Proof.
  unfold m_get_all, m_remove. rewrite list_filter_filter. case_decide as Hk.
  - subst. induction m as [|x m IH]; [done|]. rewrite filter_cons. case_decide; [naive_solver|done].
  - f_equal. apply list_filter_iff. intros [a b]; simpl. naive_solver.
Qed.

Lemma http_model_laws : HttpLaws.
Proof.
  split; simpl; try done.
  - intros. rewrite m_get_all_app, m_get_all_one, m_get_all_remove. case_decide; by rewrite ?app_nil_r.
  - intros. rewrite m_get_all_app, m_get_all_one. case_decide; [done|by rewrite app_nil_r].
  - apply m_get_all_remove.
  - intros v s. unfold m_visible. by case_match; intros; simplify_eq.
  - intros v Hv. unfold m_visible. by rewrite Hv.
  - intros v s. unfold m_visible. by case_match; intros; simplify_eq.
  - intros v Hv. unfold m_visible. by rewrite Hv.
  - intros v s. unfold m_visible. case_match eqn:E; [|done]. intros [= <-]. by rewrite E.
  - intros s t. unfold m_visible. rewrite str_forallb_app.
    destruct (str_forallb _ s), (str_forallb _ t); simpl; intros [? ?] [? ?]; simplify_eq; eauto.
  - intros s a. unfold m_nonempty. by case_match; intros; simplify_eq.
  - intros sch a p u [= <-]. done.
  - intros u sch a p Hs Ha Hp. unfold m_uri_to_string. by rewrite Hs, Ha, Hp.
Qed.

(** A request for [http://host + path_and_query] with the given headers. *)
Definition sample_request (method : string) (pq : option string) (hs : list (string * string)) : Request :=
  mk_request _ method (mk_uri None None pq) 11 hs "".

Definition sample_response (status : Z) (hs : list (string * string)) (b : string) : Response :=
  mk_response _ status hs b.
