(* ===== verification/Pom.v ===== *)
(** * The interface of the [pom] parser-combinator crate

    The crate is not part of the repository: [Pom] lists the combinators that
    [backend_pool_matcher.rs] uses and [PomLaws] their documented meaning, as the
    effect of a parser on the remaining input.  [pom_model] is a concrete
    implementation. *)
From S2P Require Import Prelude RustStd.

Class Pom := {
  Parser : Type -> Type;
  (** apply a parser to the input: its value and the input it leaves *)
  parse_at : forall {A}, Parser A -> list ascii -> option (A * list ascii);
  sym : ascii -> Parser ascii;
  one_of : list ascii -> Parser ascii;
  none_of : list ascii -> Parser ascii;
  tag : list ascii -> Parser (list ascii);
  p_end : Parser unit;
  (** [p * q], [p - q], [p + q], [p | q] *)
  p_right : forall {A B}, Parser A -> Parser B -> Parser B;
  p_left : forall {A B}, Parser A -> Parser B -> Parser A;
  p_both : forall {A B}, Parser A -> Parser B -> Parser (A * B);
  p_or : forall {A}, Parser A -> Parser A -> Parser A;
  p_map : forall {A B}, (A -> B) -> Parser A -> Parser B;
  p_convert : forall {A B}, (A -> option B) -> Parser A -> Parser B;
  p_discard : forall {A}, Parser A -> Parser unit;
  (** [p.repeat(n..)] *)
  p_repeat : forall {A}, nat -> Parser A -> Parser (list A);
  p_call : forall {A}, (unit -> Parser A) -> Parser A;
}.

Declare Scope pom_scope.
Delimit Scope pom_scope with pom.
Bind Scope pom_scope with Parser.
Notation "p * q" := (p_right p q) : pom_scope.
Notation "p - q" := (p_left p q) : pom_scope.
Notation "p + q" := (p_both p q) : pom_scope.
Notation "p <|> q" := (p_or p q) (at level 55, right associativity) : pom_scope.

(** [l] without the prefix [p]. *)
Fixpoint strip (p l : list ascii) : option (list ascii) :=
  match p, l with
  | [], _ => Some l
  | a :: p', b :: l' => if decide (a = b) then strip p' l' else None
  | _ :: _, [] => None
  end.

Lemma strip_Some t i k : strip t i = Some k <-> i = t ++ k.
Proof.
  revert i. induction t as [|a t IH]; intros i; simpl; [naive_solver|].
  destruct i as [|b i]; [naive_solver|]. case_decide; [subst; rewrite IH; naive_solver|naive_solver].
Qed.

Lemma strip_app t k : strip t (t ++ k) = Some k.
Proof. by apply strip_Some. Qed.

Lemma strip_one a i :
  strip [a] i = match i with b :: j => if decide (a = b) then Some j else None | [] => None end.
Proof. by destruct i as [|b [|c j]]; simpl; try case_decide. Qed.

#[global] Arguments strip : simpl never.

Class PomLaws `{Pom} : Prop := {
  parse_sym a i :
    parse_at (sym a) i =
    match i with b :: j => if decide (a = b) then Some (b, j) else None | [] => None end;
  parse_one_of s i :
    parse_at (one_of s) i =
    match i with b :: j => if decide (b ∈ s) then Some (b, j) else None | [] => None end;
  parse_none_of s i :
    parse_at (none_of s) i =
    match i with b :: j => if decide (b ∈ s) then None else Some (b, j) | [] => None end;
  parse_tag t i : parse_at (tag t) i = (j ← strip t i; Some (t, j));
  parse_end i : parse_at p_end i = match i with [] => Some (tt, []) | _ => None end;
  parse_right {A B} (p : Parser A) (q : Parser B) i :
    parse_at (p * q)%pom i = ('(_, j) ← parse_at p i; parse_at q j);
  parse_left {A B} (p : Parser A) (q : Parser B) i :
    parse_at (p - q)%pom i = ('(a, j) ← parse_at p i; '(_, k) ← parse_at q j; Some (a, k));
  parse_both {A B} (p : Parser A) (q : Parser B) i :
    parse_at (p + q)%pom i = ('(a, j) ← parse_at p i; '(b, k) ← parse_at q j; Some ((a, b), k));
  parse_or {A} (p q : Parser A) i :
    parse_at (p <|> q)%pom i =
    match parse_at p i with Some r => Some r | None => parse_at q i end;
  parse_map {A B} (f : A -> B) (p : Parser A) i :
    parse_at (p_map f p) i = ('(a, j) ← parse_at p i; Some (f a, j));
  parse_convert {A B} (f : A -> option B) (p : Parser A) i :
    parse_at (p_convert f p) i = ('(a, j) ← parse_at p i; b ← f a; Some (b, j));
  parse_discard {A} (p : Parser A) i :
    parse_at (p_discard p) i = ('(_, j) ← parse_at p i; Some (tt, j));
  parse_call {A} (f : unit -> Parser A) i : parse_at (p_call f) i = parse_at (f tt) i;
  (** greedy repetition of a parser that consumes input *)
  parse_repeat_stop {A} (p : Parser A) i :
    parse_at p i = None -> parse_at (p_repeat 0 p) i = Some ([], i);
  parse_repeat_step {A} (p : Parser A) i a j :
    parse_at p i = Some (a, j) -> length j < length i ->
    parse_at (p_repeat 0 p) i = ('(l, k) ← parse_at (p_repeat 0 p) j; Some (a :: l, k));
  parse_repeat_min {A} n (p : Parser A) i :
    parse_at (p_repeat n p) i =
    ('(l, k) ← parse_at (p_repeat 0 p) i; if decide (n <= length l) then Some (l, k) else None);
}.

(** Symbolic execution of a parser by the laws. *)
Create Rewrite HintDb pom.
#[export] Hint Rewrite @parse_sym @parse_one_of @parse_none_of @parse_tag @parse_end @parse_right
  @parse_left @parse_both @parse_or @parse_map @parse_convert @parse_discard @parse_call
  using typeclasses eauto : pom.

Ltac run_parser := repeat (progress (autorewrite with pom; simpl)).

(** ** A concrete implementation *)
Definition PParser (A : Type) : Type := list ascii -> option (A * list ascii).

Fixpoint m_many {A} (fuel : nat) (p : PParser A) (i : list ascii) : option (list A * list ascii) :=
  match fuel with
  | O => Some ([], i)
  | S f =>
      match p i with
      | None => Some ([], i)
      | Some (a, j) =>
          if decide (length j < length i)
          then '(l, k) ← m_many f p j; Some (a :: l, k) else None
      end
  end.

Definition pom_model : Pom := {|
  Parser := PParser;
  parse_at A p i := p i;
  sym a i := match i with b :: j => if decide (a = b) then Some (b, j) else None | [] => None end;
  one_of s i := match i with b :: j => if decide (b ∈ s) then Some (b, j) else None | [] => None end;
  none_of s i := match i with b :: j => if decide (b ∈ s) then None else Some (b, j) | [] => None end;
  tag t i := j ← strip t i; Some (t, j);
  p_end i := match i with [] => Some (tt, []) | _ => None end;
  p_right A B p q i := '(_, j) ← p i; q j;
  p_left A B p q i := '(a, j) ← p i; '(_, k) ← q j; Some (a, k);
  p_both A B p q i := '(a, j) ← p i; '(b, k) ← q j; Some ((a, b), k);
  p_or A p q i := match p i with Some r => Some r | None => q i end;
  p_map A B f p i := '(a, j) ← p i; Some (f a, j);
  p_convert A B f p i := '(a, j) ← p i; b ← f a; Some (b, j);
  p_discard A p i := '(_, j) ← p i; Some (tt, j);
  p_repeat A n p i :=
    '(l, k) ← m_many (S (length i)) p i; if decide (n <= length l) then Some (l, k) else None;
  p_call A f := f tt;
|}.

Lemma m_many_fuel {A} (p : PParser A) n m i :
  length i < n -> length i < m -> m_many n p i = m_many m p i.
Proof.
  revert m i. induction n as [|n IH]; intros [|m] i Hn Hm; [lia..|]. simpl.
  destruct (p i) as [[a j]|]; [|done]. case_decide; [|done].
  by rewrite (IH m j) by lia.
Qed.

#[local] Existing Instance pom_model.

Lemma pom_model_laws : PomLaws.
Proof.
  split; simpl; try done.
  - intros A p i Hp. by rewrite Hp.
  - intros A p i a j Hp Hlt. rewrite Hp, decide_True by done.
    rewrite (m_many_fuel p (length i) (S (length j))) by lia.
    simpl. destruct (p j) as [[a' j']|]; simpl; [|done].
    destruct (decide _); simpl; [|done].
    by destruct (m_many _ _ _) as [[]|].
  - intros A n p i. destruct (p i) as [[a j]|]; simpl; [|done].
    destruct (decide (length j < length i)); simpl; [|done].
    by destruct (m_many _ _ _) as [[]|].
Qed.
