(* ===== verification/Matcher.v ===== *)
(** * Backend pool matchers: [backend_pool_matcher.rs]

    The matcher syntax tree, its parser (written with the combinators of the
    [pom] interface), and its evaluation on a request. *)
From S2P Require Import Prelude RustStd Http HttpModel Pom.

(** ** The [regex] and [url] crates *)
Class RegexCrate := {
  Regex : Type;
  Regex_new : string -> option Regex;
  regex_as_str : Regex -> string;
  regex_is_match : Regex -> string -> bool;
}.

Class UrlCrate := form_urlencoded_parse : string -> list (string * string).

(** [str.chars().collect()] *)
Definition chars (s : string) : list ascii := String.list_ascii_of_string s.
#[global] Arguments chars : simpl never.

(** ** The syntax tree *)
Section Matcher.
Context `{HT : Http} `{RX : RegexCrate} `{UC : UrlCrate}.

Inductive BackendPoolMatcher : Type :=
| Host (host : string)
| HostRegexp (regex : Regex)
| MethodM (method : Method)
| Path (path : string)
| PathRegexp (regex : Regex)
| Query (key value : string)
| And (left right : BackendPoolMatcher)
| Or (left right : BackendPoolMatcher).

(** [impl PartialEq for ComparableRegex]: regexes are compared by their text. *)
Definition comparable_regex_eq (r1 r2 : Regex) : bool :=
  bool_decide (regex_as_str r1 = regex_as_str r2).

(** [#[derive(PartialEq)]] of [BackendPoolMatcher]. *)
Fixpoint matcher_eq (m1 m2 : BackendPoolMatcher) : bool :=
  match m1, m2 with
  | Host h1, Host h2 => bool_decide (h1 = h2)
  | HostRegexp r1, HostRegexp r2 => comparable_regex_eq r1 r2
  | MethodM t1, MethodM t2 => bool_decide (t1 = t2)
  | Path p1, Path p2 => bool_decide (p1 = p2)
  | PathRegexp r1, PathRegexp r2 => comparable_regex_eq r1 r2
  | Query k1 v1, Query k2 v2 => bool_decide (k1 = k2) && bool_decide (v1 = v2)
  | And l1 r1, And l2 r2 => matcher_eq l1 l2 && matcher_eq r1 r2
  | Or l1 r1, Or l2 r2 => matcher_eq l1 l2 && matcher_eq r1 r2
  | _, _ => false
  end.

(** ** Evaluation: [BackendPoolMatcher::matches] *)
Fixpoint matches (m : BackendPoolMatcher) (request : Request) : bool :=
  match m with
  | Host host =>
      default false ((fun h => bool_decide (h = host)) <$> headers_get (req_headers request) "host")
  | HostRegexp host_regex =>
      default false (h ← headers_get (req_headers request) "host";
                     s ← hv_to_str h;
                     Some (regex_is_match host_regex s))
  | MethodM method => bool_decide (req_method request = method)
  | Path path => bool_decide (uri_path (req_uri request) = path)
  | PathRegexp path_regex => regex_is_match path_regex (uri_path (req_uri request))
  | Query key value =>
      let query_params :=
        default ∅ ((fun v => collect_map (form_urlencoded_parse v)) <$> uri_query (req_uri request)) in
      default false ((fun sent_value => bool_decide (sent_value = value)) <$> query_params !! key)
  | And l r => matches l request && matches r request
  | Or l r => matches l request || matches r request
  end.

(** ** The parser *)
Section Grammar.
Context `{PC : Pom}.
Local Open Scope pom_scope.

Definition quote : ascii := "'"%char.
Definition backslash : ascii := "\"%char.

(** [string]: a quoted string in which a quote is written [\'] and a backslash
    stands for itself otherwise. *)
Definition special_char : Parser ascii := (sym backslash * sym quote) <|> sym backslash.

Definition string_char : Parser ascii := none_of [backslash; quote] <|> special_char.

Definition char_string : Parser string := p_map String.string_of_list_ascii (p_repeat 1 string_char).

Definition string_literal : Parser string :=
  p_map (foldr String.append "") (sym quote * p_repeat 0 char_string - sym quote).

Definition host : Parser string := tag (chars "Host(") * string_literal - sym ")"%char.

Definition host_regexp : Parser Regex :=
  p_convert Regex_new (tag (chars "HostRegexp(") * string_literal - sym ")"%char).

Definition path : Parser string := tag (chars "Path(") * string_literal - sym ")"%char.

Definition path_regexp : Parser Regex :=
  p_convert Regex_new (tag (chars "PathRegexp(") * string_literal - sym ")"%char).

Definition method : Parser Method :=
  p_convert Method_from_str (tag (chars "Method(") * string_literal - sym ")"%char).

(** [" \t\r\n"] *)
Definition spaces : list ascii := [" "; "009"; "013"; "010"]%char.

Definition space : Parser unit := p_discard (p_repeat 0 (one_of spaces)).

Definition query : Parser (string * string) :=
  tag (chars "Query(") * string_literal - space - sym ","%char - space + string_literal - sym ")"%char.

(** [and], [or] and [chained_expression] over the parser that [call(value)]
    builds. *)
Definition and_ (v : Parser BackendPoolMatcher) : Parser (BackendPoolMatcher * BackendPoolMatcher) :=
  v - space - tag (chars "&&") - space + v.

Definition or_ (v : Parser BackendPoolMatcher) : Parser (BackendPoolMatcher * BackendPoolMatcher) :=
  v - space - tag (chars "||") - space + v.

Definition chained_expression (v : Parser BackendPoolMatcher) : Parser BackendPoolMatcher :=
  p_map (fun lr => And lr.1 lr.2) (and_ v) <|> p_map (fun lr => Or lr.1 lr.2) (or_ v).

(** [value], given the parser that its recursive calls [call(value)] reach. *)
Definition value_body (v : Parser BackendPoolMatcher) : Parser BackendPoolMatcher :=
  let call_value := p_call (fun _ => v) in
  p_map Host host
  <|> p_map HostRegexp host_regexp
  <|> p_map MethodM method
  <|> p_map Path path
  <|> p_map PathRegexp path_regexp
  <|> p_map (fun kv => Query kv.1 kv.2) query
  <|> (sym "("%char * space * (chained_expression call_value <|> call_value)
       - space - sym ")"%char).

(** A parser that accepts nothing: what remains of [value] without fuel. *)
Definition never {A} : Parser A := p_convert (fun _ => None) space.

(** [value] calls itself under each opening parenthesis; the fuel bounds the
    nesting, and with more fuel than characters the innermost call is never
    executed (theorem [value_terminates]). *)
Fixpoint value (fuel : nat) : Parser BackendPoolMatcher :=
  match fuel with
  | O => never
  | S f => value_body (value f)
  end.

Definition top_level_expression (fuel : nat) : Parser BackendPoolMatcher :=
  chained_expression (p_call (fun _ => value fuel)) <|> value fuel.

Definition parser (fuel : nat) : Parser BackendPoolMatcher :=
  space * top_level_expression fuel - p_end.

(** [impl From<String> for BackendPoolMatcher]: the parse is unwrapped. *)
Definition matcher_from_string (str : string) : outcome BackendPoolMatcher :=
  let cs := chars str in
  unwrap (fst <$> parse_at (parser (S (length cs))) cs).

End Grammar.
End Matcher.

(** ** The grammar the parser accepts, as a specification *)
Section GrammarSpec.
Context `{HT : Http} `{RX : RegexCrate} `{UC : UrlCrate}.

(** How a string is written between quotes. *)
Fixpoint escape (s : list ascii) : list ascii :=
  match s with
  | [] => []
  | c :: r => if decide (c = quote) then backslash :: quote :: escape r else c :: escape r
  end.

Definition ends_in_backslash (s : list ascii) : Prop := last s = Some backslash.

(** [t] is a literal for [s]; a string that ends in a backslash has none. *)
Definition literal_text (s : string) (t : list ascii) : Prop :=
  t = quote :: escape (chars s) ++ [quote] /\ ~ ends_in_backslash (chars s).

Definition blank (w : list ascii) : Prop := Forall (fun c => c ∈ spaces) w.

(** [Name('literal')] *)
Definition form_text (name : string) (s : string) (t : list ascii) : Prop :=
  exists u, literal_text s u /\ t = chars name ++ u ++ [")"%char].

(** [Query('key', 'value')] *)
Definition query_text (key value : string) (t : list ascii) : Prop :=
  exists tk tv w1 w2,
    literal_text key tk /\ literal_text value tv /\ blank w1 /\ blank w2 /\
    t = chars "Query(" ++ tk ++ w1 ++ [","%char] ++ w2 ++ tv ++ [")"%char].

Inductive value_text : BackendPoolMatcher -> list ascii -> Prop :=
| vt_host s t : form_text "Host(" s t -> value_text (Host s) t
| vt_host_regexp s r t :
    form_text "HostRegexp(" s t -> Regex_new s = Some r -> value_text (HostRegexp r) t
| vt_method s m t :
    form_text "Method(" s t -> Method_from_str s = Some m -> value_text (MethodM m) t
| vt_path s t : form_text "Path(" s t -> value_text (Path s) t
| vt_path_regexp s r t :
    form_text "PathRegexp(" s t -> Regex_new s = Some r -> value_text (PathRegexp r) t
| vt_query k v t : query_text k v t -> value_text (Query k v) t
| vt_paren m t w1 w2 :
    expression_text m t -> blank w1 -> blank w2 ->
    value_text m (["("%char] ++ w1 ++ t ++ w2 ++ [")"%char])
with expression_text : BackendPoolMatcher -> list ascii -> Prop :=
| et_value m t : value_text m t -> expression_text m t
| et_and l tl r tr w1 w2 :
    value_text l tl -> value_text r tr -> blank w1 -> blank w2 ->
    expression_text (And l r) (tl ++ w1 ++ chars "&&" ++ w2 ++ tr)
| et_or l tl r tr w1 w2 :
    value_text l tl -> value_text r tr -> blank w1 -> blank w2 ->
    expression_text (Or l r) (tl ++ w1 ++ chars "||" ++ w2 ++ tr).

End GrammarSpec.

Scheme value_text_mut := Minimality for value_text Sort Prop
with expression_text_mut := Minimality for expression_text Sort Prop.
Combined Scheme text_mutind from value_text_mut, expression_text_mut.

(** ** Lexical lemmas *)

(** What the greedy loop over string characters reads, and what it leaves. *)
Fixpoint scan (i : list ascii) : list ascii * list ascii :=
  match i with
  | [] => ([], [])
  | c :: r =>
      if decide (c = quote) then ([], i)
      else if decide (c = backslash) then
        match r with
        | d :: r' =>
            if decide (d = quote) then (quote :: (scan r').1, (scan r').2)
            else (backslash :: (scan r).1, (scan r).2)
        | [] => ([backslash], [])
        end
      else (c :: (scan r).1, (scan r).2)
  end.

Fixpoint drop_spaces (i : list ascii) : list ascii :=
  match i with
  | c :: r => if decide (c ∈ spaces) then drop_spaces r else i
  | [] => []
  end.

Lemma drop_spaces_split i : exists w, i = w ++ drop_spaces i /\ blank w.
Proof.
  induction i as [|c i (w & Hw & Hb)]; simpl; [by exists []; split; [|constructor]|].
  case_decide; [exists (c :: w); split; [by rewrite Hw at 1|by constructor]|].
  exists []. split; [done|constructor].
Qed.

Lemma drop_spaces_length i : length (drop_spaces i) <= length i.
Proof. induction i as [|c i IH]; simpl; [done|]. case_decide; simpl; lia. Qed.

Definition no_space_first (i : list ascii) : Prop :=
  match i with c :: _ => c ∉ spaces | [] => True end.

Lemma drop_spaces_app w i : blank w -> no_space_first i -> drop_spaces (w ++ i) = i.
Proof.
  induction 1 as [|c w Hc Hw IH]; intros Hi; simpl.
  - destruct i; simpl; [done|]. by rewrite decide_False.
  - rewrite decide_True by done. by apply IH.
Qed.

Lemma chars_app s t : chars (s +:+ t) = chars s ++ chars t.
Proof. unfold chars. induction s as [|a s IH]; simpl; [done|]. by rewrite IH. Qed.

Lemma chars_of_list l : chars (String.string_of_list_ascii l) = l.
Proof. apply String.list_ascii_of_string_of_list_ascii. Qed.

Lemma of_list_chars s : String.string_of_list_ascii (chars s) = s.
Proof. apply String.string_of_list_ascii_of_string. Qed.
Lemma scan_stuck i : (scan i).2 = [] \/ exists k, (scan i).2 = quote :: k.
Proof.
  assert (forall n i, length i <= n -> (scan i).2 = [] \/ exists k, (scan i).2 = quote :: k) as H; [|eauto].
  clear i. intros n. induction n as [|n IH]; intros [|c r]; simpl; [by left..|lia| |]; [by left|].
  intros Hn. case_decide; [subst; simpl; eauto|]. case_decide; [|apply IH; lia].
  destruct r as [|d r']; [by left|]. simpl in Hn. case_decide; apply IH; simpl; lia.
Qed.

Lemma scan_length i : length (scan i).1 + length (scan i).2 <= length i.
Proof.
  assert (forall n i, length i <= n -> length (scan i).1 + length (scan i).2 <= length i) as H; [|eauto].
  clear i. intros n. induction n as [|n IH]; intros [|c r]; simpl; [done|lia|lia|].
  intros Hn. destruct (decide (c = quote)); simpl; [lia|].
  destruct (decide (c = backslash)); [|specialize (IH r); simpl; lia].
  destruct r as [|d r']; [simpl; lia|]. destruct (decide (d = quote)); cbn [fst snd length] in *.
  - specialize (IH r'). lia.
  - specialize (IH (d :: r')). cbn [length] in IH. lia.
Qed.

Lemma scan_backslash d r :
  d <> quote -> scan (backslash :: d :: r) = (backslash :: (scan (d :: r)).1, (scan (d :: r)).2).
Proof. intros Hd. change (scan (backslash :: d :: r)) with
  (if decide (d = quote) then (quote :: (scan r).1, (scan r).2)
   else (backslash :: (scan (d :: r)).1, (scan (d :: r)).2)). by rewrite decide_False. Qed.

Lemma escape_first d s : exists e r, escape (d :: s) = e :: r /\ e <> quote.
Proof. simpl. case_decide; [by eexists _, _|]. by eexists _, _. Qed.

(** The closing quote of a literal is the first one that is not escaped. *)
Lemma scan_escape s k :
  ~ ends_in_backslash s -> scan (escape s ++ quote :: k) = (s, quote :: k).
Proof.
  unfold ends_in_backslash. induction s as [|c s IH]; intros Hlast; [done|].
  assert (last s <> Some backslash) as Hs.
  { intros Hs. apply Hlast. by rewrite last_cons, Hs. }
  specialize (IH Hs). destruct (decide (c = backslash)) as [->|Hb].
  - destruct s as [|d s]; [by destruct Hlast|].
    change (escape (backslash :: d :: s)) with (backslash :: escape (d :: s)).
    destruct (escape_first d s) as (e & r & He & Hq). rewrite He in *. simpl app in *.
    by rewrite scan_backslash, IH.
  - simpl. destruct (decide (c = quote)) as [->|Hc]; simpl; [by rewrite IH|].
    by rewrite (decide_False (P := c = quote)), (decide_False (P := c = backslash)), IH.
Qed.

Lemma scan_inv i cs k :
  scan i = (cs, quote :: k) -> i = escape cs ++ quote :: k /\ ~ ends_in_backslash cs.
Proof.
  unfold ends_in_backslash.
  assert (forall n i cs, length i <= n -> scan i = (cs, quote :: k) ->
    i = escape cs ++ quote :: k /\ last cs <> Some backslash) as H; [|eauto].
  clear i cs. intros n. induction n as [|n IH]; intros [|c r] cs; simpl; [done|lia|done|].
  intros Hn. destruct (decide (c = quote)) as [->|Hc]; [by intros [= <- <-]|].
  destruct (decide (c = backslash)) as [->|Hb].
  - destruct r as [|d r']; [done|]. destruct (decide (d = quote)) as [->|Hd].
    + destruct (scan r') as [cs' k'] eqn:E. intros [= <- ->].
      destruct (IH r' cs') as [-> Hl]; [simpl in *; lia|done|]. split; [done|].
      rewrite last_cons. by destruct (last cs').
    + destruct (scan (d :: r')) as [cs' k'] eqn:E. intros [= <- ->].
      destruct (IH (d :: r') cs') as [Heq Hl]; [simpl in *; lia|done|]. split; [by rewrite Heq|].
      rewrite last_cons. destruct (last cs') eqn:El; [done|]. apply last_None in El as ->.
      simpl in Heq. by simplify_eq.
  - destruct (scan r) as [cs' k'] eqn:E. intros [= <- ->].
    destruct (IH r cs') as [-> Hl]; [lia|done|]. simpl. rewrite decide_False by done. split; [done|].
    rewrite last_cons. destruct (last cs'); [done|]. by intros [= ->].
Qed.

(** ** What the parsers accept *)
Section ParserFacts.
Context `{HT : Http} `{RX : RegexCrate} `{PL : PomLaws}.

Lemma parse_string_char i :
  parse_at string_char i =
  match i with
  | [] => None
  | c :: r =>
      if decide (c = quote) then None
      else if decide (c = backslash) then
        match r with
        | d :: r' => if decide (d = quote) then Some (quote, r') else Some (backslash, r)
        | [] => Some (backslash, [])
        end
      else Some (c, r)
  end.
Proof.
  unfold string_char, special_char. run_parser. destruct i as [|c r]; [done|].
  destruct (decide (c = quote)) as [->|Hc]; [done|].
  destruct (decide (c = backslash)) as [->|Hb].
  - rewrite (decide_True (P := backslash ∈ _)) by set_solver. run_parser.
    destruct r as [|d r']; simpl; [done|].
    destruct (decide (d = quote)) as [->|Hd]; [done|]. by rewrite (decide_False (P := quote = d)).
  - rewrite decide_False; [done|]. by rewrite !elem_of_cons, elem_of_nil; naive_solver.
Qed.

Lemma parse_string_chars i : parse_at (p_repeat 0 string_char) i = Some (scan i).
Proof.
  remember (length i) as n eqn:Hn. revert i Hn.
  induction n as [n IH] using lt_wf_ind; intros i ->.
  destruct (parse_at string_char i) as [[a j]|] eqn:E.
  - assert (length j < length i /\ scan i = (a :: (scan j).1, (scan j).2)) as [Hj Hs].
    { rewrite parse_string_char in E. destruct i as [|c r]; [done|]. simpl.
      repeat case_decide; repeat case_match; simplify_eq/=; try done; (split; [lia|done]). }
    rewrite (parse_repeat_step _ _ a j) by done. rewrite (IH (length j)) by done.
    by rewrite Hs, (surjective_pairing (scan j)).
  - rewrite parse_repeat_stop by done. f_equal.
    rewrite parse_string_char in E. destruct i as [|c r]; [done|]. simpl.
    repeat case_decide; repeat case_match; simplify_eq/=; done.
Qed.

Lemma parse_char_string i :
  parse_at char_string i =
  match (scan i).1 with
  | [] => None
  | cs => Some (String.string_of_list_ascii cs, (scan i).2)
  end.
Proof.
  unfold char_string. run_parser. rewrite parse_repeat_min, parse_string_chars. simpl.
  by destruct (scan i) as [[|c cs] k].
Qed.

Lemma parse_char_strings i :
  parse_at (p_repeat 0 char_string) i =
  Some (match (scan i).1 with [] => [] | cs => [String.string_of_list_ascii cs] end, (scan i).2).
Proof.
  destruct (scan i) as [cs k] eqn:E. simpl. destruct cs as [|c cs].
  - rewrite parse_repeat_stop; [|by rewrite parse_char_string, E].
    destruct i as [|c r]; simpl in *; [by simplify_eq|].
    repeat case_decide; repeat case_match; simplify_eq/=; done.
  - assert (parse_at char_string i = Some (String.string_of_list_ascii (c :: cs), k)) as Hp.
    { by rewrite parse_char_string, E. }
    assert (parse_at char_string k = None) as Hk.
    { rewrite parse_char_string. destruct (scan_stuck i) as [Hk|[k' Hk]]; rewrite E in Hk; simpl in Hk;
        subst; done. }
    rewrite (parse_repeat_step _ _ _ _ Hp), (parse_repeat_stop _ _ Hk); [done|].
    pose proof (scan_length i) as Hlen. rewrite E in Hlen. simpl in Hlen. lia.
Qed.

Lemma parse_string_literal i s k :
  parse_at string_literal i = Some (s, k) <-> exists t, literal_text s t /\ i = t ++ k.
Proof.
  unfold string_literal. run_parser. split.
  - destruct i as [|c r]; [done|]. destruct (decide (quote = c)) as [<-|?]; simpl; [|done].
    rewrite parse_char_strings. simpl. rewrite parse_sym.
    destruct (scan r) as [cs k'] eqn:E. simpl.
    destruct k' as [|d k']; [done|]. destruct (decide (quote = d)) as [<-|?]; simpl; [|done].
    intros [= <- <-]. apply scan_inv in E as [-> Hl].
    exists (quote :: escape cs ++ [quote]). split; [|simpl; by rewrite <-app_assoc].
    unfold literal_text. destruct cs as [|c cs]; cbn [foldr]; [done|].
    rewrite append_nil_r. change (String c (String.string_of_list_ascii cs)) with
      (String.string_of_list_ascii (c :: cs)). by rewrite chars_of_list.
  - intros (t & [-> Hl] & ->). rewrite <-app_comm_cons, <-app_assoc. simpl.
    rewrite parse_char_strings. simpl. rewrite scan_escape by done. simpl. rewrite parse_sym. simpl.
    do 2 f_equal. destruct (chars s) as [|c cs] eqn:E; cbn [foldr].
    + by rewrite <-(of_list_chars s), E.
    + rewrite append_nil_r. by rewrite <-(of_list_chars s), E.
Qed.

Lemma parse_space i : parse_at space i = Some (tt, drop_spaces i).
Proof.
  unfold space. run_parser.
  assert (exists l, parse_at (p_repeat 0 (one_of spaces)) i = Some (l, drop_spaces i)) as [l Hl];
    [|by rewrite Hl].
  induction i as [|c i [l IH]].
  - exists []. apply parse_repeat_stop. by rewrite parse_one_of.
  - simpl. destruct (decide (c ∈ spaces)) as [Hc|Hc].
    + exists (c :: l). rewrite (parse_repeat_step _ _ c i); [by rewrite IH| |simpl; lia].
      by rewrite parse_one_of, decide_True.
    + exists []. apply parse_repeat_stop. by rewrite parse_one_of, decide_False.
Qed.

(** [Name( literal )], the shape of five of the six matchers. *)
Lemma parse_form name i s k :
  parse_at (tag (chars name) * string_literal - sym ")"%char)%pom i = Some (s, k) <->
  exists t, form_text name s t /\ i = t ++ k.
Proof.
  run_parser. split.
  - destruct (strip _ i) as [j|] eqn:E; [|done]. apply strip_Some in E as ->. simpl.
    destruct (parse_at string_literal j) as [[s' j']|] eqn:E; [|done].
    apply parse_string_literal in E as (u & Hu & ->). simpl. rewrite parse_sym.
    destruct j' as [|c j']; [done|]. case_decide; [subst|done]. intros [= <- <-].
    exists (chars name ++ u ++ [")"%char]). split; [by exists u|]. by rewrite <-!app_assoc.
  - intros (t & (u & Hu & ->) & ->). rewrite <-!app_assoc, strip_app. simpl.
    destruct (parse_string_literal (u ++ ")"%char :: k) s (")"%char :: k)) as [_ Hp].
    rewrite Hp by eauto. simpl. by rewrite parse_sym.
Qed.

Lemma parse_query i kv k :
  parse_at query i = Some (kv, k) <->
  exists t, query_text kv.1 kv.2 t /\ i = t ++ k.
Proof.
  unfold query. run_parser. split.
  - destruct (strip _ i) as [i1|] eqn:E; [|done]. apply strip_Some in E as ->. simpl.
    destruct (parse_at string_literal i1) as [[s i2]|] eqn:E; [|done].
    apply parse_string_literal in E as (u & Hu & ->). simpl. rewrite parse_space. simpl.
    destruct (drop_spaces_split i2) as (w1 & Hw1 & Hb1). rewrite parse_sym.
    destruct (drop_spaces i2) as [|c i3]; [done|]. case_decide; [subst c|done]. simpl.
    rewrite parse_space. simpl. destruct (drop_spaces_split i3) as (w2 & Hw2 & Hb2).
    destruct (parse_at string_literal (drop_spaces i3)) as [[v i4]|] eqn:E; [|done].
    apply parse_string_literal in E as (u' & Hu' & Hi3). simpl. rewrite parse_sym.
    destruct i4 as [|c i5]; [done|]. case_decide; [subst c|done]. intros [= <- <-].
    eexists. split; [by exists u, u', w1, w2|].
    rewrite Hw1, Hw2, Hi3. by rewrite <-!app_assoc.
  - intros (t & (tk & tv & w1 & w2 & Hk & Hv & Hb1 & Hb2 & ->) & ->). destruct kv as [key val].
    rewrite <-!app_assoc, strip_app. simpl in *.
    rewrite (proj2 (parse_string_literal _ key _)) by eauto. simpl. rewrite parse_space. simpl.
    rewrite drop_spaces_app by (done || (simpl; set_solver)). rewrite parse_sym. simpl.
    rewrite parse_space. simpl. rewrite drop_spaces_app; [| done |].
    + rewrite (proj2 (parse_string_literal _ val _)) by eauto. simpl. by rewrite parse_sym.
    + destruct Hv as [-> _]. simpl. set_solver.
Qed.

Lemma parse_form_none name i :
  strip (chars name) i = None ->
  parse_at (tag (chars name) * string_literal - sym ")"%char)%pom i = None.
Proof. intros Hs. run_parser. by rewrite Hs. Qed.

Lemma parse_query_none i : strip (chars "Query(") i = None -> parse_at query i = None.
Proof. intros Hs. unfold query. run_parser. by rewrite Hs. Qed.

Lemma parse_chained v i :
  parse_at (chained_expression v) i =
  ('(l, j) ← parse_at v i;
   match (j2 ← strip (chars "&&") (drop_spaces j); parse_at v (drop_spaces j2)) with
   | Some (r, k) => Some (And l r, k)
   | None => j2 ← strip (chars "||") (drop_spaces j);
             '(r, k) ← parse_at v (drop_spaces j2); Some (Or l r, k)
   end).
Proof.
  unfold chained_expression, and_, or_. run_parser.
  destruct (parse_at v i) as [[l j]|]; simpl; [|done].
  rewrite parse_space. simpl. rewrite !parse_tag.
  destruct (strip (chars "&&") (drop_spaces j)) as [j2|]; simpl.
  - rewrite parse_space. simpl. destruct (parse_at v (drop_spaces j2)) as [[r k]|]; simpl; [done|].
    destruct (strip (chars "||") (drop_spaces j)) as [j3|]; simpl; [|done].
    rewrite parse_space. simpl. by destruct (parse_at v (drop_spaces j3)) as [[r k]|].
  - destruct (strip (chars "||") (drop_spaces j)) as [j3|]; simpl; [|done].
    rewrite parse_space. simpl. by destruct (parse_at v (drop_spaces j3)) as [[r k]|].
Qed.

Lemma parse_chained_call f i :
  parse_at (chained_expression (p_call (fun _ => value f))) i = parse_at (chained_expression (value f)) i.
Proof.
  rewrite !parse_chained, parse_call. destruct (parse_at (value f) i) as [[l j]|]; simpl; [|done].
  destruct (strip (chars "&&") (drop_spaces j)) as [j2|]; simpl; rewrite ?parse_call;
    destruct (strip (chars "||") (drop_spaces j)) as [j3|]; simpl; by rewrite ?parse_call.
Qed.

Lemma parse_top_level f i :
  parse_at (top_level_expression f) i =
  match parse_at (chained_expression (value f)) i with Some r => Some r | None => parse_at (value f) i end.
Proof. unfold top_level_expression. by rewrite parse_or, parse_chained_call. Qed.

(** One unfolding of [value]: the alternatives in their order. *)
Lemma parse_value_S f i :
  parse_at (value (S f)) i =
  match parse_at host i with Some (s, k) => Some (Host s, k) | None =>
  match parse_at host_regexp i with Some (r, k) => Some (HostRegexp r, k) | None =>
  match parse_at method i with Some (m, k) => Some (MethodM m, k) | None =>
  match parse_at path i with Some (s, k) => Some (Path s, k) | None =>
  match parse_at path_regexp i with Some (r, k) => Some (PathRegexp r, k) | None =>
  match parse_at query i with Some (kv, k) => Some (Query kv.1 kv.2, k) | None =>
    j ← strip ["("%char] i;
    '(m, k) ← parse_at (top_level_expression f) (drop_spaces j);
    k' ← strip [")"%char] (drop_spaces k);
    Some (m, k')
  end end end end end end.
Proof.
  cbn [value]. unfold value_body. rewrite !parse_or, !parse_map.
  destruct (parse_at host i) as [[]|]; simpl; [done|].
  destruct (parse_at host_regexp i) as [[]|]; simpl; [done|].
  destruct (parse_at method i) as [[]|]; simpl; [done|].
  destruct (parse_at path i) as [[]|]; simpl; [done|].
  destruct (parse_at path_regexp i) as [[]|]; simpl; [done|].
  destruct (parse_at query i) as [[]|]; simpl; [done|].
  rewrite !parse_left, !parse_right, parse_sym, strip_one.
  destruct i as [|c i]; [done|]. destruct (decide ("("%char = c)); simpl; [|done].
  rewrite parse_space. simpl. rewrite parse_or, parse_chained_call, parse_call, <-parse_top_level.
  destruct (parse_at (top_level_expression f) (drop_spaces i)) as [[m k]|]; simpl; [|done].
  rewrite parse_space. simpl. rewrite parse_sym.
  rewrite strip_one. destruct (drop_spaces k) as [|d k']; [done|]. by case_decide.
Qed.

Lemma chained_sound v i m k :
  (forall i m k, parse_at v i = Some (m, k) -> exists t, value_text m t /\ i = t ++ k) ->
  parse_at (chained_expression v) i = Some (m, k) -> exists t, expression_text m t /\ i = t ++ k.
Proof.
  intros Hv. rewrite parse_chained.
  destruct (parse_at v i) as [[l j]|] eqn:El; simpl; [|done]. apply Hv in El as (tl & Hl & ->).
  destruct (drop_spaces_split j) as (w1 & Hj & Hw1).
  destruct (strip (chars "&&") (drop_spaces j)) as [j2|] eqn:E2; simpl;
    [destruct (parse_at v (drop_spaces j2)) as [[r k']|] eqn:Er|].
  - intros [= <- <-]. apply strip_Some in E2. apply Hv in Er as (tr & Hr & Hk).
    destruct (drop_spaces_split j2) as (w2 & Hj2 & Hw2). eexists. split; [by apply (et_and l tl r tr w1 w2)|].
    rewrite Hj, E2, Hj2, Hk. by rewrite <-!app_assoc.
  - apply strip_Some in E2. rewrite E2. done.
  - destruct (strip (chars "||") (drop_spaces j)) as [j3|] eqn:E3; simpl; [|done].
    destruct (parse_at v (drop_spaces j3)) as [[r k']|] eqn:Er; [|done]. intros [= <- <-].
    apply strip_Some in E3. apply Hv in Er as (tr & Hr & Hk).
    destruct (drop_spaces_split j3) as (w2 & Hj3 & Hw2). eexists. split; [by apply (et_or l tl r tr w1 w2)|].
    rewrite Hj, E3, Hj3, Hk. by rewrite <-!app_assoc.
Qed.

Lemma top_level_sound f i m k :
  (forall i m k, parse_at (value f) i = Some (m, k) -> exists t, value_text m t /\ i = t ++ k) ->
  parse_at (top_level_expression f) i = Some (m, k) -> exists t, expression_text m t /\ i = t ++ k.
Proof.
  intros Hv. rewrite parse_top_level.
  destruct (parse_at (chained_expression (value f)) i) as [[m' k']|] eqn:E.
  - intros [= <- <-]. by eapply chained_sound.
  - intros (t & ? & ->)%Hv. exists t. split; [by constructor|done].
Qed.

Lemma convert_form_sound {B} (g : string -> option B) name i b k :
  parse_at (p_convert g (tag (chars name) * string_literal - sym ")"%char)%pom) i = Some (b, k) ->
  exists s t, form_text name s t /\ g s = Some b /\ i = t ++ k.
Proof.
  rewrite parse_convert.
  destruct (parse_at (tag (chars name) * _ - _)%pom i) as [[s j]|] eqn:E; simpl; [|done].
  apply parse_form in E as (t & Ht & ->). destruct (g s) as [b'|] eqn:Eg; simpl; [|done].
  intros [= <- <-]. eauto 6.
Qed.

(** Everything [value] accepts is in the grammar. *)
Lemma value_sound f i m k :
  parse_at (value f) i = Some (m, k) -> exists t, value_text m t /\ i = t ++ k.
Proof.
  revert i m k. induction f as [|f IH]; intros i m k.
  { simpl. unfold never. rewrite parse_convert, parse_space. done. }
  rewrite parse_value_S.
  destruct (parse_at host i) as [[s j]|] eqn:E.
  { apply parse_form in E as (t & ? & ->). intros [= <- <-]. eauto using vt_host. }
  clear E. destruct (parse_at host_regexp i) as [[s j]|] eqn:E.
  { apply convert_form_sound in E as (s' & t & ? & ? & ->). intros [= <- <-]. eauto using vt_host_regexp. }
  clear E. destruct (parse_at method i) as [[s j]|] eqn:E.
  { apply convert_form_sound in E as (s' & t & ? & ? & ->). intros [= <- <-]. eauto using vt_method. }
  clear E. destruct (parse_at path i) as [[s j]|] eqn:E.
  { apply parse_form in E as (t & ? & ->). intros [= <- <-]. eauto using vt_path. }
  clear E. destruct (parse_at path_regexp i) as [[s j]|] eqn:E.
  { apply convert_form_sound in E as (s' & t & ? & ? & ->). intros [= <- <-]. eauto using vt_path_regexp. }
  clear E. destruct (parse_at query i) as [[s j]|] eqn:E.
  { apply parse_query in E as (t & ? & ->). intros [= <- <-]. eauto using vt_query. }
  clear E. destruct (strip ["("%char] i) as [j|] eqn:E; simpl; [|done]. apply strip_Some in E as ->.
  destruct (parse_at (top_level_expression f) (drop_spaces j)) as [[m' k']|] eqn:E; simpl; [|done].
  destruct (strip [")"%char] (drop_spaces k')) as [k''|] eqn:E'; simpl; [|done]. intros [= <- <-].
  apply strip_Some in E'. apply top_level_sound in E as (t & Ht & Hj); [|done].
  destruct (drop_spaces_split j) as (w1 & Hj1 & Hw1). destruct (drop_spaces_split k') as (w2 & Hk1 & Hw2).
  eexists. split; [by apply (vt_paren m' t w1 w2)|]. rewrite Hj1, Hj, Hk1, E'. by rewrite <-!app_assoc.
Qed.

Lemma value_text_first m t k : value_text m t -> no_space_first (t ++ k).
Proof.
  intros Ht. destruct Ht as [s t (u & _ & ->)|s r t (u & _ & ->) _|s m t (u & _ & ->) _|s t (u & _ & ->)
    |s r t (u & _ & ->) _|s v t (? & ? & ? & ? & _ & _ & _ & _ & ->)|]; simpl; set_solver.
Qed.

Lemma expression_text_first m t k : expression_text m t -> no_space_first (t ++ k).
Proof.
  intros Ht. destruct Ht as [m t Ht|l tl r tr w1 w2 Hl|l tl r tr w1 w2 Hl];
    rewrite <-?app_assoc; by eapply value_text_first.
Qed.

(** What may follow an expression: no operator that would extend it. *)
Definition no_operator (k : list ascii) : Prop :=
  strip (chars "&&") (drop_spaces k) = None /\ strip (chars "||") (drop_spaces k) = None.

Lemma no_operator_nil : no_operator [].
Proof. done. Qed.

Lemma no_operator_paren w k : blank w -> no_operator (w ++ ")"%char :: k).
Proof.
  intros Hw. unfold no_operator. rewrite drop_spaces_app; [done..|simpl; set_solver].
Qed.

Definition value_complete (m : BackendPoolMatcher) (t : list ascii) : Prop :=
  forall f k, length t < f -> parse_at (value f) (t ++ k) = Some (m, k).

Definition expression_complete (m : BackendPoolMatcher) (t : list ascii) : Prop :=
  forall f k, length t < f -> no_operator k -> parse_at (top_level_expression f) (t ++ k) = Some (m, k).

(** The alternatives before the matching one fail on their tag. *)
Ltac skip_alternatives :=
  unfold host, host_regexp, method, path, path_regexp;
  repeat first [ rewrite parse_form_none by reflexivity
               | rewrite parse_query_none by reflexivity
               | rewrite parse_convert, parse_form_none by reflexivity; cbn [mbind option_bind] ].

Lemma form_complete name s t k :
  form_text name s t ->
  parse_at (tag (chars name) * string_literal - sym ")"%char)%pom (t ++ k) = Some (s, k).
Proof. intros Ht. apply parse_form. eauto. Qed.

Lemma form_other name name' s t k :
  form_text name' s t -> (forall x, strip (chars name) (chars name' ++ x) = None) ->
  parse_at (tag (chars name) * string_literal - sym ")"%char)%pom (t ++ k) = None.
Proof. intros (u & _ & ->) Hn. rewrite <-!app_assoc. by apply parse_form_none. Qed.

Lemma convert_other {B} (g : string -> option B) name name' s t k :
  form_text name' s t -> (forall x, strip (chars name) (chars name' ++ x) = None) ->
  parse_at (p_convert g (tag (chars name) * string_literal - sym ")"%char)%pom) (t ++ k) = None.
Proof. intros Ht Hn. by rewrite parse_convert, (form_other _ _ s t k Ht Hn). Qed.

Lemma paren_complete m t w1 w2 :
  expression_text m t -> expression_complete m t -> blank w1 -> blank w2 ->
  value_complete m (["("%char] ++ w1 ++ t ++ w2 ++ [")"%char]).
Proof.
  intros Ht IH Hw1 Hw2 [|f] k Hf; [lia|]. rewrite <-!app_assoc. rewrite parse_value_S. skip_alternatives.
  rewrite strip_app. simpl. rewrite drop_spaces_app by eauto using expression_text_first.
  rewrite IH; [|rewrite !length_app in Hf; simpl in Hf; lia|by apply no_operator_paren]. simpl.
  by rewrite drop_spaces_app, strip_one by (done || simpl; set_solver).
Qed.

Lemma chained_complete v l j (l' : BackendPoolMatcher) w1 op w2 tr r k :
  parse_at v l = Some (l', w1 ++ chars op ++ w2 ++ tr ++ k) ->
  parse_at v (tr ++ k) = Some (r, k) ->
  blank w1 -> blank w2 -> value_text r tr ->
  (op = "&&" /\ j = And l' r \/ op = "||" /\ j = Or l' r) ->
  parse_at (chained_expression v) l = Some (j, k).
Proof.
  intros Hl Hr Hw1 Hw2 Htr Hop. rewrite parse_chained, Hl. simpl.
  rewrite drop_spaces_app; [|done|by destruct Hop as [[-> _]|[-> _]]; simpl; set_solver].
  destruct Hop as [[-> ->]|[-> ->]].
  - rewrite strip_app. simpl. by rewrite drop_spaces_app, Hr by eauto using value_text_first.
  - change (strip (chars "&&") _) with (@None (list ascii)). rewrite strip_app. simpl.
    by rewrite drop_spaces_app, Hr by eauto using value_text_first.
Qed.

(** Everything in the grammar is accepted, with the tree it denotes. *)
Lemma text_complete :
  (forall m t, value_text m t -> value_complete m t) /\
  (forall m t, expression_text m t -> expression_complete m t).
Proof.
  apply text_mutind.
  - intros s t Ht [|f] k Hf; [lia|]. rewrite parse_value_S. unfold host. by rewrite (form_complete _ s).
  - intros s r t Ht Hr [|f] k Hf; [lia|]. rewrite parse_value_S. unfold host, host_regexp.
    rewrite (form_other _ _ s) by done. rewrite parse_convert, (form_complete _ s) by done. simpl. by rewrite Hr.
  - intros s r t Ht Hr [|f] k Hf; [lia|]. rewrite parse_value_S. unfold host, host_regexp, method.
    rewrite (form_other _ _ s), (convert_other _ _ _ s) by done.
    rewrite parse_convert, (form_complete _ s) by done. simpl. by rewrite Hr.
  - intros s t Ht [|f] k Hf; [lia|]. rewrite parse_value_S. unfold host, host_regexp, method, path.
    rewrite (form_other _ _ s), !(convert_other _ _ _ s) by done. by rewrite (form_complete _ s).
  - intros s r t Ht Hr [|f] k Hf; [lia|]. rewrite parse_value_S.
    unfold host, host_regexp, method, path, path_regexp.
    rewrite (form_other "Host(" _ s), (convert_other _ "HostRegexp(" _ s), (convert_other _ "Method(" _ s),
      (form_other "Path(" _ s) by done.
    rewrite parse_convert, (form_complete _ s) by done. simpl. by rewrite Hr.
  - intros key v t Ht [|f] k Hf; [lia|]. rewrite parse_value_S.
    pose proof Ht as (? & ? & ? & ? & _ & _ & _ & _ & Heq).
    assert (parse_at query (t ++ k) = Some ((key, v), k)) as ->; [apply parse_query; eauto|].
    rewrite Heq, <-app_assoc. skip_alternatives. done.
  - intros m t w1 w2 Ht IH Hw1 Hw2. by apply paren_complete.
  - intros m t Ht IH f k Hf [Hand Hor]. rewrite parse_top_level, parse_chained, IH by done. simpl.
    rewrite Hand, Hor. by apply IH.
  - intros l tl r tr w1 w2 Hl IHl Hr IHr Hw1 Hw2 f k Hf _. rewrite !length_app in Hf.
    rewrite parse_top_level, <-!app_assoc.
    erewrite (chained_complete _ _ (And l r) l w1 "&&" w2 tr r k); eauto; [apply IHl; lia|apply IHr; lia].
  - intros l tl r tr w1 w2 Hl IHl Hr IHr Hw1 Hw2 f k Hf _. rewrite !length_app in Hf.
    rewrite parse_top_level, <-!app_assoc.
    erewrite (chained_complete _ _ (Or l r) l w1 "||" w2 tr r k); eauto; [apply IHl; lia|apply IHr; lia].
Qed.

Lemma parser_sound f i m :
  parse_at (parser f) i = Some (m, []) <->
  exists w, i = w ++ drop_spaces i /\ blank w /\ parse_at (top_level_expression f) (drop_spaces i) = Some (m, []).
Proof.
  unfold parser. run_parser. rewrite parse_space. simpl.
  destruct (drop_spaces_split i) as (w & Hi & Hw).
  destruct (parse_at (top_level_expression f) (drop_spaces i)) as [[m' k]|]; simpl; [|naive_solver].
  rewrite parse_end. destruct k; simpl; [|naive_solver]. split; [intros [= ->]; eauto|naive_solver].
Qed.

End ParserFacts.

(** ** Properties *)
Section MatcherProperties.
Context `{HT : Http} `{RX : RegexCrate} `{UC : UrlCrate} `{PL : PomLaws}.

(** Two parsers that agree on every input shorter than [i], one of which never
    leaves more than it got, make no difference to [value_body] on [i]. *)
Lemma value_body_local v v' i :
  (forall j, length j < length i -> parse_at v j = parse_at v' j) ->
  (forall j m k, parse_at v' j = Some (m, k) -> length k <= length j) ->
  parse_at (value_body v) i = parse_at (value_body v') i.
Proof.
  intros Hv Hle. unfold value_body. rewrite !parse_or, !parse_left, !parse_right, !parse_sym.
  repeat (destruct (parse_at (p_map _ _) i); [done|]).
  destruct i as [|b i]; [done|]. case_decide; [|done]. simpl. rewrite parse_space. simpl.
  pose proof (drop_spaces_length i) as Hd. set (j := drop_spaces i) in *.
  assert (forall j, length j <= length i -> parse_at v j = parse_at v' j) as Hv'.
  { intros j' Hj. apply Hv. simpl. lia. }
  rewrite !parse_or, !parse_call, !parse_chained, !parse_call, (Hv' j) by done.
  destruct (parse_at v' j) as [[m k]|] eqn:E; [|done]. apply Hle in E. simpl.
  assert (forall op k', strip (chars op) (drop_spaces k) = Some k' ->
    parse_at v (drop_spaces k') = parse_at v' (drop_spaces k')) as Hop.
  { intros op k' Hs%strip_Some. apply Hv'. pose proof (drop_spaces_length k). pose proof (drop_spaces_length k').
    apply (f_equal length) in Hs. rewrite length_app in Hs. lia. }
  destruct (strip (chars "&&") (drop_spaces k)) as [k1|] eqn:E1; destruct (strip (chars "||") (drop_spaces k)) as [k2|] eqn:E2;
    simpl; rewrite ?parse_call, ?(Hop _ _ E1), ?(Hop _ _ E2); done.
Qed.

(** [n] unfoldings of the recursion of [value] around a parser for the innermost call. *)
Definition unwind (innermost : Parser BackendPoolMatcher) (n : nat) : Parser BackendPoolMatcher :=
  Nat.iter n value_body innermost.

(** C40: the recursion of [value] through [call(value)] terminates: on an input of
    [n] characters no call is nested deeper than [n + 1], since each one has consumed a
    parenthesis.  So whatever parser stands in for the innermost of more than [n] nested
    calls, one that accepts everything without consuming input for example, it is
    not reached and the result is that of [value]. *)
Theorem value_terminates innermost n fuel i :
  length i < n -> length i < fuel -> parse_at (unwind innermost n) i = parse_at (value fuel) i.
Proof.
  revert fuel i. induction n as [|n IH]; intros [|fuel] i Hn Hf; [lia..|].
  apply value_body_local; [intros j Hj; apply IH; lia|].
  intros j m k (t & _ & ->)%value_sound. rewrite length_app. lia.
Qed.

(** C8: [matcher_from_string] implements the grammar: it returns [m] exactly for
    the texts that are blanks followed by an expression for [m]; every other
    text makes it panic. *)
Theorem matcher_from_string_grammar str m :
  matcher_from_string str = Returned m <->
  exists w t, blank w /\ expression_text m t /\ chars str = w ++ t.
Proof.
  unfold matcher_from_string. rewrite unwrap_Returned, fmap_Some. split.
  - intros ([m' k] & Hp & ->). assert (k = []) as ->.
    { revert Hp. unfold parser. run_parser. destruct (parse_at space _) as [[]|]; simpl; [|done].
      destruct (parse_at (top_level_expression _) _) as [[]|]; simpl; [|done]. rewrite parse_end.
      case_match; simpl; intros; by simplify_eq. }
    apply parser_sound in Hp as (w & Hw & Hb & Hp).
    apply top_level_sound in Hp as (t & Ht & Heq); [|apply value_sound].
    rewrite app_nil_r in Heq. subst t. exists w, (drop_spaces (chars str)). done.
  - intros (w & t & Hw & Ht & Heq). exists (m, []). split; [|done].
    pose proof (expression_text_first m t [] Ht) as Hf. rewrite app_nil_r in Hf.
    apply parser_sound. exists w. rewrite Heq, drop_spaces_app by done. split_and!; [done..|].
    rewrite <-(app_nil_r t) at 2. apply text_complete; [done| |apply no_operator_nil].
    rewrite length_app. lia.
Qed.

(** An operator takes exactly two operands.  A text that continues after
    [a && b] or [a || b], for example a third operand without parentheses or a
    trailing blank, makes the conversion panic. *)
Theorem matcher_from_string_trailing_panics a ta b tb w1 w2 op rest :
  value_text a ta -> value_text b tb -> blank w1 -> blank w2 -> op = "&&" \/ op = "||" -> rest <> [] ->
  matcher_from_string (String.string_of_list_ascii (ta ++ w1 ++ chars op ++ w2 ++ tb ++ rest)) = Panic.
Proof.
  intros Ha Hb Hw1 Hw2 Hop Hrest. unfold matcher_from_string. rewrite chars_of_list.
  set (f := S _). set (i := ta ++ _).
  assert (length ta < f /\ length tb < f) as [Hla Hlb].
  { unfold f. rewrite !length_app. lia. }
  destruct text_complete as [Hc _].
  assert (exists j, parse_at (chained_expression (value f)) i = Some (j, rest)) as [j Hj].
  { destruct Hop as [->| ->]; eexists;
      [eapply (chained_complete _ _ (And a b) a w1 "&&")|eapply (chained_complete _ _ (Or a b) a w1 "||")];
      eauto; by apply Hc. }
  assert (drop_spaces i = i) as Hi by (apply (drop_spaces_app []); [apply Forall_nil_2|by eapply value_text_first]).
  unfold parser. rewrite parse_left, parse_right, parse_space. simpl.
  rewrite Hi, parse_top_level, Hj. simpl. rewrite parse_end. by destruct rest.
Qed.

(** A [Query] matcher looks at the last value the query string gives its key. *)
Theorem matches_query key value request :
  matches (Query key value) request = true <->
  exists q l1 l2, uri_query (req_uri request) = Some q /\
    form_urlencoded_parse q = l1 ++ (key, value) :: l2 /\ Forall (fun kv => kv.1 <> key) l2.
Proof.
  simpl. destruct (uri_query (req_uri request)) as [q|]; simpl.
  - destruct (collect_map (form_urlencoded_parse q) !! key) as [v|] eqn:E; simpl.
    + rewrite bool_decide_eq_true. split.
      * intros ->. apply collect_map_lookup in E. naive_solver.
      * intros (q' & l1 & l2 & [= <-] & Hq & Hl2).
        assert (collect_map (form_urlencoded_parse q) !! key = Some value) as Hv; [|congruence].
        apply collect_map_lookup. eauto.
    + split; [done|]. intros (q' & l1 & l2 & [= <-] & Hq & Hl2).
      assert (collect_map (form_urlencoded_parse q) !! key = Some value) as Hv; [|congruence].
      apply collect_map_lookup. eauto.
  - rewrite lookup_empty. naive_solver.
Qed.

End MatcherProperties.

(** ** Sanity checks against the unit tests of the source *)
#[local] Existing Instance http_model.
#[local] Existing Instance pom_model.
#[local] Instance sample_regex : RegexCrate :=
  {| Regex := string; Regex_new s := Some s; regex_as_str := id; regex_is_match r s := bool_decide (r = s) |}.
#[local] Instance sample_url : UrlCrate := fun _ => [].

Example parse_escaped_host :
  matcher_from_string "Host('whatisup\'.localhost')" = Returned (Host "whatisup'.localhost").
Proof. vm_compute. reflexivity. Qed.

Example parse_nested_sub_expression :
  matcher_from_string "(  Host('1')      || Host('2')   )     &&    Host('3')"
  = Returned (And (Or (Host "1") (Host "2")) (Host "3")).
Proof. vm_compute. reflexivity. Qed.

(** ** Witnesses *)
Lemma host_a_text : value_text (Host "a") (chars "Host('a')").
Proof. apply vt_host. exists (chars "'a'"). repeat split. by vm_compute. Qed.

(** The innermost call would accept anything. *)
Lemma value_terminates_witness :
  parse_at (unwind (fun i => Some (Host "wrong", i)) 40) (chars "(Host('a'))") = Some (Host "a", []) /\
  parse_at (unwind (fun i => Some (Host "wrong", i)) 40) (chars "(Host('a'))") = parse_at (value 12) (chars "(Host('a'))").
Proof.
  split; [vm_compute; reflexivity|].
  apply (@value_terminates http_model sample_regex pom_model pom_model_laws (fun i => Some (Host "wrong", i)) 40 12
    (chars "(Host('a'))")); vm_compute; lia.
Defined.

Lemma matcher_from_string_grammar_witness :
  matcher_from_string " Host('a')" = Returned (Host "a").
Proof.
  apply (@matcher_from_string_grammar http_model sample_regex pom_model pom_model_laws).
  exists [" "%char], (chars "Host('a')"). split; [by repeat constructor|]. split; [|reflexivity].
  apply et_value, host_a_text.
Defined.

Lemma matcher_from_string_trailing_panics_witness :
  matcher_from_string
    (String.string_of_list_ascii
       (chars "Host('a')" ++ [" "%char] ++ chars "&&" ++ [" "%char] ++ chars "Host('a')" ++ chars " && Host('a')"))
  = Panic.
Proof.
  apply (@matcher_from_string_trailing_panics http_model sample_regex pom_model pom_model_laws
           (Host "a") _ (Host "a") _); try apply host_a_text; try by repeat constructor.
Defined.
