(* ===== verification/LoadBalancing.v ===== *)
(** * Load balancing: the strategy trait, [RequestForwarder], Random and IP hash

    [load_balancing/mod.rs], [load_balancing/random.rs], [load_balancing/ip_hash.rs].

    A strategy is a value with interior mutability: each method takes the state
    before the call and gives the state after it, also when the call panics. *)
From S2P Require Import Prelude RustStd Http HttpModel.

(** ** Third-party and unspecified parts *)

(** [thread_rng().gen_range(0..n)] of the [rand] crate, as a parameter: what a call
    for a bound [n] does.  The crate documents that the result is uniformly drawn from the
    range, and that an empty range makes the call panic. *)
Definition draw := nat -> outcome nat.

Definition draw_ok (rng : draw) : Prop :=
  rng 0 = Panic /\ forall n, 0 < n -> exists i, rng n = Returned i /\ i < n.

Section LoadBalancing.
Context `{HT : Http}.

(** ** [Context] and [RequestForwarder] *)
Record LbContext := { client_address : SocketAddr; backend_addresses : list string }.

(** The response mapper of a forwarder may panic. *)
Record RequestForwarder := {
  backend_address : string;
  response_mapper : Response -> outcome Response;
}.

Definition forwarder_new_with_response_mapper (address : string) (f : Response -> outcome Response) :
  RequestForwarder := {| backend_address := address; response_mapper := f |}.

Definition forwarder_new (address : string) : RequestForwarder :=
  forwarder_new_with_response_mapper address Returned.

Definition forwarder_map_response (fw : RequestForwarder) (f : Response -> outcome Response) :
  RequestForwarder :=
  {| backend_address := backend_address fw;
     response_mapper := fun response => r ← response_mapper fw response; f r |}.

(** [RequestForwarder::backend_uri]. *)
Definition backend_uri (fw : RequestForwarder) (request : Request) : outcome Uri :=
  path ← unwrap (uri_path_and_query (req_uri request));
  unwrap (authority ← Authority_from_str (backend_address fw); Uri_build "http" authority path).

(** ** The trait [LoadBalancingStrategy] *)
Class LoadBalancingStrategy (S : Type) := {
  select_backend : S -> draw -> Request -> LbContext -> outcome RequestForwarder * S;
  on_tcp_open : S -> Uri -> outcome unit * S;
  on_tcp_close : S -> Uri -> outcome unit * S;
}.

(** The default bodies of [on_tcp_open] and [on_tcp_close]. *)
Definition tcp_ignore {S : Type} (s : S) (remote : Uri) : outcome unit * S := (Returned tt, s).

(** What a strategy promises to the server: while its invariant holds and there
    is a backend to choose, a selection that returns names one of the offered
    backends, and the invariant is kept by every method. *)
Class StrategyContract (S : Type) `{!LoadBalancingStrategy S} (inv : S -> Prop) : Prop := {
  select_member s rng request ctx fw s' :
    inv s -> draw_ok rng -> select_backend s rng request ctx = (Returned fw, s') ->
    backend_address fw ∈ backend_addresses ctx;
  select_inv s rng request ctx : inv s -> inv (select_backend s rng request ctx).2;
  tcp_open_inv s remote : inv s -> inv (on_tcp_open s remote).2;
  tcp_close_inv s remote : inv s -> inv (on_tcp_close s remote).2;
}.

(** ** [random.rs] *)
Record Random := mk_Random {}.

Definition random_select (s : Random) (rng : draw) (request : Request) (ctx : LbContext) :
  outcome RequestForwarder * Random :=
  ( i ← rng (length (backend_addresses ctx));
    address ← index (backend_addresses ctx) i;
    Returned (forwarder_new address), s).

#[export] Instance random_strategy : LoadBalancingStrategy Random := {|
  select_backend := random_select;
  on_tcp_open := tcp_ignore;
  on_tcp_close := tcp_ignore |}.

(** ** [ip_hash.rs]

    [std] leaves the algorithm of [DefaultHasher] unspecified: the hash of an
    address is a parameter, a [u64]. *)
Record IPHash := mk_IPHash { ip_hash : IpAddr -> Z }.

Definition ip_hash_select (s : IPHash) (rng : draw) (request : Request) (ctx : LbContext) :
  outcome RequestForwarder * IPHash :=
  let len := Z.of_nat (length (backend_addresses ctx)) in
  ( i ← (if decide (len = 0%Z) then Panic
         else Returned (Z.to_nat (ip_hash s (sa_ip (client_address ctx)) mod len)));
    address ← index (backend_addresses ctx) i;
    Returned (forwarder_new address), s).

#[export] Instance ip_hash_strategy : LoadBalancingStrategy IPHash := {|
  select_backend := ip_hash_select;
  on_tcp_open := tcp_ignore;
  on_tcp_close := tcp_ignore |}.

(** ** The contracts of the two stateless strategies *)
Lemma index_forwarder_member (l : list string) (o : outcome nat) fw :
  (i ← o; address ← index l i; Returned (forwarder_new address)) = Returned fw ->
  backend_address fw ∈ l.
Proof.
  destruct o as [i|]; simpl; [|done]. destruct (index l i) as [a|] eqn:E; simpl; [|done].
  intros [= <-]. apply index_Returned in E. by eapply list_elem_of_lookup_2.
Qed.

#[export] Instance random_contract : StrategyContract Random (fun _ => True).
Proof.
  split; try done. intros s rng request ctx fw s' _ _ Hs. apply (f_equal fst) in Hs.
  exact (index_forwarder_member _ _ _ Hs).
Qed.

#[export] Instance ip_hash_contract : StrategyContract IPHash (fun _ => True).
Proof.
  split; try done. intros s rng request ctx fw s' _ _ Hs. apply (f_equal fst) in Hs.
  exact (index_forwarder_member _ _ _ Hs).
Qed.

Lemma ip_hash_select_returns (s : IPHash) rng request ctx :
  backend_addresses ctx <> [] ->
  exists address,
    backend_addresses ctx !!
      Z.to_nat (ip_hash s (sa_ip (client_address ctx)) mod Z.of_nat (length (backend_addresses ctx)))
      = Some address /\
    select_backend s rng request ctx = (Returned (forwarder_new address), s).
Proof.
  intros Hne. cbn [select_backend ip_hash_strategy]. unfold ip_hash_select.
  set (len := Z.of_nat (length (backend_addresses ctx))).
  assert (0 < len)%Z as Hlen.
  { unfold len. destruct (backend_addresses ctx); [done|]. simpl. lia. }
  rewrite decide_False by lia. cbn [mbind outcome_bind].
  pose proof (Z.mod_pos_bound (ip_hash s (sa_ip (client_address ctx))) len Hlen) as Hb.
  destruct (index_lt (backend_addresses ctx)
    (Z.to_nat (ip_hash s (sa_ip (client_address ctx)) mod len))) as (a & Hi & Hl); [unfold len in *; lia|].
  exists a. by rewrite Hi.
Qed.

(** IP hash never panics on a non-empty backend list, leaves no state behind,
    and two requests of the same client IP (any port, any request, any random
    source) over the same backends go to the same backend. *)
Theorem ip_hash_sticky (s : IPHash) rng rng' request request' ctx ctx' :
  backend_addresses ctx <> [] -> backend_addresses ctx' = backend_addresses ctx ->
  sa_ip (client_address ctx') = sa_ip (client_address ctx) ->
  exists address, address ∈ backend_addresses ctx /\
    select_backend s rng request ctx = (Returned (forwarder_new address), s) /\
    select_backend s rng' request' ctx' = (Returned (forwarder_new address), s).
Proof.
  intros Hne Hb Hip. destruct (ip_hash_select_returns s rng request ctx Hne) as (a & Ha & Hs).
  destruct (ip_hash_select_returns s rng' request' ctx') as (a' & Ha' & Hs'); [by rewrite Hb|].
  rewrite Hb, Hip, Ha in Ha'. injection Ha' as <-. exists a. split; [by eapply list_elem_of_lookup_2|done].
Qed.

(** Random never panics on a non-empty backend list and picks the backend its
    draw points at; on an empty list it always panics. *)
Theorem random_select_spec (s : Random) rng request ctx :
  draw_ok rng ->
  match backend_addresses ctx with
  | [] => select_backend s rng request ctx = (Panic, s)
  | bs => exists i address, rng (length bs) = Returned i /\ bs !! i = Some address /\
            select_backend s rng request ctx = (Returned (forwarder_new address), s)
  end.
Proof.
  intros [H0 Hr]. cbn [select_backend random_strategy]. unfold random_select.
  destruct (backend_addresses ctx) as [|b bs] eqn:E; [simpl; by rewrite H0|].
  destruct (Hr (length (b :: bs))) as (i & Hi & Hlt); [simpl; lia|].
  destruct (index_lt (b :: bs) _ Hlt) as (a & Ha & Hl). exists i, a. rewrite Hi. split_and!; [done..|].
  cbn [mbind outcome_bind]. by rewrite Ha.
Qed.

End LoadBalancing.

(** ** Witnesses *)
#[local] Existing Instance http_model.

Definition sample_client : SocketAddr := {| sa_ip := V4 2130706433; sa_port := 3000 |}.
Definition sample_context (bs : list string) : LbContext :=
  {| client_address := sample_client; backend_addresses := bs |}.
Definition sample_draw : draw := fun n => if decide (n = 0) then Panic else Returned (n - 1).

Lemma sample_draw_ok : draw_ok sample_draw.
Proof.
  split; [done|]. intros n Hn. exists (n - 1). unfold sample_draw. rewrite decide_False by lia. split; [done|lia].
Qed.

Lemma ip_hash_sticky_witness :
  exists address, address ∈ ["127.0.0.1:1"; "127.0.0.1:2"] /\
    select_backend (mk_IPHash (fun _ => 7%Z)) sample_draw (sample_request "GET" (Some "/") [])
      (sample_context ["127.0.0.1:1"; "127.0.0.1:2"])
    = (Returned (forwarder_new address), mk_IPHash (fun _ => 7%Z)) /\
    select_backend (mk_IPHash (fun _ => 7%Z)) sample_draw (sample_request "POST" (Some "/x") [])
      (sample_context ["127.0.0.1:1"; "127.0.0.1:2"])
    = (Returned (forwarder_new address), mk_IPHash (fun _ => 7%Z)).
Proof.
  by apply (ip_hash_sticky (mk_IPHash (fun _ => 7%Z)) sample_draw sample_draw
    (sample_request "GET" (Some "/") []) (sample_request "POST" (Some "/x") [])
    (sample_context ["127.0.0.1:1"; "127.0.0.1:2"]) (sample_context ["127.0.0.1:1"; "127.0.0.1:2"])).
Defined.

Lemma random_select_spec_witness :
  exists i address, sample_draw 2 = Returned i /\ ["a:1"; "b:1"] !! i = Some address /\
    select_backend mk_Random sample_draw (sample_request "GET" (Some "/") []) (sample_context ["a:1"; "b:1"])
    = (Returned (forwarder_new address), mk_Random).
Proof.
  exact (random_select_spec mk_Random sample_draw (sample_request "GET" (Some "/") [])
    (sample_context ["a:1"; "b:1"]) sample_draw_ok).
Defined.
