(* ===== verification/RoundRobin.v ===== *)
(** * Round robin: [load_balancing/round_robin.rs] *)
From S2P Require Import Prelude RustStd Http HttpModel LoadBalancing.

Local Open Scope Z_scope.

(** ** State: the counter behind its mutex

    A panic while the lock is held poisons the mutex, and [lock().unwrap()]
    panics on a poisoned mutex. *)
Record RoundRobin := mk_RoundRobin { rrc : Z; rrc_poisoned : bool }.

Definition round_robin_new : RoundRobin := mk_RoundRobin 0 false.

Section RoundRobin.
Context `{HT : Http}.

Definition round_robin_select (s : RoundRobin) (rng : draw) (request : Request) (ctx : LbContext) :
  outcome RequestForwarder * RoundRobin :=
  if rrc_poisoned s then (Panic, s)
  else
    let len := as_u32 (Z.of_nat (length (backend_addresses ctx))) in
    match checked 0 u32_max (rrc s + 1) with
    | Panic => (Panic, mk_RoundRobin (rrc s) true)
    | Returned n =>
        if decide (len = 0) then (Panic, mk_RoundRobin (rrc s) true)
        else
          let c := n mod len in
          match index (backend_addresses ctx) (Z.to_nat c) with
          | Returned address => (Returned (forwarder_new address), mk_RoundRobin c false)
          | Panic => (Panic, mk_RoundRobin c true)
          end
    end.

#[export] Instance round_robin_strategy : LoadBalancingStrategy RoundRobin := {|
  select_backend := round_robin_select;
  on_tcp_open := tcp_ignore;
  on_tcp_close := tcp_ignore |}.

#[export] Instance round_robin_contract : StrategyContract RoundRobin (fun _ => True).
Proof.
  split; try done. intros s rng request ctx fw s' _ _ Hs. revert Hs.
  cbn [select_backend round_robin_strategy]. unfold round_robin_select. repeat (case_match; try done).
  intros [= <- <-]. apply list_elem_of_lookup_2 with (i := Z.to_nat (a mod as_u32 (Z.of_nat (length (backend_addresses ctx))))).
  by apply index_Returned.
Qed.

(** ** Sequences of selections *)

(** The addresses chosen for a sequence of requests, one after the other. *)
Fixpoint select_many {S} `{!LoadBalancingStrategy S} (s : S) (rng : draw) (calls : list (Request * LbContext)) :
  list (outcome string) * S :=
  match calls with
  | [] => ([], s)
  | (request, ctx) :: calls' =>
      let '(o, s') := select_backend s rng request ctx in
      let '(os, s'') := select_many s' rng calls' in
      ((backend_address <$> o) :: os, s'')
  end.

(** ** Invariant: not poisoned, and the counter has room for the increment *)
Definition rr_ok (s : RoundRobin) : Prop := rrc_poisoned s = false /\ 0 <= rrc s < u32_max.

Definition rr_ctx_ok (ctx : LbContext) : Prop :=
  0 < Z.of_nat (length (backend_addresses ctx)) <= u32_max.

Lemma round_robin_new_ok : rr_ok round_robin_new.
Proof. done. Qed.

Lemma round_robin_select_spec (s : RoundRobin) rng request ctx :
  rr_ok s -> rr_ctx_ok ctx ->
  let c := (rrc s + 1) mod Z.of_nat (length (backend_addresses ctx)) in
  exists address, backend_addresses ctx !! Z.to_nat c = Some address /\
    select_backend s rng request ctx = (Returned (forwarder_new address), mk_RoundRobin c false).
Proof.
  intros [Hp Hr] Hc c. cbn [select_backend round_robin_strategy]. unfold round_robin_select, rr_ctx_ok in *.
  rewrite Hp, checked_Returned by lia. rewrite as_u32_small by (unfold u32_max in *; lia).
  rewrite decide_False by lia. fold c.
  assert (0 <= c < Z.of_nat (length (backend_addresses ctx))) as Hb by (apply Z.mod_pos_bound; lia).
  destruct (index_lt (backend_addresses ctx) (Z.to_nat c)) as (a & Ha & Hl); [lia|].
  exists a. by rewrite Ha.
Qed.

Lemma rr_ok_step c n : 0 < n <= u32_max -> rr_ok (mk_RoundRobin (c mod n) false).
Proof. intros Hn. split; [done|]. simpl. pose proof (Z.mod_pos_bound c n). lia. Qed.

(** The [k]-th of a run of selections over one list of backends. *)
Lemma round_robin_run (s : RoundRobin) rng bs calls :
  rr_ok s -> 0 < Z.of_nat (length bs) <= u32_max ->
  Forall (fun call => backend_addresses call.2 = bs) calls ->
  exists os s', select_many s rng calls = (os, s') /\ length os = length calls /\
    (forall k, (k < length calls)%nat ->
       exists a, bs !! Z.to_nat ((rrc s + 1 + Z.of_nat k) mod Z.of_nat (length bs)) = Some a /\
                 os !! k = Some (Returned a)).
Proof.
  intros Hs Hn Hcalls. revert s Hs. induction Hcalls as [|[request ctx] calls Hctx Hcalls IH]; intros s Hs.
  { exists [], s. split_and!; [done..|]. simpl. lia. }
  simpl in Hctx. destruct (round_robin_select_spec s rng request ctx) as (a & Ha & Hsel);
    [done|unfold rr_ctx_ok; by rewrite Hctx|]. rewrite Hctx in Ha, Hsel.
  destruct (IH (mk_RoundRobin ((rrc s + 1) mod Z.of_nat (length bs)) false)) as (os & s' & Hrun & Hlen & Hk);
    [by apply rr_ok_step|].
  eexists (_ :: os), s'. cbn [select_many]. rewrite Hsel, Hrun. split; [done|]. split; [simpl; by rewrite Hlen|].
  intros [|k] Hlt.
  - exists a. by rewrite Z.add_0_r.
  - destruct (Hk k) as (a' & Ha' & Hok); [simpl in Hlt; lia|]. exists a'. split; [|done].
    rewrite <-Ha'. do 2 f_equal. simpl rrc.
    rewrite <-(Z.add_assoc (_ mod _)), Zplus_mod_idemp_l. f_equal. lia.
Qed.

(** A run over [n] calls is the list rotated by [d]. *)
Lemma rotation_lookup {A} (bs : list A) (d k : nat) :
  (d <= length bs)%nat -> (k < length bs)%nat ->
  (drop d bs ++ take d bs) !! k = bs !! ((d + k) mod length bs)%nat.
Proof.
  intros Hd Hk. destruct (decide (k < length bs - d)%nat) as [Hlt|Hge].
  - rewrite lookup_app_l by (rewrite length_drop; lia). rewrite lookup_drop.
    by rewrite Nat.mod_small by lia.
  - rewrite lookup_app_r by (rewrite length_drop; lia). rewrite length_drop.
    rewrite lookup_take_lt by lia. f_equal.
    replace (d + k)%nat with (k - (length bs - d) + 1 * length bs)%nat by lia.
    rewrite Nat.Div0.mod_add, Nat.mod_small by lia. lia.
Qed.

(** C5: a full round serves every backend exactly once, in the order of the list
    and starting after the backend of the previous request: [n] selections over
    [n] backends give the list rotated, hence a permutation of it, and no
    selection panics. *)
Theorem round_robin_full_cycle (s : RoundRobin) rng bs calls :
  rr_ok s -> 0 < Z.of_nat (length bs) <= u32_max ->
  Forall (fun call => backend_addresses call.2 = bs) calls -> length calls = length bs ->
  let d := Z.to_nat ((rrc s + 1) mod Z.of_nat (length bs)) in
  (select_many s rng calls).1 = Returned <$> (drop d bs ++ take d bs) /\
  (select_many s rng calls).1 ≡ₚ Returned <$> bs.
Proof.
  intros Hs Hn Hcalls Hlen d.
  destruct (round_robin_run s rng bs calls) as (os & s' & Hrun & Hlo & Hk); [done..|]. rewrite Hrun. simpl.
  assert (0 <= (rrc s + 1) mod Z.of_nat (length bs) < Z.of_nat (length bs)) as Hb by (apply Z.mod_pos_bound; lia).
  assert (os = Returned <$> (drop d bs ++ take d bs)) as ->.
  { apply list_eq. intros k. rewrite list_lookup_fmap.
    destruct (decide (k < length bs)%nat) as [Hlt|Hge].
    - rewrite rotation_lookup by (unfold d; lia). destruct (Hk k) as (a & Ha & ->); [lia|].
      replace ((d + k) mod length bs)%nat with
        (Z.to_nat ((rrc s + 1 + Z.of_nat k) mod Z.of_nat (length bs))); [by rewrite Ha|].
      apply Nat2Z.inj. rewrite Nat2Z.inj_mod, Nat2Z.inj_add. unfold d.
      rewrite !Z2Nat.id by (try apply Z.mod_pos_bound; lia). by rewrite Zplus_mod_idemp_l.
    - rewrite lookup_ge_None_2 by lia. rewrite lookup_ge_None_2; [done|].
      rewrite length_app, length_drop, length_take. lia. }
  split; [done|]. apply fmap_Permutation. rewrite Permutation_app_comm. by rewrite take_drop.
Qed.

(** The counter never overflows its [u32] and the mutex is never poisoned,
    whatever non-empty backend lists (of any varying length up to [u32::MAX])
    the selections see: every selection returns a listed backend. *)
Theorem round_robin_never_panics (s : RoundRobin) rng calls :
  rr_ok s -> Forall (fun call => rr_ctx_ok call.2) calls ->
  Forall2 (fun call o => exists a, o = Returned a /\ a ∈ backend_addresses call.2)
    calls (select_many s rng calls).1 /\
  rr_ok (select_many s rng calls).2.
Proof.
  intros Hs Hcalls. revert s Hs. induction Hcalls as [|[request ctx] calls Hctx Hcalls IH]; intros s Hs.
  { split; [constructor|done]. }
  cbn [select_many]. destruct (round_robin_select_spec s rng request ctx) as (a & Ha & ->); [done..|].
  destruct (IH (mk_RoundRobin ((rrc s + 1) mod Z.of_nat (length (backend_addresses ctx))) false))
    as [IH1 IH2]; [by apply rr_ok_step|].
  destruct (select_many _ rng calls) as [os s']. split; [|done]. constructor; [|done].
  exists a. split; [done|]. by eapply list_elem_of_lookup_2.
Qed.

(** An empty backend list makes the selection panic on the remainder by zero,
    and the poisoned mutex makes every later selection panic too, whatever
    backends it is offered. *)
Theorem round_robin_empty_poisons (s : RoundRobin) rng request ctx rng' request' ctx' :
  rr_ok s -> backend_addresses ctx = [] ->
  let '(o, s') := select_backend s rng request ctx in
  o = Panic /\ select_backend s' rng' request' ctx' = (Panic, s').
Proof.
  intros [Hp Hr] Hb. cbn [select_backend round_robin_strategy]. unfold round_robin_select at 1.
  rewrite Hp, checked_Returned by lia. by rewrite Hb.
Qed.

End RoundRobin.

(** ** Witnesses *)
#[local] Existing Instance http_model.

Definition sample_call (bs : list string) : Request * LbContext :=
  (sample_request "GET" (Some "/") [], sample_context bs).

Lemma round_robin_full_cycle_witness :
  (select_many round_robin_new sample_draw
     (replicate 3 (sample_call ["a:1"; "b:1"; "c:1"]))).1 = [Returned "b:1"; Returned "c:1"; Returned "a:1"].
Proof.
  apply (round_robin_full_cycle round_robin_new sample_draw ["a:1"; "b:1"; "c:1"]
           (replicate 3 (sample_call ["a:1"; "b:1"; "c:1"]))); [done|by vm_compute|by repeat constructor|done].
Defined.

Lemma round_robin_never_panics_witness :
  rr_ok (select_many round_robin_new sample_draw
    [sample_call ["a:1"; "b:1"]; sample_call ["a:1"]; sample_call ["a:1"; "b:1"; "c:1"]]).2.
Proof.
  apply (round_robin_never_panics round_robin_new sample_draw
    [sample_call ["a:1"; "b:1"]; sample_call ["a:1"]; sample_call ["a:1"; "b:1"; "c:1"]]); [done|].
  by repeat constructor.
Defined.

Lemma round_robin_empty_poisons_witness :
  let '(o, s') := select_backend round_robin_new sample_draw (sample_request "GET" (Some "/") []) (sample_context []) in
  o = Panic /\
  select_backend s' sample_draw (sample_request "GET" (Some "/") []) (sample_context ["a:1"]) = (Panic, s').
Proof. by apply (round_robin_empty_poisons round_robin_new). Defined.
