(* ===== verification/LeastConnection.v ===== *)
(** * Least connection: [load_balancing/least_connection.rs] *)
From S2P Require Import Prelude RustStd Http HttpModel LoadBalancing.
From stdpp Require Import sorting.

Local Open Scope Z_scope.

(** ** State

    The map of open connections behind its [RwLock].  [lc_iter] is the order in
    which [HashMap::iter] yields the entries, which [std] leaves open.  A panic
    under the write lock poisons it; one under the read lock does not. *)
Record LeastConnection := mk_LeastConnection {
  connections : gmap string Z;
  lc_poisoned : bool;
  lc_iter : gmap string Z -> list (string * Z);
}.

Definition least_connection_new (iter : gmap string Z -> list (string * Z)) : LeastConnection :=
  mk_LeastConnection ∅ false iter.

(** Any order is possible, but every entry is yielded once. *)
Definition iter_ok (iter : gmap string Z -> list (string * Z)) : Prop :=
  forall m, iter m ≡ₚ map_to_list m.

(** [Iterator::enumerate] *)
Definition enumerate {A} (l : list A) : list (nat * A) := imap pair l.

Section LeastConnection.
Context `{HT : Http}.

(** [*connections.entry(authority).or_insert(dflt) += delta] under the write lock. *)
Definition lc_update (s : LeastConnection) (remote : Uri) (dflt delta : Z) : outcome unit * LeastConnection :=
  match uri_authority remote with
  | None => (Returned tt, s)
  | Some authority =>
      if lc_poisoned s then (Panic, s)
      else
        let key := Authority_to_string authority in
        let count := default dflt (connections s !! key) in
        match checked 0 usize_max (count + delta) with
        | Returned count' =>
            (Returned tt, mk_LeastConnection (<[key := count']> (connections s)) false (lc_iter s))
        | Panic => (Panic, mk_LeastConnection (<[key := count]> (connections s)) true (lc_iter s))
        end
  end.

Definition lc_on_tcp_open (s : LeastConnection) (remote : Uri) : outcome unit * LeastConnection :=
  lc_update s remote 0 1.

Definition lc_on_tcp_close (s : LeastConnection) (remote : Uri) : outcome unit * LeastConnection :=
  lc_update s remote 1 (-1).

(** The candidates: the backends not seen yet, or else the entries with the
    fewest connections, looked up among the backends. *)
Definition lc_address_indices (s : LeastConnection) (bs : list string) : outcome (list nat) :=
  if decide (size (connections s) = 0%nat \/ (size (connections s) < length bs)%nat) then
    Returned (filter (fun ia => connections s !! ia.2 = None) (enumerate bs)).*1
  else
    let backend_address_map := collect_map (prod_swap <$> enumerate bs) in
    let least_connections := sort_by_key snd (lc_iter s (connections s)) in
    first ← index least_connections 0;
    let min_connection_count := first.2 in
    mapM (fun entry => unwrap (backend_address_map !! entry.1))
      (take_while (fun entry => bool_decide (entry.2 = min_connection_count)) least_connections).

Definition lc_select (s : LeastConnection) (rng : draw) (request : Request) (ctx : LbContext) :
  outcome RequestForwarder * LeastConnection :=
  ( if lc_poisoned s then Panic
    else
      address_indices ← lc_address_indices s (backend_addresses ctx);
      i ← (if decide (length address_indices = 1%nat) then index address_indices 0
           else j ← rng (length address_indices); index address_indices j);
      address ← index (backend_addresses ctx) i;
      Returned (forwarder_new address), s).

#[export] Instance least_connection_strategy : LoadBalancingStrategy LeastConnection := {|
  select_backend := lc_select;
  on_tcp_open := lc_on_tcp_open;
  on_tcp_close := lc_on_tcp_close |}.

#[export] Instance least_connection_contract : StrategyContract LeastConnection (fun _ => True).
Proof.
  split; try done. intros s rng request ctx fw s' _ _ Hs. apply (f_equal fst) in Hs. revert Hs.
  cbn [select_backend least_connection_strategy]. unfold lc_select. simpl. case_match; [done|].
  destruct (lc_address_indices s (backend_addresses ctx)) as [idx|]; [|done]. cbn [mbind outcome_bind].
  intros Hs. exact (index_forwarder_member _ _ _ Hs).
Qed.

(** ** The number of open connections a backend is known to have *)
Definition count (s : LeastConnection) (a : string) : Z := default 0 (connections s !! a).

Definition lc_ok (s : LeastConnection) : Prop :=
  lc_poisoned s = false /\ iter_ok (lc_iter s) /\ map_Forall (fun _ c => 0 <= c) (connections s).

(** Drawing one of the candidate indices. *)
Lemma pick_index (P : string -> Prop) (idx : list nat) (bs : list string) rng :
  draw_ok rng -> idx <> [] -> Forall (fun i => exists a, bs !! i = Some a /\ P a) idx ->
  exists a, a ∈ bs /\ P a /\
    (i ← (if decide (length idx = 1%nat) then index idx 0
          else j ← rng (length idx); index idx j);
     address ← index bs i; Returned (forwarder_new address)) = Returned (forwarder_new a).
Proof.
  intros Hr Hne HP.
  assert (exists j, (if decide (length idx = 1%nat) then index idx 0
      else j ← rng (length idx); index idx j) = index idx j /\ (j < length idx)%nat) as (j & -> & Hj).
  { case_decide as Hl; [exists 0%nat; split; [done|lia]|].
    destruct Hr as [_ Hr]. destruct (Hr (length idx)) as (j & Hg & Hj); [destruct idx; simpl in *; [done|lia]|].
    exists j. by rewrite Hg. }
  destruct (index_lt idx j Hj) as (i & -> & Hi). cbn [mbind outcome_bind].
  destruct (Forall_lookup_1 _ _ _ _ HP Hi) as (a & Ha & HPa). exists a.
  rewrite (index_Some _ _ _ Ha). split; [by eapply list_elem_of_lookup_2|done].
Qed.

Lemma enumerate_elem (bs : list string) i a : (i, a) ∈ enumerate bs <-> bs !! i = Some a.
Proof.
  unfold enumerate. rewrite elem_of_lookup_imap. split; [naive_solver|]. intros Ha. by exists i, a.
Qed.

Lemma backend_map_lookup (bs : list string) a :
  a ∈ bs -> exists i, collect_map (prod_swap <$> enumerate bs) !! a = Some i /\ bs !! i = Some a.
Proof.
  intros Ha.
  assert (forall (l : list (string * nat)), a ∈ l.*1 -> is_Some (collect_map l !! a)) as Hin.
  { intros l. induction l as [|[k v] l IH] using rev_ind; [by intros ?%elem_of_nil|].
    rewrite fmap_app, elem_of_app, collect_map_snoc. simpl. intros Hor.
    destruct (decide (k = a)) as [->|Hne]; [by rewrite lookup_insert_eq; eauto|].
    rewrite lookup_insert_ne by done. apply IH. set_solver. }
  destruct (Hin (prod_swap <$> enumerate bs)) as [i Hi].
  { apply list_elem_of_lookup in Ha as [i Ha]. rewrite <-list_fmap_compose. apply list_elem_of_fmap.
    exists (i, a). split; [done|]. by apply enumerate_elem. }
  exists i. split; [done|]. apply collect_map_lookup in Hi as (l1 & l2 & Heq & _).
  assert ((a, i) ∈ prod_swap <$> enumerate bs) as Hmem by (rewrite Heq; set_solver).
  apply list_elem_of_fmap in Hmem as ([i' a'] & [= -> ->] & Hmem). by apply enumerate_elem.
Qed.

Lemma mapM_outcome_Returned {A B} (f : A -> outcome B) (P : B -> Prop) l :
  (forall x, x ∈ l -> exists y, f x = Returned y /\ P y) ->
  exists ys, mapM f l = Returned ys /\ length ys = length l /\ Forall P ys.
Proof.
  induction l as [|x l IH]; intros Hf; [by exists []; split_and!; [..|constructor]|].
  destruct (Hf x) as (y & Hy & HP); [set_solver|]. destruct IH as (ys & Hys & Hl & HPs); [set_solver|].
  exists (y :: ys). simpl. rewrite Hy. cbn [mbind outcome_bind]. rewrite Hys. simpl. rewrite Hl. auto.
Qed.

Lemma mapM_outcome_Panic {A B} (f : A -> outcome B) l x :
  x ∈ l -> f x = Panic -> mapM f l = Panic.
Proof.
  induction 1 as [l|x y l Hx IH]; intros Hf; simpl; [by rewrite Hf|].
  destruct (f y); [|done]. cbn [mbind outcome_bind]. by rewrite IH.
Qed.

(** A sorted list starts with all entries that carry the least key. *)
Lemma take_while_min (l : list (string * Z)) x e :
  StronglySorted (key_le snd) (x :: l) -> e ∈ x :: l -> e.2 = x.2 ->
  e ∈ take_while (fun y => bool_decide (y.2 = x.2)) (x :: l).
Proof.
  intros Hs. simpl. rewrite bool_decide_eq_true_2 by done.
  apply StronglySorted_inv in Hs as [Hs Hx]. intros [->|He]%elem_of_cons Heq; [by left|]. right.
  revert Hs Hx He. induction l as [|y l IH]; intros Hs Hx He; [by apply elem_of_nil in He|].
  apply StronglySorted_inv in Hs as [Hs Hy]. apply Forall_cons in Hx as [Hxy Hx]. simpl.
  apply elem_of_cons in He as [->|He].
  - rewrite bool_decide_eq_true_2 by done. by left.
  - rewrite Forall_forall in Hy. specialize (Hy e He). unfold key_le in *.
    rewrite bool_decide_eq_true_2 by lia. right. by apply IH.
Qed.

Lemma sorted_entries (s : LeastConnection) e :
  iter_ok (lc_iter s) ->
  e ∈ sort_by_key snd (lc_iter s (connections s)) <-> connections s !! e.1 = Some e.2.
Proof.
  intros Hi. rewrite sort_by_key_perm, (Hi (connections s)). destruct e. apply elem_of_map_to_list.
Qed.

(** The sorted entries of a non-empty map, and their least count. *)
Lemma sorted_first (s : LeastConnection) :
  iter_ok (lc_iter s) -> size (connections s) <> 0%nat ->
  exists x l, sort_by_key snd (lc_iter s (connections s)) = x :: l /\ connections s !! x.1 = Some x.2 /\
    StronglySorted (key_le snd) (x :: l) /\ map_Forall (fun _ c => x.2 <= c) (connections s).
Proof.
  intros Hi Hne. pose proof (sort_by_key_sorted snd (lc_iter s (connections s))) as Hsort.
  pose proof (fun e => sorted_entries s e Hi) as He.
  destruct (sort_by_key snd (lc_iter s (connections s))) as [|x l] eqn:E.
  - destruct Hne. apply map_size_empty_iff, map_empty. intros k.
    destruct (connections s !! k) as [c|] eqn:Ek; [|done]. apply (He (k, c)) in Ek. by apply elem_of_nil in Ek.
  - exists x, l. split_and!; [done|apply He; by left|done|]. intros k c Hk.
    apply (He (k, c)) in Hk. apply elem_of_cons in Hk as [<-|Hk]; [done|].
    apply StronglySorted_inv in Hsort as [_ Hx]. rewrite Forall_forall in Hx. apply (Hx _ Hk).
Qed.

(** Fewer tracked backends than backends: one of them is not tracked. *)
Lemma untracked_exists (s : LeastConnection) bs :
  NoDup bs -> (size (connections s) < length bs)%nat -> exists a, a ∈ bs /\ connections s !! a = None.
Proof.
  intros Hnd Hlt. destruct (decide (Exists (fun a => connections s !! a = None) bs)) as [Hex|Hex].
  - apply Exists_exists in Hex. naive_solver.
  - assert (list_to_set bs ⊆ dom (connections s)) as Hsub.
    { intros a Ha. apply elem_of_dom. apply elem_of_list_to_set in Ha.
      destruct (connections s !! a) eqn:E; [done|]. destruct Hex. apply Exists_exists. eauto. }
    apply subseteq_size in Hsub. rewrite size_list_to_set, size_dom in Hsub by done. lia.
Qed.

(** As many tracked backends as backends, all of them backends: all are tracked. *)
Lemma all_tracked (s : LeastConnection) bs a :
  NoDup bs -> (length bs <= size (connections s))%nat -> (forall k, k ∈ dom (connections s) -> k ∈ bs) ->
  a ∈ bs -> is_Some (connections s !! a).
Proof.
  intros Hnd Hle Hsub Ha. apply elem_of_dom.
  assert (dom (connections s) = list_to_set bs) as ->; [|by apply elem_of_list_to_set].
  apply set_subseteq_size_eq; [intros k Hk; by apply elem_of_list_to_set, Hsub|].
  rewrite size_list_to_set, size_dom by done. done.
Qed.

Lemma untracked_indices (s : LeastConnection) bs :
  Forall (fun i => exists a, bs !! i = Some a /\ connections s !! a = None)
    (filter (fun ia => connections s !! ia.2 = None) (enumerate bs)).*1.
Proof.
  apply Forall_fmap, Forall_forall. intros [i a] [Ha Hi]%list_elem_of_filter.
  apply enumerate_elem in Hi. simpl. eauto.
Qed.

Lemma untracked_indices_ne (s : LeastConnection) bs a :
  a ∈ bs -> connections s !! a = None ->
  (filter (fun ia => connections s !! ia.2 = None) (enumerate bs)).*1 <> [].
Proof.
  intros Ha Hc Hnil. apply list_elem_of_lookup in Ha as [i Hi]. apply fmap_nil_inv in Hnil.
  assert ((i, a) ∈ filter (fun ia => connections s !! ia.2 = None) (enumerate bs)) as Hin.
  { apply list_elem_of_filter. split; [done|]. by apply enumerate_elem. }
  rewrite Hnil in Hin. by apply elem_of_nil in Hin.
Qed.

(** While every tracked address is one of the offered backends, the selection
    returns, leaves the counters alone, and names a backend with the fewest open
    connections (a backend without an entry counts as zero). *)
Lemma lc_selects_least (s : LeastConnection) rng request ctx :
  lc_ok s -> draw_ok rng -> NoDup (backend_addresses ctx) -> backend_addresses ctx <> [] ->
  (forall a, a ∈ dom (connections s) -> a ∈ backend_addresses ctx) ->
  exists a, a ∈ backend_addresses ctx /\ (forall b, b ∈ backend_addresses ctx -> count s a <= count s b) /\
    select_backend s rng request ctx = (Returned (forwarder_new a), s).
Proof.
  intros (Hp & Hi & Hpos) Hr Hnd Hne Hsub. set (bs := backend_addresses ctx) in *.
  assert (forall b, 0 <= count s b) as Hcount.
  { intros b. unfold count. destruct (connections s !! b) eqn:E; simpl; [by eapply Hpos|done]. }
  cbn [select_backend least_connection_strategy]. unfold lc_select. rewrite Hp. fold bs.
  unfold lc_address_indices. destruct (decide _) as [Hfew|Hmany].
  - assert (exists a, a ∈ bs /\ connections s !! a = None) as (u & Hu & Hun).
    { apply untracked_exists; [done|]. destruct bs; [done|]. simpl in *. lia. }
    destruct (pick_index (fun a => connections s !! a = None) _ bs rng Hr
      (untracked_indices_ne s bs u Hu Hun) (untracked_indices s bs)) as (a & Ha & Hc & Hpick).
    exists a. cbn [mbind outcome_bind] in *. rewrite Hpick. split_and!; [done| |done].
    intros b _. unfold count at 1. rewrite Hc. apply Hcount.
  - destruct (sorted_first s Hi) as (x & l & Hsorted & Hx & Hss & Hmin); [lia|]. rewrite Hsorted.
    cbn [index unwrap mbind outcome_bind lookup list_lookup].
    set (tw := take_while _ _).
    destruct (mapM_outcome_Returned (fun entry => unwrap (collect_map (prod_swap <$> enumerate bs) !! entry.1))
      (fun i => exists a, bs !! i = Some a /\ connections s !! a = Some x.2) tw) as (idx & Hidx & Hlen & Hall).
    { intros e He. assert (e ∈ x :: l /\ e.2 = x.2) as [Hel He2].
      { split; [by eapply elem_of_prefix, take_while_prefix|].
        pose proof (take_while_all (fun e : string * Z => bool_decide (e.2 = x.2)) (x :: l)) as Hall.
        rewrite forallb_forall in Hall. by eapply bool_decide_eq_true, Hall, list_elem_of_In. }
      rewrite <-Hsorted in Hel. apply sorted_entries in Hel; [|done].
      destruct (backend_map_lookup bs e.1) as (i & Hmap & Hbs); [by apply Hsub, elem_of_dom|].
      exists i. rewrite Hmap. split; [done|]. exists e.1. by rewrite <-He2. }
    assert (idx <> []) as Hidxne.
    { intros ->. subst tw. simpl in Hlen. by rewrite bool_decide_eq_true_2 in Hlen. }
    destruct (pick_index _ idx bs rng Hr Hidxne Hall) as (a & Ha & Hc & Hpick).
    exists a. rewrite Hidx. cbn [mbind outcome_bind] in *. rewrite Hpick. split_and!; [done| |done].
    intros b Hb. destruct (all_tracked s bs b) as [c Hcb]; [done|lia|done..|].
    unfold count. rewrite Hc, Hcb. simpl. by eapply Hmin.
Qed.

(** A tracked address that holds the least count but is not among the offered
    backends (it was filtered out as unhealthy) makes the selection panic, as
    soon as there are at least as many entries as backends. *)
Theorem least_connection_stale_panics (s : LeastConnection) rng request ctx a c :
  lc_ok s -> (length (backend_addresses ctx) <= size (connections s))%nat ->
  connections s !! a = Some c -> map_Forall (fun _ c' => c <= c') (connections s) ->
  a ∉ backend_addresses ctx ->
  select_backend s rng request ctx = (Panic, s).
Proof.
  intros (Hp & Hi & _) Hle Ha Hmin Hnot. cbn [select_backend least_connection_strategy]. unfold lc_select.
  rewrite Hp. set (bs := backend_addresses ctx) in *. unfold lc_address_indices.
  assert (size (connections s) <> 0%nat) as Hsz.
  { intros H0%map_size_empty_inv. by rewrite H0, lookup_empty in Ha. }
  rewrite decide_False by lia.
  destruct (sorted_first s Hi Hsz) as (x & l & Hsorted & Hx & Hss & Hmin'). rewrite Hsorted.
  cbn [index unwrap mbind outcome_bind lookup list_lookup].
  rewrite (mapM_outcome_Panic _ _ (a, c)); [done| |].
  - apply (take_while_min l x (a, c)); [done| |].
    + rewrite <-Hsorted. by apply sorted_entries.
    + simpl. apply Hmin' in Ha as H1. apply Hmin in Hx as H2. lia.
  - simpl. destruct (collect_map _ !! a) as [i|] eqn:E; [|done]. exfalso. apply Hnot.
    apply collect_map_lookup in E as (l1 & l2 & Heq & _).
    assert ((a, i) ∈ prod_swap <$> enumerate bs) as Hm by (rewrite Heq; set_solver).
    apply list_elem_of_fmap in Hm as ([i' a'] & [= -> ->] & Hm). apply enumerate_elem in Hm.
    by eapply list_elem_of_lookup_2.
Qed.

End LeastConnection.

(** ** Witnesses *)
#[local] Existing Instance http_model.

Lemma map_to_list_iter_ok : iter_ok map_to_list.
Proof. by intros m. Qed.

(** Two backends with one connection each, then [b:1] loses its connection. *)
Definition sample_lc : LeastConnection :=
  mk_LeastConnection {[ "a:1" := 1; "b:1" := 0 ]} false map_to_list.

Lemma sample_lc_ok : lc_ok sample_lc.
Proof.
  split_and!; [done|apply map_to_list_iter_ok|]. simpl.
  apply map_Forall_insert_2; [done|]. by apply map_Forall_singleton.
Qed.

Lemma least_connection_stale_panics_witness :
  select_backend sample_lc sample_draw (sample_request "GET" (Some "/") []) (sample_context ["a:1"])
  = (Panic, sample_lc).
Proof.
  apply (least_connection_stale_panics sample_lc sample_draw (sample_request "GET" (Some "/") [])
           (sample_context ["a:1"]) "b:1" 0).
  - apply sample_lc_ok.
  - vm_compute. lia.
  - done.
  - simpl. apply map_Forall_insert_2; [done|]. by apply map_Forall_singleton.
  - simpl. set_solver.
Defined.
