(* ===== verification/StickyCookie.v ===== *)
(** * Sticky cookies: [load_balancing/sticky_cookie.rs] *)
From S2P Require Import Prelude RustStd Http HttpModel LoadBalancing.

(** ** The [cookie] crate *)
Inductive SameSite : Type := Strict | Lax | NoneSite.

Class CookieCrate := {
  Cookie : Type;
  Cookie_parse : string -> option Cookie;
  cookie_name : Cookie -> string;
  cookie_value : Cookie -> string;
  (** [Cookie::build(name, value).http_only(_).secure(_).same_site(_).finish().to_string()] *)
  Cookie_render : string -> string -> bool -> bool -> SameSite -> string;
}.

(** Characters that need no treatment in a cookie name or value: printable, no
    separator, no quote, no blank. *)
Definition cookie_char (a : ascii) : bool :=
  visible_ascii a && negb (bool_decide (a ∈ [" "; ";"; "="; ","; "034"; "%"; "\"]%char)).

Definition cookie_text (s : string) : bool :=
  match s with EmptyString => false | _ => str_forallb cookie_char s end.

Class CookieLaws `{CookieCrate} : Prop := {
  (** [parse] reads [name=value], a leading blank is trimmed *)
  Cookie_parse_pair pad n v :
    pad = "" \/ pad = " " -> cookie_text n = true -> cookie_text v = true ->
    exists c, Cookie_parse (pad +:+ n +:+ "=" +:+ v) = Some c /\ cookie_name c = n /\ cookie_value c = v;
  (** a [Set-Cookie] text is [name=value] and printable attributes behind semicolons *)
  Cookie_render_pair n v http_only secure same_site :
    exists attrs, Cookie_render n v http_only secure same_site = n +:+ "=" +:+ v +:+ attrs /\
      str_forallb visible_ascii attrs = true /\ (attrs = "" \/ exists t, attrs = String ";" t);
}.

Section StickyCookie.
Context `{HT : Http} `{CK : CookieCrate}.

Record StickyCookie (S : Type) := mk_StickyCookie {
  sc_cookie_name : string;
  sc_inner : S;
  sc_http_only : bool;
  sc_secure : bool;
  sc_same_site : SameSite;
}.
#[global] Arguments mk_StickyCookie {S}.
#[global] Arguments sc_cookie_name {S}.
#[global] Arguments sc_inner {S}.
#[global] Arguments sc_http_only {S}.
#[global] Arguments sc_secure {S}.
#[global] Arguments sc_same_site {S}.

Definition sc_with_inner {S} (s : StickyCookie S) (inner : S) : StickyCookie S :=
  mk_StickyCookie (sc_cookie_name s) inner (sc_http_only s) (sc_secure s) (sc_same_site s).

(** ** [try_parse_sticky_cookie] *)
Definition try_parse_sticky_cookie {S} (s : StickyCookie S) (request : Request) : option Cookie :=
  cookie_header ← headers_get (req_headers request) "cookie";
  str ← hv_to_str cookie_header;
  find_map (fun cookie_str =>
              cookie ← Cookie_parse cookie_str;
              if decide (cookie_name cookie = sc_cookie_name s) then Some cookie else None)
    (str_split ";" str).

(** ** [StickyCookie::modify_response] *)
Definition sc_modify_response {S} (s : StickyCookie S) (address : string) (response : Response) :
  outcome Response :=
  cookie_val ← unwrap (hv_from_str
    (Cookie_render (sc_cookie_name s) address (sc_http_only s) (sc_secure s) (sc_same_site s)));
  let hs := resp_headers response in
  let hs' := if headers_contains_key hs "set-cookie"
             then headers_append "set-cookie" cookie_val hs
             else headers_insert "set-cookie" cookie_val hs in
  Returned (mk_response _ (resp_status response) hs' (resp_body response)).

(** ** The strategy *)
Definition sc_select {S} `{!LoadBalancingStrategy S} (s : StickyCookie S) (rng : draw) (request : Request)
  (ctx : LbContext) : outcome RequestForwarder * StickyCookie S :=
  let hit :=
    cookie ← try_parse_sticky_cookie s request;
    iter_find (fun it => bool_decide (it = cookie_value cookie)) (backend_addresses ctx) in
  match hit with
  | Some address => (Returned (forwarder_new address), s)
  | None =>
      let '(o, inner) := select_backend (sc_inner s) rng request ctx in
      ( backend ← o;
        Returned (forwarder_map_response backend (sc_modify_response s (backend_address backend))),
        sc_with_inner s inner)
  end.

(** [StickyCookie] keeps the default [on_tcp_open] and [on_tcp_close]. *)
#[export] Instance sticky_cookie_strategy {S} `{!LoadBalancingStrategy S} :
  LoadBalancingStrategy (StickyCookie S) := {|
  select_backend := sc_select;
  on_tcp_open := tcp_ignore;
  on_tcp_close := tcp_ignore |}.

#[export] Instance sticky_cookie_contract {S} `{!LoadBalancingStrategy S} inv `{!StrategyContract S inv} :
  StrategyContract (StickyCookie S) (fun s => inv (sc_inner s)).
Proof.
  split; try done.
  - intros s rng request ctx fw s' Hinv Hr. cbn [select_backend sticky_cookie_strategy]. unfold sc_select.
    destruct (_ ≫= _) as [a|] eqn:E.
    + intros [= <- <-]. destruct (try_parse_sticky_cookie s request) as [c|]; [|done]. simpl in E.
      apply iter_find_Some in E as (l1 & l2 & -> & _). simpl. set_solver.
    + destruct (select_backend (sc_inner s) rng request ctx) as [[b|] inner] eqn:Es; [|done].
      intros [= <- <-]. simpl. by eapply select_member.
  - intros s rng request ctx Hinv. cbn [select_backend sticky_cookie_strategy]. unfold sc_select.
    destruct (_ ≫= _) as [a|]; [done|].
    pose proof (select_inv (sc_inner s) rng request ctx Hinv) as Hi.
    by destruct (select_backend (sc_inner s) rng request ctx) as [o inner].
Qed.

(** ** Clients *)

(** What a client sends back for a [Set-Cookie] value: the part before the
    attributes. *)
Definition cookie_of_set_cookie (v : string) : string :=
  match str_split ";" v with p :: _ => p | [] => "" end.

Lemma str_split_first (c : ascii) p t :
  str_forallb (fun a => negb (bool_decide (a = c))) p = true ->
  (t = "" \/ exists u, t = String c u) -> exists l, str_split c (p +:+ t) = p :: l.
Proof.
  induction p as [|a p IH]; simpl.
  - intros _ [->|[u ->]]; simpl; [by exists []|]. rewrite decide_True by done. eauto.
  - intros [Ha Hp]%andb_prop Ht. destruct IH as [l Hl]; [done..|].
    rewrite decide_False by (intros ->; by rewrite bool_decide_eq_true_2 in Ha).
    rewrite Hl. eauto.
Qed.

Lemma cookie_text_chars s : cookie_text s = true -> str_forallb cookie_char s = true.
Proof. by destruct s. Qed.

Lemma cookie_char_not_semicolon a : cookie_char a = true -> negb (bool_decide (a = ";"%char)) = true.
Proof.
  unfold cookie_char. intros [_ Ha]%andb_prop. destruct (decide (a = ";"%char)) as [->|Hne]; [done|].
  by rewrite bool_decide_eq_false_2.
Qed.

Context `{CL : !CookieLaws}.

Lemma cookie_of_render n v http_only secure same_site :
  cookie_text n = true -> cookie_text v = true ->
  cookie_of_set_cookie (Cookie_render n v http_only secure same_site) = n +:+ "=" +:+ v.
Proof.
  intros Hn Hv. destruct (Cookie_render_pair n v http_only secure same_site) as (attrs & -> & _ & Hat).
  unfold cookie_of_set_cookie. destruct (str_split_first ";" (n +:+ "=" +:+ v) attrs) as [l Hl]; [|done|].
  - rewrite !str_forallb_app. simpl.
    by rewrite !(str_forallb_impl cookie_char _ _ cookie_char_not_semicolon) by (by apply cookie_text_chars).
  - rewrite <-!append_assoc in Hl. by rewrite Hl.
Qed.

(** The [Set-Cookie] value of a configured cookie is a valid header value. *)
Lemma cookie_render_valid `{HL : !HttpLaws} n v http_only secure same_site :
  cookie_text n = true -> cookie_text v = true ->
  hv_from_str (Cookie_render n v http_only secure same_site) = Some (Cookie_render n v http_only secure same_site).
Proof.
  intros Hn Hv. apply hv_from_str_visible.
  destruct (Cookie_render_pair n v http_only secure same_site) as (attrs & -> & Hat & _).
  assert (forall t, cookie_text t = true -> str_forallb visible_ascii t = true) as Hvis.
  { intros t Ht. apply (str_forallb_impl cookie_char); [|by apply cookie_text_chars].
    intros a Ha. unfold cookie_char in Ha. by apply andb_prop in Ha as [? _]. }
  rewrite !str_forallb_app. simpl. by rewrite (Hvis n Hn), (Hvis v Hv), Hat.
Qed.

(** Without a cookie that names an offered backend the inner strategy decides. *)
Lemma sc_select_miss {S} `{!LoadBalancingStrategy S} (s : StickyCookie S) rng request ctx backend inner :
  (forall c, try_parse_sticky_cookie s request = Some c -> cookie_value c ∉ backend_addresses ctx) ->
  select_backend (sc_inner s) rng request ctx = (Returned backend, inner) ->
  select_backend s rng request ctx =
    (Returned (forwarder_map_response backend (sc_modify_response s (backend_address backend))),
     sc_with_inner s inner).
Proof.
  intros Hmiss Hsel. cbn [select_backend sticky_cookie_strategy]. unfold sc_select.
  assert ((cookie ← try_parse_sticky_cookie s request;
    iter_find (fun it => bool_decide (it = cookie_value cookie)) (backend_addresses ctx)) = None) as ->.
  { destruct (try_parse_sticky_cookie s request) as [c|]; simpl; [|done]. apply iter_find_None.
    apply Forall_forall. intros a Ha. apply bool_decide_eq_false. intros ->. by apply (Hmiss c). }
  by rewrite Hsel.
Qed.

(** [modify_response] adds one value to [Set-Cookie] and changes nothing else. *)
Lemma sc_modify_response_adds {S} `{HL : !HttpLaws} (s : StickyCookie S) address response response' :
  sc_modify_response s address response = Returned response' ->
  resp_status response' = resp_status response /\ resp_body response' = resp_body response /\
  forall k, headers_get_all (resp_headers response') k =
    headers_get_all (resp_headers response) k ++
    if decide (k = "set-cookie")
    then [Cookie_render (sc_cookie_name s) address (sc_http_only s) (sc_secure s) (sc_same_site s)]
    else [].
Proof.
  unfold sc_modify_response. destruct (hv_from_str _) as [v|] eqn:Ev; [|done]. simpl.
  apply hv_from_str_sound in Ev as ->. intros [= <-]. simpl. split; [done|]. split; [done|]. intros k.
  rewrite headers_contains_key_spec. destruct (bool_decide _) eqn:Eb.
  - rewrite headers_get_all_append. repeat case_decide; subst; try done. by rewrite app_nil_r.
  - apply bool_decide_eq_false in Eb. apply dec_stable in Eb.
    rewrite headers_get_all_insert. repeat case_decide; subst; try done; [by rewrite Eb|by rewrite app_nil_r].
Qed.

(** A selection that the cookie does not decide is the inner strategy's, and
    its response mapper adds one [Set-Cookie] value for the chosen backend
    behind the values the backend sent, and changes nothing else. *)
Theorem sticky_miss_sets_cookie {S} `{!LoadBalancingStrategy S} `{HL : !HttpLaws} (s : StickyCookie S)
  rng request ctx backend inner response response' :
  (forall c, try_parse_sticky_cookie s request = Some c -> cookie_value c ∉ backend_addresses ctx) ->
  select_backend (sc_inner s) rng request ctx = (Returned backend, inner) ->
  response_mapper backend response = Returned response ->
  exists fw, select_backend s rng request ctx = (Returned fw, sc_with_inner s inner) /\
    backend_address fw = backend_address backend /\
    (response_mapper fw response = Returned response' ->
     resp_status response' = resp_status response /\ resp_body response' = resp_body response /\
     forall k, headers_get_all (resp_headers response') k =
       headers_get_all (resp_headers response) k ++
       if decide (k = "set-cookie")
       then [Cookie_render (sc_cookie_name s) (backend_address backend) (sc_http_only s) (sc_secure s) (sc_same_site s)]
       else []).
Proof.
  intros Hmiss Hsel Hmap. rewrite (sc_select_miss s rng request ctx backend inner) by done.
  eexists. split; [done|]. split; [done|]. simpl. rewrite Hmap. apply sc_modify_response_adds.
Qed.

(** A request that carries the pair [name=address], after pairs of other names. *)
Definition carries_pair (name : string) (pair : string) (request : Request) : Prop :=
  exists header l1 l2 pad,
    headers_get (req_headers request) "cookie" = Some header /\ hv_to_str header = Some header /\
    (pad = "" \/ pad = " ") /\ str_split ";" header = l1 ++ (pad +:+ pair) :: l2 /\
    Forall (fun p => forall c, Cookie_parse p = Some c -> cookie_name c <> name) l1.

Lemma sc_select_hit {S} `{!LoadBalancingStrategy S} (s : StickyCookie S) rng request ctx address :
  cookie_text (sc_cookie_name s) = true -> cookie_text address = true ->
  address ∈ backend_addresses ctx ->
  carries_pair (sc_cookie_name s) (sc_cookie_name s +:+ "=" +:+ address) request ->
  select_backend s rng request ctx = (Returned (forwarder_new address), s).
Proof.
  intros Hn Ha Hin (header & l1 & l2 & pad & Hh & Hts & Hpad & Hsplit & Hl1).
  cbn [select_backend sticky_cookie_strategy]. unfold sc_select.
  destruct (Cookie_parse_pair pad (sc_cookie_name s) address) as (c & Hc & Hcn & Hcv); [done..|].
  assert (try_parse_sticky_cookie s request = Some c) as ->.
  { unfold try_parse_sticky_cookie. rewrite Hh. simpl. rewrite Hts. simpl. apply find_map_Some.
    eexists l1, _, l2. split; [done|]. rewrite Hc. simpl. rewrite decide_True by done. split; [done|].
    eapply Forall_impl; [done|]. intros p Hp. simpl in *.
    destruct (Cookie_parse p) as [c'|] eqn:E; [|done]. simpl. rewrite decide_False; [done|]. by apply Hp. }
  simpl. assert (exists a, iter_find (fun it => bool_decide (it = cookie_value c)) (backend_addresses ctx) = Some a
    /\ a = address) as (a & -> & ->); [|done].
  destruct (iter_find _ _) as [a|] eqn:E.
  - exists a. split; [done|]. apply iter_find_Some in E as (? & ? & _ & Heq & _).
    apply bool_decide_eq_true in Heq. congruence.
  - apply iter_find_None in E. rewrite Forall_forall in E. specialize (E address Hin).
    apply bool_decide_eq_false in E. congruence.
Qed.

(** C24: stickiness.  When the inner strategy chooses a backend for a client without a
    usable cookie, the response to the client carries, as its last [Set-Cookie] value, a
    cookie with which the client comes back to that backend: a later request that returns
    the pair of that value (anywhere in its [Cookie] header, after pairs of other
    names) is sent to the same backend as long as it is offered, whatever the inner
    strategy did in between; the inner strategy is not consulted and keeps its state,
    and the response to it gets no further cookie. *)
Theorem sticky_roundtrip {S} `{!LoadBalancingStrategy S} `{HL : !HttpLaws} (s : StickyCookie S)
  rng request ctx backend inner sent received :
  cookie_text (sc_cookie_name s) = true -> cookie_text (backend_address backend) = true ->
  (forall c, try_parse_sticky_cookie s request = Some c -> cookie_value c ∉ backend_addresses ctx) ->
  select_backend (sc_inner s) rng request ctx = (Returned backend, inner) ->
  response_mapper backend received = Returned sent ->
  exists fw response set_cookie,
    select_backend s rng request ctx = (Returned fw, sc_with_inner s inner) /\
    backend_address fw = backend_address backend /\
    response_mapper fw received = Returned response /\
    last (headers_get_all (resp_headers response) "set-cookie") = Some set_cookie /\
    forall later rng' request' ctx',
      carries_pair (sc_cookie_name s) (cookie_of_set_cookie set_cookie) request' ->
      backend_address backend ∈ backend_addresses ctx' ->
      select_backend (sc_with_inner s later) rng' request' ctx' =
        (Returned (forwarder_new (backend_address backend)), sc_with_inner s later).
Proof.
  intros Hn Ha Hmiss Hsel Hmap. rewrite (sc_select_miss s rng request ctx backend inner) by done.
  destruct (sc_modify_response s (backend_address backend) sent) as [response|] eqn:Em.
  2:{ unfold sc_modify_response in Em. by rewrite cookie_render_valid in Em. }
  eexists _, response, _. split_and!; [done|done|simpl; by rewrite Hmap| |].
  - apply sc_modify_response_adds in Em as (_ & _ & ->). rewrite decide_True by done. apply last_snoc.
  - intros later rng' request' ctx'. rewrite cookie_of_render by done. intros Hc Hin.
    by apply sc_select_hit.
Qed.

End StickyCookie.

(** ** A concrete implementation of the cookie interface, and witnesses *)
#[local] Existing Instance http_model.

Definition cookie_model : CookieCrate := {|
  Cookie := string * string;
  Cookie_parse s := split_once (str_trim_start s) "=";
  cookie_name := fst;
  cookie_value := snd;
  Cookie_render n v http_only secure same_site :=
    n +:+ "=" +:+ v +:+ (if http_only then "; HttpOnly" else "") +:+
    match same_site with Strict => "; SameSite=Strict" | Lax => "; SameSite=Lax" | NoneSite => "; SameSite=None" end +:+
    (if secure then "; Secure" else "") |}.
#[local] Existing Instance cookie_model.

Lemma cookie_char_plain a :
  cookie_char a = true -> is_ascii_whitespace a = false /\ negb (bool_decide (a = "="%char)) = true.
Proof.
  unfold cookie_char. intros [Hv Ha]%andb_prop. split.
  - unfold visible_ascii, is_ascii_whitespace in *. apply andb_prop in Hv as [?%N.leb_le ?%N.leb_le].
    destruct (decide (a = " "%char)) as [->|Hsp]; [done|].
    assert (N_of_ascii a <> 32)%N as H32.
    { intros H32. apply Hsp. rewrite <-(ascii_N_embedding a), H32. done. }
    apply orb_false_intro; [|by apply N.eqb_neq]. apply andb_false_intro2, N.leb_gt. lia.
  - destruct (decide (a = "="%char)) as [->|Hne]; [done|]. by rewrite bool_decide_eq_false_2.
Qed.

Lemma cookie_model_laws : CookieLaws.
Proof.
  split; simpl.
  - intros pad n v Hpad Hn Hv. exists (n, v). split; [|done].
    assert (str_trim_start (pad +:+ n +:+ String "=" v) = n +:+ String "=" v) as ->.
    { destruct n as [|a n]; [done|]. apply cookie_text_chars in Hn. simpl in Hn. apply andb_prop in Hn as [Ha _].
      apply cookie_char_plain in Ha as [Hw _].
      destruct Hpad as [-> | ->]; simpl; by rewrite Hw. }
    apply split_once_Some. split; [done|]. apply cookie_text_chars in Hn.
    eapply str_forallb_impl; [|done]. intros a Ha. by apply cookie_char_plain.
  - intros n v http_only secure same_site. eexists. split; [done|].
    destruct http_only, same_site, secure; (split; [reflexivity|]); right; simpl; eauto.
Qed.

Definition sample_sticky : StickyCookie Random := mk_StickyCookie "lb" mk_Random true false Lax.

Lemma sticky_miss_sets_cookie_witness :
  exists fw, select_backend sample_sticky sample_draw (sample_request "GET" (Some "/") [])
      (sample_context ["a:1"; "b:1"]) = (Returned fw, sample_sticky) /\
    backend_address fw = "b:1" /\
    (response_mapper fw (sample_response 200 [] "") =
       Returned (sample_response 200 [("set-cookie", "lb=b:1; HttpOnly; SameSite=Lax")] "") ->
     headers_get_all [("set-cookie", "lb=b:1; HttpOnly; SameSite=Lax")] "set-cookie" =
       [Cookie_render "lb" "b:1" true false Lax]).
Proof.
  destruct (@sticky_miss_sets_cookie http_model cookie_model Random _ http_model_laws sample_sticky sample_draw
    (sample_request "GET" (Some "/") []) (sample_context ["a:1"; "b:1"]) (forwarder_new "b:1") mk_Random
    (sample_response 200 [] "")
    (sample_response 200 [("set-cookie", "lb=b:1; HttpOnly; SameSite=Lax")] "")) as (fw & Hs & Ha & Hm);
    [done..|].
  exists fw. split; [exact Hs|]. split; [exact Ha|]. intros H.
  destruct (Hm H) as (_ & _ & Hk). exact (Hk "set-cookie").
Defined.

Lemma sample_pair_returned :
  carries_pair "lb" "lb=b:1" (sample_request "GET" (Some "/") [("cookie", "theme=dark; lb=b:1")]).
Proof.
  exists "theme=dark; lb=b:1", ["theme=dark"], [], " ". split_and!; [reflexivity|reflexivity|by right|reflexivity|].
  repeat constructor. intros c [= <-]. done.
Qed.

Lemma sticky_roundtrip_witness :
  exists fw response,
    select_backend sample_sticky sample_draw (sample_request "GET" (Some "/") []) (sample_context ["a:1"; "b:1"])
      = (Returned fw, sample_sticky) /\
    response_mapper fw (sample_response 200 [] "") = Returned response /\
    last (headers_get_all (resp_headers response) "set-cookie") = Some "lb=b:1; HttpOnly; SameSite=Lax" /\
    select_backend sample_sticky sample_draw
      (sample_request "GET" (Some "/") [("cookie", "theme=dark; lb=b:1")]) (sample_context ["b:1"; "c:1"])
    = (Returned (forwarder_new "b:1"), sample_sticky).
Proof.
  destruct (@sticky_roundtrip http_model cookie_model cookie_model_laws Random _ http_model_laws sample_sticky
    sample_draw (sample_request "GET" (Some "/") []) (sample_context ["a:1"; "b:1"]) (forwarder_new "b:1") mk_Random
    (sample_response 200 [] "") (sample_response 200 [] ""))
    as (fw & response & v & Hsel & _ & Hmap & Hlast & Hback); [done..|].
  assert (select_backend sample_sticky sample_draw (sample_request "GET" (Some "/") []) (sample_context ["a:1"; "b:1"])
    = (Returned (forwarder_map_response (forwarder_new "b:1") (sc_modify_response sample_sticky "b:1")), sample_sticky))
    as Heq by reflexivity.
  assert (fw = forwarder_map_response (forwarder_new "b:1") (sc_modify_response sample_sticky "b:1")) as ->.
  { rewrite Heq in Hsel. by injection Hsel as <-. }
  assert (response = sample_response 200 [("set-cookie", "lb=b:1; HttpOnly; SameSite=Lax")] "") as ->.
  { assert (response_mapper (forwarder_map_response (forwarder_new "b:1") (sc_modify_response sample_sticky "b:1"))
      (sample_response 200 [] "")
      = Returned (sample_response 200 [("set-cookie", "lb=b:1; HttpOnly; SameSite=Lax")] "")) as Hr by reflexivity.
    rewrite Hr in Hmap. by injection Hmap as <-. }
  assert (v = "lb=b:1; HttpOnly; SameSite=Lax") as -> by (by injection Hlast as <-).
  eexists _, _. split; [exact Hsel|]. split; [exact Hmap|]. split; [exact Hlast|].
  apply (Hback mk_Random); [exact sample_pair_returned|simpl; set_solver].
Defined.
