(* ===== verification/HttpClient.v ===== *)
(** * The backend client: [http_client.rs]

    The connector opens TCP connections to the backends and tells the pool's
    strategy; the streams it hands out tell the strategy when they are dropped.
    Connections, drops and selections of concurrent requests interleave freely:
    each strategy method runs under the strategy's own lock, so the interleavings
    are the sequences of [client_step]. *)
From S2P Require Import Prelude RustStd Http HttpModel LoadBalancing LeastConnection StickyCookie.

Local Open Scope Z_scope.

Section HttpClient.
Context `{HT : Http}.

(** ** State: the strategy that the pool, the connector and the streams share
    ([Arc]), and the targets of the streams that are alive *)
Record ClientState (S : Type) := mk_ClientState { cs_strategy : S; cs_streams : list Uri }.
#[global] Arguments mk_ClientState {S}.
#[global] Arguments cs_strategy {S}.
#[global] Arguments cs_streams {S}.

Section Steps.
Context {S : Type} `{LS : !LoadBalancingStrategy S}.

Definition client_new (s : S) : ClientState S := mk_ClientState s [].

(** [StrategyNotifyHttpConnector::call]; [tcp] is the answer of the inner
    connector. *)
Definition connector_call {E} (cs : ClientState S) (tcp : result unit E) (req : Uri) :
  outcome (result Uri E) * ClientState S :=
  match tcp with
  | Ok _ =>
      match on_tcp_open (cs_strategy cs) req with
      | (Returned _, s') => (Returned (Ok req), mk_ClientState s' (cs_streams cs ++ [req]))
      | (Panic, s') => (Panic, mk_ClientState s' (cs_streams cs))
      end
  | Err e => (Returned (Err e), cs)
  end.

(** [PinnedDrop for StrategyNotifyStream], on the [i]-th live stream. *)
Definition stream_drop (cs : ClientState S) (i : nat) : outcome unit * ClientState S :=
  match cs_streams cs !! i with
  | None => (Returned tt, cs)
  | Some target =>
      let '(o, s') := on_tcp_close (cs_strategy cs) target in
      (o, mk_ClientState s' (delete i (cs_streams cs)))
  end.

(** The steps of a pool's client.  A connection is opened only while the number
    of live streams fits a [usize]. *)
Inductive client_step : ClientState S -> ClientState S -> Prop :=
| step_call (E : Type) cs (tcp : result unit E) req :
    Z.of_nat (length (cs_streams cs)) < usize_max -> client_step cs (connector_call cs tcp req).2
| step_drop cs i : client_step cs (stream_drop cs i).2
| step_select cs rng request ctx :
    client_step cs (mk_ClientState (select_backend (cs_strategy cs) rng request ctx).2 (cs_streams cs)).

(** ** Histories: what requests and connections ask of a client, in order *)
Inductive ClientCall : Type :=
| Connect (tcp : result unit unit) (req : Uri)
| Disconnect (i : nat)
| Choose (rng : draw) (request : Request) (ctx : LbContext).

Definition client_do (cs : ClientState S) (call : ClientCall) : ClientState S :=
  match call with
  | Connect tcp req => (connector_call cs tcp req).2
  | Disconnect i => (stream_drop cs i).2
  | Choose rng request ctx =>
      mk_ClientState (select_backend (cs_strategy cs) rng request ctx).2 (cs_streams cs)
  end.

Definition client_run (cs : ClientState S) (calls : list ClientCall) : ClientState S := foldl client_do cs calls.

Lemma client_do_streams cs call :
  (length (cs_streams (client_do cs call)) <= Datatypes.S (length (cs_streams cs)))%nat.
Proof.
  destruct call as [[] req|i|rng request ctx]; simpl; [| lia | |lia].
  - destruct (on_tcp_open _ _) as [[] ?]; simpl; rewrite ?length_app; simpl; lia.
  - unfold stream_drop. destruct (cs_streams cs !! i) as [u|] eqn:E; simpl; [|lia].
    destruct (on_tcp_close _ _). simpl. pose proof (length_delete _ _ (ex_intro _ _ E)). lia.
Qed.

Lemma client_run_reachable cs calls :
  Z.of_nat (length (cs_streams cs)) + Z.of_nat (length calls) <= usize_max ->
  rtc client_step cs (client_run cs calls).
Proof.
  revert cs. induction calls as [|call calls IH]; intros cs Hlen; simpl in *; [done|].
  eapply rtc_l; [|apply IH; pose proof (client_do_streams cs call); lia].
  destruct call; [apply step_call; lia|apply step_drop|apply step_select].
Qed.

End Steps.

(** ** Least connection counts the live streams *)
Definition authority_key (u : Uri) : option string := Authority_to_string <$> uri_authority u.

Definition live (streams : list Uri) (a : string) : Z :=
  Z.of_nat (length (filter (fun u => authority_key u = Some a) streams)).

Definition lc_tracks (cs : ClientState LeastConnection) : Prop :=
  lc_poisoned (cs_strategy cs) = false /\
  (forall a, count (cs_strategy cs) a = live (cs_streams cs) a) /\
  map_Forall (fun _ c => 0 <= c) (connections (cs_strategy cs)) /\
  Z.of_nat (length (cs_streams cs)) <= usize_max.

Lemma live_snoc streams u a :
  live (streams ++ [u]) a = live streams a + if decide (authority_key u = Some a) then 1 else 0.
Proof.
  unfold live. rewrite filter_app, length_app, filter_cons. case_decide; simpl; lia.
Qed.

Lemma live_delete streams i u a :
  streams !! i = Some u ->
  live (delete i streams) a = live streams a - if decide (authority_key u = Some a) then 1 else 0.
Proof.
  intros Hi. rewrite <-(take_drop_middle _ _ _ Hi) at 2. rewrite delete_take_drop.
  unfold live. rewrite !filter_app, !length_app, filter_cons. case_decide; simpl; lia.
Qed.

Lemma live_bound streams a : 0 <= live streams a <= Z.of_nat (length streams).
Proof. unfold live. pose proof (length_filter (fun u => authority_key u = Some a) streams). lia. Qed.

Lemma count_insert s key c p it a :
  count (mk_LeastConnection (<[key := c]> (connections s)) p it) a =
  if decide (key = a) then c else count s a.
Proof.
  unfold count. simpl. case_decide; subst; [by rewrite lookup_insert_eq|by rewrite lookup_insert_ne].
Qed.

(** Opening a connection never overflows the counter. *)
Lemma lc_open_tracks cs req :
  lc_tracks cs -> Z.of_nat (length (cs_streams cs)) < usize_max ->
  exists s', on_tcp_open (cs_strategy cs) req = (Returned tt, s') /\
    lc_tracks (mk_ClientState s' (cs_streams cs ++ [req])).
Proof.
  intros (Hp & Hc & Hpos & _) Hlt. cbn [on_tcp_open least_connection_strategy].
  assert (Z.of_nat (length (cs_streams cs ++ [req])) <= usize_max) as Hlen.
  { rewrite length_app. simpl. lia. }
  unfold lc_on_tcp_open, lc_update. destruct (uri_authority req) as [au|] eqn:Eu.
  - rewrite Hp. pose proof (Hc (Authority_to_string au)) as Hcu.
    pose proof (live_bound (cs_streams cs) (Authority_to_string au)) as Hb. unfold count in Hcu.
    rewrite Hcu, checked_Returned by lia. eexists. split; [done|]. split_and!; [done| | |done].
    + intros a. simpl. rewrite count_insert, live_snoc. unfold authority_key. rewrite Eu. simpl.
      repeat case_decide; simplify_eq; auto with lia. by rewrite Hc, Z.add_0_r.
    + apply map_Forall_insert_2; [lia|done].
  - eexists. split; [done|]. split_and!; [done| |done..]. intros a. simpl. rewrite live_snoc.
    unfold authority_key. rewrite Eu. simpl. rewrite Hc. lia.
Qed.

(** Closing the connection of a live stream never underflows the counter. *)
Lemma lc_close_tracks cs i target :
  lc_tracks cs -> cs_streams cs !! i = Some target ->
  exists s', on_tcp_close (cs_strategy cs) target = (Returned tt, s') /\
    lc_tracks (mk_ClientState s' (delete i (cs_streams cs))).
Proof.
  intros (Hp & Hc & Hpos & Hlen) Hi. cbn [on_tcp_close least_connection_strategy].
  assert (Z.of_nat (length (delete i (cs_streams cs))) <= usize_max) as Hlen'.
  { pose proof (length_delete _ _ (ex_intro _ _ Hi)). lia. }
  unfold lc_on_tcp_close, lc_update. destruct (uri_authority target) as [au|] eqn:Eu.
  - rewrite Hp. set (key := Authority_to_string au). pose proof (Hc key) as Hck.
    pose proof (live_delete _ _ _ key Hi) as Hd. unfold authority_key in Hd. rewrite Eu in Hd. simpl in Hd.
    rewrite decide_True in Hd by done. pose proof (live_bound (delete i (cs_streams cs)) key) as Hb.
    pose proof (live_bound (cs_streams cs) key) as Hb'. unfold count in Hck.
    destruct (connections (cs_strategy cs) !! key) as [c|] eqn:Ek; simpl in Hck; [|lia]. simpl.
    rewrite checked_Returned by lia. eexists. split; [done|]. split_and!; [done| | |done].
    + intros a. simpl. rewrite count_insert, (live_delete _ _ _ a Hi). unfold authority_key. rewrite Eu. simpl.
      fold key. destruct (decide (key = a)) as [<-|Hne]; [rewrite decide_True by done; lia|].
      rewrite decide_False by congruence. rewrite Hc. lia.
    + apply map_Forall_insert_2; [lia|done].
  - eexists. split; [done|]. split_and!; [done| |done..]. intros a. simpl. rewrite (live_delete _ _ _ a Hi).
    unfold authority_key. rewrite Eu. simpl. rewrite Hc. lia.
Qed.

Lemma lc_step_tracks cs cs' : client_step cs cs' -> lc_tracks cs -> lc_tracks cs'.
Proof.
  intros Hstep Ht. destruct Hstep as [E cs tcp req Hlt|cs i|cs rng request ctx].
  - unfold connector_call. destruct tcp; [|done].
    destruct (lc_open_tracks cs req) as (s' & -> & Ht'); [done..|]. done.
  - unfold stream_drop. destruct (cs_streams cs !! i) as [target|] eqn:E; [|done].
    destruct (lc_close_tracks cs i target) as (s' & -> & Ht'); [done..|]. done.
  - by destruct cs.
Qed.

Lemma lc_new_tracks iter : lc_tracks (client_new (least_connection_new iter)).
Proof. by split_and!. Qed.

Lemma lc_reachable_tracks iter cs :
  rtc client_step (client_new (least_connection_new iter)) cs -> lc_tracks cs.
Proof.
  intros Hr. pose proof (lc_new_tracks iter) as H0. induction Hr as [|x y z Hxy Hyz IH]; [done|].
  by apply IH, (lc_step_tracks x).
Qed.

Lemma lc_step_iter cs cs' :
  client_step cs cs' -> lc_iter (cs_strategy cs') = lc_iter (cs_strategy cs).
Proof.
  intros [E c tcp req Hlt|c i|c rng request ctx].
  - unfold connector_call. destruct tcp; [|done]. cbn [on_tcp_open least_connection_strategy].
    unfold lc_on_tcp_open, lc_update. repeat (case_match; simplify_eq/=; try done).
  - unfold stream_drop. case_match; [|done]. cbn [on_tcp_close least_connection_strategy].
    unfold lc_on_tcp_close, lc_update. repeat (case_match; simplify_eq/=; try done).
  - done.
Qed.

Lemma lc_reachable_iter iter cs :
  rtc client_step (client_new (least_connection_new iter)) cs -> lc_iter (cs_strategy cs) = iter.
Proof.
  intros Hr. remember (client_new (least_connection_new iter)) as c0 eqn:E0.
  assert (lc_iter (cs_strategy c0) = iter) as H0 by (by subst). clear E0.
  induction Hr as [|x y z Hxy Hyz IH]; [done|]. apply IH. by rewrite (lc_step_iter x y).
Qed.

(** The backends a history opened connections to. *)
Definition connected (calls : list ClientCall) : list string :=
  omap (fun call => match call with Connect (Ok _) req => authority_key req | _ => None end) calls.

(** Least connection tracks only them. *)
Lemma lc_update_dom s remote dflt delta a :
  a ∈ dom (connections (lc_update s remote dflt delta).2) ->
  a ∈ dom (connections s) \/ authority_key remote = Some a.
Proof.
  unfold lc_update, authority_key. destruct (uri_authority remote) as [au|]; simpl; [|auto].
  destruct (lc_poisoned s); [auto|]. destruct (checked _ _ _); simpl; rewrite dom_insert; set_solver.
Qed.

Definition tracks_within (X : list string) (cs : ClientState LeastConnection) : Prop :=
  (forall a, a ∈ dom (connections (cs_strategy cs)) -> a ∈ X) /\
  (forall u a, u ∈ cs_streams cs -> authority_key u = Some a -> a ∈ X).

Lemma client_do_tracks X cs call :
  (forall a, a ∈ connected [call] -> a ∈ X) -> tracks_within X cs -> tracks_within X (client_do cs call).
Proof.
  intros HX [Hd Hs]. destruct call as [[[]|[]] req|i|rng request ctx]; [|done| |done]; simpl.
  - assert (forall a, authority_key req = Some a -> a ∈ X) as Hreq.
    { intros a Ha. apply HX. simpl. rewrite Ha. by left. }
    cbn [on_tcp_open least_connection_strategy]. unfold lc_on_tcp_open.
    pose proof (lc_update_dom (cs_strategy cs) req 0 1) as Hdom.
    destruct (lc_update (cs_strategy cs) req 0 1) as [[[]|] s'] eqn:E; simpl in *.
    + split; simpl; [intros a [Ha|Ha]%Hdom; auto|].
      intros u a [Hu| ->%list_elem_of_singleton]%elem_of_app Ha; eauto.
    + split; simpl; [intros a [Ha|Ha]%Hdom; auto|eauto].
  - unfold stream_drop. destruct (cs_streams cs !! i) as [u|] eqn:Ei; [|done].
    cbn [on_tcp_close least_connection_strategy]. unfold lc_on_tcp_close.
    pose proof (lc_update_dom (cs_strategy cs) u 1 (-1)) as Hdom.
    destruct (lc_update (cs_strategy cs) u 1 (-1)) as [o s'] eqn:E; simpl in *. split; simpl.
    + intros a [Ha|Ha]%Hdom; [auto|]. by eapply Hs, Ha; eapply list_elem_of_lookup_2.
    + intros u' a Hu. apply Hs. rewrite delete_take_drop in Hu. apply elem_of_app in Hu.
      rewrite <-(take_drop_middle _ _ _ Ei). set_solver.
Qed.

Lemma client_run_tracks iter calls :
  forall a, a ∈ dom (connections (cs_strategy (client_run (client_new (least_connection_new iter)) calls))) ->
    a ∈ connected calls.
Proof.
  assert (forall X cs, (forall a, a ∈ connected calls -> a ∈ X) -> tracks_within X cs ->
    tracks_within X (client_run cs calls)) as Hrun.
  { induction calls as [|call calls IH]; intros X cs HX Ht; [done|]. simpl. apply IH.
    - intros a Ha. apply HX. change (call :: calls) with ([call] ++ calls). unfold connected. rewrite omap_app.
      apply elem_of_app. by right.
    - apply client_do_tracks; [|done]. intros a Ha. apply HX. change (call :: calls) with ([call] ++ calls).
      unfold connected. rewrite omap_app. apply elem_of_app. by left. }
  apply Hrun; [done|]. split; simpl; [set_solver|]. intros u a ?%elem_of_nil. done.
Qed.

(** C7: over every interleaving of connections, drops and selections, the counter
    of each backend is the number of streams to it that are alive, and no
    notification ever panics: the counters neither overflow nor underflow and
    the lock is never poisoned. *)
Theorem least_connection_counts_streams iter cs :
  rtc client_step (client_new (least_connection_new iter)) cs ->
  (forall a, count (cs_strategy cs) a = live (cs_streams cs) a) /\
  (forall i, (stream_drop cs i).1 = Returned tt) /\
  (forall req, Z.of_nat (length (cs_streams cs)) < usize_max ->
     (connector_call cs (Ok (E := unit) tt) req).1 = Returned (Ok req)).
Proof.
  intros Ht%lc_reachable_tracks. split_and!; [apply Ht| |].
  - intros i. unfold stream_drop. destruct (cs_streams cs !! i) as [target|] eqn:E; [|done].
    by destruct (lc_close_tracks cs i target) as (s' & -> & _).
  - intros req Hlt. unfold connector_call. by destruct (lc_open_tracks cs req) as (s' & -> & _).
Qed.

Lemma lc_reachable_selects iter cs rng request ctx :
  rtc client_step (client_new (least_connection_new iter)) cs -> iter_ok iter -> draw_ok rng ->
  NoDup (backend_addresses ctx) -> backend_addresses ctx <> [] ->
  (forall a, a ∈ dom (connections (cs_strategy cs)) -> a ∈ backend_addresses ctx) ->
  exists a, a ∈ backend_addresses ctx /\
    (forall b, b ∈ backend_addresses ctx -> live (cs_streams cs) a <= live (cs_streams cs) b) /\
    (select_backend (cs_strategy cs) rng request ctx).1 = Returned (forwarder_new a).
Proof.
  intros Hr Hi Hd Hnd Hne Hsub. pose proof (lc_reachable_tracks _ _ Hr) as (Hp & Hc & Hpos & _).
  destruct (lc_selects_least (cs_strategy cs) rng request ctx) as (a & Ha & Hmin & Hs); try done.
  { split_and!; [done| |done]. by rewrite (lc_reachable_iter _ _ Hr). }
  exists a. split; [done|]. split; [|by rewrite Hs]. intros b Hb. rewrite <-!Hc. by apply Hmin.
Qed.


(** ** Sticky cookies hide the connections from the inner strategy *)

Lemma sticky_step_inner `{CK : CookieCrate} (cs cs' : ClientState (StickyCookie LeastConnection)) :
  client_step cs cs' -> connections (sc_inner (cs_strategy cs')) = connections (sc_inner (cs_strategy cs)).
Proof.
  intros [E c tcp req Hlt|c i|c rng request ctx].
  - unfold connector_call. by destruct tcp.
  - unfold stream_drop. by destruct (cs_streams c !! i).
  - simpl. unfold sc_select. by destruct (_ ≫= _).
Qed.

(** A [LeastConnection] wrapped in a [StickyCookie] is never told about a
    connection: however many streams are open, its map stays empty, so its
    choice never depends on the load. *)
Theorem sticky_least_connection_blind `{CK : CookieCrate} (s : StickyCookie LeastConnection) cs :
  connections (sc_inner s) = ∅ -> rtc client_step (client_new s) cs ->
  connections (sc_inner (cs_strategy cs)) = ∅.
Proof.
  intros H0 Hr. remember (client_new s) as c0 eqn:E0.
  assert (connections (sc_inner (cs_strategy c0)) = ∅) as H1 by (by subst). clear E0 H0.
  induction Hr as [|x y z Hxy Hyz IH]; [done|]. apply IH. by rewrite (sticky_step_inner x y).
Qed.

End HttpClient.

(** ** Witnesses *)
#[local] Existing Instance http_model.
#[local] Existing Instance cookie_model.

Definition sample_target (a : string) : Uri := mk_uri (Some "http") (Some a) (Some "/").

(** Two connections to [a:1], one to [b:1], then one to [a:1] is dropped. *)
Definition open_to {S} `{!LoadBalancingStrategy S} (a : string) (cs : ClientState S) : ClientState S :=
  (connector_call cs (Ok (E := unit) tt) (sample_target a)).2.

Definition sample_run {S} `{!LoadBalancingStrategy S} (s : S) : ClientState S :=
  (stream_drop (open_to "b:1" (open_to "a:1" (open_to "a:1" (client_new s)))) 0).2.

Lemma open_to_step {S} `{!LoadBalancingStrategy S} (cs : ClientState S) a :
  Z.of_nat (length (cs_streams cs)) < usize_max -> client_step cs (open_to a cs).
Proof. intros Hlt. by apply (step_call unit). Qed.

Definition sample_lc0 : LeastConnection := least_connection_new map_to_list.

Lemma sample_run_reachable : rtc client_step (client_new sample_lc0) (sample_run sample_lc0).
Proof.
  eapply rtc_l; [apply (open_to_step _ "a:1"); by vm_compute|].
  eapply rtc_l; [apply (open_to_step _ "a:1"); by vm_compute|].
  eapply rtc_l; [apply (open_to_step _ "b:1"); by vm_compute|].
  apply rtc_once. apply step_drop.
Qed.

Lemma least_connection_counts_streams_witness :
  count (cs_strategy (sample_run sample_lc0)) "a:1" = live (cs_streams (sample_run sample_lc0)) "a:1".
Proof. apply (least_connection_counts_streams map_to_list _ sample_run_reachable). Defined.


Definition sample_sticky_lc : StickyCookie LeastConnection := mk_StickyCookie "lb" sample_lc0 true true Strict.

(** Three streams were opened, and the wrapped strategy knows of none. *)
Lemma sticky_least_connection_blind_witness :
  length (cs_streams (sample_run sample_sticky_lc)) = 2%nat /\
  connections (sc_inner (cs_strategy (sample_run sample_sticky_lc))) = ∅.
Proof.
  split; [reflexivity|]. apply (sticky_least_connection_blind sample_sticky_lc); [done|].
  eapply rtc_l; [apply (open_to_step _ "a:1"); by vm_compute|].
  eapply rtc_l; [apply (open_to_step _ "a:1"); by vm_compute|].
  eapply rtc_l; [apply (open_to_step _ "b:1"); by vm_compute|].
  apply rtc_once. apply step_drop.
Defined.
