(* ===== verification/Strategy.v ===== *)
(** * Strategies as configured: [Box<dyn LoadBalancingStrategy>] and the
    conversion of [configuration.rs] *)
From S2P Require Import Prelude RustStd Http HttpModel LoadBalancing RoundRobin LeastConnection StickyCookie HttpClient.

Section Strategy.
Context `{HT : Http} `{CK : CookieCrate}.

(** A boxed strategy: some implementation of the trait and its state. *)
Record DynStrategy := {
  dyn_type : Type;
  dyn_methods : LoadBalancingStrategy dyn_type;
  dyn_value : dyn_type;
}.

Definition box {S : Type} `{LS : !LoadBalancingStrategy S} (s : S) : DynStrategy :=
  {| dyn_type := S; dyn_methods := LS; dyn_value := s |}.

(** Method calls through the vtable. *)
Definition dyn_select (s : DynStrategy) (rng : draw) (request : Request) (ctx : LbContext) :
  outcome RequestForwarder * DynStrategy :=
  let '(o, v) := @select_backend _ _ (dyn_methods s) (dyn_value s) rng request ctx in
  (o, {| dyn_methods := dyn_methods s; dyn_value := v |}).

Definition dyn_tcp_open (s : DynStrategy) (remote : Uri) : outcome unit * DynStrategy :=
  let '(o, v) := @on_tcp_open _ _ (dyn_methods s) (dyn_value s) remote in
  (o, {| dyn_methods := dyn_methods s; dyn_value := v |}).

Definition dyn_tcp_close (s : DynStrategy) (remote : Uri) : outcome unit * DynStrategy :=
  let '(o, v) := @on_tcp_close _ _ (dyn_methods s) (dyn_value s) remote in
  (o, {| dyn_methods := dyn_methods s; dyn_value := v |}).

#[export] Instance dyn_strategy : LoadBalancingStrategy DynStrategy := {|
  select_backend := dyn_select;
  on_tcp_open := dyn_tcp_open;
  on_tcp_close := dyn_tcp_close |}.

(** ** [LoadBalancingStrategyConfig] and [StickyCookieSameSite] *)
Inductive StickyCookieSameSite : Type := SiteStrict | SiteLax | SiteNone.

Inductive LoadBalancingStrategyConfig : Type :=
| CStickyCookie (cookie_name : string) (http_only secure : bool) (same_site : StickyCookieSameSite)
    (inner : LoadBalancingStrategyConfig)
| CRandom
| CIPHash
| CLeastConnection
| CRoundRobin.

Definition same_site_from (other : StickyCookieSameSite) : SameSite :=
  match other with SiteStrict => Strict | SiteLax => Lax | SiteNone => NoneSite end.

(** What the standard library leaves open: the hash function and the iteration
    order of a [HashMap]. *)
Context (hash : IpAddr -> Z) (map_iter : gmap string Z -> list (string * Z)).

Fixpoint strategy_from (other : LoadBalancingStrategyConfig) : DynStrategy :=
  match other with
  | CStickyCookie cookie_name http_only secure same_site inner =>
      let inner := strategy_from inner in
      @box _ (@sticky_cookie_strategy _ _ _ (dyn_methods inner))
        (mk_StickyCookie cookie_name (dyn_value inner) http_only secure (same_site_from same_site))
  | CRandom => box mk_Random
  | CIPHash => box (mk_IPHash hash)
  | CRoundRobin => box round_robin_new
  | CLeastConnection => box (least_connection_new map_iter)
  end.

(** ** Every configured strategy keeps the contract *)
Definition dyn_keeps (s : DynStrategy) : Prop :=
  exists inv, @StrategyContract _ (dyn_type s) (dyn_methods s) inv /\ inv (dyn_value s).

#[export] Instance dyn_contract : StrategyContract DynStrategy dyn_keeps.
Proof.
  split.
  - intros s rng request ctx fw s' (inv & Hc & Hi) Hr. cbn [select_backend dyn_strategy]. unfold dyn_select.
    destruct (@select_backend _ _ (dyn_methods s) (dyn_value s) rng request ctx) as [o v] eqn:E.
    intros [= -> <-]. eapply (@select_member _ _ (dyn_methods s) inv); eauto.
  - intros s rng request ctx (inv & Hc & Hi). cbn [select_backend dyn_strategy]. unfold dyn_select.
    pose proof (@select_inv _ _ (dyn_methods s) inv Hc _ rng request ctx Hi) as Hi'.
    destruct (@select_backend _ _ (dyn_methods s) (dyn_value s) rng request ctx) as [o v]. by exists inv.
  - intros s remote (inv & Hc & Hi). cbn [on_tcp_open dyn_strategy]. unfold dyn_tcp_open.
    pose proof (@tcp_open_inv _ _ (dyn_methods s) inv Hc _ remote Hi) as Hi'.
    destruct (@on_tcp_open _ _ (dyn_methods s) (dyn_value s) remote) as [o v]. by exists inv.
  - intros s remote (inv & Hc & Hi). cbn [on_tcp_close dyn_strategy]. unfold dyn_tcp_close.
    pose proof (@tcp_close_inv _ _ (dyn_methods s) inv Hc _ remote Hi) as Hi'.
    destruct (@on_tcp_close _ _ (dyn_methods s) (dyn_value s) remote) as [o v]. by exists inv.
Qed.

Lemma strategy_from_keeps c : dyn_keeps (strategy_from c).
Proof.
  induction c as [n h s ss inner (inv & Hc & Hi)| | | |]; by eexists; split; [apply _|].
Qed.

(** ** Selections that cannot panic *)

(** What the server offers: at least one backend, and fewer than [u32] can count. *)
Definition offer_ok (ctx : LbContext) : Prop :=
  (0 < Z.of_nat (length (backend_addresses ctx)) <= u32_max)%Z.

(** In a state with [ok], every selection from an offer returns an offered backend,
    in a state with [ok]. *)
Class SelectReturns (S : Type) `{!LoadBalancingStrategy S} (ok : S -> Prop) : Prop :=
  select_returns s rng request ctx :
    ok s -> draw_ok rng -> offer_ok ctx ->
    exists fw s', select_backend s rng request ctx = (Returned fw, s') /\
      backend_address fw ∈ backend_addresses ctx /\ ok s'.

Lemma offer_ok_ne ctx : offer_ok ctx -> backend_addresses ctx <> [].
Proof. unfold offer_ok. by intros [H _] Hn; rewrite Hn in H. Qed.

#[export] Instance random_returns : SelectReturns Random (fun _ => True).
Proof.
  intros s rng request ctx _ Hr Ho%offer_ok_ne. pose proof (random_select_spec s rng request ctx Hr) as Hs.
  destruct (backend_addresses ctx); [done|]. destruct Hs as (i & a & _ & Ha & Hs).
  eexists _, _. split; [exact Hs|]. split; [by eapply list_elem_of_lookup_2|done].
Qed.

#[export] Instance ip_hash_returns : SelectReturns IPHash (fun _ => True).
Proof.
  intros s rng request ctx _ _ Ho%offer_ok_ne. destruct (ip_hash_select_returns s rng request ctx Ho) as (a & Ha & Hs).
  eexists _, _. split; [exact Hs|]. split; [by eapply list_elem_of_lookup_2|done].
Qed.

#[export] Instance round_robin_returns : SelectReturns RoundRobin rr_ok.
Proof.
  intros s rng request ctx Hs _ Ho. destruct (round_robin_select_spec s rng request ctx Hs Ho) as (a & Ha & Hsel).
  eexists _, _. split; [exact Hsel|]. split; [by eapply list_elem_of_lookup_2|]. by apply rr_ok_step.
Qed.

(** Least connection without any tracked connection takes any offered backend. *)
#[export] Instance untracked_returns :
  SelectReturns LeastConnection (fun s => connections s = ∅ /\ lc_poisoned s = false).
Proof.
  intros s rng request ctx [Hc Hp] Hr Ho%offer_ok_ne. cbn [select_backend least_connection_strategy]. unfold lc_select.
  rewrite Hp. unfold lc_address_indices. rewrite decide_True by (rewrite Hc; by left).
  destruct (backend_addresses ctx) as [|b bs] eqn:Eb; [done|].
  destruct (pick_index (fun _ => True) (filter (fun ia => connections s !! ia.2 = None) (enumerate (b :: bs))).*1
    (b :: bs) rng Hr) as (a & Ha & _ & Hpick).
  - apply (untracked_indices_ne s (b :: bs) b); [by left|by rewrite Hc].
  - eapply Forall_impl; [apply untracked_indices|]. naive_solver.
  - exists (forwarder_new a), s. split; [|done]. cbn [mbind outcome_bind] in *. by rewrite Hpick.
Qed.

#[export] Instance sticky_returns {S} `{!LoadBalancingStrategy S} ok `{!SelectReturns S ok} :
  SelectReturns (StickyCookie S) (fun s => ok (sc_inner s)).
Proof.
  intros s rng request ctx Hs Hr Ho. cbn [select_backend sticky_cookie_strategy]. unfold sc_select.
  destruct (_ ≫= _) as [a|] eqn:E.
  - eexists _, _. split; [done|]. split; [|done]. destruct (try_parse_sticky_cookie s request) as [c|]; [|done].
    simpl in E. apply iter_find_Some in E as (l1 & l2 & -> & _). simpl. set_solver.
  - destruct (select_returns (sc_inner s) rng request ctx Hs Hr Ho) as (fw & s' & -> & Hin & Hs').
    by eexists _, _.
Qed.

(** So every configured strategy selects as long as it hears of no connection. *)
Lemma strategy_from_returns c :
  exists ok, @SelectReturns (dyn_type (strategy_from c)) (dyn_methods (strategy_from c)) ok /\
    ok (dyn_value (strategy_from c)).
Proof.
  induction c as [n h s ss inner (ok & Hok & Hv)| | | |].
  - exists (fun s => ok (sc_inner s)). split; [|exact Hv]. simpl. apply sticky_returns. exact Hok.
  - exists (fun _ => True). split; [exact random_returns|done].
  - exists (fun _ => True). split; [exact ip_hash_returns|done].
  - eexists. split; [exact untracked_returns|done].
  - exists rr_ok. split; [exact round_robin_returns|apply round_robin_new_ok].
Qed.

(** All but a bare least connection ignore connections. *)
Definition deaf (s : DynStrategy) : Prop :=
  (exists ok, @SelectReturns (dyn_type s) (dyn_methods s) ok /\ ok (dyn_value s)) /\
  forall (v : dyn_type s) u, @on_tcp_open _ _ (dyn_methods s) v u = (Returned tt, v) /\
    @on_tcp_close _ _ (dyn_methods s) v u = (Returned tt, v).

Lemma strategy_from_deaf c : c <> CLeastConnection -> deaf (strategy_from c).
Proof. intros Hc. split; [apply strategy_from_returns|]. by destruct c. Qed.

Lemma deaf_selects s rng request ctx :
  deaf s -> draw_ok rng -> offer_ok ctx ->
  exists fw s', select_backend s rng request ctx = (Returned fw, s') /\
    backend_address fw ∈ backend_addresses ctx /\ deaf s'.
Proof.
  intros [(ok & Hret & Hok) Hq] Hr Ho. cbn [select_backend dyn_strategy]. unfold dyn_select.
  destruct (@select_returns _ (dyn_methods s) ok Hret (dyn_value s) rng request ctx Hok Hr Ho)
    as (fw & v & -> & Hin & Hv).
  eexists _, _. split; [done|]. split; [done|]. split; [by exists ok|exact Hq].
Qed.

(** The selections of a history see offers. *)
Definition call_ok (call : ClientCall) : Prop :=
  match call with Choose rng _ ctx => draw_ok rng /\ offer_ok ctx | _ => True end.

Lemma client_run_deaf cs calls :
  Forall call_ok calls -> deaf (cs_strategy cs) -> deaf (cs_strategy (client_run cs calls)).
Proof.
  intros Hc. revert cs. induction Hc as [|call calls Hcall Hcalls IH]; intros cs Hd; [done|]. simpl. apply IH.
  destruct Hd as [Hok Hq]. destruct call as [[[]|[]] req|i|rng request ctx]; simpl; [|done| |].
  - cbn [on_tcp_open dyn_strategy]. unfold dyn_tcp_open.
    destruct (Hq (dyn_value (cs_strategy cs)) req) as [-> _]. by split.
  - unfold stream_drop. destruct (cs_streams cs !! i) as [u|]; [|by split].
    cbn [on_tcp_close dyn_strategy]. unfold dyn_tcp_close.
    destruct (Hq (dyn_value (cs_strategy cs)) u) as [_ ->]. by split.
  - destruct Hcall as [Hr Ho]. change (deaf (select_backend (cs_strategy cs) rng request ctx).2).
    by destruct (deaf_selects (cs_strategy cs) rng request ctx (conj Hok Hq) Hr Ho) as (fw & s' & -> & _ & Hd').
Qed.

(** A boxed strategy behaves as the strategy in the box. *)
Definition box_client {S} `{LS : !LoadBalancingStrategy S} (cs : ClientState S) : ClientState DynStrategy :=
  mk_ClientState (box (cs_strategy cs)) (cs_streams cs).

Lemma box_select {S} `{LS : !LoadBalancingStrategy S} (s : S) rng request ctx :
  (select_backend (box s) rng request ctx).1 = (select_backend s rng request ctx).1.
Proof.
  cbn [select_backend dyn_strategy]. unfold dyn_select. simpl. by destruct (select_backend s rng request ctx).
Qed.

Lemma box_select_state {S} `{LS : !LoadBalancingStrategy S} (s : S) rng request ctx :
  (select_backend (box s) rng request ctx).2 = box (select_backend s rng request ctx).2.
Proof.
  cbn [select_backend dyn_strategy]. unfold dyn_select. simpl. by destruct (select_backend s rng request ctx).
Qed.

Lemma client_run_box {S} `{LS : !LoadBalancingStrategy S} (cs : ClientState S) calls :
  client_run (box_client cs) calls = box_client (client_run cs calls).
Proof.
  revert cs. induction calls as [|call calls IH]; intros cs; [done|]. simpl. rewrite <-IH. f_equal.
  destruct call as [[] req|i|rng request ctx]; simpl; [|done| |].
  - cbn [on_tcp_open dyn_strategy box_client cs_strategy]. unfold dyn_tcp_open. simpl.
    by destruct (on_tcp_open (cs_strategy cs) req) as [[] s'].
  - unfold stream_drop. simpl. destruct (cs_streams cs !! i) as [u|]; [|done].
    unfold dyn_tcp_close. simpl. by destruct (on_tcp_close (cs_strategy cs) u) as [o s'].
  - unfold dyn_select, box_client. simpl. by destruct (select_backend (cs_strategy cs) rng request ctx) as [o s'].
Qed.

Lemma box_client_step {S} `{LS : !LoadBalancingStrategy S} (x : ClientState S) cs :
  client_step (box_client x) cs -> exists y, cs = box_client y /\ client_step x y.
Proof.
  intros Hs. inversion Hs as [E c tcp req Hlt|c i|c rng request ctx]; subst; clear Hs.
  - exists (connector_call x tcp req).2. split; [|by constructor]. destruct tcp; [|done].
    unfold connector_call, box_client. simpl. unfold dyn_tcp_open. simpl.
    by destruct (on_tcp_open (cs_strategy x) req) as [[] s'].
  - exists (stream_drop x i).2. split; [|by constructor]. unfold stream_drop. simpl.
    destruct (cs_streams x !! i) as [u|]; [|done].
    unfold dyn_tcp_close. simpl. by destruct (on_tcp_close (cs_strategy x) u) as [o s'].
  - exists (mk_ClientState (select_backend (cs_strategy x) rng request ctx).2 (cs_streams x)). split; [|by constructor].
    unfold box_client. cbn [cs_strategy cs_streams]. by rewrite box_select_state.
Qed.

Lemma box_client_rtc {S} `{LS : !LoadBalancingStrategy S} (x : ClientState S) cs :
  rtc client_step (box_client x) cs -> exists y, cs = box_client y /\ rtc client_step x y.
Proof.
  intros Hr. remember (box_client x) as b eqn:Hb. revert x Hb.
  induction Hr as [b|b b1 b2 Hs _ IH]; intros x ->; [by exists x|].
  apply box_client_step in Hs as (y & -> & Hs). destruct (IH y eq_refl) as (z & -> & Hz).
  exists z. split; [done|]. by eapply rtc_l.
Qed.

(** C2: Whatever strategy a configuration file asks for, sticky cookies around any inner
    strategy included, after every history of selections, connections and disconnections:
    a selection among the offered backends returns, and names one of them.  There is one
    exception: least connection, when it is not inside a sticky cookie, may panic if a
    backend it was once connected to is not offered any more, or if the offer
    lists a backend twice. *)
Theorem configured_strategy_selects c calls rng request ctx :
  iter_ok map_iter -> Forall call_ok calls -> (Z.of_nat (length calls) <= usize_max)%Z ->
  draw_ok rng -> offer_ok ctx ->
  let s := cs_strategy (client_run (client_new (strategy_from c)) calls) in
  match (select_backend s rng request ctx).1 with
  | Returned fw => backend_address fw ∈ backend_addresses ctx
  | Panic => c = CLeastConnection /\
      (~ NoDup (backend_addresses ctx) \/ exists a, a ∈ connected calls /\ a ∉ backend_addresses ctx)
  end.
Proof.
  intros Hi Hcalls Hlen Hr Ho s. assert (c = CLeastConnection \/ c <> CLeastConnection) as [->|Hc] by (destruct c; auto).
  2:{ destruct (deaf_selects s rng request ctx) as (fw & s' & -> & Hin & _); [|done..].
      by apply client_run_deaf, strategy_from_deaf. }
  set (cs := client_run (client_new (least_connection_new map_iter)) calls).
  assert (s = box (cs_strategy cs)) as ->.
  { unfold s. change (client_new (strategy_from CLeastConnection))
      with (box_client (client_new (least_connection_new map_iter))). by rewrite client_run_box. }
  rewrite box_select.
  destruct (select_backend (cs_strategy cs) rng request ctx) as [[fw|] s'] eqn:E; cbn [fst].
  { by eapply (select_member (S := LeastConnection) (cs_strategy cs)). }
  split; [done|]. destruct (decide (NoDup (backend_addresses ctx))) as [Hnd|]; [right|by left].
  destruct (decide (Forall (fun a => a ∈ backend_addresses ctx) (connected calls))) as [Hall|Hex].
  2:{ apply not_Forall_Exists, Exists_exists in Hex; [naive_solver|solve_decision]. }
  exfalso. pose proof (client_run_reachable (client_new (least_connection_new map_iter)) calls) as Hreach.
  destruct (lc_reachable_selects map_iter cs rng request ctx) as (a & _ & _ & Hs); [auto..| |].
  - by apply offer_ok_ne.
  - intros a Ha%client_run_tracks. rewrite Forall_forall in Hall. auto.
  - by rewrite E in Hs.
Qed.

End Strategy.

(** ** Witness *)
#[local] Existing Instance http_model.
#[local] Existing Instance cookie_model.

Definition sticky_round_robin : DynStrategy :=
  strategy_from (fun _ => 0%Z) map_to_list (CStickyCookie "lb" true true SiteLax CRoundRobin).

(** A stream to [a:1] was opened and closed, and [a:1] is not offered now. *)
Definition sample_calls : list ClientCall :=
  [Choose sample_draw (sample_request "GET" (Some "/") []) (sample_context ["a:1"; "b:1"]);
   Connect (Ok tt) (sample_target "a:1"); Disconnect 0].

Lemma sample_calls_ok : Forall call_ok sample_calls.
Proof. repeat constructor; try apply sample_draw_ok; by vm_compute. Qed.

Lemma configured_strategy_selects_witness :
  exists fw,
    (select_backend (cs_strategy (client_run (client_new sticky_round_robin) sample_calls)) sample_draw
      (sample_request "GET" (Some "/") []) (sample_context ["b:1"; "c:1"])).1 = Returned fw /\
    backend_address fw ∈ ["b:1"; "c:1"].
Proof.
  pose proof (configured_strategy_selects (fun _ => 0%Z) map_to_list
    (CStickyCookie "lb" true true SiteLax CRoundRobin) sample_calls sample_draw
    (sample_request "GET" (Some "/") []) (sample_context ["b:1"; "c:1"]) map_to_list_iter_ok) as Hs.
  cbv zeta in Hs. change (strategy_from (fun _ => 0%Z) map_to_list (CStickyCookie "lb" true true SiteLax CRoundRobin))
    with sticky_round_robin in Hs.
  destruct (select_backend (cs_strategy (client_run (client_new sticky_round_robin) sample_calls)) sample_draw
    (sample_request "GET" (Some "/") []) (sample_context ["b:1"; "c:1"])).1 as [fw|].
  - exists fw. split; [reflexivity|]. apply Hs; [exact sample_calls_ok|by vm_compute|exact sample_draw_ok|by vm_compute].
  - destruct Hs as [Hc _]; [exact sample_calls_ok|by vm_compute|exact sample_draw_ok|by vm_compute|discriminate].
Defined.
