(* ===== verification/Effects.v ===== *)
(** * Request handlers as programs over effects

    A handler is a program that performs the effects of the [async] source:
    calls to the backend, critical sections on shared middleware state, LDAP
    operations, file reads, reads of the health flags, selections.  Between two
    effects other handlers may run.  [runs] gives the traces of a program for
    arbitrary answers of the environment; [exec] runs it against a handler of
    the effects. *)
From S2P Require Import Prelude RustStd Http.

Section Effects.
Context {E : Type -> Type}.

(** A terminating program with result [A]; [Crash] is a panic. *)
Inductive prog (A : Type) : Type :=
| Ret (a : A)
| Crash
| Vis {B : Type} (e : E B) (k : B -> prog A).
Arguments Ret {A} a.
Arguments Crash {A}.
Arguments Vis {A B} e k.

Fixpoint prog_bind {A C} (p : prog A) (f : A -> prog C) : prog C :=
  match p with
  | Ret a => f a
  | Crash => Crash
  | Vis e k => Vis e (fun b => prog_bind (k b) f)
  end.

Definition perform {B} (e : E B) : prog B := Vis e Ret.

Definition lift {A} (o : outcome A) : prog A :=
  match o with Returned a => Ret a | Panic => Crash end.

(** An effect together with the answer it got. *)
Inductive obs : Type :=
| Obs {B : Type} (e : E B) (b : B).

(** [runs p tr o]: with the answers recorded in [tr], [p] performs exactly the
    effects of [tr] and ends in [o]. *)
Fixpoint runs {A} (p : prog A) (tr : list obs) (o : outcome A) : Prop :=
  match p with
  | Ret a => tr = [] /\ o = Returned a
  | Crash => tr = [] /\ o = Panic
  | Vis e k => exists b tr', tr = Obs e b :: tr' /\ runs (k b) tr' o
  end.

(** Execution against a state and a handler for each effect. *)
Fixpoint exec {A W} (h : forall B, E B -> W -> B * W) (p : prog A) (w : W) : outcome A * W :=
  match p with
  | Ret a => (Returned a, w)
  | Crash => (Panic, w)
  | Vis e k => let '(b, w') := h _ e w in exec h (k b) w'
  end.

Lemma runs_bind {A C} (p : prog A) (f : A -> prog C) tr o :
  runs (prog_bind p f) tr o <->
  exists tr1 tr2 o1, tr = tr1 ++ tr2 /\ runs p tr1 o1 /\
    match o1 with Returned a => runs (f a) tr2 o | Panic => tr2 = [] /\ o = Panic end.
Proof.
  revert tr. induction p as [a| |B e k IH]; intros tr; simpl.
  - split; [intros Hr; by exists [], tr, (Returned a)|].
    intros (tr1 & tr2 & o1 & -> & [-> ->] & Hr). done.
  - split; [intros [-> ->]; by exists [], [], Panic|].
    intros (tr1 & tr2 & o1 & -> & [-> ->] & Hr). done.
  - split.
    + intros (b & tr' & -> & (tr1 & tr2 & o1 & -> & H1 & H2)%IH).
      exists (Obs e b :: tr1), tr2, o1. split_and!; [done| |done]. eauto.
    + intros (tr1 & tr2 & o1 & -> & (b & tr' & -> & H1) & H2).
      exists b, (tr' ++ tr2). split; [done|]. apply IH. eauto 8.
Qed.

Lemma runs_bind_ret {A C} (p : prog A) (f : A -> C) tr o :
  runs (prog_bind p (fun a => Ret (f a))) tr o <-> exists o', runs p tr o' /\ o = f <$> o'.
Proof.
  rewrite runs_bind. split.
  - intros (tr1 & tr2 & [a|] & -> & Hp & [-> ->]); rewrite app_nil_r; eauto.
  - intros ([a|] & Hp & ->); exists tr, []; rewrite app_nil_r; eexists; split_and!; try done.
Qed.

Lemma runs_lift {A} (o' : outcome A) tr o : runs (lift o') tr o <-> tr = [] /\ o = o'.
Proof. by destruct o'. Qed.

Lemma runs_perform {B} (e : E B) tr o : runs (perform e) tr o <-> exists b, tr = [Obs e b] /\ o = Returned b.
Proof. simpl. naive_solver. Qed.

(** Every program has a run for every way of answering its effects. *)
Lemma exec_runs {A W} (h : forall B, E B -> W -> B * W) (p : prog A) w :
  exists tr, runs p tr (exec h p w).1.
Proof.
  revert w. induction p as [a| |B e k IH]; intros w; simpl; [by exists []..|].
  destruct (h B e w) as [b w']. destruct (IH b w') as [tr Htr]. eauto.
Qed.

(** ** Programs that perform only certain effects *)
Fixpoint effects_in {A} (P : forall B, E B -> Prop) (p : prog A) : Prop :=
  match p with
  | Ret _ | Crash => True
  | Vis e k => P _ e /\ forall b, effects_in P (k b)
  end.

Lemma effects_in_bind {A C} P (p : prog A) (f : A -> prog C) :
  effects_in P p -> (forall a, effects_in P (f a)) -> effects_in P (prog_bind p f).
Proof. induction p as [a| |B e k IH]; simpl; [by auto..|]. intros [He Hk] Hf. auto. Qed.

Lemma effects_in_lift {A} P (o : outcome A) : effects_in P (lift o).
Proof. by destruct o. Qed.

Lemma effects_in_mono {A} (P Q : forall B, E B -> Prop) (p : prog A) :
  (forall B (e : E B), P B e -> Q B e) -> effects_in P p -> effects_in Q p.
Proof. intros HPQ. induction p as [a| |B e k IH]; simpl; [done..|]. intros [He Hk]. auto. Qed.

(** ** Programs with the same runs

    Programs are compared by their runs: continuations are functions, so equality of
    programs is too fine. *)
Definition same_runs {A} (p q : prog A) : Prop := forall tr o, runs p tr o <-> runs q tr o.

#[export] Instance same_runs_equivalence {A} : Equivalence (@same_runs A).
Proof.
  split; [by intros p tr o|by intros p q Hpq tr o; symmetry|].
  intros p q r Hpq Hqr tr o. by etrans; [apply Hpq|apply Hqr].
Qed.

#[export] Instance prog_bind_proper {A C} :
  Proper (same_runs ==> pointwise_relation A same_runs ==> same_runs) (@prog_bind A C).
Proof.
  intros p q Hpq f g Hfg tr o. rewrite !runs_bind.
  split; intros (tr1 & tr2 & o1 & Htr & Hr & Hk); exists tr1, tr2, o1; split_and!; try done;
    solve [by apply Hpq|destruct o1; [by apply Hfg|done]].
Qed.

Lemma prog_bind_ret {A} (p : prog A) : same_runs (prog_bind p Ret) p.
Proof.
  intros tr o. rewrite (runs_bind_ret p (fun a => a)). split; [|intros Hr; exists o; split; [done|by destruct o]].
  intros (o' & Hr & ->). by destruct o'.
Qed.

Lemma prog_bind_assoc {A C D} (p : prog A) (f : A -> prog C) (g : C -> prog D) :
  same_runs (prog_bind (prog_bind p f) g) (prog_bind p (fun a => prog_bind (f a) g)).
Proof.
  induction p as [a| |B e k IH]; simpl; [done..|]. intros tr o. simpl.
  split; intros (b & tr' & -> & Hr); exists b, tr'; (split; [done|]); by apply IH.
Qed.

End Effects.

Arguments prog : clear implicits.
Arguments Ret {E A} a.
Arguments Crash {E A}.
Arguments Vis {E A B} e k.
Arguments obs : clear implicits.

Notation "'do!' x ':=' c 'in' k" := (prog_bind c (fun x => k))
  (at level 10, x name, c at level 100, k at level 200) : rust_scope.
