(* ===== verification/Events.v ===== *)
(** * The effects of a request handler and of the health checks

    Everything a handler does besides computing: calls over the network, reads
    of files, the critical sections on state that handlers share.  Each effect is
    atomic; handlers interleave between effects.  The data of [health.rs] is here
    because the handlers read it. *)
From S2P Require Import Prelude RustStd Http LoadBalancing Effects.

(** ** [health.rs]: data *)
Inductive Healthiness : Type :=
| Healthy
| Slow (response_time : Z)
| Unresponsive (status_code : option Z).

#[export] Instance Healthiness_eq_dec : EqDecision Healthiness.
Proof. solve_decision. Defined.

Record HealthConfig := {
  slow_threshold : Z;
  timeout : Z;
  health_path : string;
}.

(** ** The LDAP client ([ldap3]) *)
Inductive LdapScope : Type := OneLevel | Subtree.

(** Result code and the distinguished names of the entries found. *)
Record LdapSearchResult := { search_rc : Z; search_entries : list string }.

(** [LdapResult::success]: result code 0. *)
Definition ldap_success (rc : Z) : bool := bool_decide (rc = 0%Z).

(** A location of shared state: the [Arc] of a pool, the [Mutex] of a limiter. *)
Abbreviation loc := nat (only parsing).

(** ** Effects, with the type of the answer *)
Inductive effect `{Http} : Type -> Type :=
(** [client.request(request)] on the pool's client; [Err] is a [hyper::Error] *)
| ClientRequest (request : Request) : effect (result Response unit)
(** [gethostname().into_string()] *)
| GetHostname : effect (option string)
(** [RateLimiter::register_request], under the limiter's mutex *)
| RegisterRequest (limiter : loc) (limit window_sec : Z) (client : SocketAddr) : effect bool
(** [fs::read_to_string(location.join(status).with_extension(html))] *)
| ReadToString (path : string) : effect (option string)
(** [LdapConnAsync::new], [Ldap::search], [Ldap::simple_bind]; the answer of a
    bind is its result code, [Err] is an [LdapError] *)
| LdapConnect (address : string) : effect (result unit string)
| LdapSearch (base : string) (scope : LdapScope) (filter : string) (attrs : list string) :
    effect (result LdapSearchResult string)
| LdapSimpleBind (dn password : string) : effect (result Z string)
(** [healthiness.load()], [healthiness.store()] of an address of a pool *)
| LoadHealth (pool : loc) (address : nat) : effect Healthiness
| StoreHealth (pool : loc) (address : nat) (h : Healthiness) : effect unit
(** [pool.strategy.select_backend] *)
| SelectBackend (pool : loc) (request : Request) (ctx : LbContext) : effect (outcome RequestForwarder)
(** [client.get(uri)] of a health check with its time-out, answered with the
    status, and [before_request.elapsed()] in milliseconds *)
| HealthGet (uri : Uri) (timeout : Z) : effect (result Z unit)
| ElapsedMillis : effect (result Z unit).

Abbreviation handler := (prog effect).

Section Trace.
Context `{HT : Http}.

(** The requests a trace sends to backends on behalf of clients. *)
Definition backend_call (o : obs effect) : option Request :=
  match o with
  | Obs e _ => match e with ClientRequest request => Some request | _ => None end
  end.

Definition backend_calls (tr : list (obs effect)) : list Request := omap backend_call tr.

Lemma backend_calls_app tr1 tr2 : backend_calls (tr1 ++ tr2) = backend_calls tr1 ++ backend_calls tr2.
Proof. apply omap_app. Qed.

(** A handler that sends at most [n] requests to backends, whatever the
    environment answers. *)
Definition calls_at_most {A} (n : nat) (p : handler A) : Prop :=
  forall tr o, runs p tr o -> length (backend_calls tr) <= n.

Lemma calls_at_most_bind {A C} n m (p : handler A) (f : A -> handler C) :
  calls_at_most n p -> (forall a, calls_at_most m (f a)) -> calls_at_most (n + m) (prog_bind p f).
Proof.
  intros Hp Hf tr o (tr1 & tr2 & o1 & -> & H1 & H2)%runs_bind.
  rewrite backend_calls_app, length_app. pose proof (Hp _ _ H1). destruct o1 as [a|].
  - pose proof (Hf a _ _ H2). lia.
  - destruct H2 as [-> _]. simpl. lia.
Qed.

Lemma calls_at_most_ret {A} (a : A) n : calls_at_most n (Ret a).
Proof. intros tr o [-> _]. simpl. lia. Qed.

Lemma calls_at_most_lift {A} (o : outcome A) n : calls_at_most n (lift o).
Proof. intros tr o' [-> _]%runs_lift. simpl. lia. Qed.

Lemma calls_at_most_perform {B} (e : effect B) :
  (forall b, backend_call (Obs e b) = None) -> calls_at_most 0 (perform e).
Proof. intros He tr o (b & -> & ->)%runs_perform. cbn -[backend_call]. by rewrite He. Qed.

Lemma calls_at_most_weaken {A} (p : handler A) n m : n <= m -> calls_at_most n p -> calls_at_most m p.
Proof. intros Hnm Hp tr o Hr. specialize (Hp tr o Hr). lia. Qed.

(** A handler whose requests to backends all satisfy [P]. *)
Definition sends_only {A} (P : Request -> Prop) (p : handler A) : Prop :=
  forall tr o, runs p tr o -> Forall P (backend_calls tr).

Lemma sends_only_bind {A C} P (p : handler A) (f : A -> handler C) :
  sends_only P p -> (forall a, sends_only P (f a)) -> sends_only P (prog_bind p f).
Proof.
  intros Hp Hf tr o (tr1 & tr2 & o1 & -> & H1 & H2)%runs_bind.
  rewrite backend_calls_app. apply Forall_app. split; [by eapply Hp|]. destruct o1 as [a|].
  - by eapply Hf.
  - destruct H2 as [-> _]. constructor.
Qed.

Lemma quiet_sends_only {A} P (p : handler A) : calls_at_most 0 p -> sends_only P p.
Proof.
  intros Hp tr o Hr. specialize (Hp tr o Hr). destruct (backend_calls tr); [constructor|simpl in Hp; lia].
Qed.

(** Some answer for every effect. *)
Definition effect_default {B} (e : effect B) : B :=
  match e in effect B return B with
  | ClientRequest _ => Err tt
  | GetHostname => None
  | RegisterRequest _ _ _ _ => true
  | ReadToString _ => None
  | LdapConnect _ => Ok tt
  | LdapSearch _ _ _ _ => Err ""
  | LdapSimpleBind _ _ => Err ""
  | LoadHealth _ _ => Healthy
  | StoreHealth _ _ _ => tt
  | SelectBackend _ _ _ => Panic
  | HealthGet _ _ => Err tt
  | ElapsedMillis => Err tt
  end.

(** The effects of a middleware chain: everything but the shared state of pools. *)
Definition chain_effect B (e : effect B) : Prop :=
  match e with
  | LoadHealth _ _ | StoreHealth _ _ _ | SelectBackend _ _ _ | HealthGet _ _ | ElapsedMillis => False
  | _ => True
  end.

End Trace.

#[export] Hint Resolve calls_at_most_ret calls_at_most_lift calls_at_most_perform : arlb.
