(* ===== verification/Middleware.v ===== *)
(** * Middlewares and the chain: [middleware/mod.rs] and the forwarding part of
    [load_balancing/mod.rs] *)
From S2P Require Import Prelude RustStd Http HttpModel LoadBalancing Effects Events.

Section Middleware.
Context `{HT : Http}.

(** ** [Context]; the [client] field is the effect [ClientRequest] *)
Record MwContext := {
  mw_client_scheme : Scheme;
  mw_client_address : SocketAddr;
  mw_backend_uri : Uri;
}.

(** ** The trait [Middleware]

    A boxed middleware is its [forward_request].  The argument [chain] is used
    only through [MiddlewareChain::forward_request] and is passed as that
    function. *)
Record Middleware := {
  mw_forward_request : Request -> (Request -> MwContext -> handler Response) -> MwContext -> handler Response;
}.

(** The two methods a simple middleware implements. *)
Record Modifier := {
  modify_request : Request -> MwContext -> handler (result Request Response);
  modify_response : Response -> MwContext -> handler Response;
}.

(** The default bodies. *)
Definition default_modify_request (request : Request) (context : MwContext) :
  handler (result Request Response) := Ret (Ok request).

Definition default_modify_response (response : Response) (context : MwContext) : handler Response :=
  Ret response.

Definition default_forward_request (m : Modifier) (request : Request)
  (chain : Request -> MwContext -> handler Response) (context : MwContext) : handler Response :=
  do! r := modify_request m request context in
  match r with
  | Ok request => do! response := chain request context in modify_response m response context
  | Err response => Ret response
  end.

Definition boxed (m : Modifier) : Middleware := {| mw_forward_request := default_forward_request m |}.

(** ** The request to the backend *)

(** [request::Builder] holding the headers so far, or the error of a conversion;
    [builder_header] is [Builder::header] with a value converted from a string. *)
Definition builder_header (name value : string) (b : option HeaderMap) : option HeaderMap :=
  hs ← b; v ← hv_from_str value; Some (headers_append name v hs).

Definition forwarded_for_header (existing_forwarded_for : option string) (client_ip : string) : string :=
  match existing_forwarded_for with
  | Some existing => default "" (hv_to_str existing) +:+ ", " +:+ client_ip
  | None => client_ip
  end.

Definition forwarded_port (s : Scheme) : string :=
  match s with HTTP => "80" | HTTPS => "443" end.

Definition backend_request (request : Request) (context : MwContext) : handler Request :=
  let ip := ip_to_string (sa_ip (mw_client_address context)) in
  let builder := Some (foldl (fun hs kv => headers_append kv.1 kv.2 hs) headers_new
                             (headers_iter (req_headers request))) in
  let builder := builder_header "x-forwarded-for"
                   (forwarded_for_header (headers_get (req_headers request) "x-forwarded-for") ip) builder in
  let builder := builder_header "x-real-ip" ip builder in
  let builder := builder_header "x-forwarded-port" (forwarded_port (mw_client_scheme context)) builder in
  let builder := builder_header "x-forwarded-proto" (scheme_to_string (mw_client_scheme context)) builder in
  do! hostname := perform GetHostname in
  let builder := match hostname with
                 | Some hostname => builder_header "x-forwarded-server" hostname builder
                 | None => builder
                 end in
  do! headers := lift (unwrap builder) in
  Ret (mk_request _ (req_method request) (mw_backend_uri context) Version_default headers (req_body request)).

(** ** [MiddlewareChain] *)
Inductive MiddlewareChain : Type :=
| Empty
| Entry (middleware : Middleware) (chain : MiddlewareChain).

(** The [Empty] case of [forward_request]. *)
Definition send_to_backend (request : Request) (context : MwContext) : handler Response :=
  do! backend_request := backend_request request context in
  do! answer := perform (ClientRequest backend_request) in
  Ret (unwrap_result (map_err handle_bad_gateway answer)).

Fixpoint chain_forward_request (self : MiddlewareChain) (request : Request) (context : MwContext) :
  handler Response :=
  match self with
  | Entry middleware chain => mw_forward_request middleware request (chain_forward_request chain) context
  | Empty => send_to_backend request context
  end.

(** ** [RequestForwarder] as a middleware, and [forward_request_to_backend] *)
Definition forwarder_middleware (fw : RequestForwarder) : Modifier := {|
  modify_request := default_modify_request;
  modify_response response context := lift (response_mapper fw response) |}.

Definition forward_request_to_backend (fw : RequestForwarder) (request : Request) (chain : MiddlewareChain)
  (client_scheme : Scheme) (client_address : SocketAddr) : handler Response :=
  do! uri := lift (backend_uri fw request) in
  let context := {| mw_client_scheme := client_scheme; mw_client_address := client_address;
                    mw_backend_uri := uri |} in
  default_forward_request (forwarder_middleware fw) request (chain_forward_request chain) context.

(** ** The headers the backend sees *)
Definition forwarding_headers (request : Request) (context : MwContext) (hostname : option string) :
  list (string * string) :=
  let ip := ip_to_string (sa_ip (mw_client_address context)) in
  [("x-forwarded-for", forwarded_for_header (headers_get (req_headers request) "x-forwarded-for") ip);
   ("x-real-ip", ip);
   ("x-forwarded-port", forwarded_port (mw_client_scheme context));
   ("x-forwarded-proto", scheme_to_string (mw_client_scheme context))] ++
  match hostname with Some h => [("x-forwarded-server", h)] | None => [] end.

Definition header_values (l : list (string * string)) (k : string) : list string :=
  (filter (fun kv => kv.1 = k) l).*2.

Lemma header_values_app l1 l2 k : header_values (l1 ++ l2) k = header_values l1 k ++ header_values l2 k.
Proof. unfold header_values. by rewrite filter_app, fmap_app. Qed.

Lemma header_values_one n v k : header_values [(n, v)] k = if decide (n = k) then [v] else [].
Proof. unfold header_values. rewrite filter_cons. simpl. by repeat case_decide. Qed.

(** A builder without error whose headers are those of [hs0] followed by [l]. *)
Definition builds (hs0 : HeaderMap) (b : option HeaderMap) (l : list (string * string)) : Prop :=
  exists hs, b = Some hs /\ forall k, headers_get_all hs k = headers_get_all hs0 k ++ header_values l k.

Lemma builder_header_builds `{!HttpLaws} hs0 name value b l :
  builds hs0 b l -> is_Some (hv_from_str value) ->
  builds hs0 (builder_header name value b) (l ++ [(name, value)]).
Proof.
  intros (hs & -> & Hhs) [v Hv]. pose proof (hv_from_str_sound _ _ Hv) as ->.
  eexists. split; [simpl; by rewrite Hv|]. intros k.
  rewrite headers_get_all_append, Hhs, header_values_app, header_values_one, app_assoc.
  case_decide; by rewrite ?app_nil_r.
Qed.

Lemma builds_first `{!HttpLaws} hs0 hs l :
  (forall k, headers_get_all hs k = headers_get_all hs0 k ++ header_values l k) ->
  forall k v, headers_get hs0 k = Some v -> headers_get hs k = Some v.
Proof. intros Hhs k v. rewrite !headers_get_spec, Hhs. by destruct (headers_get_all hs0 k). Qed.

Lemma hv_from_str_const `{!HttpLaws} s : str_forallb visible_ascii s = true -> is_Some (hv_from_str s).
Proof. intros Hs. rewrite (hv_from_str_visible _ Hs). eauto. Qed.

Lemma forwarded_for_valid `{!HttpLaws} existing ip :
  is_Some (hv_from_str (forwarded_for_header existing (ip_to_string ip))).
Proof.
  assert (is_Some (hv_from_str (ip_to_string ip))) as Hip by apply hv_from_str_const, ip_to_string_visible.
  destruct existing as [v|]; unfold forwarded_for_header; [|done].
  apply hv_from_str_app; [|apply hv_from_str_app; [by apply hv_from_str_const|done]].
  destruct (hv_to_str v) as [s|] eqn:Hs; simpl; [|by apply hv_from_str_const].
  rewrite (hv_to_from_str _ _ Hs). eauto.
Qed.

(** The builder before the host name is asked for. *)
Lemma backend_builder `{!HttpLaws} request context :
  let ip := ip_to_string (sa_ip (mw_client_address context)) in
  builds (req_headers request)
    (builder_header "x-forwarded-proto" (scheme_to_string (mw_client_scheme context))
      (builder_header "x-forwarded-port" (forwarded_port (mw_client_scheme context))
        (builder_header "x-real-ip" ip
          (builder_header "x-forwarded-for"
             (forwarded_for_header (headers_get (req_headers request) "x-forwarded-for") ip)
             (Some (foldl (fun hs kv => headers_append kv.1 kv.2 hs) headers_new
                          (headers_iter (req_headers request))))))))
    (forwarding_headers request context None).
Proof.
  intros ip.
  apply (builder_header_builds _ _ _ _ [_; _; _]); [|by destruct (mw_client_scheme context); apply hv_from_str_const].
  apply (builder_header_builds _ _ _ _ [_; _]); [|by destruct (mw_client_scheme context); apply hv_from_str_const].
  apply (builder_header_builds _ _ _ _ [_]); [|apply hv_from_str_const, ip_to_string_visible].
  apply (builder_header_builds _ _ _ _ []); [|apply forwarded_for_valid].
  eexists. split; [done|]. intros k. by rewrite headers_copy_get_all, headers_get_all_new, app_nil_r.
Qed.

(** C25: Every run of [backend_request] asks for the host name once.  If the host
    name is a valid header value (or there is none) it returns the request with the
    client's method and body and the selected backend's URI, whose values for every
    header are the client's values followed by the forwarding headers, in this
    order (so a first value sent by the client, also of [x-real-ip] or
    [x-forwarded-for], stays the first one the backend sees); otherwise it panics. *)
Theorem backend_request_headers `{!HttpLaws} request context tr o :
  runs (backend_request request context) tr o ->
  exists hostname, tr = [Obs GetHostname hostname] /\
    ((exists h, hostname = Some h /\ hv_from_str h = None /\ o = Panic) \/
     (exists r, o = Returned r /\
      req_method r = req_method request /\ req_body r = req_body request /\
      req_uri r = mw_backend_uri context /\ req_version r = Version_default /\
      (forall k, headers_get_all (req_headers r) k =
        headers_get_all (req_headers request) k ++
        header_values (forwarding_headers request context hostname) k) /\
      (forall k v, headers_get (req_headers request) k = Some v -> headers_get (req_headers r) k = Some v))).
Proof.
  unfold backend_request. intros (hostname & tr' & -> & Hr). exists hostname.
  pose proof (backend_builder request context) as Hb. cbv zeta in Hb. set (b := builder_header _ _ _) in Hb, Hr. cbn [prog_bind] in Hr.
  destruct hostname as [h|]; [destruct (hv_from_str h) as [v|] eqn:Hv|].
  - assert (is_Some (hv_from_str h)) as Hh by eauto.
    destruct (builder_header_builds _ "x-forwarded-server" h b _ Hb Hh) as (hs & Hhs & Hk).
    rewrite Hhs in Hr. destruct Hr as [-> ->]. split; [done|]. right. eexists.
    split_and!; [done..|exact Hk|]. by eapply builds_first.
  - destruct Hb as (hs & -> & Hk). simpl in Hr. rewrite Hv in Hr. destruct Hr as [-> ->].
    split; [done|]. left. eauto.
  - destruct Hb as (hs & -> & Hk). destruct Hr as [-> ->]. split; [done|]. right. eexists.
    split_and!; [done..|exact Hk|]. by eapply builds_first.
Qed.

(** ** At most one request to the backend *)

(** A middleware that makes no request of its own and uses its chain at most once. *)
Definition forwards_once (m : Middleware) : Prop :=
  forall n request chain context,
    (forall r c, calls_at_most n (chain r c)) ->
    calls_at_most n (mw_forward_request m request chain context).

Fixpoint chain_all (P : Middleware -> Prop) (chain : MiddlewareChain) : Prop :=
  match chain with Empty => True | Entry m chain' => P m /\ chain_all P chain' end.

(** A modifier that makes no request of its own. *)
Definition quiet (m : Modifier) : Prop :=
  (forall request context, calls_at_most 0 (modify_request m request context)) /\
  (forall response context, calls_at_most 0 (modify_response m response context)).

Lemma quiet_forwards_once m : quiet m -> forwards_once (boxed m).
Proof.
  intros [Hreq Hresp] n request chain context Hchain. simpl. unfold default_forward_request.
  apply (calls_at_most_bind 0 n); [done|]. intros [request'|response]; [|auto with arlb].
  rewrite <-(Nat.add_0_r n). apply calls_at_most_bind; auto.
Qed.

Lemma send_to_backend_once request context : calls_at_most 1 (send_to_backend request context).
Proof.
  apply (calls_at_most_bind 0 1).
  - apply (calls_at_most_bind 0 0); [auto with arlb|]. intros hostname.
    apply (calls_at_most_bind 0 0); auto with arlb.
  - intros r tr o (b & tr' & -> & -> & ->). simpl. lia.
Qed.

Lemma chain_calls_once chain request context :
  chain_all forwards_once chain -> calls_at_most 1 (chain_forward_request chain request context).
Proof.
  revert request context. induction chain as [|m chain IH]; intros request context Hall; simpl.
  - apply send_to_backend_once.
  - destruct Hall as [Hm Hall]. apply Hm. auto.
Qed.

Lemma forward_request_to_backend_once fw request chain scheme address :
  chain_all forwards_once chain ->
  calls_at_most 1 (forward_request_to_backend fw request chain scheme address).
Proof.
  intros Hall. apply (calls_at_most_bind 0 1); [auto with arlb|]. intros uri.
  apply (quiet_forwards_once (forwarder_middleware fw)).
  - split; intros; simpl; unfold default_modify_request; auto with arlb.
  - intros r c. by apply chain_calls_once.
Qed.

(** ** Requests go to the selected backend only *)

(** A middleware that hands its context to the rest of the chain unchanged, as far
    as the backend is concerned, and makes no request of its own. *)
Definition keeps_target (m : Middleware) : Prop :=
  forall uri request chain context, mw_backend_uri context = uri ->
    (forall r c, mw_backend_uri c = uri -> sends_only (fun r => req_uri r = uri) (chain r c)) ->
    sends_only (fun r => req_uri r = uri) (mw_forward_request m request chain context).

Lemma quiet_keeps_target m : quiet m -> keeps_target (boxed m).
Proof.
  intros [Hreq Hresp] uri request chain context Huri Hchain. simpl. unfold default_forward_request.
  apply sends_only_bind; [by apply quiet_sends_only|]. intros [request'|response].
  - apply sends_only_bind; [by apply Hchain|]. intros response. by apply quiet_sends_only.
  - apply quiet_sends_only, calls_at_most_ret.
Qed.

Lemma backend_request_uri request context tr r :
  runs (backend_request request context) tr (Returned r) ->
  req_uri r = mw_backend_uri context /\ backend_calls tr = [].
Proof.
  unfold backend_request. intros (hostname & tr' & -> & Hr). cbn [prog_bind] in Hr.
  apply runs_bind in Hr as (tr1 & tr2 & [headers|] & -> & Hl & Hr); [|by destruct Hr].
  apply runs_lift in Hl as [-> _]. destruct Hr as [-> [= ->]]. done.
Qed.

Lemma send_to_backend_target request context :
  sends_only (fun r => req_uri r = mw_backend_uri context) (send_to_backend request context).
Proof.
  intros tr o (tr1 & tr2 & [r|] & -> & Hb & Hr)%runs_bind.
  - apply backend_request_uri in Hb as [Huri Hb]. destruct Hr as (b & tr3 & -> & -> & _).
    rewrite backend_calls_app, Hb. by repeat constructor.
  - destruct Hr as [-> _]. rewrite app_nil_r.
    assert (calls_at_most 0 (backend_request request context)) as Hq; [|by eapply (quiet_sends_only _ _ Hq)].
    apply (calls_at_most_bind 0 0); [auto with arlb|]. intros. apply (calls_at_most_bind 0 0); auto with arlb.
Qed.

Lemma chain_target chain request context :
  chain_all keeps_target chain ->
  sends_only (fun r => req_uri r = mw_backend_uri context) (chain_forward_request chain request context).
Proof.
  revert request context. induction chain as [|m chain IH]; intros request context Hall; simpl.
  - apply send_to_backend_target.
  - destruct Hall as [Hm Hall]. apply Hm; [done|]. intros r c <-. by apply IH.
Qed.

(** ** A chain does not touch the shared state of pools *)
Definition local_mw (m : Middleware) : Prop :=
  forall request chain context, (forall r c, effects_in chain_effect (chain r c)) ->
    effects_in chain_effect (mw_forward_request m request chain context).

Definition local_modifier (m : Modifier) : Prop :=
  (forall request context, effects_in chain_effect (modify_request m request context)) /\
  (forall response context, effects_in chain_effect (modify_response m response context)).

Lemma local_boxed m : local_modifier m -> local_mw (boxed m).
Proof.
  intros [Hreq Hresp] request chain context Hchain. apply effects_in_bind; [done|]. intros [r|r]; [|done].
  by apply effects_in_bind.
Qed.

Lemma chain_local chain request context :
  chain_all local_mw chain -> effects_in chain_effect (chain_forward_request chain request context).
Proof.
  revert request context. induction chain as [|m chain IH]; intros request context Hall; simpl.
  - split; [done|]. intros hostname. apply effects_in_bind; [apply effects_in_bind; [apply effects_in_lift|done]|].
    intros r. by split.
  - destruct Hall as [Hm Hall]. apply Hm. auto.
Qed.

Lemma forward_request_local fw request chain scheme address :
  chain_all local_mw chain ->
  effects_in chain_effect (forward_request_to_backend fw request chain scheme address).
Proof.
  intros Hall. apply effects_in_bind; [apply effects_in_lift|]. intros uri.
  apply (local_boxed (forwarder_middleware fw)); [split; intros; [done|apply effects_in_lift]|].
  intros r c. by apply chain_local.
Qed.

(** ** The order of the chain *)
Definition chain_of (ms : list Modifier) : MiddlewareChain := foldr (fun m => Entry (boxed m)) Empty ms.

(** The request passes the [modify_request] of every middleware, in order. *)
Inductive passes (context : MwContext) : list Modifier -> Request -> list (obs effect) -> Request -> Prop :=
| passes_nil request : passes context [] request [] request
| passes_cons m ms request tr1 request' tr2 request'' :
    runs (modify_request m request context) tr1 (Returned (Ok request')) ->
    passes context ms request' tr2 request'' ->
    passes context (m :: ms) request (tr1 ++ tr2) request''.

(** The response goes through the [modify_response] of every middleware, from the
    last to the first. *)
Inductive returns (context : MwContext) : list Modifier -> Response -> list (obs effect) -> Response -> Prop :=
| returns_nil response : returns context [] response [] response
| returns_cons m ms response tr1 response' tr2 response'' :
    returns context ms response tr1 response' ->
    runs (modify_response m response' context) tr2 (Returned response'') ->
    returns context (m :: ms) response (tr1 ++ tr2) response''.

(** A response comes from the backend after all middlewares passed the request,
    or from a middleware that answered early. *)
Inductive served (context : MwContext) (ms : list Modifier) (request : Request) :
  list (obs effect) -> Response -> Prop :=
| served_backend tr1 request' tr2 response tr3 response' :
    passes context ms request tr1 request' ->
    runs (send_to_backend request' context) tr2 (Returned response) ->
    returns context ms response tr3 response' ->
    served context ms request (tr1 ++ tr2 ++ tr3) response'
| served_early ms1 m ms2 tr1 request' tr2 response tr3 response' :
    ms = ms1 ++ m :: ms2 ->
    passes context ms1 request tr1 request' ->
    runs (modify_request m request' context) tr2 (Returned (Err response)) ->
    returns context ms1 response tr3 response' ->
    served context ms request (tr1 ++ tr2 ++ tr3) response'.

Lemma boxed_runs m request chain context tr response :
  runs (mw_forward_request (boxed m) request chain context) tr (Returned response) <->
  runs (modify_request m request context) tr (Returned (Err response)) \/
  exists tr1 request' tr2 response' tr3, tr = tr1 ++ tr2 ++ tr3 /\
    runs (modify_request m request context) tr1 (Returned (Ok request')) /\
    runs (chain request' context) tr2 (Returned response') /\
    runs (modify_response m response' context) tr3 (Returned response).
Proof.
  simpl. unfold default_forward_request. rewrite runs_bind. split.
  - intros (tr1 & tr2 & [[request'|r]|] & -> & H1 & H2); [right| |naive_solver].
    + apply runs_bind in H2 as (tr3 & tr4 & [response'|] & -> & H3 & H4); [|naive_solver]. eauto 10.
    + destruct H2 as [-> [= ->]]. left. by rewrite app_nil_r.
  - intros [H|(tr1 & request' & tr2 & response' & tr3 & -> & H1 & H2 & H3)].
    + eexists tr, [], _. rewrite app_nil_r. split_and!; [done..|]. simpl. done.
    + eexists tr1, _, _. split_and!; [done..|]. simpl. apply runs_bind. eauto 8.
Qed.

Lemma served_cons m ms request context tr response :
  served context (m :: ms) request tr response <->
  runs (modify_request m request context) tr (Returned (Err response)) \/
  exists tr1 request' tr2 response' tr3, tr = tr1 ++ tr2 ++ tr3 /\
    runs (modify_request m request context) tr1 (Returned (Ok request')) /\
    served context ms request' tr2 response' /\
    runs (modify_response m response' context) tr3 (Returned response).
Proof.
  split.
  - destruct 1 as [? ? ? ? ? ? Hp Hb Hr|ms1 m' ms2 ? ? ? ? ? ? Hms Hp He Hr].
    + inversion Hp; subst. inversion Hr; subst. right. do 5 eexists. split_and!; [|done| |done].
      2: by econstructor. by rewrite !app_assoc.
    + destruct ms1 as [|m1 ms1]; simplify_eq/=; inversion Hp; subst; inversion Hr; subst.
      * left. by rewrite app_nil_r.
      * right. do 5 eexists. split_and!; [|done| |done]. 2: by eapply served_early. by rewrite !app_assoc.
  - intros [H|(tr1 & request' & tr2 & response' & tr3 & -> & H1 & H2 & H3)].
    + rewrite <-(app_nil_r tr). apply (served_early _ _ _ [] m ms [] request tr response [] response); by try constructor.
    + destruct H2 as [? ? ? ? ? ? Hp Hb Hr|ms1 m' ms2 ? ? ? ? ? ? -> Hp He Hr].
      * rewrite <-!app_assoc, app_assoc. eapply served_backend; [|done|]; by econstructor.
      * rewrite <-!app_assoc, app_assoc. eapply (served_early _ _ _ (m :: ms1)); [done| |done|]; by econstructor.
Qed.

(** C3: A chain of default-implementation middlewares answers exactly as
    documented: either every [modify_request] passes the request on, in the order
    of the chain, the last request is sent to the backend, and the response goes
    through every [modify_response] in reverse order; or some middleware answers
    early, the later middlewares and the backend see nothing, and the early response
    goes through the [modify_response] of the earlier middlewares only, in reverse
    order.  The effects happen in that order. *)
Theorem chain_onion ms request context tr response :
  runs (chain_forward_request (chain_of ms) request context) tr (Returned response) <->
  served context ms request tr response.
Proof.
  revert request tr response. induction ms as [|m ms IH]; intros request tr response.
  - simpl. split.
    + intros Hr. rewrite <-(app_nil_r tr). apply (served_backend _ _ _ [] request tr response []); by try constructor.
    + destruct 1 as [? ? ? ? ? ? Hp Hb Hr|ms1 ? ? ? ? ? ? ? ? Hms]; [|by destruct ms1].
      inversion Hp; subst. inversion Hr; subst. by rewrite app_nil_r.
  - rewrite served_cons. cbn [chain_of foldr chain_forward_request]. rewrite boxed_runs.
    by setoid_rewrite IH.
Qed.

End Middleware.

(** ** Witnesses *)
#[local] Existing Instance http_model.

Definition sample_mw_context : MwContext :=
  {| mw_client_scheme := HTTPS; mw_client_address := sample_client;
     mw_backend_uri := mk_uri (Some "http") (Some "127.0.0.1:8084") (Some "/") |}.

Definition spoofed_request : Request := sample_request "GET" (Some "/") [("x-real-ip", "10.0.0.1")].

Lemma backend_request_headers_witness :
  exists r, runs (backend_request spoofed_request sample_mw_context) [Obs GetHostname (Some "lb")] (Returned r) /\
    headers_get_all (req_headers r) "x-real-ip" = ["10.0.0.1"; "127.0.0.1"] /\
    headers_get (req_headers r) "x-real-ip" = Some "10.0.0.1".
Proof.
  eexists. split; [exists (Some "lb"), []; by repeat split|].
  destruct (backend_request_headers (H := http_model_laws) spoofed_request sample_mw_context
    [Obs GetHostname (Some "lb")] (Returned (mk_request http_model "GET" (mw_backend_uri sample_mw_context) 11%Z
      [("x-real-ip", "10.0.0.1"); ("x-forwarded-for", "127.0.0.1"); ("x-real-ip", "127.0.0.1");
       ("x-forwarded-port", "443"); ("x-forwarded-proto", "https"); ("x-forwarded-server", "lb")] "")))
    as (hostname & Htr & [(h & _ & _ & Hp)|(r & [= <-] & _ & _ & _ & _ & Hall & Hfirst)]).
  - exists (Some "lb"), []. by repeat split.
  - done.
  - split; [reflexivity|]. apply (Hfirst "x-real-ip" "10.0.0.1"). reflexivity.
Defined.
