(* ===== verification/RateLimiter.v ===== *)
(** * The rate limiter: [middleware/rate_limiter.rs]

    The state is the [LinkedHashMap] behind the mutex.  [register_request] runs
    entirely under the lock, so concurrent requests are sequences of calls whose
    times do not decrease.  The specification keeps one counter per client and
    never deletes; the refinement theorem covers the early stop of the clean-up. *)
From S2P Require Import Prelude RustStd Http HttpModel LoadBalancing Effects Events Middleware.
From stdpp Require Import sorting.

Local Open Scope Z_scope.

(** ** The [linked_hash_map] crate *)
Class LinkedHashMap := {
  lhm : Type -> Type -> Type;
  lhm_new {K V} `{EqDecision K} : lhm K V;
  lhm_iter {K V} `{EqDecision K} : lhm K V -> list (K * V);
  lhm_remove {K V} `{EqDecision K} : K -> lhm K V -> option V * lhm K V;
  lhm_insert {K V} `{EqDecision K} : K -> V -> lhm K V -> lhm K V;
}.

(** The entries for a key, and the rest, in a list of pairs. *)
Definition without {K V} `{EqDecision K} (k : K) (l : list (K * V)) : list (K * V) :=
  filter (fun kv => kv.1 <> k) l.

Definition assoc {K V} `{EqDecision K} (k : K) (l : list (K * V)) : option V :=
  snd <$> iter_find (fun kv => bool_decide (kv.1 = k)) l.

(** Documented behaviour: the iteration order is the order of insertion, and
    inserting a key moves it to the end. *)
Class LinkedHashMapLaws `{LinkedHashMap} : Prop := {
  lhm_iter_new {K V} `{EqDecision K} : lhm_iter (lhm_new : lhm K V) = [];
  lhm_iter_nodup {K V} `{EqDecision K} (m : lhm K V) : NoDup (lhm_iter m).*1;
  lhm_remove_value {K V} `{EqDecision K} k (m : lhm K V) : (lhm_remove k m).1 = assoc k (lhm_iter m);
  lhm_iter_remove {K V} `{EqDecision K} k (m : lhm K V) :
    lhm_iter (lhm_remove k m).2 = without k (lhm_iter m);
  lhm_iter_insert {K V} `{EqDecision K} k v (m : lhm K V) :
    lhm_iter (lhm_insert k v m) = without k (lhm_iter m) ++ [(k, v)];
}.

(** ** [tokio::time::Instant], in nanoseconds *)
Abbreviation Instant := Z (only parsing).
Definition duration_since (now time : Instant) : Z := Z.max 0 (now - time).
Definition as_secs (d : Z) : Z := d / 1000000000.

Section RateLimiter.
Context `{HT : Http} `{LH : LinkedHashMap}.

(** ** The component *)
Record RateLimiter := {
  connections : lhm SocketAddr (Z * Instant);
  limit : Z;
  window_sec : Z;
}.

Definition rate_limiter_new (limit window_sec : Z) : RateLimiter :=
  {| connections := lhm_new; limit := limit; window_sec := window_sec |}.

Definition with_connections (rl : RateLimiter) (m : lhm SocketAddr (Z * Instant)) : RateLimiter :=
  {| connections := m; limit := limit rl; window_sec := window_sec rl |}.

(** The entry is older than the window. *)
Definition is_old (window : Z) (now : Instant) (entry : SocketAddr * (Z * Instant)) : bool :=
  bool_decide (window < as_secs (duration_since now entry.2.2)).

(** [RateLimiter::register_request]; [now] is the [Instant::now()] taken under
    the lock. *)
Definition register_request (rl : RateLimiter) (now : Instant) (client_address : SocketAddr) :
  bool * RateLimiter :=
  let old_entries := (take_while (is_old (window_sec rl) now) (lhm_iter (connections rl))).*1 in
  let m := foldl (fun m address => (lhm_remove address m).2) (connections rl) old_entries in
  let '(removed, m) := lhm_remove client_address m in
  let count := default 0 (fst <$> removed) in
  let count := if decide (count < u64_max) then count + 1 else count in
  (bool_decide (count <= limit rl), with_connections rl (lhm_insert client_address (count, now) m)).

(** [modify_request]; the limiter is the shared object at [self]. *)
Definition rate_limiter_modify_request (self : loc) (limit window_sec : Z) (request : Request)
  (context : MwContext) : handler (result Request Response) :=
  do! accepted := perform (RegisterRequest self limit window_sec (mw_client_address context)) in
  Ret (if accepted : bool then Ok request else Err too_many_requests).

Definition rate_limiter (self : loc) (limit window_sec : Z) : Modifier := {|
  modify_request := rate_limiter_modify_request self limit window_sec;
  modify_response := default_modify_response |}.

(** A sequence of requests [(time, client)] and their verdicts. *)
Fixpoint register_all (rl : RateLimiter) (calls : list (Instant * SocketAddr)) : list bool :=
  match calls with
  | [] => []
  | (now, client) :: calls =>
      let '(accepted, rl') := register_request rl now client in accepted :: register_all rl' calls
  end.

(** ** Specification: a counter and the time of the last request per client *)
Definition limiter_spec := SocketAddr -> option (Z * Instant).

Definition spec_count (window : Z) (now : Instant) (entry : option (Z * Instant)) : Z :=
  match entry with
  | Some (count, time) => if decide (window < as_secs (duration_since now time)) then 0 else count
  | None => 0
  end.

Definition spec_next (window : Z) (now : Instant) (entry : option (Z * Instant)) : Z :=
  Z.min u64_max (spec_count window now entry + 1).

Definition spec_register (limit window : Z) (s : limiter_spec) (now : Instant) (client : SocketAddr) :
  bool * limiter_spec :=
  (bool_decide (spec_next window now (s client) <= limit),
   fun a => if decide (a = client) then Some (spec_next window now (s client), now) else s a).

Fixpoint spec_register_all (limit window : Z) (s : limiter_spec) (calls : list (Instant * SocketAddr)) :
  list bool :=
  match calls with
  | [] => []
  | (now, client) :: calls =>
      let '(accepted, s') := spec_register limit window s now client in
      accepted :: spec_register_all limit window s' calls
  end.

(** ** Lemmas on association lists *)
Lemma assoc_cons {V} (k a : SocketAddr) (v : V) l :
  assoc k ((a, v) :: l) = if decide (a = k) then Some v else assoc k l.
Proof.
  unfold assoc. simpl. destruct (decide (a = k)) as [Hk|Hk].
  - by rewrite bool_decide_eq_true_2.
  - by rewrite bool_decide_eq_false_2.
Qed.

Lemma assoc_without {V} (k a : SocketAddr) (l : list (SocketAddr * V)) :
  assoc k (without a l) = if decide (a = k) then None else assoc k l.
Proof.
  induction l as [|[b v] l IH]; [by case_decide|]. unfold without in *. rewrite filter_cons. simpl.
  destruct (decide (b <> a)) as [Hb|Hb].
  - rewrite !assoc_cons, IH. repeat case_decide; naive_solver.
  - rewrite IH, assoc_cons. repeat case_decide; naive_solver.
Qed.

Lemma assoc_app {V} (k : SocketAddr) (l1 l2 : list (SocketAddr * V)) :
  assoc k (l1 ++ l2) = match assoc k l1 with Some v => Some v | None => assoc k l2 end.
Proof. induction l1 as [|[b v] l1 IH]; [done|]. simpl. rewrite !assoc_cons, IH. by case_decide. Qed.

Lemma assoc_elem {V} (k : SocketAddr) (v : V) l : assoc k l = Some v -> (k, v) ∈ l.
Proof.
  induction l as [|[b w] l IH]; [done|]. rewrite assoc_cons. case_decide; [|by right; auto].
  intros [= ->]. subst. by left.
Qed.

Lemma assoc_None {V} (k : SocketAddr) (l : list (SocketAddr * V)) : assoc k l = None <-> k ∉ l.*1.
Proof.
  induction l as [|[b w] l IH]; [by split; [intros _ ?%elem_of_nil|]|].
  rewrite assoc_cons. simpl. rewrite not_elem_of_cons, <-IH. case_decide; naive_solver.
Qed.

Lemma without_id {V} (a : SocketAddr) (l : list (SocketAddr * V)) : a ∉ l.*1 -> without a l = l.
Proof.
  unfold without. induction l as [|[b v] l IH]; [done|]. simpl. rewrite not_elem_of_cons.
  intros [Hab Hl]. rewrite filter_cons, decide_True by done. by rewrite IH.
Qed.

(** Removing the keys of a prefix, one by one, leaves the suffix. *)
Lemma without_prefix {V} (l1 l2 : list (SocketAddr * V)) :
  NoDup (l1 ++ l2).*1 -> foldl (fun l a => without a l) (l1 ++ l2) l1.*1 = l2.
Proof.
  revert l2. induction l1 as [|[b v] l1 IH]; intros l2; [done|]. simpl. intros [Hb Hnd]%NoDup_cons.
  unfold without at 2. rewrite filter_cons. simpl. rewrite decide_False by naive_solver.
  change (filter _ (l1 ++ l2)) with (without b (l1 ++ l2)). rewrite without_id by done. by apply IH.
Qed.

Lemma lhm_remove_all `{!LinkedHashMapLaws} (m : lhm SocketAddr (Z * Instant)) addresses :
  lhm_iter (foldl (fun m a => (lhm_remove a m).2) m addresses) =
  foldl (fun l a => without a l) (lhm_iter m) addresses.
Proof.
  revert m. induction addresses as [|a addresses IH]; intros m; [done|]. simpl. by rewrite IH, lhm_iter_remove.
Qed.

(** ** The entries are in temporal order, so the clean-up removes every old one *)
Definition by_time (e1 e2 : SocketAddr * (Z * Instant)) : Prop := e1.2.2 <= e2.2.2.

Lemma is_old_by_time window now e1 e2 :
  by_time e1 e2 -> is_old window now e1 = false -> is_old window now e2 = false.
Proof.
  unfold is_old, by_time, as_secs, duration_since. rewrite !bool_decide_eq_false. intros Ht Hold Hnew. apply Hold.
  eapply Z.lt_le_trans; [done|]. apply Z.div_le_mono; lia.
Qed.

Lemma take_while_old window now l :
  StronglySorted by_time l ->
  exists rest, l = take_while (is_old window now) l ++ rest /\ Forall (fun e => is_old window now e = false) rest.
Proof.
  induction 1 as [|e l Hl IH He]; [by exists []|]. simpl. destruct (is_old window now e) eqn:E.
  - destruct IH as (rest & Hrest & Hold). exists rest. simpl. by rewrite <-Hrest.
  - exists (e :: l). split; [done|]. constructor; [done|]. eapply Forall_impl; [done|].
    intros e' He'. by eapply is_old_by_time.
Qed.

Lemma without_sorted a l : StronglySorted by_time l -> StronglySorted by_time (without a l).
Proof.
  unfold without. induction 1 as [|e l Hl IH He]; [constructor|]. rewrite filter_cons. case_decide; [|done].
  constructor; [done|]. rewrite Forall_forall in *. intros e' [_ He']%list_elem_of_filter. auto.
Qed.

(** ** Refinement *)

(** At time [now], the map holds the specification's entries, without some that
    have expired; counters fit a [u64] and the entries are in temporal order. *)
Record represents (window : Z) (now : Instant) (l : list (SocketAddr * (Z * Instant))) (s : limiter_spec) :
  Prop := {
  rep_sorted : StronglySorted by_time l;
  rep_past : Forall (fun e => e.2.2 <= now) l;
  rep_lookup a : assoc a l = s a \/ (assoc a l = None /\ spec_count window now (s a) = 0);
  rep_bounds a count time : s a = Some (count, time) -> 0 <= count <= u64_max /\ time <= now;
}.

Lemma spec_count_later window now now' entry :
  now <= now' -> spec_count window now entry = 0 -> spec_count window now' entry = 0.
Proof.
  unfold spec_count. intros Hn. destruct entry as [[c t]|]; [|done].
  destruct (decide (window < as_secs (duration_since now t))) as [Hold|]; [intros _|by case_decide].
  rewrite decide_True; [done|]. eapply Z.lt_le_trans; [done|]. apply Z.div_le_mono; unfold duration_since; lia.
Qed.

Lemma is_old_spec_count window now a entry :
  spec_count window now (Some entry) = if is_old window now (a, entry) then 0 else entry.1.
Proof. destruct entry as [c t]. unfold is_old. simpl. by case_bool_decide; case_decide. Qed.

(** The clean-up keeps the representation, and leaves no old entry. *)
Lemma represents_cleanup window now now' l s :
  represents window now l s -> NoDup l.*1 -> now <= now' ->
  exists rest, foldl (fun l a => without a l) l (take_while (is_old window now') l).*1 = rest /\
    represents window now' rest s /\ Forall (fun e => is_old window now' e = false) rest.
Proof.
  intros [Hs Hp Hl Hb] Hnd Hn. destruct (take_while_old window now' l Hs) as (rest & Hrest & Hnew).
  set (old := take_while (is_old window now') l) in *. exists rest.
  assert (Forall (fun e => is_old window now' e = true) old) as Hold.
  { apply Forall_forall. intros e He. pose proof (take_while_all (is_old window now') l) as Ha.
    rewrite forallb_forall in Ha. apply Ha. by apply list_elem_of_In. }
  rewrite Hrest in Hnd, Hs, Hp. split; [rewrite Hrest; by apply without_prefix|]. split; [|done].
  rewrite fmap_app in Hnd. apply NoDup_app in Hnd as (_ & Hdis & _).
  apply Forall_app in Hp as [_ Hp]. split.
  - by eapply StronglySorted_app_1_r.
  - apply (Forall_impl _ _ _ Hp). simpl. intros e He. lia.
  - intros a. destruct (Hl a) as [Ha|[Ha Hz]]; rewrite Hrest, assoc_app in Ha.
    + destruct (assoc a old) as [v|] eqn:Hv; [|by left]. right. split.
      * apply assoc_None, Hdis. apply assoc_elem in Hv. apply list_elem_of_fmap. by exists (a, v).
      * rewrite <-Ha. rewrite (is_old_spec_count _ _ a). apply assoc_elem in Hv.
        rewrite Forall_forall in Hold. by rewrite (Hold _ Hv).
    + destruct (assoc a old); [done|]. right. split; [done|]. by eapply spec_count_later.
  - intros a c t Hst. specialize (Hb a c t Hst). lia.
Qed.

(** The counter found in the cleaned map is the counter of the specification. *)
Lemma represents_count window now l s client :
  represents window now l s -> Forall (fun e => is_old window now e = false) l ->
  default 0 (fst <$> assoc client l) = spec_count window now (s client).
Proof.
  intros Hr Hnew. destruct (rep_lookup _ _ _ _ Hr client) as [Ha|[-> Hz]]; [|by rewrite Hz].
  destruct (assoc client l) as [[c t]|] eqn:E; rewrite <-Ha; [|done].
  rewrite (is_old_spec_count _ _ client). apply assoc_elem in E. rewrite Forall_forall in Hnew.
  by rewrite (Hnew _ E).
Qed.

Lemma represents_insert window now l s client count :
  represents window now l s -> 0 <= count <= u64_max ->
  represents window now (without client l ++ [(client, (count, now))])
    (fun a => if decide (a = client) then Some (count, now) else s a).
Proof.
  intros [Hs Hp Hl Hb] Hc.
  assert (Forall (fun e => e.2.2 <= now) (without client l)) as Hp'.
  { rewrite Forall_forall in *. intros e [_ He]%list_elem_of_filter. auto. }
  split.
  - apply StronglySorted_app_2; [|by apply without_sorted|by repeat constructor].
    intros e e' He ->%list_elem_of_singleton. rewrite Forall_forall in Hp'. by apply Hp'.
  - apply Forall_app. split; [done|]. constructor; [simpl; lia|constructor].
  - intros a. rewrite assoc_app, assoc_without, assoc_cons.
    destruct (decide (a = client)) as [->|Hne].
    + left. by rewrite !decide_True.
    + rewrite !decide_False by congruence. destruct (Hl a) as [->|[-> Hz]]; [left|by right].
      by destruct (s a).
  - intros a c t. case_decide; [intros [= <- <-]; lia|by apply Hb].
Qed.

Lemma register_request_step `{!LinkedHashMapLaws} rl now now' client s :
  represents (window_sec rl) now (lhm_iter (connections rl)) s -> now <= now' ->
  (register_request rl now' client).1 = (spec_register (limit rl) (window_sec rl) s now' client).1 /\
  limit (register_request rl now' client).2 = limit rl /\
  window_sec (register_request rl now' client).2 = window_sec rl /\
  represents (window_sec rl) now' (lhm_iter (connections (register_request rl now' client).2))
    (spec_register (limit rl) (window_sec rl) s now' client).2.
Proof.
  intros Hr Hn.
  destruct (represents_cleanup _ _ now' _ _ Hr (lhm_iter_nodup _) Hn) as (rest & Hrest & Hr' & Hnew).
  unfold register_request. set (m := foldl _ _ _).
  assert (lhm_iter m = rest) as Hm by (unfold m; by rewrite lhm_remove_all).
  pose proof (lhm_remove_value client m) as Hv. pose proof (lhm_iter_remove client m) as Hi.
  destruct (lhm_remove client m) as [removed m']. simpl in Hv, Hi. rewrite Hm in Hv, Hi.
  rewrite Hv, (represents_count _ _ _ _ client Hr' Hnew).
  assert (0 <= spec_count (window_sec rl) now' (s client) <= u64_max) as Hc.
  { unfold spec_count. destruct (s client) as [[c t]|] eqn:Es; [|done].
    destruct (rep_bounds _ _ _ _ Hr' _ _ _ Es). case_decide; [done|lia]. }
  assert ((if decide (spec_count (window_sec rl) now' (s client) < u64_max)
           then spec_count (window_sec rl) now' (s client) + 1 else spec_count (window_sec rl) now' (s client))
          = spec_next (window_sec rl) now' (s client)) as ->.
  { unfold spec_next. case_decide; lia. }
  simpl. split_and!; [done..|]. rewrite lhm_iter_insert, Hi.
  rewrite (without_id client (without client rest)).
  2: { apply assoc_None. by rewrite assoc_without, decide_True. }
  apply represents_insert; [done|]. unfold spec_next. lia.
Qed.

Definition spec_new : limiter_spec := fun _ => None.

(** The times of the calls do not decrease, from [now] on. *)
Fixpoint ordered (now : Instant) (calls : list (Instant * SocketAddr)) : Prop :=
  match calls with [] => True | (t, _) :: calls => now <= t /\ ordered t calls end.

Lemma register_all_represents `{!LinkedHashMapLaws} rl now s calls :
  represents (window_sec rl) now (lhm_iter (connections rl)) s -> ordered now calls ->
  register_all rl calls = spec_register_all (limit rl) (window_sec rl) s calls.
Proof.
  revert rl now s. induction calls as [|[t client] calls IH]; intros rl now s Hr; [done|].
  simpl. intros [Ht Hord]. destruct (register_request_step rl now t client s Hr Ht) as (Hv & Hlim & Hwin & Hr').
  destruct (register_request rl t client) as [v rl']. simpl in *. subst v. f_equal.
  rewrite <-Hwin in Hr'. rewrite (IH rl' t _ Hr' Hord). by rewrite Hlim, Hwin.
Qed.

Lemma represents_new `{!LinkedHashMapLaws} window now : represents window now (lhm_iter lhm_new) spec_new.
Proof. rewrite lhm_iter_new. split; try constructor; done. Qed.

(** C9: The rate limiter implements its specification: for every sequence of
    requests with non-decreasing times, from the start, the verdicts are those of
    independent counters per client address that restart when the client's last
    request is more than [window_sec] whole seconds old.  In particular the clean-up,
    which stops at the first recent entry, never leaves an expired counter behind and
    never drops a live one, and counters do not overflow. *)
Theorem rate_limiter_refines `{!LinkedHashMapLaws} limit window now calls :
  ordered now calls ->
  register_all (rate_limiter_new limit window) calls = spec_register_all limit window spec_new calls.
Proof.
  intros Hord. by apply (register_all_represents (rate_limiter_new limit window) now); [apply represents_new|].
Qed.

(** The verdicts of one client in a sequence of calls. *)
Definition verdicts_of (client : SocketAddr) (calls : list (Instant * SocketAddr)) (verdicts : list bool) :
  list bool := (filter (fun cv => cv.1.2 = client) (zip calls verdicts)).*2.

Definition calls_of (client : SocketAddr) (calls : list (Instant * SocketAddr)) :
  list (Instant * SocketAddr) := filter (fun c => c.2 = client) calls.

Lemma spec_isolated limit window client calls s s' :
  s client = s' client ->
  verdicts_of client calls (spec_register_all limit window s calls) =
  spec_register_all limit window s' (calls_of client calls).
Proof.
  unfold verdicts_of, calls_of. revert s s'. induction calls as [|[t c] calls IH]; intros s s' Hs; [done|].
  simpl. rewrite !filter_cons. simpl. case_decide as Hc; simpl.
  - subst c. rewrite Hs. f_equal. apply IH. by rewrite !decide_True.
  - apply IH. rewrite decide_False by congruence. done.
Qed.

Lemma ordered_calls_of client now calls : ordered now calls -> ordered now (calls_of client calls).
Proof.
  unfold calls_of. revert now. induction calls as [|[t c] calls IH]; intros now; [done|].
  simpl. intros [Ht Hord]. rewrite filter_cons. case_decide; simpl; [by auto|].
  specialize (IH t Hord). destruct (filter _ calls) as [|[t' c'] l]; [done|]. simpl in *.
  destruct IH. split; [lia|done].
Qed.

(** Clients do not influence each other: the verdicts a client address gets
    among the requests of any other clients are the verdicts it gets alone. *)
Theorem rate_limiter_isolated `{!LinkedHashMapLaws} limit window now calls client :
  ordered now calls ->
  verdicts_of client calls (register_all (rate_limiter_new limit window) calls) =
  register_all (rate_limiter_new limit window) (calls_of client calls).
Proof.
  intros Hord. rewrite !(register_all_represents _ now spec_new);
    [|apply represents_new|by apply ordered_calls_of|apply represents_new|done].
  by apply spec_isolated.
Qed.

(** Every gap between consecutive calls is at most [window] whole seconds. *)
Fixpoint gaps_within (window : Z) (last : Instant) (times : list Instant) : Prop :=
  match times with
  | [] => True
  | t :: times => last <= t /\ as_secs (t - last) <= window /\ gaps_within window t times
  end.

Lemma spec_steady limit window client count last s times :
  s client = Some (count, last) -> 0 <= count -> count + Z.of_nat (length times) <= u64_max ->
  gaps_within window last times ->
  spec_register_all limit window s ((fun t => (t, client)) <$> times) =
  (fun i => bool_decide (count + 1 + Z.of_nat i <= limit)) <$> seq 0 (length times).
Proof.
  revert count last s. induction times as [|t times IH]; intros count last s Hs Hc Hlen; [done|].
  cbn [length] in Hlen. intros (Hle & Hgap & Hgaps).
  assert (spec_next window t (s client) = count + 1) as Hnext.
  { unfold spec_next, spec_count, duration_since. rewrite Hs, Z.max_r by lia. rewrite decide_False by lia. lia. }
  cbn [fmap list_fmap spec_register_all spec_register length seq]. rewrite Hnext. f_equal.
  - f_equal. simpl. by rewrite Z.add_0_r.
  - rewrite (IH (count + 1) t); [|by rewrite decide_True|lia|lia|done].
    rewrite <-fmap_S_seq, <-list_fmap_compose. apply list_fmap_ext. intros i x _. simpl.
    apply bool_decide_ext. lia.
Qed.

(** While the gaps between a client's requests stay within the window its
    counter never restarts: of such a run of requests exactly the first [limit] are
    accepted and all later ones are rejected, at whatever rate they come. *)
Theorem rate_limiter_steady `{!LinkedHashMapLaws} lim window client t0 times :
  0 <= window -> gaps_within window t0 times -> 1 + Z.of_nat (length times) <= u64_max ->
  register_all (rate_limiter_new lim window) ((fun t => (t, client)) <$> t0 :: times) =
  (fun i => bool_decide (1 + Z.of_nat i <= lim)) <$> seq 0 (1 + length times).
Proof.
  intros Hw Hgaps Hlen. rewrite (register_all_represents _ t0 spec_new); [|apply represents_new|].
  - cbn [fmap list_fmap spec_register_all spec_register Nat.add seq limit window_sec rate_limiter_new].
    change (spec_next window t0 (spec_new client)) with 1. f_equal.
    rewrite (spec_steady _ _ _ 1 t0); [|by rewrite decide_True|lia|lia|done].
    rewrite <-fmap_S_seq, <-list_fmap_compose. apply list_fmap_ext. intros i x _. simpl.
    apply bool_decide_ext. lia.
  - simpl. split; [lia|]. clear Hw Hlen. revert t0 Hgaps.
    induction times as [|t times IH]; intros t0; [done|]. simpl. intros (? & _ & ?). auto.
Qed.

Lemma rate_limiter_quiet self limit window : quiet (rate_limiter self limit window).
Proof.
  split; intros; simpl; [|unfold default_modify_response; auto with arlb].
  apply (calls_at_most_bind 0 0); auto with arlb.
Qed.

Lemma rate_limiter_local self limit window : local_modifier (rate_limiter self limit window).
Proof. done. Qed.

End RateLimiter.

#[export] Hint Resolve rate_limiter_quiet rate_limiter_local : arlb.

(** ** Witnesses: the map as an association list without duplicate keys *)
Record assoc_map (K V : Type) := {
  am_list : list (K * V);
  am_nodup : NoDup am_list.*1;
}.
#[global] Arguments am_list {K V}.
#[global] Arguments am_nodup {K V}.

Lemma without_nodup {K V} `{EqDecision K} (k : K) (l : list (K * V)) : NoDup l.*1 -> NoDup (without k l).*1.
Proof.
  unfold without. induction l as [|[a v] l IH]; [done|]. simpl. intros [Ha Hl]%NoDup_cons.
  rewrite filter_cons. case_decide; [|auto]. simpl. constructor; [|auto].
  intros ([a' v'] & -> & [_ Hin]%list_elem_of_filter)%list_elem_of_fmap. apply Ha.
  apply list_elem_of_fmap. by exists (a', v').
Qed.

Lemma without_insert_nodup {K V} `{EqDecision K} (k : K) (v : V) (l : list (K * V)) :
  NoDup l.*1 -> NoDup (without k l ++ [(k, v)]).*1.
Proof.
  intros Hl. rewrite fmap_app. apply NoDup_app. split_and!; [by apply without_nodup| |simpl; apply NoDup_singleton].
  intros x Hx ->%list_elem_of_singleton. apply list_elem_of_fmap in Hx as ([a' v'] & Hk & Hin).
  apply list_elem_of_filter in Hin as [Hne _]. by apply Hne.
Qed.

Definition lhm_model : LinkedHashMap := {|
  lhm := assoc_map;
  lhm_new K V _ := {| am_list := []; am_nodup := NoDup_nil_2 |};
  lhm_iter K V _ := am_list;
  lhm_remove K V _ k m :=
    (assoc k (am_list m), {| am_list := without k (am_list m); am_nodup := without_nodup k _ (am_nodup m) |});
  lhm_insert K V _ k v m :=
    {| am_list := without k (am_list m) ++ [(k, v)]; am_nodup := without_insert_nodup k v _ (am_nodup m) |};
|}.

#[local] Existing Instance lhm_model.

Lemma lhm_model_laws : LinkedHashMapLaws.
Proof. split; try done. intros K V ? m. apply am_nodup. Qed.

#[local] Existing Instance lhm_model_laws.

Definition client_b : SocketAddr := {| sa_ip := V4 2130706434; sa_port := 3001 |}.

(** Two clients, times in seconds; the first pauses for more than the window. *)
Definition sample_calls : list (Z * SocketAddr) :=
  (fun c => (c.1 * 1000000000, c.2)) <$>
  [(0, sample_client); (1, client_b); (1, sample_client); (2, sample_client); (13, sample_client)].

Lemma rate_limiter_refines_witness :
  register_all (rate_limiter_new 2 10) sample_calls = [true; true; true; false; true] /\
  register_all (rate_limiter_new 2 10) sample_calls = spec_register_all 2 10 spec_new sample_calls.
Proof. split; [vm_compute; reflexivity|]. apply (rate_limiter_refines 2 10 0). vm_compute. repeat split; discriminate. Defined.

Lemma rate_limiter_isolated_witness :
  verdicts_of client_b sample_calls (register_all (rate_limiter_new 2 10) sample_calls) = [true] /\
  verdicts_of client_b sample_calls (register_all (rate_limiter_new 2 10) sample_calls) =
  register_all (rate_limiter_new 2 10) (calls_of client_b sample_calls).
Proof.
  split; [vm_compute; reflexivity|]. apply (rate_limiter_isolated 2 10 0). vm_compute. repeat split; discriminate.
Defined.

(** Two requests per window of 10 seconds are allowed; one request every 10 seconds is
    rejected from the third one on. *)
Lemma rate_limiter_steady_witness :
  register_all (rate_limiter_new 2 10) ((fun t => (t, sample_client)) <$> [0; 10000000000; 20000000000; 30000000000]) =
  [true; true; false; false].
Proof.
  rewrite (rate_limiter_steady 2 10 sample_client 0 [10000000000; 20000000000; 30000000000]);
    [reflexivity|lia|vm_compute; repeat split; discriminate|vm_compute; discriminate].
Defined.
