(* ===== verification/Compression.v ===== *)
(** * The compression middleware: [middleware/compression.rs] *)
From S2P Require Import Prelude RustStd Http HttpModel LoadBalancing Effects Events Middleware.

Local Open Scope Z_scope.

Inductive Encoding : Type := BROTLI | DEFLATE | GZIP.

#[export] Instance Encoding_eq_dec : EqDecision Encoding.
Proof. solve_decision. Defined.

Definition encoding_to_str (self : Encoding) : string :=
  match self with BROTLI => "br" | DEFLATE => "deflate" | GZIP => "gzip" end.

Definition encoding_from_str (s : string) : option Encoding :=
  if decide (s = "br") then Some BROTLI
  else if decide (s = "deflate") then Some DEFLATE
  else if decide (s = "gzip") then Some GZIP
  else None.

(** ** Accept-Encoding *)
Definition parse_qvalue (qvalue : string) : option Z :=
  qvalue ← str_strip_prefix "q=" qvalue;
  if decide (qvalue = "1") then Some 1000
  else
    qvalue ← (digits ← str_strip_prefix "0." qvalue;
              if decide (str_len digits <= 3)%nat then Some digits else None);
    qvalue ← parse_u32 (str_pad_right_zeros 3 qvalue);
    if decide (qvalue <> 0) then Some qvalue else None.

Definition parse_encoding_and_qvalue (encoding_and_qvalue : string) : option (Encoding * Z) :=
  let '(encoding, qvalue) := default (encoding_and_qvalue, "q=1") (split_once encoding_and_qvalue ";"%char) in
  encoding ← encoding_from_str encoding;
  qvalue ← parse_qvalue qvalue;
  Some (encoding, qvalue).

(** The supported encodings of a header value with their quality, in order. *)
Definition acceptable (value : string) : list (Encoding * Z) :=
  omap parse_encoding_and_qvalue (str_trim <$> str_split ","%char value).

Section Compression.
Context `{HT : Http}.

Definition get_preferred_encoding (headers : HeaderMap) : option Encoding :=
  value ← headers_get headers "accept-encoding";
  value ← hv_to_str value;
  fst <$> max_by_key snd (reverse (acceptable value)).

(** ** The middleware; [encode] stands for the encoders of [async_compression]
    wrapped into a streamed body *)
Context (encode : Encoding -> Body -> Body).

Definition compress_response (response : Response) (encoding : Encoding) : Response :=
  let headers := headers_insert "content-encoding" (encoding_to_str encoding) (resp_headers response) in
  let headers := headers_remove "content-length" headers in
  mk_response _ (resp_status response) headers (encode encoding (resp_body response)).

Definition compression_forward_request (request : Request)
  (chain : Request -> MwContext -> handler Response) (context : MwContext) : handler Response :=
  let encoding := get_preferred_encoding (req_headers request) in
  do! response := chain request context in
  Ret (match encoding with
       | Some encoding =>
           if headers_contains_key (resp_headers response) "content-encoding" then response
           else compress_response response encoding
       | None => response
       end).

Definition compression : Middleware := {| mw_forward_request := compression_forward_request |}.

Lemma compression_forwards_once : forwards_once compression.
Proof.
  intros n request chain context Hchain. simpl. unfold compression_forward_request.
  rewrite <-(Nat.add_0_r n). apply calls_at_most_bind; auto with arlb.
Qed.

Lemma compression_keeps_target : keeps_target compression.
Proof.
  intros uri request chain context Huri Hchain. simpl. unfold compression_forward_request.
  apply sends_only_bind; [by apply Hchain|]. intros. apply quiet_sends_only, calls_at_most_ret.
Qed.

Lemma compression_local : local_mw compression.
Proof. intros request chain context Hchain. by apply effects_in_bind. Qed.

End Compression.

#[export] Hint Resolve compression_forwards_once compression_keeps_target compression_local : arlb.

(** ** Quality values *)

Lemma parse_u32_decimal s v :
  s <> "" -> decimal 0 s = Some v -> v <= u32_max -> parse_u32 s = Some v.
Proof.
  destruct s as [|a s]; [done|]. intros _ Hv Hle. unfold parse_u32, parse_int.
  rewrite !decide_False by (intros ->; done). by apply parse_digits_decimal; [lia..| |].
Qed.

(** [u32::from_str] on text short enough not to overflow: a number, perhaps with
    a plus sign. *)
Lemma parse_u32_short s v :
  (str_len s <= 9)%nat ->
  parse_u32 s = Some v <->
  (s <> "" /\ decimal 0 s = Some v) \/
  (exists s', s = String "+"%char s' /\ s' <> "" /\ decimal 0 s' = Some v).
Proof.
  intros Hlen. assert (forall t w, (str_len t <= 9)%nat -> decimal 0 t = Some w -> w <= u32_max) as Hmax.
  { intros t w Ht Hw. apply decimal_bounds in Hw; [|lia].
    pose proof (Z.pow_le_mono_r 10 (Z.of_nat (str_len t)) 9). unfold u32_max. lia. }
  split.
  - destruct s as [|a s]; [done|]. unfold parse_u32, parse_int. repeat case_decide; subst.
    + destruct s as [|b s]; [done|]. intros Hv%parse_digits_inv. right. by exists (String b s).
    + by destruct s.
    + intros Hv%parse_digits_inv. by left.
  - intros [[Hne Hv]|(s' & -> & Hne & Hv)].
    + apply parse_u32_decimal; eauto.
    + unfold parse_u32, parse_int. rewrite decide_True by done. simpl in Hlen. destruct s' as [|b s']; [done|].
      apply parse_digits_decimal; [lia..|done|]. apply (Hmax (String b s')); [lia|done].
Qed.

(** The digits of a quality value below one, perhaps with a plus sign. *)
Definition qvalue_digits (ds : string) (v : Z) : Prop :=
  decimal 0 ds = Some v \/ exists ds', ds = String "+"%char ds' /\ decimal 0 ds' = Some v.

Lemma padded_digits ds q :
  (str_len ds <= 3)%nat -> q <> 0 ->
  parse_u32 (str_pad_right_zeros 3 ds) = Some q <->
  exists v, qvalue_digits ds v /\ q = v * 10 ^ Z.of_nat (3 - str_len ds).
Proof.
  intros Hlen Hq. unfold str_pad_right_zeros, qvalue_digits. set (n := (3 - str_len ds)%nat).
  assert (forall t, decimal 0 (t +:+ str_replicate n "0"%char) = (fun v => v * 10 ^ Z.of_nat n) <$> decimal 0 t) as Hpad.
  { intros t. rewrite decimal_app. destruct (decimal 0 t); simpl; [apply decimal_zeros|done]. }
  rewrite parse_u32_short by (rewrite str_len_append, str_len_replicate; unfold n; lia).
  rewrite Hpad, fmap_Some. split.
  - intros [(Hne & v & Hv & ->)|(s' & Hs & Hne & Hv)]; [eauto|].
    destruct ds as [|a ds]; [by destruct n; simplify_eq/=|]. simplify_eq/=.
    rewrite Hpad, fmap_Some in Hv. destruct Hv as (v & Hv & ->). eauto 6.
  - intros (v & [Hv|(ds' & -> & Hv)] & ->).
    + left. split; [|eauto]. destruct ds; [|done]. simpl in Hv. injection Hv as <-. by destruct Hq.
    + right. exists (ds' +:+ str_replicate n "0"%char). rewrite Hpad, Hv. split_and!; [done| |done].
      destruct ds'; [|done]. simpl in Hv. injection Hv as <-. by destruct Hq.
Qed.

Lemma qvalue_digits_bounds ds v : (str_len ds <= 3)%nat -> qvalue_digits ds v ->
  0 <= v * 10 ^ Z.of_nat (3 - str_len ds) < 1000.
Proof.
  intros Hlen Hd. assert (0 <= v < 10 ^ Z.of_nat (str_len ds)) as Hv.
  { destruct Hd as [Hv|(ds' & -> & Hv)]; apply decimal_bounds in Hv; try lia. cbn [str_len].
    rewrite Nat2Z.inj_succ, Z.pow_succ_r by lia. lia. }
  pose proof (Z.pow_add_r 10 (Z.of_nat (str_len ds)) (Z.of_nat (3 - str_len ds))) as Hpow.
  replace (Z.of_nat (str_len ds) + Z.of_nat (3 - str_len ds)) with 3 in Hpow by lia.
  pose proof (Z.pow_pos_nonneg 10 (Z.of_nat (3 - str_len ds))). nia.
Qed.

(** What [parse_qvalue] accepts: [q=1], as 1000, and [q=0.] followed by at most three
    digits, or by a plus sign and at most two digits, that are not all zero, as
    thousandths.  All results lie between 1 and 1000. *)
Lemma parse_qvalue_accepts s q :
  (parse_qvalue s = Some q <->
   (s = "q=1" /\ q = 1000) \/
   (exists ds v, s = "q=0." +:+ ds /\ (str_len ds <= 3)%nat /\ qvalue_digits ds v /\
      q = v * 10 ^ Z.of_nat (3 - str_len ds) /\ q <> 0)) /\
  (parse_qvalue s = Some q -> 1 <= q <= 1000).
Proof.
  assert (parse_qvalue s = Some q <->
   (s = "q=1" /\ q = 1000) \/
   (exists ds v, s = "q=0." +:+ ds /\ (str_len ds <= 3)%nat /\ qvalue_digits ds v /\
      q = v * 10 ^ Z.of_nat (3 - str_len ds) /\ q <> 0)) as Hspec.
  { unfold parse_qvalue. split.
    - intros (t & Ht & H)%bind_Some. apply str_strip_prefix_Some in Ht as ->. case_decide as H1.
      { subst. simplify_eq. by left. }
      apply bind_Some in H as (ds & Hds & H). apply bind_Some in Hds as (ds' & Hp & Hds).
      apply str_strip_prefix_Some in Hp as ->. case_decide as Hlen; [|done]. injection Hds as <-.
      apply bind_Some in H as (q' & Hq' & H). case_decide; [|done]. injection H as ->.
      apply padded_digits in Hq' as (v & ? & ?); [|done..]. right. by exists ds', v.
    - intros [[-> ->]|(ds & v & -> & Hlen & Hv & Hq & Hne)]; [done|]. simpl.
      rewrite decide_True by done. simpl.
      rewrite (proj2 (padded_digits ds q Hlen Hne)) by eauto. simpl. by rewrite decide_True. }
  split; [done|]. rewrite Hspec. intros [[-> ->]|(ds & v & -> & Hlen & Hv & -> & Hne)]; [lia|].
  pose proof (qvalue_digits_bounds ds v Hlen Hv). lia.
Qed.

(** C33: On the weights that RFC 7231 writes with a leading zero, and on [1], the
    quality value is the exact number of thousandths: [q=1] gives 1000; [q=0], and [q=0.]
    with up to three zeros, are not acceptable; [q=0.] with one to three digits that
    are not all zero gives the digits padded to three places, so that values compare as
    the weights do, [0.8] as [0.80].  Whatever the text is, a result lies between 1 and 1000. *)
Theorem parse_qvalue_weights :
  parse_qvalue "q=1" = Some 1000 /\ parse_qvalue "q=0" = None /\
  (forall ds v, (str_len ds <= 3)%nat -> decimal 0 ds = Some v ->
     let q := v * 10 ^ Z.of_nat (3 - str_len ds) in
     parse_qvalue ("q=0." +:+ ds) = (if decide (q = 0) then None else Some q)) /\
  (forall s q, parse_qvalue s = Some q -> 1 <= q <= 1000).
Proof.
  split_and!; [done|done| |by intros; eapply parse_qvalue_accepts].
  intros ds v Hlen Hv q. case_decide as Hq.
  - apply eq_None_not_Some. intros [q' Hp].
    apply (proj1 (parse_qvalue_accepts _ _)) in Hp as [[? _]|(ds' & v' & Heq & _ & Hd & -> & Hne)]; [done|].
    simplify_eq/=. destruct Hd as [Hd|(ds'' & -> & _)]; [|done]. by simplify_eq.
  - apply parse_qvalue_accepts. right. exists ds, v. split_and!; try done. by left.
Qed.

(** Where the parser leaves the RFC: it rejects the weight one with decimals, and it
    accepts a sign among the decimals. *)
Theorem parse_qvalue_deviates :
  parse_qvalue "q=1.0" = None /\ parse_qvalue "q=1.000" = None /\ parse_qvalue "q=0.+5" = Some 50.
Proof. done. Qed.

(** ** The preferred encoding and the compressed response *)
Section CompressionTheorems.
Context `{HT : Http}.

(** C32: The preferred encoding is the first of those with the largest quality among
    the supported and acceptable ones of the first [Accept-Encoding] header; in
    particular there is one as soon as one supported encoding has a non-zero quality. *)
Theorem preferred_encoding_spec headers e :
  get_preferred_encoding headers = Some e <->
  exists value text q l1 l2,
    headers_get headers "accept-encoding" = Some value /\ hv_to_str value = Some text /\
    acceptable text = l1 ++ (e, q) :: l2 /\
    Forall (fun c => c.2 < q) l1 /\ Forall (fun c => c.2 <= q) l2.
Proof.
  unfold get_preferred_encoding. split.
  - intros (value & Hv & (text & Ht & ([e' q] & Hm & ->)%fmap_Some)%bind_Some)%bind_Some.
    apply max_by_key_reverse in Hm as (l1 & l2 & Heq & H1 & H2). by exists value, text, q, l1, l2.
  - intros (value & text & q & l1 & l2 & -> & Ht & Heq & H1 & H2). cbn [mbind option_bind]. rewrite Ht.
    cbn [mbind option_bind]. rewrite (proj2 (max_by_key_reverse snd (acceptable text) (e, q))) by eauto. done.
Qed.

(** C34: Compression forwards the request unchanged and changes the response only
    when the client prefers a supported encoding and the response has no
    [Content-Encoding].  Then the body is encoded, [Content-Encoding] names that encoding,
    [Content-Length] is gone, and status and all other headers are kept. *)
Theorem compression_response `{!HttpLaws} encode request chain context tr r :
  runs (mw_forward_request (compression encode) request chain context) tr (Returned r) <->
  exists r0, runs (chain request context) tr (Returned r0) /\
    match get_preferred_encoding (req_headers request) with
    | Some e =>
        if decide (headers_get_all (resp_headers r0) "content-encoding" = []) then
          r = compress_response encode r0 e /\
          resp_status r = resp_status r0 /\ resp_body r = encode e (resp_body r0) /\
          forall k, headers_get_all (resp_headers r) k =
            if decide (k = "content-encoding") then [encoding_to_str e]
            else if decide (k = "content-length") then []
            else headers_get_all (resp_headers r0) k
        else r = r0
    | None => r = r0
    end.
Proof.
  assert (forall r0 e k, headers_get_all (resp_headers (compress_response encode r0 e)) k =
    if decide (k = "content-encoding") then [encoding_to_str e]
    else if decide (k = "content-length") then [] else headers_get_all (resp_headers r0) k) as Hc.
  { intros r0 e k. simpl. rewrite headers_get_all_remove, headers_get_all_insert. repeat case_decide; naive_solver. }
  simpl. unfold compression_forward_request. rewrite runs_bind. split.
  - intros (tr1 & tr2 & [r0|] & -> & Hr & Hk); [|naive_solver]. destruct Hk as [-> [= ->]]. rewrite app_nil_r.
    exists r0. split; [done|]. destruct (get_preferred_encoding _) as [e|]; [|done].
    rewrite headers_contains_key_spec. case_bool_decide; case_decide; naive_solver.
  - intros (r0 & Hr & Hk). exists tr, [], (Returned r0). rewrite app_nil_r. split_and!; [done..|].
    split; [done|]. f_equal. destruct (get_preferred_encoding _) as [e|]; [|done].
    rewrite headers_contains_key_spec. case_bool_decide; case_decide; naive_solver.
Qed.

End CompressionTheorems.

(** ** Witnesses *)
#[local] Existing Instance http_model.

Definition sample_encode (e : Encoding) (b : Body) : Body := (encoding_to_str e +:+ ":" +:+ b : string).

Definition accepting_request : Request :=
  sample_request "GET" (Some "/") [("accept-encoding", "deflate;q=0.75, gzip;q=0.8, br;q=0.80")].

Definition plain_chain (request : Request) (context : MwContext) : handler Response :=
  Ret (sample_response 200 [("content-length", "4"); ("etag", "x")] "text").

Lemma parse_qvalue_weights_witness : parse_qvalue "q=0.75" = Some 750 /\ 1 <= 750 <= 1000.
Proof.
  destruct parse_qvalue_weights as (_ & _ & Hw & Hb).
  assert (parse_qvalue "q=0.75" = Some 750) as Hq by (apply (Hw "75" 75); [simpl; lia|reflexivity]).
  split; [exact Hq|exact (Hb _ _ Hq)].
Defined.

Lemma compression_response_witness :
  exists r, runs (mw_forward_request (compression sample_encode) accepting_request plain_chain sample_mw_context)
              [] (Returned r) /\
    resp_body r = "gzip:text" /\ headers_get_all (resp_headers r) "content-length" = [] /\
    headers_get_all (resp_headers r) "content-encoding" = ["gzip"].
Proof.
  set (r := compress_response sample_encode (sample_response 200 [("content-length", "4"); ("etag", "x")] "text") GZIP).
  assert (runs (mw_forward_request (compression sample_encode) accepting_request plain_chain sample_mw_context)
    [] (Returned r)) as Hr by (split; reflexivity).
  exists r. split; [done|].
  destruct (proj1 (compression_response (H := http_model_laws) sample_encode accepting_request plain_chain
    sample_mw_context [] r) Hr) as (r0 & [_ [= ->]] & _ & _ & Hb & Hk).
  split_and!; [exact Hb|exact (Hk "content-length")|exact (Hk "content-encoding")].
Defined.
