(* ===== verification/MaxBodySize.v ===== *)
(** * The body size limit: [middleware/maxbodysize.rs] *)
From S2P Require Import Prelude RustStd Http HttpModel LoadBalancing Effects Events Middleware.

Local Open Scope Z_scope.

Section MaxBodySize.
Context `{HT : Http}.

Definition get_content_length (headers : HeaderMap) : option Z :=
  value ← headers_get headers "content-length";
  value ← hv_to_str value;
  parse_i64 value.

(** The field [limit] is an [i64]. *)
Definition max_body_size_modify_request (limit : Z) (request : Request) (context : MwContext) :
  handler (result Request Response) :=
  Ret (match get_content_length (req_headers request) with
       | Some length => if decide (limit < length) then Err request_entity_to_large else Ok request
       | None => Ok request
       end).

Definition max_body_size (limit : Z) : Modifier := {|
  modify_request := max_body_size_modify_request limit;
  modify_response := default_modify_response |}.

Lemma max_body_size_quiet limit : quiet (max_body_size limit).
Proof. split; intros; apply calls_at_most_ret. Qed.

Lemma max_body_size_local limit : local_modifier (max_body_size limit).
Proof. done. Qed.

Lemma parse_i64_decimal text v :
  text <> "" -> decimal 0 text = Some v -> parse_i64 text = if decide (v <= i64_max) then Some v else None.
Proof.
  destruct text as [|a text]; [done|]. intros _ Hv. unfold parse_i64, parse_int.
  rewrite !decide_False by (intros ->; done). case_decide.
  - by apply parse_digits_decimal.
  - apply (parse_digits_overflow _ _ _ _ v); [done|done|lia].
Qed.

(** The middleware answers or passes the request on, depending on the header alone. *)
Lemma max_body_size_runs limit chain request context :
  same_runs (chain_forward_request (Entry (boxed (max_body_size limit)) chain) request context)
    (match get_content_length (req_headers request) with
     | Some length => if decide (limit < length) then Ret request_entity_to_large
                      else chain_forward_request chain request context
     | None => chain_forward_request chain request context
     end).
Proof.
  cbn [chain_forward_request mw_forward_request boxed]. unfold default_forward_request, max_body_size. simpl.
  destruct (get_content_length _) as [length|]; [case_decide; [done|]|]; apply prog_bind_ret.
Qed.

Lemma content_length_number `{!HttpLaws} headers value v :
  headers_get headers "content-length" = Some value -> str_forallb visible_ascii value = true ->
  value <> "" -> decimal 0 value = Some v ->
  get_content_length headers = if decide (v <= i64_max) then Some v else None.
Proof.
  intros Hh Hvis Hne Hv. unfold get_content_length. rewrite Hh. simpl. rewrite hv_to_str_visible by done.
  by apply parse_i64_decimal.
Qed.

(** C36: A request whose [Content-Length] is a number [v] of an [i64] is answered with
    413 and nothing behind the middleware sees it if [v] is above the limit; if it is within
    the limit, or if there is no [Content-Length], the rest of the chain runs exactly as
    without the middleware, on the unchanged request, and its response is returned as
    it is. *)
Theorem max_body_size_limits `{!HttpLaws} limit chain request context :
  (headers_get (req_headers request) "content-length" = None ->
   same_runs (chain_forward_request (Entry (boxed (max_body_size limit)) chain) request context)
     (chain_forward_request chain request context)) /\
  (forall value v,
     headers_get (req_headers request) "content-length" = Some value ->
     str_forallb visible_ascii value = true -> value <> "" -> decimal 0 value = Some v -> v <= i64_max ->
     same_runs (chain_forward_request (Entry (boxed (max_body_size limit)) chain) request context)
       (if decide (limit < v) then Ret request_entity_to_large
        else chain_forward_request chain request context)).
Proof.
  split.
  - intros Hh. rewrite max_body_size_runs. unfold get_content_length. by rewrite Hh.
  - intros value v Hh Hvis Hne Hv Hmax. rewrite max_body_size_runs.
    by rewrite (content_length_number _ value v), decide_True.
Qed.

(** A number that does not fit an [i64] is not seen as a length: the request is
    forwarded, whatever the limit. *)
Theorem max_body_size_beyond_i64 `{!HttpLaws} limit chain request context value v :
  headers_get (req_headers request) "content-length" = Some value ->
  str_forallb visible_ascii value = true -> value <> "" -> decimal 0 value = Some v -> i64_max < v ->
  same_runs (chain_forward_request (Entry (boxed (max_body_size limit)) chain) request context)
    (chain_forward_request chain request context).
Proof.
  intros Hh Hvis Hne Hv Hmax. rewrite max_body_size_runs.
  by rewrite (content_length_number _ value v), decide_False by (done || lia).
Qed.

End MaxBodySize.

#[export] Hint Resolve max_body_size_quiet max_body_size_local : arlb.

(** ** Witnesses: of 11 bytes at a limit of 10, and of 2^63 bytes *)
#[local] Existing Instance http_model.

Definition ok_middleware : Middleware :=
  {| mw_forward_request request chain context := Ret (sample_response 200 [] "ok") |}.

Definition posted (length : string) : Request := sample_request "POST" (Some "/") [("content-length", length)].

Lemma max_body_size_limits_witness :
  runs (chain_forward_request (Entry (boxed (max_body_size 10)) (Entry ok_middleware Empty)) (posted "11")
          sample_mw_context) [] (Returned request_entity_to_large) /\
  runs (chain_forward_request (Entry (boxed (max_body_size 10)) (Entry ok_middleware Empty)) (posted "10")
          sample_mw_context) [] (Returned (sample_response 200 [] "ok")).
Proof.
  split.
  - apply (proj2 (max_body_size_limits (H := http_model_laws) 10 (Entry ok_middleware Empty) (posted "11")
      sample_mw_context) "11" 11 eq_refl eq_refl); [discriminate|reflexivity|by vm_compute|split; reflexivity].
  - apply (proj2 (max_body_size_limits (H := http_model_laws) 10 (Entry ok_middleware Empty) (posted "10")
      sample_mw_context) "10" 10 eq_refl eq_refl); [discriminate|reflexivity|by vm_compute|split; reflexivity].
Defined.

Lemma max_body_size_beyond_i64_witness :
  runs (chain_forward_request (Entry (boxed (max_body_size 10)) (Entry ok_middleware Empty))
          (posted "9223372036854775808") sample_mw_context) [] (Returned (sample_response 200 [] "ok")).
Proof.
  apply (max_body_size_beyond_i64 (H := http_model_laws) 10 (Entry ok_middleware Empty)
    (posted "9223372036854775808") sample_mw_context "9223372036854775808" 9223372036854775808 eq_refl eq_refl);
    [discriminate|reflexivity|by vm_compute|split; reflexivity].
Defined.
