(* ===== verification/HttpsRedirector.v ===== *)
(** * The HTTPS redirector: [middleware/https_redirector.rs] *)
From S2P Require Import Prelude RustStd Http HttpModel LoadBalancing Effects Events Middleware.

Local Open Scope Z_scope.

Section HttpsRedirector.
Context `{HT : Http}.

(** The [Display] text of [ToStrError]. *)
Context (to_str_error : string).

Definition parse_host_header (request : Request) : result Authority Response :=
  let? host := ok_or_else (headers_get (req_headers request) "host") (bad_request "missing host header") in
  let? host := ok_or_else (hv_to_str host) (bad_request to_str_error) in
  ok_or_else (Authority_from_str host) (bad_request "invalid host header").

(** The [Location] response, or the error of the builder. *)
Definition moved_permanently (location : string) : result Response unit :=
  match builder_header "location" location (Some headers_new) with
  | Some headers => Ok (mk_response _ 301 headers Body_empty)
  | None => Err tt
  end.

Definition redirect (request : Request) : result Request Response :=
  let? host_authority := parse_host_header request in
  let authority := default host_authority (uri_authority (req_uri request)) in
  let? path_and_query := ok_or_else (uri_path_and_query (req_uri request)) internal_server_error in
  let? https_uri := map_err handle_internal_server_error
                      (ok_or_else (Uri_build "https" authority path_and_query) tt) in
  let? response := map_err handle_internal_server_error (moved_permanently (uri_to_string https_uri)) in
  Err response.

Definition https_redirector_modify_request (request : Request) (context : MwContext) :
  handler (result Request Response) :=
  Ret (match mw_client_scheme context with
       | HTTP => redirect request
       | HTTPS => Ok request
       end).

Definition https_redirector : Modifier := {|
  modify_request := https_redirector_modify_request;
  modify_response := default_modify_response |}.

Lemma https_redirector_quiet : quiet https_redirector.
Proof. split; intros; apply calls_at_most_ret. Qed.

Lemma https_redirector_local : local_modifier https_redirector.
Proof. done. Qed.

(** What the redirector answers to a plain HTTP request. *)
Definition redirects_to (request : Request) (response : Response) : Prop :=
  exists host ha pq, headers_get (req_headers request) "host" = Some host /\
    Authority_from_str host = Some ha /\ uri_path_and_query (req_uri request) = Some pq /\
    resp_status response = 301 /\
    forall k, headers_get_all (resp_headers response) k =
      if decide (k = "location") then
        ["https://" +:+ Authority_to_string (default ha (uri_authority (req_uri request))) +:+
         PathAndQuery_to_string pq]
      else [].


Lemma moved_permanently_ok `{!HttpLaws} location :
  (is_Some (hv_from_str location) <-> is_Some (ok (moved_permanently location))) /\
  forall r, moved_permanently location = Ok r ->
    resp_status r = 301 /\
    forall k, headers_get_all (resp_headers r) k = if decide (k = "location") then [location] else [].
Proof.
  unfold moved_permanently. simpl. destruct (hv_from_str location) as [v|] eqn:Hv; simpl.
  - pose proof (hv_from_str_sound _ _ Hv) as ->. split; [by split; eauto|]. intros r [= <-]. split; [done|].
    intros k. simpl. rewrite headers_get_all_append, headers_get_all_new. repeat case_decide; naive_solver.
  - split; [by split; intros [? ?]|done].
Qed.

Lemma https_uri_text `{!HttpLaws} authority pq :
  exists u, Uri_build "https" authority pq = Some u /\
    uri_to_string u = "https://" +:+ Authority_to_string authority +:+ PathAndQuery_to_string pq.
Proof.
  destruct (Uri_build_https authority pq) as [u Hu]. exists u. split; [done|].
  destruct (Uri_build_parts _ _ _ _ Hu) as (Hs & Ha & Hp). by rewrite (uri_to_string_full _ _ _ _ Hs Ha Hp).
Qed.

Lemma redirect_answers `{!HttpLaws} request :
  exists r, redirect request = Err r /\
    (redirects_to request r \/ resp_status r = 400 \/ resp_status r = 500) /\
    (forall host ha pq,
       headers_get (req_headers request) "host" = Some host -> str_forallb visible_ascii host = true ->
       Authority_from_str host = Some ha -> uri_path_and_query (req_uri request) = Some pq ->
       is_Some (hv_from_str ("https://" +:+
         Authority_to_string (default ha (uri_authority (req_uri request))) +:+ PathAndQuery_to_string pq)) ->
       redirects_to request r).
Proof.
  unfold redirect, parse_host_header, ok_or_else.
  destruct (headers_get (req_headers request) "host") as [host|] eqn:Hh; [|by eexists; naive_solver].
  destruct (hv_to_str host) as [text|] eqn:Ht; simpl.
  2: { eexists. split; [done|]. split; [naive_solver|]. intros ? ? ? [= <-] Hv. by rewrite hv_to_str_visible in Ht. }
  pose proof (hv_to_str_sound _ _ Ht) as ->.
  destruct (Authority_from_str host) as [ha|] eqn:Ha; [|by eexists; naive_solver].
  destruct (uri_path_and_query (req_uri request)) as [pq|] eqn:Hpq; [|by eexists; naive_solver].
  destruct (https_uri_text (default ha (uri_authority (req_uri request))) pq) as (u & -> & Hu). simpl.
  rewrite Hu. clear Hu. set (location := "https://" +:+ _) in *.
  destruct (moved_permanently_ok location) as [Hsome Hloc].
  destruct (moved_permanently location) as [r|e] eqn:Hm; simpl.
  - destruct (Hloc r eq_refl) as [Hst Hk].
    assert (redirects_to request r) as Hr by (exists host, ha, pq; by split_and!). eauto 6.
  - eexists. split; [done|]. split; [naive_solver|]. intros ? ? ? [= <-] _ Ha' [= <-] Hv.
    rewrite Ha in Ha'. injection Ha' as <-. apply Hsome in Hv as [? ?]. done.
Qed.

(** C35: On plain HTTP the redirector answers every request itself: nothing behind
    it sees the request, and the answer is the permanent redirect to the same
    authority and path with scheme https, or status 400 (the [Host] header is missing or
    unusable), or 500.  With a usable [Host], a path, and a location that is a valid
    header value, it is the redirect.  On HTTPS the chain behind it answers alone. *)
Theorem https_redirector_guards `{!HttpLaws} chain request context tr o :
  runs (chain_forward_request (Entry (boxed https_redirector) chain) request context) tr o ->
  match mw_client_scheme context with
  | HTTPS => runs (chain_forward_request chain request context) tr o
  | HTTP =>
      tr = [] /\ exists r, o = Returned r /\
        (redirects_to request r \/ resp_status r = 400 \/ resp_status r = 500) /\
        (forall host ha pq,
           headers_get (req_headers request) "host" = Some host -> str_forallb visible_ascii host = true ->
           Authority_from_str host = Some ha -> uri_path_and_query (req_uri request) = Some pq ->
           is_Some (hv_from_str ("https://" +:+
             Authority_to_string (default ha (uri_authority (req_uri request))) +:+ PathAndQuery_to_string pq)) ->
           redirects_to request r)
  end.
Proof.
  cbn [chain_forward_request boxed mw_forward_request]. unfold default_forward_request. simpl.
  unfold https_redirector_modify_request. destruct (mw_client_scheme context).
  - destruct (redirect_answers request) as (r & -> & Hr & Hok). simpl. intros [-> ->]. eauto.
  - simpl. intros (tr1 & tr2 & [r|] & -> & Hc & Hk)%runs_bind.
    + destruct Hk as [-> ->]. by rewrite app_nil_r.
    + destruct Hk as [-> ->]. by rewrite app_nil_r.
Qed.

End HttpsRedirector.

#[export] Hint Resolve https_redirector_quiet https_redirector_local : arlb.

(** ** Witness *)
#[local] Existing Instance http_model.

Definition plain_context : MwContext :=
  {| mw_client_scheme := HTTP; mw_client_address := sample_client;
     mw_backend_uri := mk_uri (Some "http") (Some "127.0.0.1:8084") (Some "/a?b") |}.

Lemma https_redirector_guards_witness :
  exists r,
    runs (chain_forward_request (Entry (boxed (https_redirector "")) Empty)
            (sample_request "GET" (Some "/a?b") [("host", "example.org")])
            plain_context) [] (Returned r) /\
    headers_get_all (resp_headers r) "location" = ["https://example.org/a?b"] /\
    redirects_to (sample_request "GET" (Some "/a?b") [("host", "example.org")]) r.
Proof.
  set (r := sample_response 301 [("location", "https://example.org/a?b")] "").
  assert (runs (chain_forward_request (Entry (boxed (https_redirector "")) Empty)
    (sample_request "GET" (Some "/a?b") [("host", "example.org")]) plain_context) [] (Returned r)) as Hr
    by (split; reflexivity).
  exists r. split_and!; [exact Hr|reflexivity|].
  destruct (https_redirector_guards "" (H := http_model_laws) Empty
    (sample_request "GET" (Some "/a?b") [("host", "example.org")]) plain_context [] (Returned r) Hr)
    as (_ & r' & [= <-] & _ & Hok).
  apply (Hok "example.org" "example.org" "/a?b"); try reflexivity. by eexists.
Defined.
