(* ===== verification/Toml.v ===== *)
(** * What the program uses of the [toml] crate's dynamic values

    With the feature [preserve_order] (set in Cargo.toml) a [Table] keeps the
    order of the file: it is an association list. *)
From S2P Require Import Prelude.

Inductive Value : Type :=
| VString (s : string)
| VInteger (z : Z)
| VFloat (text : string)
| VBoolean (b : bool)
| VDatetime (text : string)
| VArray (vs : list Value)
| VTable (kvs : list (string * Value)).

Definition Table : Type := list (string * Value).

(** [Table::get]. *)
Fixpoint table_get (t : list (string * Value)) (key : string) : option Value :=
  match t with
  | [] => None
  | (k, v) :: t' => if decide (k = key) then Some v else table_get t' key
  end.

Definition as_str (v : Value) : option string := match v with VString s => Some s | _ => None end.
Definition as_integer (v : Value) : option Z := match v with VInteger z => Some z | _ => None end.
Definition as_bool (v : Value) : option bool := match v with VBoolean b => Some b | _ => None end.
Definition as_array (v : Value) : option (list Value) := match v with VArray vs => Some vs | _ => None end.
