(* ===== verification/CustomErrorPages.v ===== *)
(** * Custom error pages: [middleware/custom_error_pages.rs] *)
From S2P Require Import Prelude RustStd Http HttpModel LoadBalancing Effects Events Middleware Toml.
From stdpp Require Import pretty.

Local Open Scope Z_scope.

Record CustomErrorPages := { location : string; errors : list Z }.

(** [TryFrom<Table>]; [as u16] keeps the low 16 bits of an [i64]. *)
Definition custom_error_pages_try_from (t : Table) : result CustomErrorPages unit :=
  let? v := ok_or_else (table_get t "location") tt in
  let? location := ok_or_else (as_str v) tt in
  let? v := ok_or_else (table_get t "errors") tt in
  let? vs := ok_or_else (as_array v) tt in
  Ok {| location := location; errors := as_u16 <$> omap as_integer vs |}.

(** [Path::new(directory).join(name).with_extension(html)] for a [name] without
    dots. *)
Definition html_path (directory name : string) : string := path_join directory name +:+ ".html".

Section CustomErrorPages.
Context `{HT : Http}.

(** [StatusCode::as_str]: the three digits. *)
Definition status_as_str (status : Z) : string := pretty status.

Definition canonical_body (status : Z) : string :=
  status_as_str status +:+ " - " +:+ default "" (canonical_reason status) +:+ String "010"%char "".

Definition replace_response (self : CustomErrorPages) (response : Response) : handler Response :=
  do! custom_body := perform (ReadToString (html_path (location self) (status_as_str (resp_status response)))) in
  let headers := headers_remove "content-length" (resp_headers response) in
  let headers := headers_remove "content-encoding" headers in
  Ret (mk_response _ (resp_status response) headers
         (Body_from (match custom_body with
                     | Some payload => payload
                     | None => canonical_body (resp_status response)
                     end))).

Definition custom_error_pages_modify_response (self : CustomErrorPages) (response : Response)
  (context : MwContext) : handler Response :=
  if decide (resp_status response ∈ errors self) then replace_response self response else Ret response.

Definition custom_error_pages (self : CustomErrorPages) : Modifier := {|
  modify_request := default_modify_request;
  modify_response := custom_error_pages_modify_response self |}.

Lemma custom_error_pages_quiet self : quiet (custom_error_pages self).
Proof.
  split; intros; [apply calls_at_most_ret|]. simpl. unfold custom_error_pages_modify_response.
  case_decide; [|auto with arlb]. apply (calls_at_most_bind 0 0); auto with arlb.
Qed.

Lemma custom_error_pages_local self : local_modifier (custom_error_pages self).
Proof. split; intros; [done|]. simpl. unfold custom_error_pages_modify_response. by case_decide. Qed.

(** One of the configured integers has these low 16 bits. *)
Definition configured (vs : list Value) (status : Z) : Prop :=
  exists z, VInteger z ∈ vs /\ z mod 65536 = status.

Lemma errors_configured t self :
  custom_error_pages_try_from t = Ok self ->
  exists vs, table_get t "errors" = Some (VArray vs) /\ forall status, status ∈ errors self <-> configured vs status.
Proof.
  unfold custom_error_pages_try_from, ok_or_else.
  destruct (table_get t "location") as [v|]; [|done]. destruct (as_str v) as [l|]; [|done].
  destruct (table_get t "errors") as [v'|]; [|done]. destruct v'; try done. simpl. intros [= <-].
  exists vs. split; [done|]. intros status. simpl. unfold configured, as_u16. rewrite list_elem_of_fmap.
  setoid_rewrite list_elem_of_omap. split.
  - intros (z & -> & [] & Hin & Hz); try done. simplify_eq/=. by exists z.
  - intros (z & Hin & <-). exists z. split; [done|]. by exists (VInteger z).
Qed.

(** C37: Pages configured by a table replace exactly the responses whose status is
    the low 16 bits of one of the configured integers: the status and the other
    headers stay, [Content-Length] and [Content-Encoding] go, and the body is the
    file for that status, or its canonical text when the file cannot be read.  Every
    other response is untouched and no file is read. *)
Theorem custom_error_pages_replace `{!HttpLaws} t self response context tr o :
  custom_error_pages_try_from t = Ok self ->
  runs (modify_response (custom_error_pages self) response context) tr o ->
  exists vs, table_get t "errors" = Some (VArray vs) /\
    ((configured vs (resp_status response) /\
      exists page r,
        tr = [Obs (ReadToString (html_path (location self) (status_as_str (resp_status response)))) page] /\
        o = Returned r /\ resp_status r = resp_status response /\
        resp_body r = Body_from (default (canonical_body (resp_status response)) page) /\
        forall k, headers_get_all (resp_headers r) k =
          if decide (k = "content-length" \/ k = "content-encoding") then []
          else headers_get_all (resp_headers response) k) \/
     (~ configured vs (resp_status response) /\ tr = [] /\ o = Returned response)).
Proof.
  intros Ht. destruct (errors_configured t self Ht) as (vs & Hvs & Hin). simpl.
  unfold custom_error_pages_modify_response. case_decide as Hs; rewrite Hin in Hs; intros Hr; exists vs; split; auto.
  destruct Hr as (page & tr' & -> & -> & ->). left. split; [done|]. exists page. eexists. split_and!; try done.
  intros k. simpl. rewrite !headers_get_all_remove. repeat case_decide; naive_solver.
Qed.

End CustomErrorPages.

#[export] Hint Resolve custom_error_pages_quiet custom_error_pages_local : arlb.

(** ** Witness: the configured number 66040 replaces responses with status 504 *)
#[local] Existing Instance http_model.

Definition sample_pages : Table := [("location", VString "/etc/pages"); ("errors", VArray [VInteger 66040])].

Lemma custom_error_pages_replace_witness :
  exists r, runs (modify_response (custom_error_pages {| location := "/etc/pages"; errors := [504] |})
                    (sample_response 504 [("content-length", "0")] "") sample_mw_context)
              [Obs (ReadToString "/etc/pages/504.html") (Some "sorry")] (Returned r) /\
    resp_body r = "sorry" /\ headers_get_all (resp_headers r) "content-length" = [].
Proof.
  set (r := sample_response 504 [] "sorry").
  assert (runs (modify_response (custom_error_pages {| location := "/etc/pages"; errors := [504] |})
    (sample_response 504 [("content-length", "0")] "") sample_mw_context)
    [Obs (ReadToString "/etc/pages/504.html") (Some "sorry")] (Returned r)) as Hr.
  { exists (Some "sorry"), []. by split. }
  exists r. split; [done|].
  destruct (custom_error_pages_replace (H := http_model_laws) sample_pages _ _ _ _ _ eq_refl Hr)
    as (vs & Hvs & [(_ & page & r' & _ & [= <-] & _ & _ & Hk)|(_ & ? & _)]); [|done].
  split; [done|]. exact (Hk "content-length").
Defined.
