(* ===== verification/Authentication.v ===== *)
(** * LDAP authentication: [middleware/authentication.rs] *)
From S2P Require Import Prelude RustStd Http HttpModel LoadBalancing Effects Events Middleware.

Local Open Scope Z_scope.

Record Authentication := {
  ldap_address : string;
  user_directory : string;
  rdn_identifier : string;
  recursive : bool;
}.

(** [http_auth_basic::Credentials]. *)
Record Credentials := { user_id : string; password : string }.

Section Authentication.
Context `{HT : Http}.

(** [Credentials::from_header] of the crate [http_auth_basic]. *)
Context (from_header : string -> option Credentials).

Definition search_filter (self : Authentication) (user : string) : string :=
  "(" +:+ rdn_identifier self +:+ "=" +:+ user +:+ ")".

Definition search_scope (self : Authentication) : LdapScope :=
  if recursive self then Subtree else OneLevel.

(** The loop over the entries found. *)
Fixpoint bind_entries (entries : list string) (password : string) : handler (result bool string) :=
  match entries with
  | [] => Ret (Ok false)
  | dn :: entries =>
      do! bind_user := perform (LdapSimpleBind dn password) in
      match bind_user with
      | Err e => Ret (Err e)
      | Ok rc => if ldap_success rc then Ret (Ok true) else bind_entries entries password
      end
  end.

Definition check_user_credentials (self : Authentication) (user password : string) :
  handler (result bool string) :=
  do! conn := perform (LdapConnect (ldap_address self)) in
  match conn with
  | Err e => Ret (Err e)
  | Ok _ =>
      do! found := perform (LdapSearch (user_directory self) (search_scope self)
                              (search_filter self user) ["1.1"]) in
      match found with
      | Err e => Ret (Err e)
      | Ok res =>
          if ldap_success (search_rc res) then bind_entries (search_entries res) password
          else Ret (Err "result code")
      end
  end.

Definition user_authentication (self : Authentication) (headers : HeaderMap) : handler (option unit) :=
  match (value ← headers_get headers "authorization"; auth_data ← hv_to_str value; from_header auth_data) with
  | None => Ret None
  | Some credentials =>
      do! auth_result := check_user_credentials self (user_id credentials) (password credentials) in
      Ret (match auth_result with Ok true => Some tt | _ => None end)
  end.

Definition realm : string :=
  "Basic realm=" +:+ String "034"%char ("Another Rust Load Balancer requires authentication" +:+ String "034"%char "").

(** [response_unauthorized]; the constant header value is valid. *)
Definition response_unauthorized : Response :=
  mk_response _ 401 (headers_append "www-authenticate" realm headers_new) Body_empty.

Definition authentication_modify_request (self : Authentication) (request : Request) (context : MwContext) :
  handler (result Request Response) :=
  do! user := user_authentication self (req_headers request) in
  Ret (match user with Some _ => Ok request | None => Err response_unauthorized end).

Definition authentication (self : Authentication) : Modifier := {|
  modify_request := authentication_modify_request self;
  modify_response := default_modify_response |}.

(** ** No backend call *)
Lemma bind_entries_quiet entries pw : calls_at_most 0 (bind_entries entries pw).
Proof.
  induction entries as [|dn entries IH]; [apply calls_at_most_ret|].
  apply (calls_at_most_bind 0 0); [auto with arlb|]. intros [rc|e]; [|auto with arlb].
  destruct (ldap_success rc); auto with arlb.
Qed.

Lemma check_user_credentials_quiet self user pw : calls_at_most 0 (check_user_credentials self user pw).
Proof.
  apply (calls_at_most_bind 0 0); [auto with arlb|]. intros [?|?]; [|auto with arlb].
  apply (calls_at_most_bind 0 0); [auto with arlb|]. intros [res|?]; [|auto with arlb].
  destruct (ldap_success _); [apply bind_entries_quiet|auto with arlb].
Qed.

Lemma authentication_quiet self : quiet (authentication self).
Proof.
  split; intros; [|apply calls_at_most_ret]. apply (calls_at_most_bind 0 0); [|auto with arlb].
  unfold user_authentication. case_match; [|auto with arlb].
  apply (calls_at_most_bind 0 0); [apply check_user_credentials_quiet|auto with arlb].
Qed.

Lemma bind_entries_local entries pw : effects_in chain_effect (bind_entries entries pw).
Proof.
  induction entries as [|dn entries IH]; [done|]. simpl. split; [done|]. intros [rc|e]; [|done]. by destruct (ldap_success rc).
Qed.

Lemma authentication_local self : local_modifier (authentication self).
Proof.
  split; intros; [|done]. apply effects_in_bind; [|done]. unfold user_authentication. case_match; [|done].
  apply effects_in_bind; [|done]. simpl. split; [done|]. intros [?|?]; [|done]. split; [done|]. intros [res|?]; [|done].
  destruct (ldap_success _); [apply bind_entries_local|done].
Qed.

(** ** The LDAP dialogue of an accepted request *)

(** Binds that were answered with a failure. *)
Definition refused_bind (pw : string) (dn_rc : string * Z) : obs effect :=
  Obs (LdapSimpleBind dn_rc.1 pw) (Ok dn_rc.2).

(** A connection, a successful search for the user, refused binds for the first
    entries found, then a successful bind for the next one. *)
Definition accepting_dialogue (self : Authentication) (user pw : string) (tr : list (obs effect)) : Prop :=
  exists res refused dn rest,
    search_rc res = 0 /\ search_entries res = refused.*1 ++ dn :: rest /\
    Forall (fun dn_rc => dn_rc.2 <> 0) refused /\
    tr = Obs (LdapConnect (ldap_address self)) (Ok tt) ::
         Obs (LdapSearch (user_directory self) (search_scope self) (search_filter self user) ["1.1"]) (Ok res) ::
         (refused_bind pw <$> refused) ++ [Obs (LdapSimpleBind dn pw) (Ok 0)].

Lemma bind_entries_accepts entries pw tr :
  runs (bind_entries entries pw) tr (Returned (Ok true)) ->
  exists refused dn rest, entries = refused.*1 ++ dn :: rest /\
    Forall (fun dn_rc => dn_rc.2 <> 0) refused /\
    tr = (refused_bind pw <$> refused) ++ [Obs (LdapSimpleBind dn pw) (Ok 0)].
Proof.
  revert tr. induction entries as [|dn entries IH]; intros tr; [by intros [_ ?]|].
  intros ([rc|e] & tr' & -> & Hr); [|by destruct Hr].
  simpl in Hr. destruct (ldap_success rc) eqn:Hrc; unfold ldap_success in Hrc.
  - apply bool_decide_eq_true in Hrc as ->. destruct Hr as [-> _]. exists [], dn, entries. by repeat constructor.
  - apply bool_decide_eq_false in Hrc. destruct (IH _ Hr) as (refused & dn' & rest & -> & Hf & ->).
    exists ((dn, rc) :: refused), dn', rest. by repeat constructor.
Qed.

Lemma check_user_credentials_accepts self user pw tr :
  runs (check_user_credentials self user pw) tr (Returned (Ok true)) -> accepting_dialogue self user pw tr.
Proof.
  intros ([[]|e] & tr' & -> & Hr); [|by destruct Hr].
  destruct Hr as ([res|e] & tr'' & -> & Hr); [|by destruct Hr].
  simpl in Hr. destruct (ldap_success (search_rc res)) eqn:Hrc; [|by destruct Hr].
  apply bool_decide_eq_true in Hrc. apply bind_entries_accepts in Hr as (refused & dn & rest & He & Hf & ->).
  by exists res, refused, dn, rest.
Qed.

Lemma bind_entries_complete refused dn rest pw :
  Forall (fun dn_rc => dn_rc.2 <> 0) refused ->
  runs (bind_entries (refused.*1 ++ dn :: rest) pw)
    ((refused_bind pw <$> refused) ++ [Obs (LdapSimpleBind dn pw) (Ok 0)]) (Returned (Ok true)).
Proof.
  induction 1 as [|[dn' rc] refused Hrc Hf IH]; simpl; [by eexists (Ok 0), []|].
  eexists (Ok rc), _. split; [done|]. simpl. unfold ldap_success. by rewrite bool_decide_eq_false_2.
Qed.

Lemma check_user_credentials_complete self user pw tr :
  accepting_dialogue self user pw tr -> runs (check_user_credentials self user pw) tr (Returned (Ok true)).
Proof.
  intros (res & refused & dn & rest & Hrc & He & Hf & ->).
  eexists (Ok tt), _. split; [done|]. eexists (Ok res), _. split; [done|]. cbn [prog_bind].
  rewrite Hrc, He. by apply bind_entries_complete.
Qed.

(** The check never panics. *)
Lemma bind_entries_returns entries pw tr : ~ runs (bind_entries entries pw) tr Panic.
Proof.
  revert tr. induction entries as [|dn entries IH]; intros tr; [by intros [_ ?]|].
  intros ([rc|e] & tr' & -> & Hr); [|by destruct Hr]. cbn [prog_bind] in Hr.
  destruct (ldap_success rc); [by destruct Hr|by eapply IH].
Qed.

Lemma check_user_credentials_returns self user pw tr : ~ runs (check_user_credentials self user pw) tr Panic.
Proof.
  intros ([[]|e] & tr' & -> & Hr); [|by destruct Hr].
  destruct Hr as ([res|e] & tr'' & -> & Hr); [|by destruct Hr]. cbn [prog_bind] in Hr.
  destruct (ldap_success (search_rc res)); [by eapply bind_entries_returns|by destruct Hr].
Qed.

(** The credentials of a request. *)
Definition credentials_of (headers : HeaderMap) : option Credentials :=
  value ← headers_get headers "authorization"; auth_data ← hv_to_str value; from_header auth_data.

Lemma user_authentication_runs self headers tr o :
  runs (user_authentication self headers) tr o ->
  backend_calls tr = [] /\
  ((exists cred, credentials_of headers = Some cred /\ o = Returned (Some tt) /\
      accepting_dialogue self (user_id cred) (password cred) tr) \/ o = Returned None).
Proof.
  unfold user_authentication. fold (credentials_of headers).
  destruct (credentials_of headers) as [cred|]; [|by intros [-> ->]; auto].
  intros (tr1 & tr2 & o1 & -> & Hc & Hk)%runs_bind.
  pose proof (check_user_credentials_quiet _ _ _ _ _ Hc) as Hq.
  assert (o1 <> Panic) as Hp.
  { intros ->. by apply check_user_credentials_returns in Hc. }
  destruct o1 as [[[]|e]|]; [..|done]; destruct Hk as [-> ->]; rewrite app_nil_r;
    (split; [by apply nil_length_inv; lia|]); auto.
  left. exists cred. split_and!; [done..|]. by apply check_user_credentials_accepts.
Qed.

(** C23: Nothing behind the authentication middleware runs unless the request
    carries credentials for which the LDAP server was found to hold an entry that
    accepts a bind with the password: every run either starts with that dialogue and
    goes on as the rest of the chain, or makes no backend call and answers 401.
    Conversely every such dialogue lets the request through unchanged. *)
Theorem authentication_guards self chain request context :
  (forall tr o,
     runs (chain_forward_request (Entry (boxed (authentication self)) chain) request context) tr o ->
     (exists cred tr1 tr2, credentials_of (req_headers request) = Some cred /\ tr = tr1 ++ tr2 /\
        accepting_dialogue self (user_id cred) (password cred) tr1 /\
        runs (chain_forward_request chain request context) tr2 o) \/
     (backend_calls tr = [] /\ o = Returned response_unauthorized)) /\
  (forall cred tr1 tr2 r, credentials_of (req_headers request) = Some cred ->
     accepting_dialogue self (user_id cred) (password cred) tr1 ->
     runs (chain_forward_request chain request context) tr2 (Returned r) ->
     runs (chain_forward_request (Entry (boxed (authentication self)) chain) request context)
       (tr1 ++ tr2) (Returned r)).
Proof.
  cbn [chain_forward_request boxed mw_forward_request]. unfold default_forward_request.
  cbn [modify_request modify_response authentication]. unfold authentication_modify_request, default_modify_response.
  split.
  - intros tr o (tr1 & tr2 & o1 & -> & Hr & Hk)%runs_bind.
    apply runs_bind_ret in Hr as (o2 & Hu & ->).
    apply user_authentication_runs in Hu as [Hb [(cred & Hcred & -> & Hd)| ->]].
    + apply runs_bind_ret in Hk as (o' & Hk & ->). left. exists cred, tr1, tr2. split_and!; try done.
      by destruct o'.
    + destruct Hk as [-> ->]. right. by rewrite app_nil_r.
  - intros cred tr1 tr2 r Hcred Hd Hr. apply runs_bind. exists tr1, tr2, (Returned (Ok request)).
    split_and!; [done| |].
    + apply runs_bind_ret. exists (Returned (Some tt)). split; [|done]. unfold user_authentication.
      fold (credentials_of (req_headers request)). rewrite Hcred.
      apply runs_bind_ret. exists (Returned (Ok true)). split; [|done]. by apply check_user_credentials_complete.
    + apply runs_bind_ret. by exists (Returned r).
Qed.

End Authentication.

#[export] Hint Resolve authentication_quiet authentication_local : arlb.

(** ** Witness: the user name is put into the search filter as it is, so the
    name [*] authenticates with the password of any entry *)
#[local] Existing Instance http_model.

Definition sample_from_header (text : string) : option Credentials :=
  if decide (text = "Basic KjpzZWNyZXQ=") then Some {| user_id := "*"; password := "secret" |} else None.

Definition sample_authentication : Authentication :=
  {| ldap_address := "ldap://ldap"; user_directory := "ou=users"; rdn_identifier := "cn"; recursive := false |}.

Definition star_dialogue : list (obs effect) :=
  [Obs (LdapConnect "ldap://ldap") (Ok tt);
   Obs (LdapSearch "ou=users" OneLevel "(cn=*)" ["1.1"])
     (Ok {| search_rc := 0; search_entries := ["cn=alice"; "cn=bob"] |});
   Obs (LdapSimpleBind "cn=alice" "secret") (Ok 49);
   Obs (LdapSimpleBind "cn=bob" "secret") (Ok 0)].

Lemma authentication_guards_witness :
  exists r,
    runs (chain_forward_request
            (Entry (boxed (authentication sample_from_header sample_authentication))
               (Entry {| mw_forward_request request chain context := Ret (sample_response 200 [] "") |} Empty))
            (sample_request "GET" (Some "/") [("authorization", "Basic KjpzZWNyZXQ=")]) sample_mw_context)
      star_dialogue (Returned r).
Proof.
  exists (sample_response 200 [] "").
  apply (proj2 (authentication_guards sample_from_header sample_authentication
    (Entry {| mw_forward_request request chain context := Ret (sample_response 200 [] "") |} Empty)
    (sample_request "GET" (Some "/") [("authorization", "Basic KjpzZWNyZXQ=")]) sample_mw_context)
    {| user_id := "*"; password := "secret" |} star_dialogue []); [reflexivity| |by split].
  exists {| search_rc := 0; search_entries := ["cn=alice"; "cn=bob"] |}, [("cn=alice", 49)], "cn=bob", [].
  split_and!; try reflexivity. by repeat constructor.
Defined.
