(* ===== verification/Pool.v ===== *)
(** * Backend pools: [BackendPool] and [BackendPoolBuilder] of [server.rs]

    The shared, mutable parts of a pool (the health flags of its addresses, the
    strategy) live at the pool's location; the record holds their initial values. *)
From S2P Require Import Prelude RustStd Http LoadBalancing StickyCookie Strategy Matcher Effects Events Middleware.

Section Pool.
Context `{HT : Http} `{RX : RegexCrate} `{UC : UrlCrate}.

(** The options of [hyper::Client::builder()] the builder sets. *)
Record ClientOptions := {
  client_pool_idle_timeout : option Z;
  client_pool_max_idle_per_host : option Z;
}.

Definition client_builder : ClientOptions :=
  {| client_pool_idle_timeout := None; client_pool_max_idle_per_host := None |}.

Record BackendPool := {
  pool : loc;
  matcher : BackendPoolMatcher;
  addresses : list (string * Healthiness);
  health_config : HealthConfig;
  strategy : DynStrategy;
  chain : MiddlewareChain;
  client : ClientOptions;
  schemes : list Scheme;
}.

Definition supports (self : BackendPool) (scheme : Scheme) : bool := bool_decide (scheme ∈ schemes self).

(** [PartialEq for BackendPool] compares the matchers. *)
Definition backend_pool_eq (self other : BackendPool) : bool := matcher_eq (matcher self) (matcher other).

Record BackendPoolBuilder := {
  b_matcher : BackendPoolMatcher;
  b_addresses : list (string * Healthiness);
  b_health_config : HealthConfig;
  b_strategy : DynStrategy;
  b_chain : MiddlewareChain;
  b_schemes : list Scheme;
  b_pool_idle_timeout : option Z;
  b_pool_max_idle_per_host : option Z;
}.

Definition builder_new (m : BackendPoolMatcher) (a : list (string * Healthiness)) (h : HealthConfig)
  (s : DynStrategy) (c : MiddlewareChain) (sch : list Scheme) : BackendPoolBuilder :=
  {| b_matcher := m; b_addresses := a; b_health_config := h; b_strategy := s; b_chain := c; b_schemes := sch;
     b_pool_idle_timeout := None; b_pool_max_idle_per_host := None |}.

Definition set_pool_idle_timeout (self : BackendPoolBuilder) (duration : Z) : BackendPoolBuilder :=
  {| b_matcher := b_matcher self; b_addresses := b_addresses self; b_health_config := b_health_config self;
     b_strategy := b_strategy self; b_chain := b_chain self; b_schemes := b_schemes self;
     b_pool_idle_timeout := Some duration; b_pool_max_idle_per_host := b_pool_max_idle_per_host self |}.

Definition set_pool_max_idle_per_host (self : BackendPoolBuilder) (max_idle : Z) : BackendPoolBuilder :=
  {| b_matcher := b_matcher self; b_addresses := b_addresses self; b_health_config := b_health_config self;
     b_strategy := b_strategy self; b_chain := b_chain self; b_schemes := b_schemes self;
     b_pool_idle_timeout := b_pool_idle_timeout self; b_pool_max_idle_per_host := Some max_idle |}.

(** [build]; the pool is allocated at [l].  The client's connector shares the
    strategy at [l]. *)
Definition build (self : BackendPoolBuilder) (l : loc) : BackendPool :=
  let client := client_builder in
  let client := match b_pool_idle_timeout self with
                | Some d => {| client_pool_idle_timeout := Some d;
                               client_pool_max_idle_per_host := client_pool_max_idle_per_host client |}
                | None => client
                end in
  let client := match b_pool_max_idle_per_host self with
                | Some n => {| client_pool_idle_timeout := client_pool_idle_timeout client;
                               client_pool_max_idle_per_host := Some n |}
                | None => client
                end in
  {| pool := l; matcher := b_matcher self; addresses := b_addresses self;
     health_config := b_health_config self; strategy := b_strategy self; chain := b_chain self;
     client := client; schemes := b_schemes self |}.

End Pool.
