(* ===== verification/Health.v ===== *)
(** * Health checks: [health.rs]

    A round of [watch_health] runs one check per address concurrently
    ([join_all]).  The flags of the addresses are shared cells; the checks of a
    round interleave arbitrarily.  The loop around the rounds is in HealthLoop. *)
From S2P Require Import Prelude RustStd Http HttpModel LoadBalancing StickyCookie Strategy Matcher Effects.
From S2P Require Import Events Middleware Pool.

Local Open Scope Z_scope.

Section Health.
Context `{HT : Http}.

Definition is_success (status : Z) : bool := bool_decide (200 <= status < 300).

(** [i64::try_from] on the [u128] of milliseconds. *)
Definition i64_try_from (z : Z) : option Z := if decide (z <= i64_max) then Some z else None.

Definition contact_server (server_address : Uri) (slow_threshold timeout : Z) : handler Healthiness :=
  do! answer := perform (HealthGet server_address timeout) in
  match answer with
  | Ok status =>
      if is_success status then
        do! elapsed := perform ElapsedMillis in
        do! time_to_respond := lift (unwrap (ok elapsed)) in
        do! response_time := lift (unwrap (i64_try_from time_to_respond)) in
        Ret (if decide (slow_threshold < response_time) then Slow response_time else Healthy)
      else Ret (Unresponsive (Some status))
  | Err _ => Ret (Unresponsive None)
  end.

(** The URI of a check; an invalid address or path panics. *)
Definition health_uri (server_address path : string) : outcome Uri :=
  authority ← unwrap (Authority_from_str server_address);
  unwrap (path_and_query ← PathAndQuery_from_str path; Uri_build "http" authority path_and_query).

(** [healthiness] is the cell of an address: its pool and its index. *)
Definition check_server_health_once (server_address : string) (healthiness : loc * nat) (config : HealthConfig) :
  handler unit :=
  do! uri := lift (health_uri server_address (health_path config)) in
  do! previous_healthiness := perform (LoadHealth healthiness.1 healthiness.2) in
  do! result := contact_server uri (slow_threshold config) (timeout config) in
  if decide (previous_healthiness <> result) then perform (StoreHealth healthiness.1 healthiness.2 result)
  else Ret tt.

(** The checks of one round: one per address of every pool. *)
Definition health_round `{RX : RegexCrate} (backend_pools : list BackendPool) : list (handler unit) :=
  p ← backend_pools;
  imap (fun i address => check_server_health_once address.1 (pool p, i) (health_config p)) (addresses p).

(** ** What a single check does *)
Lemma contact_server_runs uri threshold ms tr h :
  runs (contact_server uri threshold ms) tr (Returned h) <->
  (tr = [Obs (HealthGet uri ms) (Err tt)] /\ h = Unresponsive None) \/
  (exists status, tr = [Obs (HealthGet uri ms) (Ok status)] /\ is_success status = false /\
     h = Unresponsive (Some status)) \/
  (exists status time, tr = [Obs (HealthGet uri ms) (Ok status); Obs ElapsedMillis (Ok time)] /\
     is_success status = true /\ time <= i64_max /\
     h = if decide (threshold < time) then Slow time else Healthy).
Proof.
  unfold contact_server. split.
  - intros ([status|[]] & tr' & -> & Hr); cbn [prog_bind] in Hr; [|destruct Hr as [-> [= ->]]; by left].
    destruct (is_success status) eqn:Hs; [|destruct Hr as [-> [= ->]]; right; left; by exists status].
    destruct Hr as ([time|[]] & tr'' & -> & Hr); simpl in Hr; [|by destruct Hr].
    unfold i64_try_from in Hr. case_decide; simpl in Hr; [|by destruct Hr].
    destruct Hr as [-> [= ->]]. right. right. by exists status, time.
  - intros [[-> ->]|[(status & -> & Hs & ->)|(status & time & -> & Hs & Ht & ->)]].
    + by exists (Err tt), [].
    + exists (Ok status), []. split; [done|]. cbn [prog_bind]. by rewrite Hs.
    + eexists (Ok status), _. split; [done|]. cbn [prog_bind]. rewrite Hs.
      exists (Ok time), []. split; [done|]. simpl. unfold i64_try_from. by rewrite decide_True.
Qed.

(** ** Replaying a trace on the health cells *)
Abbreviation cells := (gmap (loc * nat) Healthiness).

(** One cell: a load must see the value of the cell, a store replaces it. *)
Definition observe_cell (c : loc * nat) (v : option Healthiness) (o : obs effect) : option (option Healthiness) :=
  match o with
  | Obs e b =>
      match e in effect B return B -> option (option Healthiness) with
      | LoadHealth p i => fun b => if decide ((p, i) = c) then if decide (v = Some b) then Some v else None
                                   else Some v
      | StoreHealth p i h => fun _ => Some (if decide ((p, i) = c) then Some h else v)
      | _ => fun _ => Some v
      end b
  end.

Definition observe (m : cells) (o : obs effect) : option cells :=
  match o with
  | Obs e b =>
      match e in effect B return B -> option cells with
      | LoadHealth p i => fun b => if decide (m !! (p, i) = Some b) then Some m else None
      | StoreHealth p i h => fun _ => Some (<[(p, i) := h]> m)
      | _ => fun _ => Some m
      end b
  end.

Fixpoint replay {S} (f : S -> obs effect -> option S) (s : S) (tr : list (obs effect)) : option S :=
  match tr with [] => Some s | o :: tr => s' ← f s o; replay f s' tr end.

Definition touched (o : obs effect) : option (loc * nat) :=
  match o with
  | Obs e _ => match e with LoadHealth p i | StoreHealth p i _ => Some (p, i) | _ => None end
  end.

Lemma observe_cell_spec m o m' c : observe m o = Some m' -> observe_cell c (m !! c) o = Some (m' !! c).
Proof.
  destruct o as [B e b]. destruct e; simpl; try (by intros [= <-]).
  - case_decide as Hl; [|done]. intros [= <-]. case_decide; [|done]. subst c. by rewrite decide_True.
  - intros [= <-]. case_decide; [subst c; by rewrite lookup_insert_eq|by rewrite lookup_insert_ne].
Qed.

Lemma observe_cell_untouched c v o : touched o <> Some c -> observe_cell c v o = Some v.
Proof. destruct o as [B e b]. destruct e; simpl; try done; intros Hne; rewrite decide_False; congruence. Qed.

Lemma replay_untouched c v tr : Forall (fun o => touched o <> Some c) tr -> replay (observe_cell c) v tr = Some v.
Proof. induction 1 as [|o tr Ho Htr IH]; [done|]. simpl. by rewrite observe_cell_untouched. Qed.

Lemma replay_app {S} (f : S -> obs effect -> option S) s tr1 tr2 :
  replay f s (tr1 ++ tr2) = s' ← replay f s tr1; replay f s' tr2.
Proof. revert s. induction tr1 as [|o tr1 IH]; intros s; simpl; [done|]. destruct (f s o); simpl; auto. Qed.

(** ** Interleavings *)
Inductive interleaving : list (list (obs effect)) -> list (obs effect) -> Prop :=
| interleaving_nil tss : Forall (fun tr => tr = []) tss -> interleaving tss []
| interleaving_cons tss i o tr T :
    tss !! i = Some (o :: tr) -> interleaving (<[i := tr]> tss) T -> interleaving tss (o :: T).

(** If every thread touches only its own cell, each cell evolves as if its thread
    ran alone, and the other cells stay. *)
Lemma interleaving_cells tss T cs m m' :
  interleaving tss T -> NoDup cs ->
  (forall j tr, tss !! j = Some tr -> exists c, cs !! j = Some c /\ Forall (fun o => touched o ∈ [None; Some c]) tr) ->
  replay observe m T = Some m' ->
  (forall j c tr, cs !! j = Some c -> tss !! j = Some tr -> replay (observe_cell c) (m !! c) tr = Some (m' !! c)) /\
  (forall c, c ∉ cs -> m' !! c = m !! c).
Proof.
  intros Hint Hnd. revert m. induction Hint as [tss Hnil|tss i o tr T Hi Hint IH]; intros m Hown Hrep.
  - injection Hrep as <-. split; [|done]. intros j c tr Hc Htr. rewrite Forall_lookup in Hnil. by rewrite (Hnil _ _ Htr).
  - simpl in Hrep. apply bind_Some in Hrep as (m1 & Ho & Hrep).
    destruct (Hown i _ Hi) as (ci & Hci & [Hoi Htri]%Forall_cons).
    assert (forall c, touched o <> Some c -> m1 !! c = m !! c) as Hkeep.
    { intros c Hne. pose proof (observe_cell_spec m o m1 c Ho) as He.
      rewrite observe_cell_untouched in He by done. congruence. }
    destruct (IH m1) as [IH1 IH2]; [|done|].
    { intros j tr' Hj. destruct (decide (i = j)) as [->|Hne].
      - rewrite list_lookup_insert_eq in Hj by (by eapply lookup_lt_Some). injection Hj as <-. eauto.
      - rewrite list_lookup_insert_ne in Hj by done. eauto. }
    split.
    + intros j c tr' Hc Hj. destruct (decide (i = j)) as [->|Hne].
      * rewrite Hi in Hj. injection Hj as <-. simpl. rewrite (observe_cell_spec m o m1 c Ho). simpl.
        apply (IH1 j); [done|]. apply list_lookup_insert_eq. by eapply lookup_lt_Some.
      * rewrite <-(Hkeep c); [apply (IH1 j); [done|by rewrite list_lookup_insert_ne]|].
        intros Ht. rewrite Ht in Hoi. assert (c = ci) as -> by set_solver.
        apply Hne. by eapply NoDup_lookup.
    + intros c Hc. rewrite IH2 by done. apply Hkeep. intros Ht. apply Hc. rewrite Ht in Hoi.
      assert (c = ci) as -> by set_solver. by eapply list_elem_of_lookup_2.
Qed.

(** ** A check leaves its verdict in its cell *)
Lemma contact_server_untouched uri threshold ms tr h c :
  runs (contact_server uri threshold ms) tr (Returned h) -> Forall (fun o => touched o <> Some c) tr.
Proof.
  intros [[-> _]|[(? & -> & _)|(? & ? & -> & _)]]%contact_server_runs; by repeat constructor.
Qed.

(** The parts of the trace of a check that returned. *)
Lemma check_runs address c config tr :
  runs (check_server_health_once address c config) tr (Returned tt) ->
  exists uri previous contact verdict,
    health_uri address (health_path config) = Returned uri /\
    runs (contact_server uri (slow_threshold config) (timeout config)) contact (Returned verdict) /\
    tr = Obs (LoadHealth c.1 c.2) previous :: contact ++
         (if decide (previous <> verdict) then [Obs (StoreHealth c.1 c.2 verdict) tt] else []).
Proof.
  intros (tr1 & tr2 & [uri|] & -> & Hu & Hr)%runs_bind; [|by destruct Hr].
  apply runs_lift in Hu as [-> Hu]. destruct Hr as (previous & tr3 & -> & Hr). cbn [prog_bind] in Hr.
  apply runs_bind in Hr as (contact & tr4 & [verdict|] & -> & Hc & Hr); [|by destruct Hr].
  exists uri, previous, contact, verdict. split_and!; [done..|]. simpl. do 2 f_equal.
  case_decide; [|by destruct Hr]. by apply runs_perform in Hr as ([] & -> & _).
Qed.

Lemma check_touches address c config tr :
  runs (check_server_health_once address c config) tr (Returned tt) ->
  Forall (fun o => touched o ∈ [None; Some c]) tr.
Proof.
  destruct c as [p i]. intros (uri & previous & contact & verdict & _ & Hc & ->)%check_runs.
  constructor; [simpl; set_solver|]. apply Forall_app. split.
  - apply Forall_forall. intros o Ho. destruct (touched o) as [c|] eqn:Et; [|set_solver].
    pose proof (contact_server_untouched _ _ _ _ _ c Hc) as Hu. rewrite Forall_forall in Hu.
    by destruct (Hu o Ho).
  - case_decide; [|constructor]. constructor; [simpl; set_solver|constructor].
Qed.

Lemma check_replay address c config tr v v' :
  runs (check_server_health_once address c config) tr (Returned tt) ->
  replay (observe_cell c) v tr = Some v' ->
  exists uri contact verdict,
    health_uri address (health_path config) = Returned uri /\
    runs (contact_server uri (slow_threshold config) (timeout config)) contact (Returned verdict) /\
    contact `sublist_of` tr /\ v' = Some verdict.
Proof.
  destruct c as [p i]. intros (uri & previous & contact & verdict & Hu & Hc & ->)%check_runs.
  cbn [replay fst snd]. cbn [observe_cell]. rewrite (decide_True (P := (p, i) = (p, i))) by done.
  destruct (decide (v = Some previous)) as [->|]; [|done]. cbn [mbind option_bind].
  rewrite replay_app, (replay_untouched _ _ contact) by (by eapply contact_server_untouched).
  cbn [mbind option_bind]. intros Hrep. exists uri, contact, verdict. split_and!; [done..| |].
  - apply sublist_cons. apply sublist_inserts_r. done.
  - case_decide as Hp; simpl in Hrep.
    + rewrite decide_True in Hrep by done. by injection Hrep as <-.
    + injection Hrep as <-. f_equal. by destruct (decide (previous = verdict)).
Qed.

(** ** The checks of a round *)
Section Round.
Context `{RX : RegexCrate}.

Definition round_checks (backend_pools : list BackendPool) : list (string * (loc * nat) * HealthConfig) :=
  p ← backend_pools; imap (fun i address => (address.1, (pool p, i), health_config p)) (addresses p).

Definition run_check (c : string * (loc * nat) * HealthConfig) : handler unit :=
  check_server_health_once c.1.1 c.1.2 c.2.

Lemma health_round_checks pools : health_round pools = run_check <$> round_checks pools.
Proof.
  unfold health_round, round_checks.
  induction pools as [|p pools IH]; [done|]. rewrite !bind_cons, fmap_app, IH. f_equal.
  by rewrite fmap_imap.
Qed.

Lemma round_checks_elem pools p i address :
  p ∈ pools -> addresses p !! i = Some address ->
  (address.1, (pool p, i), health_config p) ∈ round_checks pools.
Proof.
  intros Hp Ha. unfold round_checks. apply list_elem_of_bind. exists p. split; [|done].
  apply elem_of_lookup_imap. eauto.
Qed.

Lemma round_cells_nodup pools : NoDup (pool <$> pools) -> NoDup ((fun c => c.1.2) <$> round_checks pools).
Proof.
  induction pools as [|p pools IH]; [constructor|]. cbn [fmap list_fmap]. intros [Hp Hnd]%NoDup_cons.
  unfold round_checks. rewrite bind_cons, fmap_app. apply NoDup_app. split_and!; [| |by apply IH].
  - rewrite fmap_imap. apply NoDup_alt. intros i j c. rewrite !list_lookup_imap.
    intros (a & _ & ->)%fmap_Some (b & _ & Heq)%fmap_Some. simpl in Heq. congruence.
  - intros c (x & -> & (i & a & -> & _)%elem_of_lookup_imap)%list_elem_of_fmap. simpl.
    intros (y & Hy & Hin)%list_elem_of_fmap. apply list_elem_of_bind in Hin as (q & Hyq & Hq).
    apply elem_of_lookup_imap in Hyq as (j & b & -> & _). simpl in Hy. apply Hp.
    injection Hy as -> _. by apply list_elem_of_fmap_2.
Qed.

(** C10: A round of health checks, however the concurrent checks interleave, leaves
    in the flag of every address of every pool exactly the verdict of the contact made
    with that address (healthy, slow with its response time, or unresponsive with its
    status), whatever it was before; no other flag changes. *)
Theorem health_round_settles pools tss T m m' :
  NoDup (pool <$> pools) ->
  Forall2 (fun check tr => runs check tr (Returned tt)) (health_round pools) tss ->
  interleaving tss T -> replay observe m T = Some m' ->
  (forall p i address, p ∈ pools -> addresses p !! i = Some address ->
     exists uri contact verdict,
       health_uri address.1 (health_path (health_config p)) = Returned uri /\
       runs (contact_server uri (slow_threshold (health_config p)) (timeout (health_config p)))
         contact (Returned verdict) /\
       (exists tr, tr ∈ tss /\ contact `sublist_of` tr) /\
       m' !! (pool p, i) = Some verdict) /\
  (forall c, (forall p i, c = (pool p, i) -> p ∈ pools -> (length (addresses p) <= i)%nat) -> m' !! c = m !! c).
Proof.
  intros Hnd Hruns Hint Hrep. rewrite health_round_checks in Hruns. rewrite Forall2_fmap_l in Hruns.
  destruct (interleaving_cells tss T ((fun c => c.1.2) <$> round_checks pools) m m') as [Hcell Hkeep];
    [done|by apply round_cells_nodup| |done|].
  { intros j tr Hj. destruct (Forall2_lookup_r _ _ _ _ _ Hruns Hj) as (check & Hcheck & Hr).
    exists check.1.2. rewrite list_lookup_fmap, Hcheck. split; [done|]. by eapply check_touches. }
  split.
  - intros p i address Hp Ha. pose proof (round_checks_elem _ _ _ _ Hp Ha) as Hin.
    apply list_elem_of_lookup in Hin as [j Hj].
    destruct (Forall2_lookup_l _ _ _ _ _ Hruns Hj) as (tr & Htr & Hr).
    assert (replay (observe_cell (pool p, i)) (m !! (pool p, i)) tr = Some (m' !! (pool p, i))) as Hc.
    { apply (Hcell j); [|done]. by rewrite list_lookup_fmap, Hj. }
    destruct (check_replay _ _ _ _ _ _ Hr Hc) as (uri & contact & verdict & Hu & Hcon & Hsub & Hm).
    exists uri, contact, verdict. split_and!; try done. exists tr. split; [by eapply list_elem_of_lookup_2|done].
  - intros c Hc. apply Hkeep. intros (check & -> & Hin)%list_elem_of_fmap.
    apply list_elem_of_bind in Hin as (p & Hp & Hin). apply elem_of_lookup_imap in Hp as (i & a & -> & Ha).
    apply lookup_lt_Some in Ha. specialize (Hc p i eq_refl Hin). lia.
Qed.

End Round.
End Health.

(** ** Witness: two addresses checked concurrently, the second is slow *)
#[local] Existing Instance http_model.
#[local] Existing Instance sample_regex.

Definition sample_pool : BackendPool := {|
  pool := 0%nat; matcher := Host "a"; addresses := [("a:1", Healthy); ("b:1", Healthy)];
  health_config := {| slow_threshold := 300; timeout := 500; health_path := "/" |};
  strategy := box mk_Random; chain := Empty; client := client_builder; schemes := [HTTP] |}.

Definition check_uri (authority : string) : Uri := mk_uri (Some "http") (Some authority) (Some "/").

Definition check_a : list (obs effect) :=
  [Obs (LoadHealth 0 0) Healthy; Obs (HealthGet (check_uri "a:1") 500) (Ok 200); Obs ElapsedMillis (Ok 5)].
Definition check_b : list (obs effect) :=
  [Obs (LoadHealth 0 1) Healthy; Obs (HealthGet (check_uri "b:1") 500) (Ok 200); Obs ElapsedMillis (Ok 400);
   Obs (StoreHealth 0 1 (Slow 400)) tt].
Definition checks_a_b : list (obs effect) :=
  [Obs (LoadHealth 0 1) Healthy; Obs (LoadHealth 0 0) Healthy; Obs (HealthGet (check_uri "b:1") 500) (Ok 200);
   Obs (HealthGet (check_uri "a:1") 500) (Ok 200); Obs ElapsedMillis (Ok 400);
   Obs (StoreHealth 0 1 (Slow 400)) tt; Obs ElapsedMillis (Ok 5)].

Lemma health_round_settles_witness :
  exists m', replay observe {[ (0, 0)%nat := Healthy; (0, 1)%nat := Healthy ]} checks_a_b = Some m' /\
    m' !! (0, 1)%nat = Some (Slow 400) /\ exists verdict, m' !! (0, 0)%nat = Some verdict.
Proof.
  eexists. split; [reflexivity|]. split; [reflexivity|].
  edestruct (health_round_settles [sample_pool] [check_a; check_b] checks_a_b
    {[ (0, 0)%nat := Healthy; (0, 1)%nat := Healthy ]}) as [Hset _].
  - apply NoDup_singleton.
  - repeat (constructor; [repeat (eexists _, _; split; [reflexivity|]); by split|]). constructor.
  - apply (interleaving_cons _ 1%nat _ (tail check_b)); [done|].
    apply (interleaving_cons _ 0%nat _ (tail check_a)); [done|].
    apply (interleaving_cons _ 1%nat _ (tail (tail check_b))); [done|].
    apply (interleaving_cons _ 0%nat _ (tail (tail check_a))); [done|].
    apply (interleaving_cons _ 1%nat _ (tail (tail (tail check_b)))); [done|].
    apply (interleaving_cons _ 1%nat _ []); [done|].
    apply (interleaving_cons _ 0%nat _ []); [done|].
    constructor. by repeat constructor.
  - reflexivity.
  - destruct (Hset sample_pool 0%nat ("a:1", Healthy)) as (_ & _ & verdict & _ & _ & _ & Hm);
      [by left|reflexivity|]. exists verdict. exact Hm.
Defined.
