(* ===== verification/HealthLoop.v ===== *)
(** * The loop of the health checks: [watch_health] of [health.rs]

    The loop reads the interval and the pools of the running configuration through
    [Access] objects, at two different moments, so a reload may come in between.  Times are
    nanoseconds of the monotonic clock.  [interval_timer] ticks for the first time at
    once, and for the second time one interval after it was made. *)
From S2P Require Import Prelude RustStd Http HttpModel LoadBalancing StickyCookie Strategy Matcher Effects.
From S2P Require Import Events Middleware RateLimiter Pool Health.
From stdpp Require Import pretty.

Local Open Scope Z_scope.

Section Display.
Context `{HT : Http}.

(** [Display] of [http::StatusCode], an [i64], and a [Healthiness]. *)
Definition status_to_string (status : Z) : string :=
  pretty status +:+ " " +:+ default "<unknown status code>" (canonical_reason status).

Definition healthiness_to_string (h : Healthiness) : string :=
  match h with
  | Healthy => "Healthy"
  | Slow response_time => "Slow " +:+ pretty response_time
  | Unresponsive (Some status_code) => "Unresponsive, status: " +:+ status_to_string status_code
  | Unresponsive None => "Unresponsive"
  end.

End Display.

Section HealthLoop.
Context `{HT : Http} `{RX : RegexCrate}.

Definition from_secs (s : Z) : Z := s * 1000000000.

(** ** Where the loop waits *)
Inductive HealthPhase : Type :=
(** at the top of the loop *)
| Top
(** in [tokio::time::sleep] *)
| Sleeping (deadline : Instant)
(** in the first [interval_timer.tick()] *)
| Starting (next_tick : Instant)
(** in [join_all(checks)] *)
| Checking (next_tick : Instant) (checks : list (handler unit))
(** in the second [interval_timer.tick()] *)
| Ticking (next_tick : Instant).

Definition is_returned (c : handler unit) : bool := match c with Ret _ => true | _ => false end.
Definition is_crashed (c : handler unit) : bool := match c with Crash => true | _ => false end.

(** From one await to the next; [None] when the awaited event has not happened yet.
    [interval_duration] in seconds and [pools] are those of the running
    configuration now.  A panic of a check is a panic of the loop. *)
Definition health_advance (now : Instant) (interval_duration : Z) (pools : list BackendPool) (phase : HealthPhase) :
  outcome (option HealthPhase) :=
  match phase with
  | Top =>
      if decide (interval_duration = 0) then Returned (Some (Sleeping (now + from_secs 5)))
      else Returned (Some (Starting (now + from_secs interval_duration)))
  | Sleeping deadline => Returned (if decide (deadline <= now) then Some Top else None)
  | Starting next_tick => Returned (Some (Checking next_tick (health_round pools)))
  | Checking next_tick checks =>
      if existsb is_crashed checks then Panic
      else Returned (if forallb is_returned checks then Some (Ticking next_tick) else None)
  | Ticking next_tick => Returned (if decide (next_tick <= now) then Some Top else None)
  end.

(** ** The loop with its clock and the times at which rounds started *)
Record HealthLoop := { hl_now : Instant; hl_phase : HealthPhase; hl_rounds : list (Instant * Z) }.

(** A round starts when its timer is made. *)
Definition rounds_after (st : HealthLoop) (phase : HealthPhase) (interval_duration : Z) : list (Instant * Z) :=
  match phase with Starting _ => hl_rounds st ++ [(hl_now st, interval_duration)] | _ => hl_rounds st end.

(** The steps under a configuration with the given interval and pools; the
    environment answers the checks as [answers] allows.  The clock only moves forward. *)
Inductive loop_step (answers : forall B, effect B -> B -> Prop) (interval_duration : Z) (pools : list BackendPool) :
  HealthLoop -> HealthLoop -> Prop :=
| loop_clock st now :
    hl_now st < now ->
    loop_step answers interval_duration pools st {| hl_now := now; hl_phase := hl_phase st; hl_rounds := hl_rounds st |}
| loop_check st next_tick checks i B (e : effect B) k b :
    hl_phase st = Checking next_tick checks -> checks !! i = Some (Vis e k) -> answers B e b ->
    loop_step answers interval_duration pools st
      {| hl_now := hl_now st; hl_phase := Checking next_tick (<[i := k b]> checks); hl_rounds := hl_rounds st |}
| loop_advance st phase :
    health_advance (hl_now st) interval_duration pools (hl_phase st) = Returned (Some phase) ->
    loop_step answers interval_duration pools st
      {| hl_now := hl_now st; hl_phase := phase; hl_rounds := rounds_after st phase interval_duration |}.

Definition any_answer B (e : effect B) (b : B) : Prop := True.

(** Reloads change the configuration between any two steps. *)
Definition reloading_step (st st' : HealthLoop) : Prop :=
  exists interval_duration pools, loop_step any_answer interval_duration pools st st'.

Definition loop_start (now : Instant) : HealthLoop := {| hl_now := now; hl_phase := Top; hl_rounds := [] |}.

(** ** Rounds are an interval apart *)
Definition spaced (rounds : list (Instant * Z)) : Prop :=
  forall i s1 d1 s2 d2, rounds !! i = Some (s1, d1) -> rounds !! S i = Some (s2, d2) -> s1 + from_secs d1 <= s2.

Definition tick_of (phase : HealthPhase) : option Instant :=
  match phase with Starting t | Checking t _ | Ticking t => Some t | _ => None end.

(** The timer of the current round fires an interval after its start; between
    rounds that moment has passed. *)
Definition loop_inv (st : HealthLoop) : Prop :=
  spaced (hl_rounds st) /\
  forall start d, last (hl_rounds st) = Some (start, d) ->
    match tick_of (hl_phase st) with Some t => t = start + from_secs d | None => start + from_secs d <= hl_now st end.

Lemma spaced_snoc rounds start d :
  spaced rounds -> (forall s' d', last rounds = Some (s', d') -> s' + from_secs d' <= start) ->
  spaced (rounds ++ [(start, d)]).
Proof.
  intros Hs Hl i s1 d1 s2 d2 H1 H2. destruct (decide (S i < length rounds)%nat) as [Hlt|Hge].
  - rewrite lookup_app_l in H1, H2 by lia. by eapply Hs.
  - apply lookup_app_Some in H2 as [H2%lookup_lt_Some|[_ H2]]; [lia|].
    apply list_lookup_singleton_Some in H2 as [Hi [= <- <-]].
    apply (Hl s1 d1). rewrite last_lookup. replace (pred (length rounds)) with i by lia.
    by rewrite lookup_app_l in H1 by lia.
Qed.

Lemma loop_step_inv st st' : reloading_step st st' -> loop_inv st -> loop_inv st'.
Proof.
  intros (d & pools & Hstep) [Hs Hl]. destruct Hstep as [st now Hn|st t checks i B e k b Hp Hi _|st phase Ha]; simpl.
  - split; [done|]. simpl. intros start d' Hlast. specialize (Hl _ _ Hlast). destruct (tick_of _); [done|lia].
  - split; [done|]. simpl. intros start d' Hlast. specialize (Hl _ _ Hlast). by rewrite Hp in Hl.
  - unfold health_advance in Ha. destruct (hl_phase st) as [|t|t|t checks|t]; simpl in Hl.
    + case_decide; injection Ha as <-; [done|]. split; [by apply spaced_snoc|]. simpl. intros start d'.
      rewrite last_snoc. by intros [= <- <-].
    + case_decide; [|done]. injection Ha as <-. done.
    + injection Ha as <-. done.
    + destruct (existsb is_crashed checks); [done|]. destruct (forallb is_returned checks); [|done]. injection Ha as <-. done.
    + case_decide as Ht; [|done]. injection Ha as <-. split; [done|]. simpl. intros start d' Hlast.
      specialize (Hl _ _ Hlast). lia.
Qed.

(** C20: Whatever the checks answer, however long they take, and whatever reloads change
    between and during rounds: a round starts at least its predecessor's interval after
    its predecessor started, and no round starts while the configured interval is zero. *)
Theorem health_rounds_spaced now st :
  rtc reloading_step (loop_start now) st ->
  spaced (hl_rounds st) /\ Forall (fun round => round.2 <> 0) (hl_rounds st).
Proof.
  intros Hr.
  assert (loop_inv st /\ Forall (fun round => round.2 <> 0) (hl_rounds st)) as [[? _] ?]; [|done].
  revert Hr. apply (rtc_ind_r (fun st => loop_inv st /\ Forall (fun round => round.2 <> 0) (hl_rounds st))).
  - split; [|constructor]. split; [by intros i s1 d1 s2 d2 H|done].
  - intros s1 s2 _ Hstep [Hinv Hnz]. split; [by eapply loop_step_inv|].
    destruct Hstep as (d & pools & Hstep). destruct Hstep as [| |st' phase Ha]; [done..|]. simpl. unfold rounds_after.
    destruct phase; try done. apply Forall_app. split; [done|]. constructor; [|constructor]. simpl.
    unfold health_advance in Ha. destruct (hl_phase st'); [by case_decide|by case_all..].
Qed.

(** ** The loop goes on *)

(** The clock behind [SystemTime] does not go back during a check, and a check takes
    less than 2^63 milliseconds. *)
Definition steady_clock B (e : effect B) (b : B) : Prop :=
  match e in effect B return B -> Prop with
  | ElapsedMillis => fun b => exists time, b = Ok time /\ time <= i64_max
  | _ => fun _ => True
  end b.

Definition steady_answer {B} (e : effect B) : B :=
  match e in effect B return B with ElapsedMillis => Ok 0 | e => effect_default e end.

Lemma steady_answer_ok B (e : effect B) : steady_clock B e (steady_answer e).
Proof. destruct e; try done. by exists 0. Qed.

(** A program that does not panic whatever steady answers it gets. *)
Fixpoint never_panics {A} (p : handler A) : Prop :=
  match p with
  | Ret _ => True
  | Crash => False
  | @Vis _ _ B e k => forall b, steady_clock B e b -> never_panics (k b)
  end.

Lemma never_panics_bind {A C} (p : handler A) (f : A -> handler C) :
  never_panics p -> (forall a, never_panics (f a)) -> never_panics (prog_bind p f).
Proof. intros Hp Hf. induction p as [a| |B e k IH]; simpl in *; [apply Hf|done|auto]. Qed.

(** The addresses and the path of a pool make URIs. *)
Definition checkable (p : BackendPool) : Prop :=
  Forall (fun address => exists uri, health_uri address.1 (health_path (health_config p)) = Returned uri) (addresses p).

Lemma check_never_panics address c config uri :
  health_uri address (health_path config) = Returned uri -> never_panics (check_server_health_once address c config).
Proof.
  intros Hu. unfold check_server_health_once. rewrite Hu. simpl. intros previous _ answer _.
  apply never_panics_bind; [|intros verdict; by case_decide].
  destruct answer as [status|]; [|done]. destruct (is_success status); [|done]. simpl.
  intros elapsed (time & -> & Ht). simpl. unfold i64_try_from. by rewrite decide_True.
Qed.

Lemma round_never_panics pools : Forall checkable pools -> Forall never_panics (health_round pools).
Proof.
  intros Hp. apply Forall_forall. rewrite Forall_forall in Hp. intros c Hc.
  unfold health_round in Hc. apply list_elem_of_bind in Hc as (p & Hc & Hin).
  apply elem_of_lookup_imap in Hc as (i & a & -> & Ha). specialize (Hp p Hin).
  unfold checkable in Hp. rewrite Forall_lookup in Hp. destruct (Hp i a Ha) as [uri Hu]. by eapply check_never_panics.
Qed.

(** Steps with a steady clock, under checkable configurations that reloads change. *)
Definition steady_step (st st' : HealthLoop) : Prop :=
  exists interval_duration pools, Forall checkable pools /\ loop_step steady_clock interval_duration pools st st'.

Definition checks_ok (st : HealthLoop) : Prop :=
  match hl_phase st with Checking _ checks => Forall never_panics checks | _ => True end.

Lemma steady_step_ok st st' : steady_step st st' -> checks_ok st -> checks_ok st'.
Proof.
  intros (d & pools & Hpools & Hstep) Hst. destruct Hstep as [st now Hn|st t checks i B e k b Hp Hi Hb|st phase Ha].
  - exact Hst.
  - unfold checks_ok in *. rewrite Hp in Hst. simpl. apply Forall_insert; [done|].
    rewrite Forall_lookup in Hst. by apply (Hst _ _ Hi).
  - unfold health_advance in Ha. unfold checks_ok in *. simpl.
    destruct (hl_phase st); repeat case_decide; simplify_eq/=; try done; [by apply round_never_panics|].
    destruct (existsb _ _); [done|]. destruct (forallb _ _); [|done]. by injection Ha as <-.
Qed.

Section Progress.
Context (interval_duration : Z) (pools : list BackendPool).

Abbreviation step := (loop_step steady_clock interval_duration pools).

(** The checks get answers one after the other. *)
Lemma drive_check now rounds t checks i c :
  checks !! i = Some c -> never_panics c ->
  rtc step {| hl_now := now; hl_phase := Checking t checks; hl_rounds := rounds |}
    {| hl_now := now; hl_phase := Checking t (<[i := Ret tt]> checks); hl_rounds := rounds |}.
Proof.
  revert checks. induction c as [[]| |B e k IH]; intros checks Hi Hc; [by rewrite list_insert_id|done|].
  set (b := steady_answer e).
  eapply rtc_l; [apply (loop_check _ _ _ {| hl_now := now; hl_phase := Checking t checks; hl_rounds := rounds |}
    t checks i B e k b); [done..|apply steady_answer_ok]|].
  simpl. assert (<[i := Ret tt]> checks = <[i := Ret tt]> (<[i := k b]> checks)) as -> by (by rewrite list_insert_insert_eq).
  apply (IH b).
  - apply list_lookup_insert_eq. by eapply lookup_lt_Some.
  - apply Hc, steady_answer_ok.
Qed.

Lemma drive_checks now rounds t over checks :
  Forall never_panics checks ->
  rtc step {| hl_now := now; hl_phase := Checking t (over ++ checks); hl_rounds := rounds |}
    {| hl_now := now; hl_phase := Checking t (over ++ replicate (length checks) (Ret tt)); hl_rounds := rounds |}.
Proof.
  revert over. induction checks as [|c checks IH]; intros over Hall; [done|].
  apply Forall_cons in Hall as [Hc Hall].
  etrans; [apply (drive_check _ _ _ _ (length over) c); [by apply list_lookup_middle|done]|].
  rewrite insert_app_r_alt, Nat.sub_diag by done. simpl.
  specialize (IH (over ++ [Ret tt]) Hall). by rewrite <-!app_assoc in IH.
Qed.

(** When time passes, the waits end. *)
Lemma wait_over now rounds t phase :
  phase = Sleeping t \/ phase = Ticking t ->
  exists now', now <= now' /\ rtc step {| hl_now := now; hl_phase := phase; hl_rounds := rounds |}
    {| hl_now := now'; hl_phase := Top; hl_rounds := rounds |}.
Proof.
  intros Hp.
  assert (forall now', t <= now' -> step {| hl_now := now'; hl_phase := phase; hl_rounds := rounds |}
    {| hl_now := now'; hl_phase := Top; hl_rounds := rounds |}) as Hgo.
  { intros now' Ht. apply (loop_advance _ _ _ {| hl_now := now'; hl_phase := phase; hl_rounds := rounds |} Top).
    by destruct Hp as [-> | ->]; simpl; rewrite decide_True. }
  destruct (decide (t <= now)) as [Ht|Ht].
  - exists now. split; [lia|]. by apply rtc_once, Hgo.
  - exists t. split; [lia|]. eapply rtc_l; [apply (loop_clock _ _ _ _ t); simpl; lia|]. by apply rtc_once, Hgo.
Qed.

Lemma checking_over now rounds t checks :
  Forall never_panics checks ->
  exists now', now <= now' /\ rtc step {| hl_now := now; hl_phase := Checking t checks; hl_rounds := rounds |}
    {| hl_now := now'; hl_phase := Top; hl_rounds := rounds |}.
Proof.
  intros Hall. destruct (wait_over now rounds t (Ticking t)) as (now' & Hle & Hr); [by right|].
  exists now'. split; [done|]. etrans; [apply (drive_checks now rounds t [] checks Hall)|]. eapply rtc_l; [|exact Hr].
  simpl. set (returned := replicate _ _).
  assert (existsb is_crashed returned = false /\ forallb is_returned returned = true) as [Hcr Hret].
  { subst returned. by induction (length checks). }
  apply (loop_advance _ _ _ {| hl_now := now; hl_phase := Checking t returned; hl_rounds := rounds |} (Ticking t)).
  simpl. by rewrite Hcr, Hret.
Qed.

Lemma loop_returns_to_top st :
  checks_ok st -> Forall checkable pools ->
  exists now, hl_now st <= now /\ rtc step st {| hl_now := now; hl_phase := Top; hl_rounds := hl_rounds st |}.
Proof.
  intros Hst Hpools. destruct st as [now phase rounds]. unfold checks_ok in Hst. simpl in *.
  destruct phase as [|t|t|t checks|t].
  - exists now. split; [lia|done].
  - eapply wait_over. by left.
  - destruct (checking_over now rounds t (health_round pools)) as (now' & Hle & Hr); [by apply round_never_panics|].
    exists now'. split; [done|]. eapply rtc_l; [|exact Hr].
    by apply (loop_advance _ _ _ {| hl_now := now; hl_phase := Starting t; hl_rounds := rounds |} (Checking t (health_round pools))).
  - by apply checking_over.
  - eapply wait_over. by right.
Qed.

(** C21: The loop of the health checks goes on.  As long as the addresses and paths of
    the configured pools make URIs and the clock is steady, whatever the backends answer
    and whatever reloads change: no check and hence no round ever panics; and from every
    state that is reached, once the checks have their answers and time passes, the loop
    starts another round, with the checks of all pools of the configuration then in
    force, provided that its interval is not zero. *)
Theorem health_loop_continues start st :
  rtc steady_step (loop_start start) st ->
  (forall d ps, health_advance (hl_now st) d ps (hl_phase st) <> Panic) /\
  (interval_duration <> 0 -> Forall checkable pools ->
   exists now st', hl_now st <= now /\ rtc step st st' /\
     hl_rounds st' = hl_rounds st ++ [(now, interval_duration)] /\
     hl_phase st' = Checking (now + from_secs interval_duration) (health_round pools)).
Proof.
  intros Hr. assert (checks_ok st) as Hst.
  { revert Hr. apply (rtc_ind_r checks_ok); [done|]. intros s1 s2 _. apply steady_step_ok. }
  split.
  - intros d ps. unfold checks_ok in Hst. unfold health_advance.
    destruct (hl_phase st) as [| | |t checks|]; [by case_decide|done|done| |done].
    destruct (existsb is_crashed checks) eqn:Hc; [|done]. apply existsb_exists in Hc as (c & Hin%list_elem_of_In & Hcr).
    rewrite Forall_forall in Hst. specialize (Hst c Hin). by destruct c.
  - intros Hd Hpools. destruct (loop_returns_to_top st Hst Hpools) as (now & Hle & Htop).
    exists now, {| hl_now := now; hl_phase := Checking (now + from_secs interval_duration) (health_round pools);
                   hl_rounds := hl_rounds st ++ [(now, interval_duration)] |}.
    split; [done|]. split; [|done]. etrans; [exact Htop|].
    eapply rtc_l; [apply (loop_advance _ _ _ {| hl_now := now; hl_phase := Top; hl_rounds := hl_rounds st |}
      (Starting (now + from_secs interval_duration))); simpl; by rewrite decide_False|].
    eapply rtc_once. simpl.
    by apply (loop_advance _ _ _ {| hl_now := now; hl_phase := Starting (now + from_secs interval_duration);
                                    hl_rounds := hl_rounds st ++ [(now, interval_duration)] |}
      (Checking (now + from_secs interval_duration) (health_round pools))).
Qed.

End Progress.
End HealthLoop.

(** ** Witnesses *)
#[local] Existing Instance http_model.
#[local] Existing Instance sample_regex.

(** Two rounds 10 seconds apart, over no pools. *)
Definition two_rounds : HealthLoop :=
  {| hl_now := 10000000000; hl_phase := Starting 20000000000; hl_rounds := [(0, 10); (10000000000, 10)] |}.

Lemma two_rounds_reachable : rtc reloading_step (loop_start 0) two_rounds.
Proof.
  assert (forall now phase rounds phase', health_advance now 10 [] phase = Returned (Some phase') ->
    reloading_step {| hl_now := now; hl_phase := phase; hl_rounds := rounds |}
      {| hl_now := now; hl_phase := phase';
         hl_rounds := rounds_after {| hl_now := now; hl_phase := phase; hl_rounds := rounds |} phase' 10 |}) as Ha.
  { intros now phase rounds phase' Hp. exists 10, []. by apply (loop_advance any_answer 10 [] {| hl_now := now; hl_phase := phase; hl_rounds := rounds |}). }
  eapply rtc_l; [by apply Ha|]. eapply rtc_l; [by apply Ha|]. eapply rtc_l; [by apply Ha|].
  eapply rtc_l; [exists 10, []; apply (loop_clock _ _ _ _ 10000000000); simpl; lia|].
  eapply rtc_l; [by apply Ha|]. eapply rtc_once. by apply (Ha 10000000000 Top [(0, 10)]).
Qed.

Lemma health_rounds_spaced_witness : 0 + from_secs 10 <= 10000000000.
Proof.
  destruct (health_rounds_spaced 0 two_rounds two_rounds_reachable) as [Hs _].
  exact (Hs 0%nat 0 10 10000000000 10 eq_refl eq_refl).
Defined.

Lemma sample_pool_checkable : checkable sample_pool.
Proof. repeat constructor; eexists; reflexivity. Qed.

Lemma health_loop_continues_witness :
  exists now st', rtc (loop_step steady_clock 10 [sample_pool]) (loop_start 0) st' /\ hl_rounds st' = [(now, 10)] /\
    hl_phase st' = Checking (now + from_secs 10) (health_round [sample_pool]).
Proof.
  destruct (health_loop_continues 10 [sample_pool] 0 (loop_start 0) (rtc_refl _ _)) as [_ Hgo].
  destruct Hgo as (now & st' & _ & Hr & Hrounds & Hp);
    [discriminate|constructor; [exact sample_pool_checkable|constructor]|].
  exists now, st'. split; [exact Hr|]. split; [exact Hrounds|exact Hp].
Defined.

Example display_slow : healthiness_to_string (Slow 400) = "Slow 400".
Proof. reflexivity. Qed.
