(* ===== verification/Acme.v ===== *)
(** * ACME challenges: [acme.rs]

    The handler's open challenges, the answer to challenge requests, and the
    dialogue with the worker thread that talks to the ACME server through
    [acme_lib]. *)
From S2P Require Import Prelude RustStd Http HttpModel LoadBalancing.

Local Open Scope Z_scope.

(** ** The open challenges *)
Record OpenChallenge := { token : string; proof : string }.

(** The vector behind the mutex; no critical section can panic. *)
Record AcmeHandler := { challenges : list OpenChallenge }.

Definition acme_handler_new : AcmeHandler := {| challenges := [] |}.

Definition add_challenge (self : AcmeHandler) (t p : string) : AcmeHandler :=
  {| challenges := challenges self ++ [{| token := t; proof := p |}] |}.

Definition get_proof_for_challenge (self : AcmeHandler) (t : string) : option string :=
  proof <$> iter_find (fun c => bool_decide (token c = t)) (challenges self).

Definition remove_challenge (self : AcmeHandler) (t : string) : AcmeHandler :=
  match position (fun c => bool_decide (token c = t)) (challenges self) with
  | Some i => {| challenges := delete i (challenges self) |}
  | None => self
  end.

(** ** Requests *)
Section Requests.
Context `{HT : Http}.

Definition challenge_prefix : string := "/.well-known/acme-challenge/".

Definition is_challenge (request : Request) : bool :=
  str_starts_with (uri_path (req_uri request)) challenge_prefix.

Definition respond_to_challenge (self : AcmeHandler) (request : Request) : option Response :=
  if negb (is_challenge request) then None
  else Some (match last (str_split "/"%char (uri_path (req_uri request))) with
             | None => bad_request "Unable to extract token from last path param!"
             | Some t =>
                 match get_proof_for_challenge self t with
                 | None => not_found
                 | Some proof => respond 200 (Body_from proof)
                 end
             end).

End Requests.

(** ** The worker thread *)
Section Worker.
Context {Certificate Error : Type} (valid_days_left : Certificate -> Z).
(** [acme_lib::Error::Other]. *)
Context (other_error : string -> Error).

(** What the ACME server answers to an order, call by call: [confirm_validations]
    finds all validations done, and the order ends with [finalize_pkey] and
    [download_and_save_cert]; or there are authorizations left (token and proof of the
    HTTP challenge of each), the first one's challenge is validated and the order refreshed. *)
Inductive AcmeOrder : Type :=
| Confirmed (finalize_pkey : result unit Error) (download_and_save_cert : result Certificate Error)
| Challenged (authorizations : result (list (string * string)) Error)
    (validate refresh : result unit Error) (refreshed : AcmeOrder).

(** A message on the channel. *)
Inductive message : Type :=
| Left (token proof : string)
| Right (cert : result Certificate Error).

(** Where the worker thread is: at the top of the loop of
    [generate_and_validate_challenge], before [cs.send], in [chall.validate], in
    [ord_new.refresh]; back in the closure of [start_challenge_handler], before
    it sends the result; or gone, by then or by a panic, and with it its sender. *)
Inductive Worker : Type :=
| Looping (ord_new : AcmeOrder)
| Sending (token proof : string) (validate refresh : result unit Error) (refreshed : AcmeOrder)
| Validating (token proof : string) (validate refresh : result unit Error) (refreshed : AcmeOrder)
| Refreshing (refresh : result unit Error) (refreshed : AcmeOrder)
| Reporting (result : result Certificate Error)
| Exited.

(** [generate_and_validate_challenge] up to the next call, and what it sends.  A send
    fails when the receiver is gone. *)
Definition generate_and_validate_challenge (receiver_gone : bool) (worker : Worker) : option (Worker * list message) :=
  match worker with
  | Looping (Confirmed finalize_pkey download_and_save_cert) =>
      Some (Reporting (let? _ := finalize_pkey in download_and_save_cert), [])
  | Looping (Challenged (Err e) _ _ _) => Some (Reporting (Err e), [])
  | Looping (Challenged (Ok auths) validate refresh refreshed) =>
      match index auths 0 with
      | Panic => Some (Exited, [])
      | Returned (token, proof) => Some (Sending token proof validate refresh refreshed, [])
      end
  | Sending token proof validate refresh refreshed =>
      if receiver_gone then Some (Reporting (Err (other_error "channel closed")), [])
      else Some (Validating token proof validate refresh refreshed, [Left token proof])
  | Validating _ _ (Err e) _ _ => Some (Reporting (Err e), [])
  | Validating _ _ (Ok _) refresh refreshed => Some (Refreshing refresh refreshed, [])
  | Refreshing (Err e) _ => Some (Reporting (Err e), [])
  | Refreshing (Ok _) refreshed => Some (Looping refreshed, [])
  | Reporting _ | Exited => None
  end.

(** The thread of [start_challenge_handler]: the loop, then its result; whether that
    arrives does not matter to it. *)
Definition start_challenge_handler (receiver_gone : bool) (worker : Worker) : option (Worker * list message) :=
  match worker with
  | Reporting result => Some (Exited, if receiver_gone then [] else [Right result])
  | _ => generate_and_validate_challenge receiver_gone worker
  end.

(** ** [initiate_challenge]: the loop over the messages *)

(** Where the task is: in [cr.recv()], the first one or the one after a challenge was
    added; at the [match] on what it received; or done. *)
Inductive Receiver : Type :=
| Receiving (added : option string)
| Matching (result : message)
| Finished (o : outcome (result Certificate Error)).

(** The two sides of the dialogue, the channel between them and the challenges that
    requests see. *)
Record Dialogue := {
  d_worker : Worker;
  d_channel : list message;
  d_receiver : Receiver;
  d_handler : AcmeHandler;
}.

Definition dialogue_start (self : AcmeHandler) (ord_new : AcmeOrder) : Dialogue :=
  {| d_worker := Looping ord_new; d_channel := []; d_receiver := Receiving None; d_handler := self |}.

Definition is_finished (r : Receiver) : bool := match r with Finished _ => true | _ => false end.

Definition worker_next (d : Dialogue) : option Dialogue :=
  '(worker, sent) ← start_challenge_handler (is_finished (d_receiver d)) (d_worker d);
  Some {| d_worker := worker; d_channel := d_channel d ++ sent; d_receiver := d_receiver d;
          d_handler := d_handler d |}.

(** [recv] gives [None] when the channel is empty and the sender is gone, and the
    [unwrap] panics. *)
Definition challenge_loop (d : Dialogue) : option Dialogue :=
  match d_receiver d, d_channel d with
  | Receiving added, result :: channel =>
      Some {| d_worker := d_worker d; d_channel := channel; d_receiver := Matching result;
              d_handler := match added with
                           | Some token => remove_challenge (d_handler d) token
                           | None => d_handler d
                           end |}
  | Receiving _, [] =>
      match d_worker d with
      | Exited => Some {| d_worker := Exited; d_channel := []; d_receiver := Finished Panic; d_handler := d_handler d |}
      | _ => None
      end
  | Matching (Left token proof), _ =>
      Some {| d_worker := d_worker d; d_channel := d_channel d; d_receiver := Receiving (Some token);
              d_handler := add_challenge (d_handler d) token proof |}
  | Matching (Right cert), _ =>
      Some {| d_worker := d_worker d; d_channel := d_channel d; d_receiver := Finished (Returned cert);
              d_handler := d_handler d |}
  | Finished _, _ => None
  end.

(** Thread and task run concurrently. *)
Inductive dialogue_step : Dialogue -> Dialogue -> Prop :=
| step_worker d d' : worker_next d = Some d' -> dialogue_step d d'
| step_receiver d d' : challenge_loop d = Some d' -> dialogue_step d d'.

(** One schedule: the task goes first. *)
Definition dialogue_next (d : Dialogue) : option Dialogue :=
  match challenge_loop d with Some d' => Some d' | None => worker_next d end.

Fixpoint run_dialogue (n : nat) (d : Dialogue) : Dialogue :=
  match n with
  | O => d
  | S n => match dialogue_next d with Some d' => run_dialogue n d' | None => d end
  end.

(** Enough steps for any schedule (lemma [dialogue_bounded]). *)
Fixpoint order_steps (ord : AcmeOrder) : nat :=
  match ord with Confirmed _ _ => 2 | Challenged _ _ _ refreshed => 4 + order_steps refreshed end.

Definition dialogue_budget (ord : AcmeOrder) : nat := 3 * order_steps ord + 1.

(** The answers of the file system and of [acme_lib] before the challenge. *)
Record AcmeSession := {
  create_dir_all : result unit string;
  directory_from_url : bool -> result unit Error;
  account : result unit Error;
  certificate : result (option Certificate) Error;
  new_order : result AcmeOrder Error;
}.

Definition initiate_challenge (self : AcmeHandler) (staging : bool) (session : AcmeSession) :
  outcome (result Certificate Error) * AcmeHandler :=
  let order :=
    let? _ := map_err other_error (create_dir_all session) in
    let? _ := directory_from_url session staging in
    let? _ := account session in
    let? existing_cert := certificate session in
    match (cert ← existing_cert; if decide (0 < valid_days_left cert) then Some cert else None) with
    | Some cert => Ok (inl cert)
    | None => let? ord_new := new_order session in Ok (inr ord_new)
    end in
  match order with
  | Err e => (Returned (Err e), self)
  | Ok (inl cert) => (Returned (Ok cert), self)
  | Ok (inr ord_new) =>
      let d := run_dialogue (dialogue_budget ord_new) (dialogue_start self ord_new) in
      (match d_receiver d with Finished o => o | _ => Panic end, d_handler d)
  end.

(** ** The order as a sequence of messages *)

(** The challenges of an order, and its result, with the worker alone. *)
Fixpoint order_challenges (ord : AcmeOrder) : list (string * string) :=
  match ord with
  | Challenged (Ok (c :: _)) (Ok _) (Ok _) refreshed => c :: order_challenges refreshed
  | Challenged (Ok (c :: _)) _ _ _ => [c]
  | _ => []
  end.

Fixpoint order_result (ord : AcmeOrder) : outcome (result Certificate Error) :=
  match ord with
  | Confirmed finalize_pkey download => Returned (let? _ := finalize_pkey in download)
  | Challenged (Err e) _ _ _ => Returned (Err e)
  | Challenged (Ok []) _ _ _ => Panic
  | Challenged (Ok (_ :: _)) (Err e) _ _ => Returned (Err e)
  | Challenged (Ok (_ :: _)) (Ok _) (Err e) _ => Returned (Err e)
  | Challenged (Ok (_ :: _)) (Ok _) (Ok _) refreshed => order_result refreshed
  end.

Definition result_message (o : outcome (result Certificate Error)) : list message :=
  match o with Returned r => [Right r] | Panic => [] end.

Definition order_messages (ord : AcmeOrder) : list message :=
  (uncurry Left <$> order_challenges ord) ++ result_message (order_result ord).

Definition refresh_messages (refresh : result unit Error) (refreshed : AcmeOrder) : list message :=
  match refresh with Ok _ => order_messages refreshed | Err e => [Right (Err e)] end.

Definition validate_messages (validate refresh : result unit Error) (refreshed : AcmeOrder) : list message :=
  match validate with Ok _ => refresh_messages refresh refreshed | Err e => [Right (Err e)] end.

(** What the worker has still to send. *)
Definition worker_messages (w : Worker) : list message :=
  match w with
  | Looping ord => order_messages ord
  | Sending t p validate refresh refreshed => Left t p :: validate_messages validate refresh refreshed
  | Validating _ _ validate refresh refreshed => validate_messages validate refresh refreshed
  | Refreshing refresh refreshed => refresh_messages refresh refreshed
  | Reporting r => [Right r]
  | Exited => []
  end.

Lemma order_messages_challenged t p auths validate refresh refreshed :
  order_messages (Challenged (Ok ((t, p) :: auths)) validate refresh refreshed)
  = Left t p :: validate_messages validate refresh refreshed.
Proof. by destruct validate as [[]|e], refresh as [[]|e']. Qed.

(** While the receiver lives, a step of the worker moves its messages to the channel. *)
Lemma worker_sends w w' sent :
  start_challenge_handler false w = Some (w', sent) -> worker_messages w = sent ++ worker_messages w'.
Proof.
  destruct w as [[f d|[auths|e] v r next]|t p v r next|t p v r next|r next|r|]; simpl; try by intros [= <- <-].
  - destruct auths as [|[t p] auths]; simpl; intros [= <- <-]; [done|]. by rewrite order_messages_challenged.
  - destruct v as [[]|e]; by intros [= <- <-].
  - destruct r as [[]|e]; by intros [= <- <-].
Qed.

(** A worker with nothing left to send sends nothing. *)
Lemma worker_silent b w w' sent :
  worker_messages w = [] -> start_challenge_handler b w = Some (w', sent) -> sent = [] /\ worker_messages w' = [].
Proof.
  destruct w as [[f d|[auths|e] v r next]|t p v r next|t p v r next|r next|r|]; simpl; try done.
  - destruct auths as [|[t p] auths]; simpl; [by intros _ [= <- <-]|]. by rewrite order_messages_challenged.
  - destruct v as [[]|e]; [|done]. by intros Hm [= <- <-].
  - destruct r as [[]|e]; [|done]. by intros Hm [= <- <-].
Qed.

(** The result is the last message. *)
Lemma order_messages_right ord seen r rest :
  order_messages ord = seen ++ Right r :: rest -> order_result ord = Returned r /\ rest = [].
Proof.
  unfold order_messages. generalize (order_challenges ord) as cs. intros cs. revert seen.
  induction cs as [|[t p] cs IH]; intros seen; simpl.
  - destruct (order_result ord) as [r'|]; simpl; [|by destruct seen].
    destruct seen as [|m seen]; simpl; [by intros [= -> <-]|]. by destruct seen.
  - destruct seen as [|m seen]; simpl; [done|]. intros [= _ Heq]. by eapply IH.
Qed.

Lemma order_messages_left ord seen t p rest :
  order_messages ord = seen ++ Left t p :: rest -> (t, p) ∈ order_challenges ord.
Proof.
  intros Heq. assert (Left t p ∈ order_messages ord) as Hin by (rewrite Heq; set_solver).
  unfold order_messages in Hin. apply elem_of_app in Hin as [([t' p'] & [= -> ->] & Hin)%list_elem_of_fmap|Hin]; [done|].
  destruct (order_result ord); simpl in Hin; [by apply list_elem_of_singleton in Hin|by apply elem_of_nil in Hin].
Qed.

Lemma order_messages_no_right ord :
  (forall r, Right r ∉ order_messages ord) -> order_result ord = Panic.
Proof.
  unfold order_messages. destruct (order_result ord) as [r|]; [|done]. intros Hno. destruct (Hno r).
  apply elem_of_app. right. by left.
Qed.

(** ** Challenges during and after the dialogue *)
Definition fresh (self : AcmeHandler) (t : string) : Prop := t ∉ token <$> challenges self.

Lemma fresh_search self t : fresh self t -> Forall (fun c => bool_decide (token c = t) = false) (challenges self).
Proof.
  intros Hf. apply Forall_forall. intros c Hc. apply bool_decide_eq_false. intros <-. apply Hf.
  by apply list_elem_of_fmap_2.
Qed.

Lemma get_proof_add_fresh self t p :
  fresh self t -> get_proof_for_challenge (add_challenge self t p) t = Some p.
Proof.
  intros Hf. unfold get_proof_for_challenge. simpl.
  rewrite (proj2 (iter_find_Some _ _ {| token := t; proof := p |})); [done|].
  exists (challenges self), []. split; [done|]. split; [by apply bool_decide_eq_true|by apply fresh_search].
Qed.

Lemma get_proof_add_ne self t t' p :
  t <> t' -> get_proof_for_challenge (add_challenge self t p) t' = get_proof_for_challenge self t'.
Proof.
  intros Hne. unfold get_proof_for_challenge. simpl. f_equal.
  induction (challenges self) as [|c l IH]; simpl; [by rewrite bool_decide_eq_false_2|]. by rewrite IH.
Qed.

Lemma remove_add_fresh self t p : fresh self t -> remove_challenge (add_challenge self t p) t = self.
Proof.
  intros Hf%fresh_search. unfold remove_challenge, add_challenge. simpl.
  assert (position (fun c => bool_decide (token c = t)) (challenges self ++ [{| token := t; proof := p |}])
          = Some (length (challenges self))) as ->.
  { induction Hf as [|c l Hc Hl IH]; simpl; [by rewrite bool_decide_eq_true_2|]. by rewrite Hc, IH. }
  rewrite delete_middle, app_nil_r. by destruct self.
Qed.

Section Schedules.
Context (self : AcmeHandler) (ord : AcmeOrder).
Context (Hfresh : Forall (fun c => fresh self c.1) (order_challenges ord)).

(** What is still to be processed, in order. *)
Definition in_hand (r : Receiver) : list message := match r with Matching m => [m] | _ => [] end.

Definition pending (d : Dialogue) : list message :=
  in_hand (d_receiver d) ++ d_channel d ++ worker_messages (d_worker d).

(** The receiver works through the messages of the order; between two of them the
    challenges are the old ones and the one of the last message. *)
Definition dialogue_ok (d : Dialogue) : Prop :=
  match d_receiver d with
  | Receiving None => d_handler d = self /\ pending d = order_messages ord
  | Receiving (Some t) => exists p seen, d_handler d = add_challenge self t p /\
      order_messages ord = seen ++ Left t p :: pending d
  | Matching _ => d_handler d = self /\ exists seen, order_messages ord = seen ++ pending d
  | Finished (Returned r) => d_handler d = self /\ order_result ord = Returned r /\ pending d = []
  | Finished Panic => order_result ord = Panic /\ pending d = [] /\
      (d_handler d = self \/ exists t p, (t, p) ∈ order_challenges ord /\ d_handler d = add_challenge self t p)
  end.

Lemma challenge_fresh t p : (t, p) ∈ order_challenges ord -> fresh self t.
Proof. rewrite Forall_forall in Hfresh. apply (Hfresh (t, p)). Qed.

Lemma worker_next_ok d d' : worker_next d = Some d' -> dialogue_ok d -> dialogue_ok d'.
Proof.
  unfold worker_next. destruct (start_challenge_handler _ _) as [[w sent]|] eqn:E; [|done]. intros [= <-].
  assert (is_finished (d_receiver d) = false ->
    pending {| d_worker := w; d_channel := d_channel d ++ sent; d_receiver := d_receiver d; d_handler := d_handler d |}
    = pending d) as Hp.
  { intros Hf. rewrite Hf in E. apply worker_sends in E. unfold pending. simpl. by rewrite E, <-!app_assoc. }
  unfold dialogue_ok. simpl. destruct (d_receiver d) as [[t|]|m|[r|]] eqn:Er; simpl in *; rewrite ?Hp by done; [done..| |].
  all: assert (forall d0, d_receiver d0 = d_receiver d -> pending d = [] -> d_channel d0 = d_channel d ++ sent ->
    d_worker d0 = w -> pending d0 = []) as Hnil.
  1,3: unfold pending; intros d0 Hr Hd Hc Hw; rewrite Hr, Hc, Hw, Er in *; simpl in *;
       apply app_nil in Hd as [Hd1 Hd2]; rewrite Hd1; destruct (worker_silent true _ _ _ Hd2 E) as [-> ->]; done.
  - intros (-> & -> & Hd). split_and!; [done..|]. by apply Hnil.
  - intros (-> & Hd & Hh). split_and!; [done| |done]. by apply Hnil.
Qed.

Lemma challenge_loop_ok d d' : challenge_loop d = Some d' -> dialogue_ok d -> dialogue_ok d'.
Proof.
  destruct d as [w ch rec h]. unfold challenge_loop, dialogue_ok, pending. simpl.
  destruct rec as [added|[t p|cert]|o]; simpl; [|intros [= <-]; simpl..|done].
  - destruct ch as [|m ch].
    + destruct w; try done. intros [= <-]. simpl. destruct added as [t|].
      * intros (p & seen & -> & Heq). split; [|split; [done|right]].
        -- apply order_messages_no_right. intros r Hin. rewrite Heq in Hin.
           apply elem_of_app in Hin as [Hin|Hin]; [|by apply list_elem_of_singleton in Hin].
           apply list_elem_of_split in Hin as (s1 & s2 & ->). rewrite <-app_assoc in Heq.
           by apply order_messages_right in Heq as [_ ?%app_nil]; naive_solver.
        -- exists t, p. split; [|done]. by eapply order_messages_left.
      * intros [-> Heq]. split; [|auto]. apply order_messages_no_right. intros r. rewrite <-Heq. apply not_elem_of_nil.
    + intros [= <-]. simpl. destruct added as [t|]; [|intros [-> Heq]; split; [done|]; by exists []].
      intros (p & seen & -> & Heq). split.
      * apply remove_add_fresh. by eapply challenge_fresh, order_messages_left.
      * exists (seen ++ [Left t p]). by rewrite <-app_assoc.
  - intros [-> [seen Heq]]. exists p, seen. done.
  - intros [-> [seen Heq]]. split; [done|]. by apply order_messages_right in Heq.
Qed.

Lemma dialogue_reachable_ok d : rtc dialogue_step (dialogue_start self ord) d -> dialogue_ok d.
Proof.
  apply (rtc_ind_r dialogue_ok); [done|].
  intros d1 d2 _ [? ? Hn|? ? Hn] Hok; [by eapply worker_next_ok|by eapply challenge_loop_ok].
Qed.

(** ** Every schedule ends *)
Definition worker_steps (w : Worker) : nat :=
  match w with
  | Looping ord => order_steps ord
  | Sending _ _ _ _ next => 3 + order_steps next
  | Validating _ _ _ _ next => 2 + order_steps next
  | Refreshing _ next => 1 + order_steps next
  | Reporting _ => 1
  | Exited => 0
  end.

Definition measure (d : Dialogue) : nat :=
  3 * worker_steps (d_worker d) + 2 * length (d_channel d) +
  match d_receiver d with Receiving _ => 1 | Matching _ => 2 | Finished _ => 0 end.

Lemma order_steps_pos o : (2 <= order_steps o)%nat.
Proof. destruct o; simpl; lia. Qed.

Lemma dialogue_step_measure d d' : dialogue_step d d' -> (measure d' < measure d)%nat.
Proof.
  destruct 1 as [d d' Hn|d d' Hn]; destruct d as [w ch rec h]; unfold measure.
  - unfold worker_next in Hn. simpl in Hn. destruct (start_challenge_handler _ w) as [[w' sent]|] eqn:E; [|done].
    injection Hn as <-. simpl. rewrite length_app.
    assert (length sent <= 1 /\ S (worker_steps w') <= worker_steps w)%nat; [|lia].
    destruct w as [[f d|[auths|e] v r next]|t p v r next|t p v r next|r next|r|]; simpl in E;
      try pose proof (order_steps_pos next); repeat case_match; simplify_eq/=; lia.
  - unfold challenge_loop in Hn. simpl in Hn. repeat case_match; simplify_eq/=; lia.
Qed.

Lemma dialogue_bounded n d d' : nsteps dialogue_step n d d' -> (n + measure d' <= measure d)%nat.
Proof. induction 1 as [|n d1 d2 d3 Hs%dialogue_step_measure _ IH]; simpl; lia. Qed.

Lemma dialogue_progress d : is_finished (d_receiver d) = false -> is_Some (dialogue_next d).
Proof.
  destruct d as [w ch rec h]. unfold dialogue_next, challenge_loop, worker_next. simpl.
  destruct rec as [added|[t p|cert]|o]; try done; [|eauto..]. intros _. destruct ch as [|m ch]; [|eauto].
  destruct w as [[f d|[[|[t p] auths]|e] v r next]|t p v r next|t p [[]|e] r next|[[]|e] next|r|]; simpl; eauto.
Qed.

Lemma dialogue_next_step d d' : dialogue_next d = Some d' -> dialogue_step d d'.
Proof.
  unfold dialogue_next. destruct (challenge_loop d) eqn:E; [intros [= <-]; by apply step_receiver|by apply step_worker].
Qed.

Lemma run_dialogue_ends n d :
  (measure d <= n)%nat -> rtc dialogue_step d (run_dialogue n d) /\ is_finished (d_receiver (run_dialogue n d)) = true.
Proof.
  revert d. induction n as [|n IH]; intros d Hn; simpl.
  - split; [done|]. destruct (is_finished (d_receiver d)) eqn:E; [done|].
    destruct (dialogue_progress d E) as [d' Hs%dialogue_next_step%dialogue_step_measure]. lia.
  - destruct (dialogue_next d) as [d'|] eqn:E.
    + apply dialogue_next_step in E. pose proof (dialogue_step_measure _ _ E). destruct (IH d') as [Hr Hf]; [lia|].
      split; [by eapply rtc_l|done].
    + split; [done|]. destruct (is_finished (d_receiver d)) eqn:Ef; [done|].
      by destruct (dialogue_progress d Ef) as [d' ?]; congruence.
Qed.

(** C28: The dialogue between the task of [initiate_challenge] and its worker thread, for
    an order whose tokens are not those of open challenges, under every schedule of the
    two: it ends after a bounded number of steps and never gets
    stuck before; the task returns exactly the result of the order with the ACME server, and the open
    challenges are again those from before; it panics only if the worker panicked, on an
    order without authorizations. *)
Theorem acme_dialogue_ends n d :
  nsteps dialogue_step n (dialogue_start self ord) d ->
  (n <= dialogue_budget ord)%nat /\
  match d_receiver d with
  | Finished o => o = order_result ord /\ (o <> Panic -> d_handler d = self)
  | _ => exists d', dialogue_step d d'
  end.
Proof.
  intros Hn. split; [apply dialogue_bounded in Hn; unfold measure, dialogue_budget in *; simpl in *; lia|].
  apply rtc_nsteps_2, dialogue_reachable_ok in Hn. unfold dialogue_ok in Hn.
  destruct (d_receiver d) as [added|m|[r|]] eqn:Er.
  1,2: destruct (dialogue_progress d) as [d' Hs%dialogue_next_step]; [by rewrite Er|eauto].
  - by destruct Hn as (-> & -> & _).
  - by destruct Hn as (-> & _).
Qed.

(** ** Proofs are served while the server validates *)
Definition receiver_step (d d' : Dialogue) : Prop := challenge_loop d = Some d'.

(** The challenge under validation is open, or it is the last one on its way there. *)
Definition proof_ahead (t p : string) (d : Dialogue) : Prop :=
  last (in_hand (d_receiver d) ++ d_channel d) = Some (Left t p) \/
  (d_channel d = [] /\ d_receiver d = Receiving (Some t) /\ d_handler d = add_challenge self t p).

Definition validation_ok (d : Dialogue) : Prop :=
  match d_worker d with Validating t p _ _ _ => proof_ahead t p d | _ => True end.

Lemma challenge_loop_ahead t p d d' :
  challenge_loop d = Some d' -> d_worker d <> Exited -> dialogue_ok d -> proof_ahead t p d -> proof_ahead t p d'.
Proof.
  destruct d as [w ch rec h]. unfold challenge_loop, dialogue_ok, proof_ahead. simpl.
  destruct rec as [added|[t' p'|cert]|o]; simpl; [|intros [= <-] Hw; simpl..|done].
  - destruct ch as [|m ch]; [by destruct w|]. intros [= <-] _ _ [Hl|(? & _)]; [by left|done].
  - intros [-> _] [Hl|(_ & ? & _)]; [|done]. destruct ch as [|m ch]; [|by left]. injection Hl as -> ->. by right.
  - intros [-> [seen Heq]] [Hl|(_ & ? & _)]; [|done].
    apply order_messages_right in Heq as [_ [Hnil _]%app_nil]. simpl in Hnil. by subst ch.
Qed.

Lemma dialogue_reachable_validation d :
  rtc dialogue_step (dialogue_start self ord) d -> validation_ok d.
Proof.
  intros Hr. assert (dialogue_ok d /\ validation_ok d) as [_ ?]; [|done]. revert Hr.
  apply (rtc_ind_r (fun d => dialogue_ok d /\ validation_ok d)); [done|].
  intros d1 d2 _ [d1' d2' Hn|d1' d2' Hn] [Hok Hv].
  - split; [by eapply worker_next_ok|]. unfold worker_next in Hn.
    destruct (start_challenge_handler _ _) as [[w sent]|] eqn:E; [|done]. injection Hn as <-.
    unfold validation_ok. simpl. destruct w as [| |t p v r next| | |]; try done. left. simpl.
    destruct (d_worker d1') as [[f d'|[[|[t' p'] auths]|e] v' r' next']|t' p' v' r' next'|t' p' [[]|e] r' next'|[[]|e] next'|r'|];
      simpl in E; try done.
    destruct (is_finished _); [done|]. injection E as -> -> -> -> -> <-. by rewrite app_assoc, last_snoc.
  - split; [by eapply challenge_loop_ok|]. unfold validation_ok in *.
    assert (d_worker d2' = d_worker d1') as Hw.
    { unfold challenge_loop in Hn. repeat case_match; by simplify_eq/=. }
    rewrite Hw. destruct (d_worker d1') eqn:Ew; try done. eapply challenge_loop_ahead; eauto. by rewrite Ew.
Qed.

(** Every proof that is served belongs to the order or was served before. *)
Lemma dialogue_serves d t p :
  dialogue_ok d -> get_proof_for_challenge (d_handler d) t = Some p ->
  get_proof_for_challenge self t = Some p \/ (t, p) ∈ order_challenges ord.
Proof.
  intros Hok Hg. assert (d_handler d = self \/
    exists t' p', (t', p') ∈ order_challenges ord /\ d_handler d = add_challenge self t' p') as [Hh|(t' & p' & Hin & Hh)].
  { unfold dialogue_ok in Hok. destruct (d_receiver d) as [[t'|]|m|[r|]]; [right|naive_solver..].
    destruct Hok as (p' & seen & Hh & Hm). exists t', p'. split; [by eapply order_messages_left|done]. }
  - rewrite Hh in Hg. by left.
  - rewrite Hh in Hg. destruct (decide (t' = t)) as [->|Hne]; [|rewrite get_proof_add_ne in Hg by done; by left].
    rewrite get_proof_add_fresh in Hg by (by eapply challenge_fresh). right. congruence.
Qed.

Lemma proof_ahead_opens t p d :
  d_worker d <> Exited -> dialogue_ok d -> proof_ahead t p d ->
  exists d', rtc receiver_step d d' /\ d_worker d' = d_worker d /\ d_handler d' = add_challenge self t p /\ fresh self t.
Proof.
  remember (measure d) as n eqn:En. revert d En. induction (lt_wf n) as [n _ IH]. intros d -> Hw Hok Hah.
  destruct (challenge_loop d) as [d1|] eqn:E.
  - assert (d_worker d1 = d_worker d) as Hw1.
    { unfold challenge_loop in E. repeat case_match; by simplify_eq/=. }
    destruct (IH (measure d1)) with (d := d1) as (d' & Hr & Hw' & Hh); [by eapply dialogue_step_measure, step_receiver|..].
    + done.
    + by rewrite Hw1.
    + by eapply challenge_loop_ok.
    + by eapply challenge_loop_ahead.
    + exists d'. split; [by eapply rtc_l|]. split; [congruence|done].
  - exists d. split; [done|]. split; [done|]. destruct Hah as [Hl|(_ & Hrec & Hh)].
    2:{ split; [done|]. unfold dialogue_ok in Hok. rewrite Hrec in Hok. destruct Hok as (p0 & seen & _ & Heq).
        by eapply challenge_fresh, order_messages_left. }
    exfalso.
    destruct d as [w [|m ch] [added|[t' p'|cert]|[r|]] h]; unfold challenge_loop in E; simpl in *; try done.
    all: unfold dialogue_ok, pending in Hok; simpl in Hok; naive_solver.
Qed.

(** C29: For an order whose tokens are not those of open challenges: while the ACME server
    validates a challenge, its proof is served to requests, or
    the task opens it by its own next steps, without waiting for the server: no reply of the
    worker or of the server is needed.  What is served besides is what was served before;
    and at no time is any other proof served than those of the order's challenges and
    those from before. *)
Theorem acme_proof_served d :
  rtc dialogue_step (dialogue_start self ord) d ->
  (forall t p validate refresh refreshed, d_worker d = Validating t p validate refresh refreshed ->
     exists d', rtc receiver_step d d' /\ d_worker d' = d_worker d /\
       get_proof_for_challenge (d_handler d') t = Some p /\
       forall t', t' <> t -> get_proof_for_challenge (d_handler d') t' = get_proof_for_challenge self t') /\
  (forall t p, get_proof_for_challenge (d_handler d) t = Some p ->
     get_proof_for_challenge self t = Some p \/ (t, p) ∈ order_challenges ord).
Proof.
  intros Hr. pose proof (dialogue_reachable_ok d Hr) as Hok. split; [|intros t p; by apply dialogue_serves].
  intros t p v r next Hw. pose proof (dialogue_reachable_validation d Hr) as Hv. unfold validation_ok in Hv. rewrite Hw in Hv.
  destruct (proof_ahead_opens t p d) as (d' & Hr' & Hw' & Hh & Hf); [by rewrite Hw|done..|].
  exists d'. split_and!; [done..| |]; rewrite Hh; [by apply get_proof_add_fresh|].
  intros t' Hne. by apply get_proof_add_ne.
Qed.

End Schedules.

(** The whole of [initiate_challenge]: an existing certificate that is still valid is
    returned, a failure before the order is returned, and an order ends with its
    result, after which the open challenges are those from before. *)
Lemma initiate_challenge_order self staging session ord :
  create_dir_all session = Ok tt -> directory_from_url session staging = Ok tt -> account session = Ok tt ->
  (certificate session = Ok None \/ exists cert, certificate session = Ok (Some cert) /\ valid_days_left cert <= 0) ->
  new_order session = Ok ord -> Forall (fun c => fresh self c.1) (order_challenges ord) ->
  exists self', initiate_challenge self staging session = (order_result ord, self') /\
    (order_result ord <> Panic -> self' = self).
Proof.
  intros Hdir Hurl Hacc Hcert Hord Hf. unfold initiate_challenge. rewrite Hdir, Hurl, Hacc. simpl.
  assert (exists c, certificate session = Ok c /\
    (cert ← c; if decide (0 < valid_days_left cert) then Some cert else None) = None) as (c & -> & ->).
  { destruct Hcert as [->|(cert & -> & Hd)]; eexists; split; [done|done|done|]. simpl. by rewrite decide_False by lia. }
  rewrite Hord. cbv beta iota zeta.
  destruct (run_dialogue_ends (dialogue_budget ord) (dialogue_start self ord)) as [Hr Hfin].
  { unfold measure, dialogue_budget. simpl. lia. }
  apply (dialogue_reachable_ok self ord Hf) in Hr. unfold dialogue_ok in Hr.
  destruct (d_receiver (run_dialogue _ _)) as [| |[r|]]; try done;
    destruct Hr as (H1 & H2 & _).
  - rewrite H2. eexists. split; [reflexivity|]. by rewrite H1.
  - rewrite H1. by eexists.
Qed.

(** C30: The validation is asked for right after the send, not after the challenge was
    opened: every order with a challenge has a schedule in which the server validates it
    and the proof is not served. *)
Theorem acme_validation_race self t p auths validate refresh refreshed :
  fresh self t ->
  exists d, rtc dialogue_step
      (dialogue_start self (Challenged (Ok ((t, p) :: auths)) validate refresh refreshed)) d /\
    d_worker d = Validating t p validate refresh refreshed /\ get_proof_for_challenge (d_handler d) t = None.
Proof.
  intros Hf. eexists. split.
  - eapply rtc_l; [by apply step_worker|]. eapply rtc_once. by apply step_worker.
  - split; [done|]. unfold get_proof_for_challenge. simpl. apply fmap_None, iter_find_None, fresh_search, Hf.
Qed.

End Worker.

(** ** Answers to requests *)
Definition no_slash (s : string) : bool := str_forallb (fun a => negb (bool_decide (a = "/"%char))) s.

Lemma str_split_no_sep s : no_slash s = true -> str_split "/"%char s = [s].
Proof.
  induction s as [|a s IH]; simpl; [done|]. intros [Ha Hs]%andb_prop.
  rewrite decide_False by (intros ->; done). by rewrite IH.
Qed.

Lemma str_split_last a t : no_slash t = true -> last (str_split "/"%char (a +:+ String "/"%char t)) = Some t.
Proof.
  intros Ht.
  assert (exists q qs, str_split "/"%char (a +:+ String "/"%char t) = q :: qs /\ last qs = Some t) as (q & qs & -> & Hl).
  { induction a as [|x a (q & qs & IH & Hl)]; simpl.
    - rewrite str_split_no_sep by done. eauto.
    - rewrite IH. case_decide; [|eauto]. exists "", (q :: qs). by destruct qs. }
  by destruct qs.
Qed.

Section Answers.
Context `{HT : Http}.

(** C31: A request is a challenge exactly when its path starts with the ACME prefix;
    other requests are left to the pools.  A challenge is answered with the proof
    of the first open challenge for the text after the last slash, or with 404; the
    400 branch is never taken. *)
Theorem respond_to_challenge_spec self request :
  (respond_to_challenge self request = None <-> forall t, uri_path (req_uri request) <> challenge_prefix +:+ t) /\
  (forall dir t, uri_path (req_uri request) = challenge_prefix +:+ dir +:+ t ->
     (dir = "" \/ exists d, dir = d +:+ "/") -> no_slash t = true ->
     respond_to_challenge self request =
     Some (match get_proof_for_challenge self t with
           | Some p => respond 200 (Body_from p)
           | None => not_found
           end)) /\
  (forall r, respond_to_challenge self request = Some r -> resp_status r = 200 \/ resp_status r = 404).
Proof.
  unfold respond_to_challenge, is_challenge. split_and!.
  - destruct (str_starts_with _ _) eqn:E; simpl.
    + split; [done|]. intros Hno. apply str_starts_with_spec in E as [t Ht]. destruct (Hno t Ht).
    + split; [|done]. intros _ t Ht. apply not_true_iff_false in E. apply E.
      apply str_starts_with_spec. exists t. exact Ht.
  - intros dir t Hp Hdir Ht. assert (str_starts_with (uri_path (req_uri request)) challenge_prefix = true) as ->
      by (apply str_starts_with_spec; eauto).
    assert (exists a, uri_path (req_uri request) = a +:+ String "/"%char t) as [a ->].
    { rewrite Hp. destruct Hdir as [->|[d ->]].
      - by exists "/.well-known/acme-challenge".
      - exists (challenge_prefix +:+ d). by rewrite <-!append_assoc. }
    simpl. rewrite str_split_last by done. by case_match.
  - intros r. destruct (negb _); [done|]. intros [= <-].
    destruct (last _) as [t|] eqn:E; [case_match; auto|].
    apply last_None in E. by destruct (str_split_ne "/"%char (uri_path (req_uri request))).
Qed.

End Answers.

(** ** Witnesses *)
Definition sample_order : AcmeOrder (Certificate := string) (Error := string) :=
  Challenged (Ok [("sdkpgjJASF12", "abc")]) (Ok tt) (Ok tt) (Confirmed (Ok tt) (Ok "cert")).

Definition sample_start : Dialogue := dialogue_start acme_handler_new sample_order.

Lemma sample_order_fresh : Forall (fun c => fresh acme_handler_new c.1) (order_challenges sample_order).
Proof. constructor; [apply not_elem_of_nil|constructor]. Qed.

(** The worker runs ahead to the end of the order, then the task catches up. *)
Fixpoint advance (schedule : list bool) (d : Dialogue (Certificate := string) (Error := string)) : option Dialogue :=
  match schedule with
  | [] => Some d
  | true :: schedule => d' ← worker_next id d; advance schedule d'
  | false :: schedule => d' ← challenge_loop d; advance schedule d'
  end.

Lemma advance_nsteps schedule d d' :
  advance schedule d = Some d' -> nsteps (dialogue_step id) (length schedule) d d'.
Proof.
  revert d. induction schedule as [|[] schedule IH]; intros d; simpl.
  - intros [= ->]. constructor.
  - intros (d1 & H1 & H2)%bind_Some. econstructor; [by apply step_worker|]. by apply IH.
  - intros (d1 & H1 & H2)%bind_Some. econstructor; [by apply step_receiver|]. by apply IH.
Qed.

Definition late_schedule : list bool := replicate 6 true ++ replicate 4 false.

Lemma acme_dialogue_ends_witness :
  exists d, nsteps (dialogue_step id) 10 sample_start d /\ d_receiver d = Finished (Returned (Ok "cert")) /\
    d_handler d = acme_handler_new.
Proof.
  destruct (advance late_schedule sample_start) as [d|] eqn:E; [|vm_compute in E; discriminate].
  exists d. pose proof (advance_nsteps _ _ _ E) as Hn. split; [exact Hn|].
  pose proof (acme_dialogue_ends id acme_handler_new sample_order sample_order_fresh 10 d Hn) as [_ Hd].
  assert (d_receiver d = Finished (Returned (Ok "cert"))) as Hr
    by (vm_compute in E; injection E as <-; reflexivity).
  rewrite Hr in Hd. split; [exact Hr|]. apply Hd. discriminate.
Defined.

(** The worker is in [validate], the task has not looked at the channel yet. *)
Lemma acme_proof_served_witness :
  exists d d', nsteps (dialogue_step id) 2 sample_start d /\
    get_proof_for_challenge (d_handler d) "sdkpgjJASF12" = None /\
    rtc receiver_step d d' /\ get_proof_for_challenge (d_handler d') "sdkpgjJASF12" = Some "abc".
Proof.
  destruct (advance [true; true] sample_start) as [d|] eqn:E; [|vm_compute in E; discriminate].
  pose proof (advance_nsteps _ _ _ E) as Hn. exists d.
  destruct (acme_proof_served id acme_handler_new sample_order sample_order_fresh d (rtc_nsteps_2 _ _ _ Hn)) as [Hs _].
  destruct (Hs "sdkpgjJASF12" "abc" (Ok tt) (Ok tt) (Confirmed (Ok tt) (Ok "cert"))) as (d' & Hr & _ & Hg & _).
  { vm_compute in E. injection E as <-. reflexivity. }
  exists d'. split; [exact Hn|]. split; [|split; [exact Hr|exact Hg]].
  vm_compute in E. injection E as <-. reflexivity.
Defined.

Lemma acme_validation_race_witness :
  exists d, rtc (dialogue_step id) sample_start d /\ get_proof_for_challenge (d_handler d) "sdkpgjJASF12" = None.
Proof.
  destruct (acme_validation_race (Certificate := string) (Error := string) id acme_handler_new "sdkpgjJASF12" "abc" []
    (Ok tt) (Ok tt) (Confirmed (Ok tt) (Ok "cert"))) as (d & Hr & _ & Hg); [apply not_elem_of_nil|].
  exists d. split; [exact Hr|exact Hg].
Defined.
