(* ===== verification/Server.v ===== *)
(** * The request handler: [server.rs] *)
From S2P Require Import Prelude RustStd Http HttpModel LoadBalancing StickyCookie Strategy Matcher Effects.
From S2P Require Import Events Middleware Pool Acme.

Local Open Scope Z_scope.

Section Server.
Context `{HT : Http} `{RX : RegexCrate} `{UC : UrlCrate}.

Record SharedData := { backend_pools : list BackendPool; acme_handler : AcmeHandler }.

Definition pool_by_req (shared_data : SharedData) (request : Request) (scheme : Scheme) : option BackendPool :=
  iter_find (fun p => matches (matcher p) request)
    (filter (fun p => supports p scheme = true) (backend_pools shared_data)).

(** ** [MainService::call]

    The configuration and the open challenges are read once, when the call
    starts; the health flags are read one by one. *)
Record MainService := { service_client_address : SocketAddr; service_scheme : Scheme }.

(** The addresses whose flag, read now, satisfies [keep]. *)
Fixpoint filter_addresses (p : loc) (keep : Healthiness -> bool) (i : nat) (l : list (string * Healthiness)) :
  handler (list string) :=
  match l with
  | [] => Ret []
  | (address, _) :: l =>
      do! healthiness := perform (LoadHealth p i) in
      do! rest := filter_addresses p keep (S i) l in
      Ret (if keep healthiness then address :: rest else rest)
  end.

Definition is_healthy (h : Healthiness) : bool := bool_decide (h = Healthy).
Definition is_slow (h : Healthiness) : bool := match h with Slow _ => true | _ => false end.

Definition working_addresses (p : BackendPool) : handler (list string) :=
  do! healthy := filter_addresses (pool p) is_healthy 0 (addresses p) in
  match healthy with
  | [] => filter_addresses (pool p) is_slow 0 (addresses p)
  | _ => Ret healthy
  end.

Definition call (self : MainService) (shared_data : SharedData) (request : Request) : handler Response :=
  match respond_to_challenge (acme_handler shared_data) request with
  | Some response => Ret response
  | None =>
      match pool_by_req shared_data request (service_scheme self) with
      | Some p =>
          do! working := working_addresses p in
          match working with
          | [] => Ret bad_gateway
          | _ =>
              let context := {| client_address := service_client_address self; backend_addresses := working |} in
              do! selected := perform (SelectBackend (pool p) request context) in
              do! backend := lift selected in
              forward_request_to_backend backend request (chain p) (service_scheme self)
                (service_client_address self)
          end
      | None => Ret not_found
      end
  end.

(** ** The pool of a request *)

Lemma first_pool_cons {A} (P Q : A -> Prop) q p pools :
  Q q -> ~ P q ->
  (exists before after, pools = before ++ p :: after /\ P p /\ Forall Q before) <->
  (exists before after, q :: pools = before ++ p :: after /\ P p /\ Forall Q before).
Proof.
  intros Hq Hnp. split.
  - intros (before & after & -> & Hp & Hb). exists (q :: before), after. by repeat constructor.
  - intros ([|q' before] & after & Heq & Hp & Hb); injection Heq as -> Heq; [done|].
    apply Forall_cons in Hb as [_ Hb]. by exists before, after.
Qed.

(** C4: The pool of a request is the first one in the order of the configuration
    that supports the scheme and whose matcher accepts the request; there is none
    only when no pool does both. *)
Theorem pool_by_req_first shared request scheme :
  (forall p, pool_by_req shared request scheme = Some p <->
     exists before after, backend_pools shared = before ++ p :: after /\
       (scheme ∈ schemes p /\ matches (matcher p) request = true) /\
       Forall (fun q => scheme ∉ schemes q \/ matches (matcher q) request = false) before) /\
  (pool_by_req shared request scheme = None <->
     Forall (fun q => scheme ∉ schemes q \/ matches (matcher q) request = false) (backend_pools shared)).
Proof.
  unfold pool_by_req.
  assert (forall q, supports q scheme = true <-> scheme ∈ schemes q) as Hsup.
  { intros q. unfold supports. apply bool_decide_eq_true. }
  induction (backend_pools shared) as [|q pools [IH1 IH2]].
  { split; [|done]. intros p. split; [done|]. by intros ([|? ?] & ? & ? & _). }
  rewrite filter_cons. destruct (decide (supports q scheme = true)) as [Hq|Hq]; rewrite Hsup in Hq.
  - simpl. destruct (matches (matcher q) request) eqn:Hm.
    + split.
      * intros p. split; [intros [= <-]; by exists [], pools|].
        intros ([|q' before] & after & Heq & _ & Hb); [by injection Heq as -> _|].
        injection Heq as <- _. apply Forall_cons in Hb as [[?|?] _]; [done|congruence].
      * split; [done|]. intros [[?|?] _]%Forall_cons; [done|congruence].
    + rewrite IH2. split; [|rewrite Forall_cons; naive_solver].
      intros p. rewrite IH1. apply (first_pool_cons (fun p => scheme ∈ schemes p /\ matches (matcher p) request = true)); [by right|].
      intros [_ ?]. congruence.
  - rewrite IH2. split; [|rewrite Forall_cons; naive_solver].
    intros p. rewrite IH1. apply (first_pool_cons (fun p => scheme ∈ schemes p /\ matches (matcher p) request = true)); [by left|].
    by intros [? _].
Qed.

(** ** Reading the flags *)

(** The loads of a pass over the addresses from index [i] on, with their answers. *)
Definition loads (p : loc) (i : nat) (hs : list Healthiness) : list (obs effect) :=
  imap (fun j h => Obs (LoadHealth p (i + j)) h) hs.

(** The addresses whose answer satisfies [keep]. *)
Definition kept (keep : Healthiness -> bool) (l : list (string * Healthiness)) (hs : list Healthiness) :
  list string := (filter (fun ah => keep ah.2 = true) (zip l.*1 hs)).*1.

Lemma loads_cons p i h hs : loads p i (h :: hs) = Obs (LoadHealth p i) h :: loads p (S i) hs.
Proof.
  unfold loads. simpl. rewrite Nat.add_0_r. f_equal. apply imap_ext. intros j h' _. simpl.
  by rewrite Nat.add_succ_r.
Qed.

Lemma filter_addresses_runs p keep i l tr o :
  runs (filter_addresses p keep i l) tr o ->
  exists hs, length hs = length l /\ tr = loads p i hs /\ o = Returned (kept keep l hs).
Proof.
  revert i tr o. induction l as [|[a h0] l IH]; intros i tr o.
  { intros [-> ->]. by exists []. }
  intros (h & tr' & -> & Hr). cbn [prog_bind] in Hr. apply runs_bind_ret in Hr as (o' & Hr & ->).
  apply IH in Hr as (hs & Hlen & -> & ->). exists (h :: hs). split_and!; [simpl; by rewrite Hlen|by rewrite loads_cons|].
  simpl. unfold kept. simpl. rewrite filter_cons. simpl. by destruct (keep h).
Qed.

Lemma filter_addresses_returns p keep i l hs :
  length hs = length l -> runs (filter_addresses p keep i l) (loads p i hs) (Returned (kept keep l hs)).
Proof.
  revert i hs. induction l as [|[a h0] l IH]; intros i [|h hs] Hlen; try done.
  injection Hlen as Hlen. rewrite loads_cons. exists h, (loads p (S i) hs). split; [done|].
  cbn [prog_bind]. apply runs_bind_ret. exists (Returned (kept keep l hs)). split; [by apply IH|].
  unfold kept. simpl. rewrite filter_cons. simpl. by destruct (keep h).
Qed.

Lemma kept_elem keep l hs a :
  a ∈ kept keep l hs ->
  exists j h0 h, l !! j = Some (a, h0) /\ hs !! j = Some h /\ keep h = true.
Proof.
  unfold kept. intros ([a' h] & -> & [Hk Hin]%list_elem_of_filter)%list_elem_of_fmap. simpl in *.
  apply list_elem_of_lookup in Hin as [j Hj]. apply lookup_zip_Some in Hj as [Ha Hh].
  apply list_lookup_fmap_Some in Ha as ([a0 h0] & -> & Ha). by exists j, h0, h.
Qed.

Lemma kept_none keep l hs : Forall (fun h => keep h = false) hs -> kept keep l hs = [].
Proof.
  intros Hk. destruct (kept keep l hs) as [|a rest] eqn:E; [done|].
  destruct (kept_elem keep l hs a) as (j & h0 & h & _ & Hh & Hkeep); [rewrite E; by left|].
  rewrite Forall_lookup in Hk. by rewrite (Hk _ _ Hh) in Hkeep.
Qed.

Lemma loads_elem p i hs j h : hs !! j = Some h -> Obs (LoadHealth p (i + j)) h ∈ loads p i hs.
Proof. intros Hj. apply elem_of_lookup_imap. eauto. Qed.

Lemma loads_quiet p i hs : backend_calls (loads p i hs) = [].
Proof. revert i. induction hs as [|h hs IH]; intros i; [done|]. rewrite loads_cons. apply IH. Qed.

(** Two passes: the healthy addresses, and only when there is none the slow ones. *)
Lemma working_addresses_runs p tr o :
  runs (working_addresses p) tr o ->
  exists hs, length hs = length (addresses p) /\
    let healthy := kept is_healthy (addresses p) hs in
    (healthy <> [] /\ tr = loads (pool p) 0 hs /\ o = Returned healthy) \/
    (healthy = [] /\ exists hs', length hs' = length (addresses p) /\
       tr = loads (pool p) 0 hs ++ loads (pool p) 0 hs' /\ o = Returned (kept is_slow (addresses p) hs')).
Proof.
  intros (tr1 & tr2 & o1 & -> & H1 & H2)%runs_bind.
  apply filter_addresses_runs in H1 as (hs & Hlen & -> & ->). exists hs. split; [done|]. simpl.
  destruct (kept is_healthy (addresses p) hs) as [|a l].
  - right. split; [done|]. apply filter_addresses_runs in H2 as (hs' & Hlen' & -> & ->). by exists hs'.
  - left. destruct H2 as [-> ->]. by rewrite app_nil_r.
Qed.

(** A working address was read as healthy or slow. *)
Definition seen_working (p : BackendPool) (tr : list (obs effect)) (a : string) : Prop :=
  exists i h0 h, addresses p !! i = Some (a, h0) /\ Obs (LoadHealth (pool p) i) h ∈ tr /\
    (h = Healthy \/ exists t, h = Slow t).

Lemma working_addresses_seen p tr o :
  runs (working_addresses p) tr o ->
  backend_calls tr = [] /\ exists working, o = Returned working /\ forall a, a ∈ working -> seen_working p tr a.
Proof.
  intros (hs & _ & [(_ & -> & ->)|(_ & hs' & _ & -> & ->)])%working_addresses_runs.
  - split; [apply loads_quiet|]. eexists. split; [done|].
    intros a (j & h0 & h & Ha & Hh & Hk)%kept_elem. exists j, h0, h. split; [done|].
    split; [by apply (loads_elem _ 0)|]. left. by apply bool_decide_eq_true in Hk.
  - split; [by rewrite backend_calls_app, !loads_quiet|]. eexists. split; [done|].
    intros a (j & h0 & h & Ha & Hh & Hk)%kept_elem. exists j, h0, h. split; [done|].
    split; [apply elem_of_app; right; by apply (loads_elem _ 0)|]. right. destruct h; try done. eauto.
Qed.

(** ** One call *)

(** Every selection that returned names an offered backend. *)
Definition selection_offered (o : obs effect) : Prop :=
  match o with
  | Obs e b =>
      match e in effect B return B -> Prop with
      | SelectBackend _ _ ctx => fun b =>
          match b with Returned fw => backend_address fw ∈ backend_addresses ctx | Panic => True end
      | _ => fun _ => True
      end b
  end.

(** The health flag a step read. *)
Definition flag_read (o : obs effect) : option Healthiness :=
  match o with
  | Obs e b =>
      match e in effect B return B -> option Healthiness with
      | LoadHealth _ _ => fun b => Some b
      | _ => fun _ => None
      end b
  end.

(** The chains of all pools send at most one request, to the selected backend. *)
Definition chains_forward (shared : SharedData) : Prop :=
  Forall (fun p => chain_all forwards_once (chain p) /\ chain_all keeps_target (chain p)) (backend_pools shared).

(** The chains of all pools leave the shared state of pools alone. *)
Definition chains_local (shared : SharedData) : Prop :=
  Forall (fun p => chain_all local_mw (chain p)) (backend_pools shared).

Lemma pool_by_req_elem shared request scheme p :
  pool_by_req shared request scheme = Some p -> p ∈ backend_pools shared.
Proof.
  unfold pool_by_req. intros (l1 & l2 & Heq & _)%iter_find_Some.
  assert (p ∈ filter (fun p => supports p scheme = true) (backend_pools shared)) as Hin by (rewrite Heq; set_solver).
  by apply list_elem_of_filter in Hin as [_ ?].
Qed.

(** The cases of a call. *)
Lemma call_runs self shared request tr o :
  runs (call self shared request) tr o ->
  (backend_calls tr = []) \/
  exists p working tr1 tr2 fw,
    pool_by_req shared request (service_scheme self) = Some p /\
    respond_to_challenge (acme_handler shared) request = None /\
    runs (working_addresses p) tr1 (Returned working) /\
    let ctx := {| client_address := service_client_address self; backend_addresses := working |} in
    tr = tr1 ++ Obs (SelectBackend (pool p) request ctx) (Returned fw) :: tr2 /\
    runs (forward_request_to_backend fw request (chain p) (service_scheme self) (service_client_address self)) tr2 o.
Proof.
  unfold call. destruct (respond_to_challenge _ _) as [r|] eqn:Hc; [intros [-> _]; by left|].
  destruct (pool_by_req _ _ _) as [p|] eqn:Hp; [|intros [-> _]; by left].
  intros (tr1 & tr2 & o1 & -> & H1 & H2)%runs_bind.
  destruct (working_addresses_seen _ _ _ H1) as (Hq & working & -> & _).
  destruct working as [|a l]; [left; destruct H2 as [-> _]; by rewrite app_nil_r|].
  destruct H2 as (selected & tr3 & -> & H2). cbn [prog_bind] in H2. destruct selected as [fw|].
  - right. exists p, (a :: l), tr1, tr3, fw. by split_and!.
  - left. destruct H2 as [-> _]. by rewrite backend_calls_app, Hq.
Qed.

Lemma forward_target fw request c scheme address tr o :
  chain_all keeps_target c ->
  runs (forward_request_to_backend fw request c scheme address) tr o ->
  forall r, r ∈ backend_calls tr -> backend_uri fw request = Returned (req_uri r).
Proof.
  intros Hc (tr1 & tr2 & [uri|] & -> & Hu & Hr)%runs_bind r; apply runs_lift in Hu as [-> Hu].
  2: { destruct Hr as [-> _]. by intros ?%elem_of_nil. }
  simpl. intros Hin. rewrite <-Hu. f_equal.
  set (context := {| mw_client_scheme := scheme; mw_client_address := address; mw_backend_uri := uri |}) in Hr.
  assert (keeps_target (boxed (forwarder_middleware fw))) as Hk.
  { apply quiet_keeps_target. split; intros; [apply calls_at_most_ret|apply calls_at_most_lift]. }
  pose proof (Hk uri request (chain_forward_request c) context eq_refl) as Hs.
  assert (Forall (fun r => req_uri r = uri) (backend_calls tr2)) as Hall.
  { eapply Hs; [|exact Hr]. intros r' c' <-. by apply chain_target. }
  rewrite Forall_forall in Hall. symmetry. by apply Hall.
Qed.

(** What a request to a backend may be. *)
Definition rightly_sent (self : MainService) (shared : SharedData) (request : Request) (tr : list (obs effect))
  (r : Request) : Prop :=
  respond_to_challenge (acme_handler shared) request = None /\
  exists p address authority,
    pool_by_req shared request (service_scheme self) = Some p /\ seen_working p tr address /\
    Authority_from_str address = Some authority /\
    uri_scheme (req_uri r) = Some "http" /\ uri_authority (req_uri r) = Some authority /\
    uri_path_and_query (req_uri r) = uri_path_and_query (req_uri request).

Lemma backend_uri_parts `{!HttpLaws} fw request uri :
  backend_uri fw request = Returned uri ->
  exists authority, Authority_from_str (backend_address fw) = Some authority /\
    uri_scheme uri = Some "http" /\ uri_authority uri = Some authority /\
    uri_path_and_query uri = uri_path_and_query (req_uri request).
Proof.
  unfold backend_uri. destruct (uri_path_and_query (req_uri request)) as [pq|]; [|done]. simpl.
  destruct (Authority_from_str (backend_address fw)) as [authority|] eqn:Hau; [|done]. simpl.
  intros Hu%unwrap_Returned. destruct (Uri_build_parts _ _ _ _ Hu) as (Hs & Hau' & Hpq). eauto.
Qed.

(** Also for the part [tr] of a run that has happened so far. *)
Lemma call_forwards_prefix `{!HttpLaws} self shared request tr rest o :
  chains_forward shared -> runs (call self shared request) (tr ++ rest) o -> Forall selection_offered tr ->
  (length (backend_calls tr) <= 1)%nat /\ Forall (rightly_sent self shared request tr) (backend_calls tr).
Proof.
  intros Hch Hr Hsel.
  apply call_runs in Hr as [Hq|(p & working & tr1 & tr2 & fw & Hp & Ha & Hw & Htr & Hf)].
  { rewrite backend_calls_app in Hq. apply app_nil in Hq as [-> _]. simpl. split; [lia|constructor]. }
  destruct (working_addresses_seen _ _ _ Hw) as (Hq & working' & [= <-] & Hseen).
  unfold chains_forward in Hch. rewrite Forall_forall in Hch. destruct (Hch p) as [Hone Htarget]; [by eapply pool_by_req_elem|].
  apply app_eq_inv in Htr as [(k & -> & Htr)|(k & -> & Htr)].
  2: { rewrite backend_calls_app in Hq. apply app_nil in Hq as [-> _]. simpl. split; [lia|constructor]. }
  rewrite backend_calls_app, Hq. simpl. destruct k as [|e k]; [simpl; split; [lia|constructor]|].
  injection Htr as <- ->. apply Forall_app in Hsel as [_ [Hoff _]%Forall_cons].
  pose proof (forward_request_to_backend_once _ _ _ _ _ Hone _ _ Hf) as Hlen.
  rewrite backend_calls_app, length_app in Hlen. simpl. split; [change (length (backend_calls k) <= 1)%nat; lia|].
  apply Forall_forall. intros r Hin.
  destruct (backend_uri_parts fw request (req_uri r)) as (authority & Hau & Hparts).
  { apply (forward_target _ _ _ _ _ _ _ Htarget Hf). rewrite backend_calls_app. apply elem_of_app. by left. }
  split; [done|]. exists p, (backend_address fw), authority. split_and!; try apply Hparts; try done.
  destruct (Hseen _ Hoff) as (i & h0 & h & ? & ? & ?). exists i, h0, h. split_and!; [done| |done].
  apply elem_of_app. by left.
Qed.

(** Handling one request sends at most one request to a backend, and only to a
    backend of the pool chosen for the request, one whose health flag was read as healthy
    or slow while the request was handled, at the scheme http, its configured
    authority and the client's path and query.  Nothing is sent for ACME challenges
    or when no pool matches. *)
Theorem call_forwards_once `{!HttpLaws} self shared request tr o :
  chains_forward shared -> runs (call self shared request) tr o -> Forall selection_offered tr ->
  (length (backend_calls tr) <= 1)%nat /\ Forall (rightly_sent self shared request tr) (backend_calls tr).
Proof. intros Hch Hr. eapply (call_forwards_prefix _ _ _ _ []); [done|]. by rewrite app_nil_r. Qed.

(** C26: When every health flag read for the request is unresponsive, the answer is
    502: no strategy is asked, no middleware runs, and nothing but the flags is read. *)
Theorem call_unhealthy_bad_gateway self shared request p tr o :
  respond_to_challenge (acme_handler shared) request = None ->
  pool_by_req shared request (service_scheme self) = Some p ->
  runs (call self shared request) tr o ->
  Forall (fun e => forall h, flag_read e = Some h -> exists status, h = Unresponsive status) tr ->
  o = Returned bad_gateway /\
  Forall (fun e => exists i h, e = Obs (LoadHealth (pool p) i) h) tr.
Proof.
  intros Ha Hp Hr Hun. unfold call in Hr. rewrite Ha, Hp in Hr.
  apply runs_bind in Hr as (tr1 & tr2 & o1 & -> & H1 & H2).
  destruct (working_addresses_seen _ _ _ H1) as (_ & working & -> & Hseen).
  destruct working as [|a l].
  - destruct H2 as [-> ->]. split; [done|]. rewrite app_nil_r.
    assert (forall hs, Forall (fun e => exists i h, e = Obs (LoadHealth (pool p) i) h) (loads (pool p) 0 hs)) as Hl.
    { intros hs. apply Forall_forall. intros e (j & h & -> & _)%elem_of_lookup_imap. eauto. }
    apply working_addresses_runs in H1 as (hs & _ & [(_ & -> & _)|(_ & hs' & _ & -> & _)]); [done|].
    by apply Forall_app.
  - exfalso. destruct (Hseen a) as (i & h0 & h & _ & Hin & Hh); [by left|].
    rewrite Forall_forall in Hun.
    destruct (Hun (Obs (LoadHealth (pool p) i) h)) with (h := h) as [status ->]; [apply elem_of_app; by left|done|].
    by destruct Hh as [?|[? ?]].
Qed.

(** C22: The two passes over the health flags are not one snapshot: when every backend of
    the pool is slow during the first pass and healthy during the second one (a check
    finished in between), the client gets 502 although every backend was working all
    the time. *)
Theorem call_flapping_bad_gateway self shared request p times :
  respond_to_challenge (acme_handler shared) request = None ->
  pool_by_req shared request (service_scheme self) = Some p -> length times = length (addresses p) ->
  runs (call self shared request)
    (loads (pool p) 0 (Slow <$> times) ++ loads (pool p) 0 ((fun _ => Healthy) <$> times)) (Returned bad_gateway).
Proof.
  intros Ha Hp Hlen. unfold call. rewrite Ha, Hp.
  assert (runs (working_addresses p) (loads (pool p) 0 (Slow <$> times) ++ loads (pool p) 0 ((fun _ => Healthy) <$> times))
    (Returned [])) as Hw.
  { apply runs_bind. eexists _, _, (Returned []). split_and!; [done|..].
    - rewrite <-(kept_none is_healthy (addresses p) (Slow <$> times)) by (by apply Forall_fmap, Forall_true).
      apply filter_addresses_returns. by rewrite length_fmap.
    - simpl. rewrite <-(kept_none is_slow (addresses p) ((fun _ => Healthy) <$> times)) by (by apply Forall_fmap, Forall_true).
      apply filter_addresses_returns. by rewrite length_fmap. }
  apply runs_bind. eexists _, [], _. rewrite app_nil_r. by split_and!.
Qed.

End Server.

(** ** Witnesses *)
#[local] Existing Instance http_model.
#[local] Existing Instance sample_regex.
#[local] Existing Instance sample_url.

Definition example_pool (chain : MiddlewareChain) : BackendPool := {|
  pool := 0%nat; matcher := Host "example.org"; addresses := [("a:1", Healthy); ("b:1", Healthy)];
  health_config := {| slow_threshold := 300; timeout := 500; health_path := "/" |};
  strategy := box mk_Random; chain := chain; client := client_builder; schemes := [HTTP] |}.

Definition example_shared : SharedData :=
  {| backend_pools := [example_pool Empty]; acme_handler := acme_handler_new |}.

Definition example_service : MainService := {| service_client_address := sample_client; service_scheme := HTTP |}.

Definition example_request : Request := sample_request "GET" (Some "/x") [("host", "example.org")].

(** The request that reaches the slow backend. *)
Definition example_backend_request : Request :=
  mk_request http_model "GET" (mk_uri (Some "http") (Some "b:1") (Some "/x")) 11
    [("host", "example.org"); ("x-forwarded-for", "127.0.0.1"); ("x-real-ip", "127.0.0.1");
     ("x-forwarded-port", "80"); ("x-forwarded-proto", "http")] "".

Definition example_trace : list (obs effect) :=
  [Obs (LoadHealth 0 0) (Unresponsive None); Obs (LoadHealth 0 1) (Slow 400);
   Obs (LoadHealth 0 0) (Unresponsive None); Obs (LoadHealth 0 1) (Slow 410);
   Obs (SelectBackend 0 example_request (sample_context ["b:1"])) (Returned (forwarder_new "b:1"));
   Obs GetHostname None;
   Obs (ClientRequest example_backend_request) (Ok (sample_response 200 [] "hello"))].

Lemma example_runs :
  runs (call example_service example_shared example_request) example_trace
    (Returned (sample_response 200 [] "hello")).
Proof. repeat (eexists _, _; split; [reflexivity|]). by split. Qed.

Lemma call_forwards_once_witness :
  backend_calls example_trace = [example_backend_request] /\
  Forall (rightly_sent example_service example_shared example_request example_trace) [example_backend_request] /\
  uri_authority (req_uri example_backend_request) = Some "b:1".
Proof.
  destruct (call_forwards_once (H := http_model_laws) example_service example_shared example_request example_trace
    (Returned (sample_response 200 [] "hello"))) as [Hone Hall].
  - by repeat constructor.
  - apply example_runs.
  - repeat constructor.
  - split_and!; [reflexivity|exact Hall|reflexivity].
Defined.

Definition unhealthy_trace : list (obs effect) :=
  [Obs (LoadHealth 0 0) (Unresponsive None); Obs (LoadHealth 0 1) (Unresponsive (Some 500));
   Obs (LoadHealth 0 0) (Unresponsive None); Obs (LoadHealth 0 1) (Unresponsive (Some 500))].

Lemma call_unhealthy_bad_gateway_witness :
  runs (call example_service example_shared example_request) unhealthy_trace (Returned bad_gateway) /\
  Forall (fun e => exists i h, e = Obs (LoadHealth 0 i) h) unhealthy_trace.
Proof.
  assert (runs (call example_service example_shared example_request) unhealthy_trace (Returned bad_gateway)) as Hr.
  { repeat (eexists _, _; split; [reflexivity|]). by split. }
  split; [exact Hr|].
  apply (call_unhealthy_bad_gateway example_service example_shared example_request (example_pool Empty) unhealthy_trace
    (Returned bad_gateway)); [reflexivity|reflexivity|exact Hr|].
  repeat (constructor; [intros h [= <-]; eauto|]). constructor.
Defined.

(** One slow backend becomes healthy while the request looks for a backend. *)
Lemma call_flapping_bad_gateway_witness :
  runs (call example_service example_shared example_request)
    [Obs (LoadHealth 0 0) (Slow 400); Obs (LoadHealth 0 1) (Slow 500); Obs (LoadHealth 0 0) Healthy;
     Obs (LoadHealth 0 1) Healthy] (Returned bad_gateway).
Proof.
  exact (call_flapping_bad_gateway example_service example_shared example_request (example_pool Empty) [400; 500]
    eq_refl eq_refl eq_refl).
Defined.
