(* ===== verification/World.v ===== *)
(** * The shared state of a running load balancer, and what the effects do to it

    Effects on the program's own shared state (health flags, strategies, limiters) are
    answered by that state, with the operations of the components; effects on the
    outside (backends, the directory server, files, the host name) are answered by an
    [Oracle].  [handle] answers every effect, so programs can be executed; World also
    records, in order, what the limiters were asked. *)
From S2P Require Import Prelude RustStd Http HttpModel LoadBalancing StickyCookie Strategy Matcher Effects.
From S2P Require Import Events HttpClient Middleware RateLimiter Pool Acme Health Server.

Local Open Scope Z_scope.

Section World.
Context `{HT : Http} `{RX : RegexCrate} `{UC : UrlCrate} `{LH : LinkedHashMap}.

(** ** State *)

(** A verdict of the limiter at a location: its configuration, the time, the
    client and the answer. *)
Record Verdict := {
  v_limiter : loc; v_limit : Z; v_window : Z; v_time : Instant; v_client : SocketAddr; v_accepted : bool;
}.

Record World := {
  w_now : Instant;
  w_health : gmap (loc * nat) Healthiness;
  w_clients : gmap loc (ClientState DynStrategy);
  w_limiters : gmap loc RateLimiter;
  w_verdicts : list Verdict;
}.

Definition set_now (now : Instant) (w : World) : World := {|
  w_now := now; w_health := w_health w; w_clients := w_clients w; w_limiters := w_limiters w;
  w_verdicts := w_verdicts w |}.

Definition set_health (c : loc * nat) (h : Healthiness) (w : World) : World := {|
  w_now := w_now w; w_health := <[c := h]> (w_health w); w_clients := w_clients w; w_limiters := w_limiters w;
  w_verdicts := w_verdicts w |}.

Definition set_client (l : loc) (cs : ClientState DynStrategy) (w : World) : World := {|
  w_now := w_now w; w_health := w_health w; w_clients := <[l := cs]> (w_clients w); w_limiters := w_limiters w;
  w_verdicts := w_verdicts w |}.

Definition world_new (now : Instant) : World :=
  {| w_now := now; w_health := ∅; w_clients := ∅; w_limiters := ∅; w_verdicts := [] |}.

(** The shared state of a pool is allocated when the pool is built; allocating a
    pool again changes nothing. *)
Definition pool_flags (p : BackendPool) : gmap (loc * nat) Healthiness :=
  list_to_map (imap (fun i address => ((pool p, i), address.2)) (addresses p)).

Definition alloc_pool (w : World) (p : BackendPool) : World := {|
  w_now := w_now w; w_health := w_health w ∪ pool_flags p;
  w_clients := w_clients w ∪ {[ pool p := client_new (strategy p) ]};
  w_limiters := w_limiters w; w_verdicts := w_verdicts w |}.

Definition alloc_pools (w : World) (ps : list BackendPool) : World := foldl alloc_pool w ps.

(** ** Effects *)

(** What the outside decides: the answers that do not come from the shared
    state, and the random numbers of a selection. *)
Record Oracle := { o_answer : forall B, effect B -> B; o_draw : draw }.

(** The limiter at [l], which exists since its chain was built. *)
Definition limiter_at (w : World) (l : loc) (limit window : Z) : RateLimiter :=
  default (rate_limiter_new limit window) (w_limiters w !! l).

Definition do_register (l : loc) (lim window : Z) (client : SocketAddr) (w : World) : bool * World :=
  let rl := limiter_at w l lim window in
  let '(accepted, rl') := register_request rl (w_now w) client in
  (accepted, {|
    w_now := w_now w; w_health := w_health w; w_clients := w_clients w; w_limiters := <[l := rl']> (w_limiters w);
    w_verdicts := w_verdicts w ++ [{| v_limiter := l; v_limit := limit rl; v_window := window_sec rl;
                                      v_time := w_now w; v_client := client; v_accepted := accepted |}] |}).

(** A selection at a location without a pool cannot happen; see [allocated]. *)
Definition do_select (rng : draw) (l : loc) (request : Request) (ctx : LbContext) (w : World) :
  outcome RequestForwarder * World :=
  match w_clients w !! l with
  | Some cs =>
      let '(o, s) := select_backend (cs_strategy cs) rng request ctx in
      (o, set_client l (mk_ClientState s (cs_streams cs)) w)
  | None => (Panic, w)
  end.

Definition handle (oracle : Oracle) (B : Type) (e : effect B) : World -> B * World :=
  match e in effect B return B -> World -> B * World with
  | LoadHealth p i => fun b w => (default b (w_health w !! (p, i)), w)
  | StoreHealth p i h => fun _ w => (tt, set_health (p, i) h w)
  | RegisterRequest l lim window client => fun _ w => do_register l lim window client w
  | SelectBackend l request ctx => fun _ w => do_select (o_draw oracle) l request ctx w
  | _ => fun b w => (b, w)
  end (o_answer oracle B e).

(** The shared state an effect needs is allocated. *)
Definition allocated {B} (w : World) (e : effect B) : Prop :=
  match e with
  | LoadHealth p i | StoreHealth p i _ => is_Some (w_health w !! (p, i))
  | SelectBackend l _ _ => is_Some (w_clients w !! l)
  | _ => True
  end.

(** ** Invariant of the world *)

(** The verdicts of the limiter at [l], and the calls they answer. *)
Definition verdicts_at (l : loc) (vs : list Verdict) : list Verdict := filter (fun v => v_limiter v = l) vs.
Definition v_call (v : Verdict) : Instant * SocketAddr := (v_time v, v_client v).

(** The limiter after a sequence of calls. *)
Fixpoint limiter_after (rl : RateLimiter) (calls : list (Instant * SocketAddr)) : RateLimiter :=
  match calls with [] => rl | (now, client) :: calls => limiter_after (register_request rl now client).2 calls end.

(** The record of a limiter: all its verdicts come from one limiter that was new
    at the first of them, at non-decreasing times up to [now]. *)
Definition limiter_record (now : Instant) (state : option RateLimiter) (vs : list Verdict) : Prop :=
  match vs with
  | [] => state = None
  | v0 :: _ =>
      let rl := rate_limiter_new (v_limit v0) (v_window v0) in
      Forall (fun v => v_limit v = v_limit v0 /\ v_window v = v_window v0) vs /\
      state = Some (limiter_after rl (v_call <$> vs)) /\
      v_accepted <$> vs = register_all rl (v_call <$> vs) /\
      (forall v, last vs = Some v -> v_time v <= now) /\ ordered (v_time v0) (v_call <$> vs)
  end.

Record world_ok (w : World) : Prop := {
  ok_strategies l cs : w_clients w !! l = Some cs -> dyn_keeps (cs_strategy cs);
  ok_limiters l : limiter_record (w_now w) (w_limiters w !! l) (verdicts_at l (w_verdicts w));
}.

Lemma register_all_app rl c1 c2 :
  register_all rl (c1 ++ c2) = register_all rl c1 ++ register_all (limiter_after rl c1) c2.
Proof.
  revert rl. induction c1 as [|[t c] c1 IH]; intros rl; [done|]. simpl.
  destruct (register_request rl t c) as [b rl']. simpl. by rewrite IH.
Qed.

Lemma limiter_after_app rl c1 c2 : limiter_after rl (c1 ++ c2) = limiter_after (limiter_after rl c1) c2.
Proof. revert rl. induction c1 as [|[t c] c1 IH]; intros rl; simpl; auto. Qed.

Lemma limiter_after_config rl calls :
  limit (limiter_after rl calls) = limit rl /\ window_sec (limiter_after rl calls) = window_sec rl.
Proof.
  revert rl. induction calls as [|[t c] calls IH]; intros rl; [done|]. simpl.
  destruct (IH (register_request rl t c).2) as [-> ->]. unfold register_request.
  by destruct (lhm_remove c _).
Qed.

Lemma ordered_snoc now calls t c :
  ordered now calls -> now <= t -> (forall t' c', last calls = Some (t', c') -> t' <= t) ->
  ordered now (calls ++ [(t, c)]).
Proof.
  revert now. induction calls as [|[t1 c1] calls IH]; intros now; simpl; [by auto|].
  intros [H1 Ho] Hn Hl. split; [done|]. destruct calls as [|x calls]; [simpl; split; [|done]; by apply (Hl t1 c1)|].
  apply IH; [done| |done]. clear IH. revert t1 H1 Ho Hl. revert x.
  induction calls as [|y calls IH]; intros [t2 c2] t1 H1 [H2 Ho] Hl.
  - simpl in Hl. specialize (Hl t2 c2 eq_refl). lia.
  - specialize (IH y t2). destruct y as [t3 c3]. simpl in Ho. assert (t2 <= t); [|lia]. apply IH; [lia|done|]. exact Hl.
Qed.

Lemma ordered_last now calls (vs : list Verdict) :
  ordered now calls -> calls = v_call <$> vs -> vs <> [] -> exists v, last vs = Some v /\ now <= v_time v.
Proof.
  intros Ho -> Hne. revert now Ho. induction vs as [|v vs IH]; intros now; [done|]. simpl. intros [Hv Ho].
  destruct vs as [|v' vs]; [by exists v|]. destruct (IH ltac:(done) _ Ho) as (v'' & Hl & Hle).
  exists v''. split; [done|]. lia.
Qed.

(** One more verdict of a limiter. *)
Lemma limiter_record_snoc now rl vs v :
  limiter_record now rl vs ->
  let rl0 := default (rate_limiter_new (v_limit v) (v_window v)) rl in
  v_limit v = limit rl0 -> v_window v = window_sec rl0 -> v_time v = now ->
  v_accepted v = (register_request rl0 now (v_client v)).1 ->
  limiter_record now (Some (register_request rl0 now (v_client v)).2) (vs ++ [v]).
Proof.
  intros Hrec rl0 Hlim Hwin Ht Hacc. destruct vs as [|v0 vs].
  - unfold limiter_record in Hrec. subst rl rl0. simpl in *. rewrite Ht. split_and!.
    + by repeat constructor.
    + done.
    + rewrite Hacc. by destruct (register_request _ now (v_client v)).
    + intros v' [= <-]. lia.
    + lia.
    + done.
  - destruct Hrec as (Hcfg & -> & Hvs & Hlast & Hord). cbn [app limiter_record].
    set (rl := rate_limiter_new (v_limit v0) (v_window v0)) in *. subst rl0. cbn [default from_option id] in *.
    destruct (limiter_after_config rl (v_call <$> v0 :: vs)) as [Hl Hw].
    change (v0 :: vs ++ [v]) with ((v0 :: vs) ++ [v]). rewrite !fmap_app. split_and!.
    + apply Forall_app. split; [done|]. constructor; [|constructor]. split; [etrans; [exact Hlim|exact Hl]|etrans; [exact Hwin|exact Hw]].
    + rewrite limiter_after_app. simpl. by rewrite Ht.
    + rewrite register_all_app, Hvs. f_equal. simpl. rewrite Ht, Hacc.
      by destruct (register_request _ now (v_client v)).
    + intros v'. rewrite last_snoc. intros [= <-]. lia.
    + simpl (v_call <$> [v]). unfold v_call at 2. apply ordered_snoc; [done| |].
      * destruct (ordered_last _ _ _ Hord eq_refl) as (v' & Hv' & Hle); [done|]. rewrite Ht.
        specialize (Hlast _ Hv'). lia.
      * intros t c. rewrite fmap_last. destruct (last (v0 :: vs)) as [v'|] eqn:E; [|done].
        intros [= <- _]. rewrite Ht. by apply Hlast.
Qed.

(** ** Effects keep the invariant *)
Lemma set_client_ok l cs w : world_ok w -> dyn_keeps (cs_strategy cs) -> world_ok (set_client l cs w).
Proof.
  intros [Hs Hl] Hk. split; [|done]. intros l' cs'. simpl. destruct (decide (l = l')) as [->|Hne].
  - rewrite lookup_insert_eq. by intros [= <-].
  - rewrite lookup_insert_ne by done. apply Hs.
Qed.

Lemma do_register_ok l lim window client w : world_ok w -> world_ok (do_register l lim window client w).2.
Proof.
  intros [Hs Hl]. unfold do_register. set (rl := limiter_at w l lim window).
  destruct (register_request rl (w_now w) client) as [b rl'] eqn:E. simpl.
  set (v := {| v_limiter := l; v_limit := limit rl; v_window := window_sec rl; v_time := w_now w;
               v_client := client; v_accepted := b |}).
  split; [exact Hs|]. intros l'. simpl. unfold verdicts_at. rewrite filter_app.
  destruct (decide (l = l')) as [->|Hne].
  - rewrite lookup_insert_eq, filter_cons_True by done. rewrite filter_nil.
    pose proof (limiter_record_snoc (w_now w) (w_limiters w !! l') (verdicts_at l' (w_verdicts w)) v (Hl l')) as Hsn.
    assert (default (rate_limiter_new (v_limit v) (v_window v)) (w_limiters w !! l') = rl) as Hrl.
    { subst v rl. unfold limiter_at. simpl. by destruct (w_limiters w !! l'). }
    cbv zeta in Hsn. rewrite Hrl in Hsn. simpl in Hsn. rewrite E in Hsn. by apply Hsn.
  - rewrite lookup_insert_ne by done. rewrite filter_cons_False by done. rewrite filter_nil, app_nil_r. apply Hl.
Qed.

Lemma do_select_ok rng l request ctx w : world_ok w -> world_ok (do_select rng l request ctx w).2.
Proof.
  intros Hw. unfold do_select. destruct (w_clients w !! l) as [cs|] eqn:Hl; [|done].
  destruct (select_backend (cs_strategy cs) rng request ctx) as [o s'] eqn:E. apply set_client_ok; [done|]. simpl.
  pose proof (select_inv (cs_strategy cs) rng request ctx (ok_strategies _ Hw _ _ Hl)) as Hk. by rewrite E in Hk.
Qed.

Lemma handle_ok oracle B (e : effect B) w : world_ok w -> world_ok (handle oracle B e w).2.
Proof.
  intros Hw. destruct e; try exact Hw; [by apply do_register_ok|by destruct Hw|by apply do_select_ok].
Qed.

(** The selections of a world with the invariant name offered backends. *)
Lemma handle_offered oracle B (e : effect B) w :
  draw_ok (o_draw oracle) -> world_ok w -> selection_offered (Obs e (handle oracle B e w).1).
Proof.
  intros Hr Hw. destruct e; try exact I. simpl. unfold do_select.
  destruct (w_clients w !! pool) as [cs|] eqn:Hl; [|exact I].
  destruct (select_backend (cs_strategy cs) (o_draw oracle) request ctx) as [[fw|] s'] eqn:E; [|exact I].
  eapply select_member; [by eapply ok_strategies|exact Hr|exact E].
Qed.

(** ** Allocated state stays allocated *)
Definition extends (w w' : World) : Prop :=
  (forall c, is_Some (w_health w !! c) -> is_Some (w_health w' !! c)) /\
  (forall l, is_Some (w_clients w !! l) -> is_Some (w_clients w' !! l)).

#[export] Instance extends_preorder : PreOrder extends.
Proof. split; [by intros w|]. intros w1 w2 w3 [? ?] [? ?]. split; auto. Qed.

Lemma allocated_extends {B} (e : effect B) w w' : extends w w' -> allocated w e -> allocated w' e.
Proof. intros [Hh Hc]. destruct e; simpl; auto. Qed.

Lemma insert_is_Some {K A} `{Countable K} (m : gmap K A) k k' x : is_Some (m !! k') -> is_Some (<[k := x]> m !! k').
Proof. intros Hk. destruct (decide (k = k')) as [->|?]; [rewrite lookup_insert_eq; eauto|by rewrite lookup_insert_ne]. Qed.

Lemma union_is_Some {K A} `{Countable K} (m m' : gmap K A) k : is_Some ((m ∪ m') !! k) <-> is_Some (m !! k) \/ is_Some (m' !! k).
Proof. rewrite lookup_union_is_Some. done. Qed.

Lemma handle_extends oracle B (e : effect B) w : extends w (handle oracle B e w).2.
Proof.
  destruct e; try (by split); simpl.
  - unfold do_register. by destruct (register_request _ _ _).
  - split; [|done]. intros c. simpl. apply insert_is_Some.
  - unfold do_select. destruct (w_clients w !! pool) as [cs|]; [|done].
    destruct (select_backend _ _ _ _) as [o s']. split; [done|]. intros l. simpl. apply insert_is_Some.
Qed.

(** ** Pools *)
Definition pool_allocated (w : World) (p : BackendPool) : Prop :=
  is_Some (w_clients w !! pool p) /\ forall i, (i < length (addresses p))%nat -> is_Some (w_health w !! (pool p, i)).

Lemma pool_allocated_extends w w' p : extends w w' -> pool_allocated w p -> pool_allocated w' p.
Proof. intros [Hh Hc] [Hp Hi]. split; auto. Qed.

Lemma pool_flags_lookup p i address : addresses p !! i = Some address -> pool_flags p !! (pool p, i) = Some address.2.
Proof.
  intros Ha. apply elem_of_list_to_map_1.
  - rewrite fmap_imap. apply NoDup_alt. intros j1 j2 c. rewrite !list_lookup_imap.
    intros (a & _ & ->)%fmap_Some (b & _ & Heq)%fmap_Some. simpl in Heq. congruence.
  - apply elem_of_lookup_imap. eauto.
Qed.

Lemma alloc_pool_extends w p : extends w (alloc_pool w p).
Proof. split; intros c Hc; simpl; apply union_is_Some; by left. Qed.

Lemma alloc_pool_allocated w p : pool_allocated (alloc_pool w p) p.
Proof.
  split; simpl.
  - apply union_is_Some. right. rewrite lookup_singleton_eq. eauto.
  - intros i [a Ha]%lookup_lt_is_Some. apply union_is_Some. right. rewrite (pool_flags_lookup _ _ _ Ha). eauto.
Qed.

Lemma alloc_pool_ok w p : world_ok w -> dyn_keeps (strategy p) -> world_ok (alloc_pool w p).
Proof.
  intros [Hs Hl] Hk. split; [|done]. intros l cs. simpl. intros [Hc|[_ Hc]]%lookup_union_Some_raw; [by eapply Hs|].
  apply lookup_singleton_Some in Hc as [_ <-]. exact Hk.
Qed.

Lemma alloc_pools_spec w ps :
  extends w (alloc_pools w ps) /\ Forall (pool_allocated (alloc_pools w ps)) ps /\
  (world_ok w -> Forall (fun p => dyn_keeps (strategy p)) ps -> world_ok (alloc_pools w ps)).
Proof.
  unfold alloc_pools. revert w. induction ps as [|p ps IH]; intros w; simpl; [by split_and!|].
  destruct (IH (alloc_pool w p)) as (He & Ha & Hok). split_and!.
  - etrans; [apply alloc_pool_extends|done].
  - constructor; [|done]. eapply pool_allocated_extends; [exact He|]. apply alloc_pool_allocated.
  - intros Hw [Hk Hks]%Forall_cons. apply Hok; [by apply alloc_pool_ok|done].
Qed.

(** The steps of a pool's client keep the strategy's contract. *)
Lemma client_step_keeps (cs cs' : ClientState DynStrategy) :
  client_step cs cs' -> dyn_keeps (cs_strategy cs) -> dyn_keeps (cs_strategy cs').
Proof.
  intros [E c tcp req _|c i|c rng request ctx] Hk.
  - unfold connector_call. destruct tcp; [|done]. pose proof (tcp_open_inv (cs_strategy c) req Hk) as Ho.
    by destruct (on_tcp_open (cs_strategy c) req) as [[?|] s'].
  - unfold stream_drop. destruct (cs_streams c !! i) as [u|]; [|done].
    pose proof (tcp_close_inv (cs_strategy c) u Hk) as Ho. by destruct (on_tcp_close (cs_strategy c) u) as [o s'].
  - by apply select_inv.
Qed.

(** ** A request that runs alone *)

(** The flags of a pool now. *)
Definition flags_now (w : World) (p : BackendPool) : list Healthiness :=
  imap (fun i _ => default Healthy (w_health w !! (pool p, i))) (addresses p).

(** Reference: the backends of the best class, in one look at the flags. *)
Definition rank (h : Healthiness) : nat := match h with Healthy => 0 | Slow _ => 1 | Unresponsive _ => 2 end.

Definition best_rank (hs : list Healthiness) : nat := foldr (fun h r => rank h `min` r)%nat 2%nat hs.

Definition best_addresses (w : World) (p : BackendPool) : list string :=
  let hs := flags_now w p in
  kept (fun h => (rank h <? 2)%nat && (rank h =? best_rank hs)%nat) (addresses p) hs.

Definition serve_snapshot (oracle : Oracle) (self : MainService) (shared : SharedData) (request : Request) (w : World) :
  outcome Response * World :=
  match respond_to_challenge (acme_handler shared) request, pool_by_req shared request (service_scheme self) with
  | Some response, _ => (Returned response, w)
  | None, None => (Returned not_found, w)
  | None, Some p =>
      match best_addresses w p with
      | [] => (Returned bad_gateway, w)
      | working =>
          let ctx := {| client_address := service_client_address self; backend_addresses := working |} in
          let '(selected, w') := do_select (o_draw oracle) (pool p) request ctx w in
          match selected with
          | Panic => (Panic, w')
          | Returned fw =>
              exec (handle oracle) (forward_request_to_backend fw request (chain p) (service_scheme self)
                (service_client_address self)) w'
          end
      end
  end.

Lemma exec_bind {A C} oracle (p : handler A) (f : A -> handler C) w :
  exec (handle oracle) (prog_bind p f) w =
  let '(o, w') := exec (handle oracle) p w in
  match o with Returned a => exec (handle oracle) (f a) w' | Panic => (Panic, w') end.
Proof.
  revert w. induction p as [a| |B e k IH]; intros w; simpl; [done..|].
  destruct (handle oracle B e w) as [b w']. apply IH.
Qed.

Lemma exec_filter_addresses oracle l keep i addrs w :
  (forall j, (j < length addrs)%nat -> is_Some (w_health w !! (l, (i + j)%nat))) ->
  exec (handle oracle) (filter_addresses l keep i addrs) w =
  (Returned (kept keep addrs (imap (fun j _ => default Healthy (w_health w !! (l, (i + j)%nat))) addrs)), w).
Proof.
  revert i. induction addrs as [|[a h0] addrs IH]; intros i Ha; [done|]. cbn [filter_addresses].
  destruct (Ha 0%nat) as [h Hh]; [simpl; lia|]. rewrite Nat.add_0_r in Hh.
  cbn [prog_bind perform exec handle]. rewrite Hh. simpl. rewrite exec_bind, IH.
  2: { intros j Hj. specialize (Ha (S j)). rewrite Nat.add_succ_r in Ha. apply Ha. simpl. lia. }
  simpl. rewrite Nat.add_0_r, Hh. simpl. unfold kept. simpl. rewrite filter_cons. simpl.
  do 2 f_equal. rewrite (imap_ext _ ((fun j _ => default Healthy (w_health w !! (l, (i + j)%nat))) ∘ S)).
  2: { intros j x _. simpl. by rewrite Nat.add_succ_r. }
  by destruct (keep h).
Qed.

Lemma best_rank_le hs h : h ∈ hs -> (best_rank hs <= rank h)%nat.
Proof. induction 1 as [h hs|h h' hs _ IH]; simpl; lia. Qed.

Lemma best_rank_cases hs : best_rank hs = 2%nat \/ exists h, h ∈ hs /\ rank h = best_rank hs.
Proof.
  induction hs as [|h hs IH]; [by left|]. simpl. destruct (decide (rank h <= best_rank hs)%nat) as [Hle|Hgt].
  - right. exists h. split; [by left|lia].
  - rewrite Nat.min_r by lia. destruct IH as [?|(h' & ? & ?)]; [by left|]. right. exists h'. split; [by right|done].
Qed.

Lemma kept_cons keep a h0 l h hs :
  kept keep ((a, h0) :: l) (h :: hs) = (if keep h then [a] else []) ++ kept keep l hs.
Proof. unfold kept. simpl. rewrite filter_cons. simpl. by destruct (keep h). Qed.

Lemma kept_ext keep keep' l hs : (forall h, h ∈ hs -> keep h = keep' h) -> kept keep l hs = kept keep' l hs.
Proof.
  revert hs. induction l as [|[a h0] l IH]; intros [|h hs] Hk; try done. rewrite !kept_cons, (Hk h) by (by left).
  f_equal. apply IH. intros h' Hh'. apply Hk. by right.
Qed.

Lemma kept_some keep l hs h : length hs = length l -> h ∈ hs -> keep h = true -> kept keep l hs <> [].
Proof.
  revert hs. induction l as [|[a h0] l IH]; intros [|h' hs] Hlen Hin Hk; try done; [by apply elem_of_nil in Hin|].
  rewrite kept_cons. apply elem_of_cons in Hin as [->|Hin]; [by rewrite Hk|].
  intros [_ Hn]%app_nil. eapply IH; [|done..]. by injection Hlen.
Qed.

(** Two passes over unchanged flags find the backends of the best class. *)
Lemma best_two_passes l hs :
  length hs = length l ->
  kept (fun h => (rank h <? 2)%nat && (rank h =? best_rank hs)%nat) l hs =
  match kept is_healthy l hs with [] => kept is_slow l hs | healthy => healthy end.
Proof.
  intros Hlen. destruct (kept is_healthy l hs) as [|a rest] eqn:Hk.
  - assert (forall h, h ∈ hs -> rank h <> 0%nat) as Hnone.
    { intros h Hh Hr. apply (kept_some is_healthy l hs h Hlen Hh); [by destruct h|done]. }
    apply kept_ext. intros h Hh. pose proof (best_rank_le _ _ Hh) as Hle.
    destruct h as [|time|status]; [by destruct (Hnone Healthy Hh)| |done]. simpl in *.
    assert (best_rank hs = 1%nat) as ->; [|done].
    destruct (best_rank_cases hs) as [Hb|(h' & Hh' & Hb)]; [lia|]. specialize (Hnone h' Hh'). lia.
  - rewrite <-Hk. apply kept_ext. intros h Hh. assert (best_rank hs = 0%nat) as ->; [|by destruct h].
    destruct (kept_elem is_healthy l hs a) as (j & h0 & h' & _ & Hj & Hh'); [rewrite Hk; by left|].
    apply list_elem_of_lookup_2 in Hj. pose proof (best_rank_le _ _ Hj). destruct h'; try done. simpl in *. lia.
Qed.

Lemma exec_working_addresses oracle p w :
  pool_allocated w p -> exec (handle oracle) (working_addresses p) w = (Returned (best_addresses w p), w).
Proof.
  intros [_ Ha]. unfold working_addresses, best_addresses.
  rewrite best_two_passes by (unfold flags_now; by rewrite length_imap).
  rewrite exec_bind, exec_filter_addresses by done.
  change (imap _ (addresses p)) with (flags_now w p).
  destruct (kept is_healthy (addresses p) (flags_now w p)) as [|a l]; [|done]. by apply exec_filter_addresses.
Qed.

(** C11: A request that is handled while nothing else changes the shared state gives
    exactly the response and the state of the reference, which looks at the flags
    once: the strategy is offered all backends of the best class (healthy before slow,
    never unresponsive), and the selected one is used; so the two passes of the code, and
    the separate reads of each flag, only matter under concurrency. *)
Theorem call_is_serve_snapshot oracle self shared request w :
  Forall (pool_allocated w) (backend_pools shared) ->
  exec (handle oracle) (call self shared request) w = serve_snapshot oracle self shared request w.
Proof.
  intros Hall. unfold call, serve_snapshot. destruct (respond_to_challenge _ _); [done|].
  destruct (pool_by_req shared request (service_scheme self)) as [p|] eqn:Hp; [|done].
  rewrite Forall_forall in Hall. rewrite exec_bind, exec_working_addresses by (by eapply Hall, pool_by_req_elem).
  destruct (best_addresses w p) as [|a working]; [done|]. cbn [prog_bind perform exec handle].
  destruct (do_select _ _ _ _ _) as [[fw|] w']; [|done]. by rewrite exec_bind.
Qed.

End World.

(** ** Witness: one backend is down *)
#[local] Existing Instance http_model.
#[local] Existing Instance sample_regex.
#[local] Existing Instance sample_url.
#[local] Existing Instance lhm_model.

Definition quiet_oracle : Oracle := {| o_answer B := effect_default; o_draw := sample_draw |}.

Definition degraded_world : World :=
  set_health (0, 0)%nat (Unresponsive None) (alloc_pools (world_new 0) [example_pool Empty]).

Lemma degraded_allocated : Forall (pool_allocated degraded_world) [example_pool Empty].
Proof.
  destruct (alloc_pools_spec (world_new 0) [example_pool Empty]) as (_ & Ha & _).
  apply (Forall_impl _ _ _ Ha). intros p. apply pool_allocated_extends. split; [|done].
  intros c. simpl. apply insert_is_Some.
Qed.

Lemma call_is_serve_snapshot_witness :
  best_addresses degraded_world (example_pool Empty) = ["b:1"] /\
  exec (handle quiet_oracle) (call example_service example_shared example_request) degraded_world =
  serve_snapshot quiet_oracle example_service example_shared example_request degraded_world.
Proof.
  split; [vm_compute; reflexivity|].
  exact (call_is_serve_snapshot quiet_oracle example_service example_shared example_request degraded_world degraded_allocated).
Defined.
