(* ===== verification/Tls.v ===== *)
(** * Certificates: [tls.rs] *)
From S2P Require Import Prelude RustStd.

(** [io::ErrorKind], as far as the program makes or passes them on. *)
Inductive ErrorKind : Type :=
| InvalidData
| InvalidInput
| NotFound
| BrokenPipe
| Other
| OsError (code : Z).

(** [rustls] and [webpki]. *)
Class TlsCrate := {
  TlsCertificate : Type;
  PrivateKey : Type;
  SigningKey : Type;
  (** [pemfile::certs], [pemfile::rsa_private_keys], [RSASigningKey::new] *)
  pem_certs : string -> option (list TlsCertificate);
  pem_rsa_private_keys : string -> option (list PrivateKey);
  rsa_signing_key : PrivateKey -> option SigningKey;
  (** [DNSNameRef::try_from_ascii_str], to the owned name *)
  dns_name : string -> option string;
}.

Section Tls.
Context `{TC : TlsCrate}.

Record CertifiedKey := { cert : list TlsCertificate; key : SigningKey }.

(** [File::open]: an error, or a file; [None] is a file that cannot be read. *)
Context (open_file : string -> result (option string) ErrorKind).

(** The parsers of [pemfile] read the file, so a failed read is one of their errors. *)
Definition load_certs (path : string) : result (list TlsCertificate) ErrorKind :=
  let? file := open_file path in
  ok_or_else (reader ← file; pem_certs reader) InvalidData.

Definition load_keys (path : string) : result (list PrivateKey) ErrorKind :=
  let? file := open_file path in
  ok_or_else (reader ← file; pem_rsa_private_keys reader) InvalidData.

(** [keys.remove(0)] panics on an empty vector. *)
Definition load_key (path : string) : outcome (result PrivateKey ErrorKind) :=
  match load_keys path with
  | Ok keys => Ok <$> index keys 0
  | Err e => Returned (Err e)
  end.

Definition load_certified_key (certificate_path private_key_path : string) :
  outcome (result CertifiedKey ErrorKind) :=
  match load_certs certificate_path with
  | Err e => Returned (Err e)
  | Ok certificates =>
      private_key ← load_key private_key_path;
      Returned (let? private_key := private_key in
                let? private_key := ok_or_else (rsa_signing_key private_key) InvalidData in
                Ok {| cert := certificates; key := private_key |})
  end.

(** An ACME certificate is its PEM chain and the DER of its private key. *)
Definition certified_key_from_acme_certificate (pem : string) (der : PrivateKey) : result CertifiedKey ErrorKind :=
  let? certificates := ok_or_else (pem_certs pem) InvalidData in
  let? private_key := ok_or_else (rsa_signing_key der) InvalidData in
  Ok {| cert := certificates; key := private_key |}.

(** [ReconfigurableCertificateResolver::resolve]; the certificates are read from
    the current configuration. *)
Definition resolve (certificates : gmap string CertifiedKey) (server_name : option string) : option CertifiedKey :=
  match server_name with
  | Some name => certificates !! name
  | None => None
  end.

(** C39: Loading a certificate gives a key pair exactly when both files can be read,
    parse as PEM, the key file holds an RSA key and the first one is usable; it
    panics exactly when the key file parses but holds no RSA key (and the
    certificates load); everything else is an error, that of opening a file or
    [InvalidData]. *)
Theorem load_certified_key_cases certificate_path private_key_path :
  (forall ck, load_certified_key certificate_path private_key_path = Returned (Ok ck) <->
     exists certs_pem keys_pem k keys,
       open_file certificate_path = Ok (Some certs_pem) /\ pem_certs certs_pem = Some (cert ck) /\
       open_file private_key_path = Ok (Some keys_pem) /\ pem_rsa_private_keys keys_pem = Some (k :: keys) /\
       rsa_signing_key k = Some (key ck)) /\
  (load_certified_key certificate_path private_key_path = Panic <->
     exists certs_pem certs keys_pem,
       open_file certificate_path = Ok (Some certs_pem) /\ pem_certs certs_pem = Some certs /\
       open_file private_key_path = Ok (Some keys_pem) /\ pem_rsa_private_keys keys_pem = Some []) /\
  (forall e, load_certified_key certificate_path private_key_path = Returned (Err e) ->
     e = InvalidData \/ open_file certificate_path = Err e \/ open_file private_key_path = Err e).
Proof.
  unfold load_certified_key, load_certs, load_key, load_keys, ok_or_else.
  destruct (open_file certificate_path) as [[c|]|e] eqn:Ec; simpl; [|naive_solver..].
  destruct (pem_certs c) as [certs|] eqn:Ep; [|naive_solver].
  destruct (open_file private_key_path) as [[k|]|e] eqn:Ek; simpl; [|naive_solver..].
  destruct (pem_rsa_private_keys k) as [[|k0 keys]|] eqn:Er; simpl; [naive_solver| |naive_solver].
  destruct (rsa_signing_key k0) as [sk|] eqn:Es; [|naive_solver]. split; [|naive_solver].
  intros ck. split; [intros [= <-]; by exists c, k, k0, keys|].
  intros (? & ? & ? & ? & ? & ? & ? & ? & ?). simplify_eq. destruct ck. simpl in *. congruence.
Qed.

End Tls.
