(* ===== verification/Configuration.v ===== *)
(** * Configuration: [configuration.rs]

    From the deserialized TOML configuration to the running one; the reload loop
    is in Watch.  Deserialization itself ([serde], [toml]) is a parameter: a function
    from the text of the file to the typed configuration. *)
From S2P Require Import Prelude RustStd Http HttpModel Pom LoadBalancing StickyCookie Strategy Matcher Effects.
From S2P Require Import Events Middleware RateLimiter Compression MaxBodySize HttpsRedirector Toml CustomErrorPages.
From S2P Require Import Authentication Pool Acme Server Tls.

Local Open Scope Z_scope.

(** What the middlewares use of other crates. *)
Class MiddlewareCrates `{Http} := {
  mc_encode : Encoding -> Body -> Body;
  mc_from_header : string -> option Credentials;
  mc_to_str_error : string;
}.

(** What the standard library leaves open for the strategies. *)
Class StdHash := {
  ip_hasher : IpAddr -> Z;
  hash_map_iter : gmap string Z -> list (string * Z);
}.

Section Middlewares.
Context `{HT : Http} `{MC : !MiddlewareCrates}.

(** ** [TryFrom<(String, Value)> for Box<dyn Middleware>]

    [self] is where the limiter's state is allocated: a table has one entry per
    name, so one location per chain is enough. *)

(** [i64] to [u64]. *)
Definition u64_try_from (z : Z) : option Z := if decide (0 <= z) then Some z else None.

Definition middleware_try_from (self : loc) (name : string) (payload : Value) : result Middleware unit :=
  match payload with
  | VTable t =>
      if decide (name = "RateLimiter") then
        let? limit := ok_or_else (v ← table_get t "limit"; z ← as_integer v; u64_try_from z) tt in
        let? window_sec := ok_or_else (v ← table_get t "window_sec"; z ← as_integer v; u64_try_from z) tt in
        Ok (boxed (rate_limiter self limit window_sec))
      else if decide (name = "Authentication") then
        let? ldap_address := ok_or_else (v ← table_get t "ldap_address"; as_str v) tt in
        let? user_directory := ok_or_else (v ← table_get t "user_directory"; as_str v) tt in
        let? rdn_identifier := ok_or_else (v ← table_get t "rdn_identifier"; as_str v) tt in
        let? recursive := ok_or_else (v ← table_get t "recursive"; as_bool v) tt in
        Ok (boxed (authentication mc_from_header
              {| ldap_address := ldap_address; user_directory := user_directory;
                 rdn_identifier := rdn_identifier; recursive := recursive |}))
      else if decide (name = "Compression") then Ok (compression mc_encode)
      else if decide (name = "HttpsRedirector") then Ok (boxed (https_redirector mc_to_str_error))
      else if decide (name = "MaxBodySize") then
        let? limit := ok_or_else (v ← table_get t "limit"; as_integer v) tt in
        Ok (boxed (max_body_size limit))
      else if decide (name = "CustomErrorPages") then
        let? pages := custom_error_pages_try_from t in
        Ok (boxed (custom_error_pages pages))
      else Err tt
  | _ =>
      if decide (name = "Compression") then Ok (compression mc_encode)
      else if decide (name = "HttpsRedirector") then Ok (boxed (https_redirector mc_to_str_error))
      else Err tt
  end.

(** ** [From<Table> for MiddlewareChain]: the loop over the reversed entries *)
Definition chain_from (self : loc) (other : Table) : MiddlewareChain :=
  foldl (fun chain entry =>
           match middleware_try_from self entry.1 entry.2 with
           | Ok middleware => Entry middleware chain
           | Err _ => chain
           end) Empty (reverse other).

(** A chain as a list. *)
Fixpoint chain_list (chain : MiddlewareChain) : list Middleware :=
  match chain with Empty => [] | Entry m chain => m :: chain_list chain end.

(** C27: The chain of a table holds the middlewares of its valid entries in the
    order of the file; entries with an unknown name or an invalid payload are left
    out and do not affect the others. *)
Theorem chain_from_order self table :
  chain_list (chain_from self table) = omap (fun entry => ok (middleware_try_from self entry.1 entry.2)) table.
Proof.
  unfold chain_from. rewrite foldl_reverse_foldr. induction table as [|entry table IH]; [done|].
  simpl. destruct (middleware_try_from self entry.1 entry.2); simpl; by rewrite ?IH.
Qed.

(** ** Every configured middleware forwards at most once, to the selected backend *)
Lemma middleware_try_from_forwards self name payload m :
  middleware_try_from self name payload = Ok m -> forwards_once m /\ keeps_target m /\ local_mw m.
Proof.
  assert (forall q, quiet q -> local_modifier q -> forwards_once (boxed q) /\ keeps_target (boxed q) /\ local_mw (boxed q)) as Hq.
  { intros q Hquiet Hlocal. split_and!; [by apply quiet_forwards_once|by apply quiet_keeps_target|by apply local_boxed]. }
  unfold middleware_try_from, ok_or_else.
  intros H. repeat (case_match; try discriminate H); injection H as <-; auto with arlb.
Qed.

Lemma chain_from_all (P : Middleware -> Prop) self table :
  (forall entry m, entry ∈ table -> middleware_try_from self entry.1 entry.2 = Ok m -> P m) ->
  chain_all P (chain_from self table).
Proof.
  unfold chain_from. rewrite foldl_reverse_foldr. induction table as [|entry table IH]; [done|]. intros HP. simpl.
  destruct (middleware_try_from self entry.1 entry.2) eqn:E; simpl.
  - split; [eapply HP; [by left|done]|]. apply IH. intros. eapply HP; [by right|done].
  - apply IH. intros. eapply HP; [by right|done].
Qed.

Lemma chain_from_forwards self table :
  chain_all forwards_once (chain_from self table) /\ chain_all keeps_target (chain_from self table) /\
  chain_all local_mw (chain_from self table).
Proof. split_and!; apply chain_from_all; intros entry m _ (? & ? & ?)%middleware_try_from_forwards; done. Qed.

End Middlewares.

Section Configuration.
Context `{HT : Http} `{RX : RegexCrate} `{UC : UrlCrate} `{PC : Pom} `{CK : CookieCrate} `{MC : !MiddlewareCrates}
  `{SH : StdHash} `{TC : TlsCrate}.

(** ** The typed configuration file *)
Record ClientConfig := { pool_idle_timeout : option Z; pool_max_idle_per_host : option Z }.

Record HealthTomlConfig := { toml_slow_threshold : Z; toml_timeout : Z; toml_path : string }.

Definition default_slow_threshold : Z := 300.
Definition default_timeout : Z := 500.
Definition default_path : string := "/".

Definition default_health_config : HealthTomlConfig :=
  {| toml_slow_threshold := default_slow_threshold; toml_timeout := default_timeout; toml_path := default_path |}.

Record BackendPoolConfig := {
  cfg_matcher : string;
  cfg_addresses : list string;
  cfg_schemes : list Scheme;
  cfg_client : option ClientConfig;
  cfg_health_config : HealthTomlConfig;
  cfg_strategy : LoadBalancingStrategyConfig;
  cfg_middlewares : Table;
}.

Inductive CertificateConfig : Type :=
| Local (certificate_path private_key_path : string)
| ACME (staging : bool) (email persist_dir : string).

(** The entries of [certificates] are in the order in which the [HashMap] yields
    them; [health_interval] is its field [check_every]. *)
Record TomlConfig := {
  toml_http_address : string;
  toml_https_address : string;
  toml_backend_pools : list BackendPoolConfig;
  toml_certificates : list (string * CertificateConfig);
  toml_health_interval : Z;
}.

Definition default_http_address : string := "[::]:80".
Definition default_https_address : string := "[::]:443".
Definition default_health_interval_config : Z := 10.

(** ** [TomlConfig::print_warnings] *)
Inductive Warning : Type :=
| NoBackendPool
| NoSchemes (index : nat)
| NoAddresses (index : nat)
| HttpAddressNeedsRestart (address : SocketAddr)
| HttpsAddressNeedsRestart (address : SocketAddr)
| ReloadFailed (e : ErrorKind)
| Deleted (path : string).

Definition is_empty {A} (l : list A) : bool := match l with [] => true | _ => false end.

Definition print_warnings (self : TomlConfig) : list Warning :=
  (if is_empty (toml_backend_pools self) then [NoBackendPool] else []) ++
  concat (imap (fun i p =>
    (if is_empty (cfg_schemes p) then [NoSchemes i] else []) ++
    (if is_empty (cfg_addresses p) then [NoAddresses i] else [])) (toml_backend_pools self)).

(** ** [From<BackendPoolConfig> for BackendPool], allocated at [l] *)
Definition backend_pool_from (l : loc) (other : BackendPoolConfig) : outcome BackendPool :=
  matcher ← matcher_from_string (cfg_matcher other);
  let addresses := (fun address => (address, Healthy)) <$> cfg_addresses other in
  let health_toml_config := cfg_health_config other in
  let strategy := strategy_from ip_hasher hash_map_iter (cfg_strategy other) in
  let chain := chain_from l (cfg_middlewares other) in
  let health_config := {| slow_threshold := toml_slow_threshold health_toml_config;
                          timeout := toml_timeout health_toml_config;
                          health_path := toml_path health_toml_config |} in
  let builder := builder_new matcher addresses health_config strategy chain (cfg_schemes other) in
  let builder :=
    match cfg_client other with
    | Some client =>
        let builder := match pool_idle_timeout client with
                       | Some d => set_pool_idle_timeout builder d
                       | None => builder
                       end in
        match pool_max_idle_per_host client with
        | Some n => set_pool_max_idle_per_host builder n
        | None => builder
        end
    | None => builder
    end in
  Returned (build builder l).

(** The pools of a configuration, allocated from [next] on. *)
Fixpoint backend_pools_from (next : loc) (others : list BackendPoolConfig) : outcome (list BackendPool) :=
  match others with
  | [] => Returned []
  | other :: others =>
      p ← backend_pool_from next other;
      ps ← backend_pools_from (S next) others;
      Returned (p :: ps)
  end.

(** ** The running configuration

    [acme_handler] is one shared object for all configurations; the record holds
    its state when the configuration was made. *)
Record RuntimeConfig := {
  http_address : SocketAddr;
  https_address : SocketAddr;
  shared_data : SharedData;
  certificates : gmap string CertifiedKey;
  health_interval : Z;
}.

(** The surroundings of a read of the configuration: files, the parser of the
    standard library for socket addresses, [serde], the ACME server, and the check of
    a certificate against a name. *)
Record Environment := {
  env_read_file : string -> result string ErrorKind;
  env_open_file : string -> result (option string) ErrorKind;
  env_parse_socket_addr : string -> option SocketAddr;
  env_from_str : string -> option TomlConfig;
  env_canonical_dir : string -> result string ErrorKind;
  env_acme : string -> string -> string ->
    AcmeSession (Certificate := string * PrivateKey) (Error := ErrorKind);
  env_valid_days_left : string * PrivateKey -> Z;
  env_cross_check : CertifiedKey -> string -> bool;
}.

Definition create_certified_key (env : Environment) (config_dir : string) (config : CertificateConfig)
  (sni_name : string) (handler : AcmeHandler) : outcome (result CertifiedKey ErrorKind) * AcmeHandler :=
  let '(certified_key, handler) :=
    match config with
    | Local certificate_path private_key_path =>
        (load_certified_key (env_open_file env) (path_join config_dir certificate_path) (path_join config_dir private_key_path),
         handler)
    | ACME staging email persist_dir =>
        let '(o, handler) :=
          initiate_challenge (env_valid_days_left env) (fun _ => Other) handler staging
            (env_acme env (path_join config_dir persist_dir) email sni_name) in
        (certificate ← o;
         Returned (let? certificate := map_err (fun _ => Other) certificate in
                   certified_key_from_acme_certificate certificate.1 certificate.2),
         handler)
    end in
  (certified_key ← certified_key;
   Returned (let? certified_key := certified_key in
             if env_cross_check env certified_key sni_name then Ok certified_key else Err InvalidData),
   handler).

Definition is_acme (c : CertificateConfig) : bool := match c with ACME _ _ _ => true | _ => false end.

(** The loop over the certificates. *)
Fixpoint create_certificates (env : Environment) (config_dir : string) (init_acme : bool)
  (certs : list (string * CertificateConfig)) (acc : gmap string CertifiedKey) (handler : AcmeHandler) :
  outcome (result (gmap string CertifiedKey) ErrorKind) * AcmeHandler :=
  match certs with
  | [] => (Returned (Ok acc), handler)
  | (sni_name, config) :: certs =>
      match dns_name sni_name with
      | None => (Returned (Err InvalidData), handler)
      | Some name =>
          if init_acme || negb (is_acme config) then
            match create_certified_key env config_dir config name handler with
            | (Panic, handler) => (Panic, handler)
            | (Returned (Err e), handler) => (Returned (Err e), handler)
            | (Returned (Ok key), handler) =>
                create_certificates env config_dir init_acme certs (<[name := key]> acc) handler
            end
          else create_certificates env config_dir init_acme certs acc handler
      end
  end.

Definition runtime_config_from_toml_config (env : Environment) (next : loc) (config_dir : string)
  (other : TomlConfig) (handler : AcmeHandler) (init_acme : bool) :
  outcome (result RuntimeConfig ErrorKind) * AcmeHandler :=
  match env_parse_socket_addr env (toml_http_address other), env_parse_socket_addr env (toml_https_address other) with
  | Some http_address, Some https_address =>
      match backend_pools_from next (toml_backend_pools other) with
      | Panic => (Panic, handler)
      | Returned backend_pools =>
          match create_certificates env config_dir init_acme (toml_certificates other) ∅ handler with
          | (Panic, handler) => (Panic, handler)
          | (Returned (Err e), handler) => (Returned (Err e), handler)
          | (Returned (Ok certificates), handler) =>
              (Returned (Ok {| http_address := http_address; https_address := https_address;
                               shared_data := {| backend_pools := backend_pools; acme_handler := handler |};
                               certificates := certificates;
                               health_interval := toml_health_interval other |}), handler)
          end
      end
  | _, _ => (Returned (Err InvalidData), handler)
  end.

(** [TomlConfig::read], with the warnings it prints. *)
Definition toml_config_read (env : Environment) (path : string) : result TomlConfig ErrorKind * list Warning :=
  match (let? toml_str := env_read_file env path in ok_or_else (env_from_str env toml_str) InvalidData) with
  | Ok config => (Ok config, print_warnings config)
  | Err e => (Err e, [])
  end.

Definition read_runtime_config (env : Environment) (next : loc) (path : string) (handler : AcmeHandler)
  (init_acme : bool) : outcome (result RuntimeConfig ErrorKind) * AcmeHandler * list Warning :=
  let '(config, warnings) := toml_config_read env path in
  match config with
  | Err e => (Returned (Err e), handler, warnings)
  | Ok config =>
      match env_canonical_dir env path with
      | Err e => (Returned (Err e), handler, warnings)
      | Ok config_dir =>
          let '(o, handler) := runtime_config_from_toml_config env next config_dir config handler init_acme in
          (o, handler, warnings)
      end
  end.

(** ** [read_initial_config]: ACME certificates are left out, because nothing
    listens for the challenges yet *)
Definition read_initial_config (env : Environment) (path : string) :
  outcome (result RuntimeConfig ErrorKind) * AcmeHandler * list Warning :=
  read_runtime_config env 0 path acme_handler_new false.

(** ** Invariant of the running configuration *)
Lemma backend_pool_from_spec l other p :
  backend_pool_from l other = Returned p ->
  pool p = l /\ chain p = chain_from l (cfg_middlewares other) /\
  (addresses p).*1 = cfg_addresses other /\ Forall (fun a => a.2 = Healthy) (addresses p) /\
  schemes p = cfg_schemes other /\ matcher_from_string (cfg_matcher other) = Returned (matcher p) /\
  strategy p = strategy_from ip_hasher hash_map_iter (cfg_strategy other).
Proof.
  unfold backend_pool_from. destruct (matcher_from_string (cfg_matcher other)) as [m|]; [|done]. simpl.
  assert (((fun address : string => (address, Healthy)) <$> cfg_addresses other).*1 = cfg_addresses other) as Ha.
  { rewrite <-list_fmap_compose. apply list_fmap_id. }
  assert (Forall (fun a => a.2 = Healthy) ((fun address : string => (address, Healthy)) <$> cfg_addresses other)) as Hh.
  { apply Forall_fmap. by apply Forall_true. }
  intros [= <-]. by destruct (cfg_client other) as [[[] []]|].
Qed.

Lemma backend_pools_from_spec next others ps :
  backend_pools_from next others = Returned ps ->
  pool <$> ps = seq next (length ps) /\
  Forall (fun p => chain_all forwards_once (chain p) /\ chain_all keeps_target (chain p)) ps /\
  Forall (fun p => chain_all local_mw (chain p)) ps /\
  Forall (fun p => dyn_keeps (strategy p)) ps /\ Forall (fun p => Forall (fun a => a.2 = Healthy) (addresses p)) ps.
Proof.
  revert next ps. induction others as [|other others IH]; intros next ps; simpl; [by intros [= <-]|].
  destruct (backend_pool_from next other) as [p|] eqn:Hp; simpl; [|done].
  destruct (backend_pools_from (S next) others) as [ps'|] eqn:Hps; simpl; [|done]. intros [= <-].
  apply backend_pool_from_spec in Hp as (Hl & Hc & _ & Hh & _ & _ & Hs).
  destruct (IH _ _ Hps) as (Hpool & Hall & Hlocal & Hkeep & Hhealthy).
  destruct (chain_from_forwards next (cfg_middlewares other)) as (? & ? & ?).
  rewrite fmap_cons, Hl, Hpool. split_and!; [done|constructor; [|done]..]; rewrite ?Hc; try done.
  rewrite Hs. apply strategy_from_keeps.
Qed.

(** What holds of every configuration that is ever active: the chains send at most
    one request, to the selected backend, and leave the shared state of pools alone; the
    strategies keep their contract; all addresses start as healthy; the pools have
    distinct locations, allocated before [next]. *)
Definition config_ok (next : loc) (config : RuntimeConfig) : Prop :=
  chains_forward (shared_data config) /\ chains_local (shared_data config) /\
  Forall (fun p => dyn_keeps (strategy p)) (backend_pools (shared_data config)) /\
  Forall (fun p => Forall (fun a => a.2 = Healthy) (addresses p)) (backend_pools (shared_data config)) /\
  NoDup (pool <$> backend_pools (shared_data config)) /\
  Forall (fun l => (l < next)%nat) (pool <$> backend_pools (shared_data config)).

Lemma read_runtime_config_ok env next path handler init_acme config handler' warnings :
  read_runtime_config env next path handler init_acme = (Returned (Ok config), handler', warnings) ->
  config_ok (next + length (backend_pools (shared_data config))) config /\
  Forall (fun l => (next <= l)%nat) (pool <$> backend_pools (shared_data config)).
Proof.
  unfold read_runtime_config, runtime_config_from_toml_config. intros H.
  repeat (case_match; simplify_eq/=; try discriminate H).
  destruct (backend_pools_from_spec _ _ _ ltac:(eassumption)) as (Hp & Hc & Hl & Hs & Hh).
  unfold config_ok, chains_forward, chains_local. simpl. rewrite Hp. split_and!; [done..|apply NoDup_seq| |];
    apply Forall_forall; intros l ?%elem_of_seq; lia.
Qed.

(** ** Certificates *)

(** The entries for which a certificate is made. *)
Definition wanted (init_acme : bool) (entry : string * CertificateConfig) : bool :=
  init_acme || negb (is_acme entry.2).

Lemma create_certificates_names env dir init_acme entries acc handler certs handler' :
  create_certificates env dir init_acme entries acc handler = (Returned (Ok certs), handler') ->
  Forall (fun entry => is_Some (dns_name entry.1)) entries /\
  forall name, is_Some (certs !! name) <->
    is_Some (acc !! name) \/ exists entry, entry ∈ entries /\ wanted init_acme entry = true /\ dns_name entry.1 = Some name.
Proof.
  revert acc handler. induction entries as [|[sni config] entries IH]; intros acc handler; simpl.
  { intros [= <- <-]. split; [constructor|]. intros name. split; [by left|]. intros [?|(? & []%elem_of_nil & _)]; done. }
  destruct (dns_name sni) as [name0|] eqn:Hd; [|done].
  destruct (init_acme || negb (is_acme config)) eqn:Hw.
  - destruct (create_certified_key env dir config name0 handler) as [[[k|e]|] h] eqn:Hk; try done.
    intros [Hf Hall]%IH. split; [constructor; [simpl; by rewrite Hd|done]|]. intros name. rewrite Hall.
    destruct (decide (name0 = name)) as [->|Hne].
    + rewrite lookup_insert_eq. split; [|eauto]. intros _. right. exists (sni, config). split; [by left|done].
    + rewrite lookup_insert_ne by done. setoid_rewrite elem_of_cons. naive_solver.
  - intros [Hf Hall]%IH. split; [constructor; [simpl; by rewrite Hd|done]|]. intros name. rewrite Hall.
    setoid_rewrite elem_of_cons. split; [naive_solver|]. intros [?|(entry & [->|?] & Hw' & ?)]; [by left| |eauto 6].
    unfold wanted in Hw'. simpl in Hw'. congruence.
Qed.

(** C38: A configuration that loads has only valid names in [certificates], and
    holds a certificate for exactly the configured names: at start-up those with
    local files, since nothing answers ACME challenges yet, and after every reload, of
    which the first happens at once, the ACME ones as well. *)
Theorem certificates_configured env next path handler init_acme config handler' warnings text toml :
  env_read_file env path = Ok text -> env_from_str env text = Some toml ->
  read_runtime_config env next path handler init_acme = (Returned (Ok config), handler', warnings) ->
  Forall (fun entry => is_Some (dns_name entry.1)) (toml_certificates toml) /\
  forall name, is_Some (certificates config !! name) <->
    exists sni c, (sni, c) ∈ toml_certificates toml /\ dns_name sni = Some name /\
      (init_acme = true \/ is_acme c = false).
Proof.
  intros Hfile Htoml. unfold read_runtime_config, toml_config_read. rewrite Hfile. simpl. rewrite Htoml. simpl.
  destruct (env_canonical_dir env path) as [dir|e]; [|done]. unfold runtime_config_from_toml_config.
  destruct (env_parse_socket_addr env (toml_http_address toml)); [|done].
  destruct (env_parse_socket_addr env (toml_https_address toml)); [|done].
  destruct (backend_pools_from next (toml_backend_pools toml)); [|done].
  destruct (create_certificates env dir init_acme (toml_certificates toml) ∅ handler) as [[[certs|e]|] h] eqn:Hc; try done.
  intros [= <- <- <-]. apply create_certificates_names in Hc as [Hf Hall]. split; [done|]. intros name. simpl.
  rewrite Hall, lookup_empty. split.
  - intros [[? ?]|([sni c] & Hin & Hw & Hd)]; [done|]. exists sni, c. split_and!; try done.
    unfold wanted in Hw. simpl in Hw. apply orb_true_iff in Hw as [?|?%negb_true_iff]; auto.
  - intros (sni & c & Hin & Hd & Hor). right. exists (sni, c). split_and!; try done. unfold wanted. simpl.
    destruct Hor as [->| ->]; [done|]. apply orb_true_r.
Qed.

(** ** Reloads that go wrong *)
Lemma backend_pools_from_panics next others other :
  other ∈ others -> matcher_from_string (cfg_matcher other) = Panic -> backend_pools_from next others = Panic.
Proof.
  intros Hin Hm. revert next. induction others as [|other' others IH]; intros next; [by apply elem_of_nil in Hin|].
  simpl. apply elem_of_cons in Hin as [<-|Hin].
  - unfold backend_pool_from. by rewrite Hm.
  - destruct (backend_pool_from next other'); simpl; [|done]. by rewrite IH.
Qed.

End Configuration.

(** ** Witnesses *)
#[local] Existing Instance http_model.
#[local] Existing Instance sample_regex.
#[local] Existing Instance sample_url.
#[local] Existing Instance pom_model.
#[local] Existing Instance cookie_model.

#[local] Instance sample_crates : MiddlewareCrates :=
  {| mc_encode := sample_encode; mc_from_header := sample_from_header; mc_to_str_error := "" |}.
#[local] Instance sample_hash : StdHash := {| ip_hasher _ := 7; hash_map_iter := map_to_list |}.
#[local] Instance sample_tls : TlsCrate := {|
  TlsCertificate := string; PrivateKey := string; SigningKey := string;
  pem_certs s := Some [s]; pem_rsa_private_keys s := Some [s]; rsa_signing_key := Some; dns_name := Some |}.

Definition sample_pool_config (m : string) : BackendPoolConfig := {|
  cfg_matcher := m; cfg_addresses := ["a:1"]; cfg_schemes := [HTTP]; cfg_client := None;
  cfg_health_config := default_health_config; cfg_strategy := CRoundRobin;
  cfg_middlewares := [("Compression", VTable []); ("RateLimiter", VTable [("limit", VInteger 2); ("window_sec", VInteger 10)])] |}.

(** The second file has a matcher with three operands and no brackets. *)
Definition sample_toml (text : string) : option TomlConfig :=
  Some {| toml_http_address := default_http_address; toml_https_address := default_https_address;
          toml_backend_pools := [sample_pool_config (if decide (text = "good") then "Host('a')"
                                                     else "Host('a') && Host('a') && Host('a')")];
          toml_certificates := [("a.org", Local "a.cer" "a.key"); ("b.org", ACME false "me@b.org" "certs")];
          toml_health_interval := default_health_interval_config |}.

Definition sample_addr : SocketAddr := {| sa_ip := V6 0; sa_port := 80 |}.

Definition sample_env (text : string) : Environment := {|
  env_read_file _ := Ok text; env_open_file _ := Ok (Some text); env_parse_socket_addr _ := Some sample_addr; env_from_str := sample_toml;
  env_canonical_dir _ := Ok "/etc"; env_valid_days_left _ := 1; env_cross_check _ _ := true;
  env_acme _ _ _ := {| create_dir_all := Ok tt; directory_from_url _ := Ok tt; account := Ok tt;
                       certificate := Ok (Some ("pem", "der")); new_order := Err Other |} |}.

Definition sample_config : RuntimeConfig := {|
  http_address := sample_addr; https_address := sample_addr;
  shared_data := {| backend_pools := default [] (match backend_pools_from 0 [sample_pool_config "Host('a')"] with
                                                 | Returned ps => Some ps | Panic => None end);
                    acme_handler := acme_handler_new |};
  certificates := {[ "a.org" := {| cert := ["good"]; key := "good" : SigningKey |} ]};
  health_interval := default_health_interval_config |}.

Lemma sample_reads : read_initial_config (sample_env "good") "lb.toml" = (Returned (Ok sample_config), acme_handler_new, []).
Proof. reflexivity. Qed.

Lemma certificates_configured_witness :
  is_Some (certificates sample_config !! "a.org") /\ ~ is_Some (certificates sample_config !! "b.org").
Proof.
  destruct (certificates_configured (sample_env "good") 0 "lb.toml" acme_handler_new false sample_config
    acme_handler_new [] "good" _ eq_refl eq_refl sample_reads) as [_ Hall].
  split.
  - apply Hall. exists "a.org", (Local "a.cer" "a.key"). split_and!; [by left|done|by right].
  - rewrite Hall. intros (sni & c & Hin & Hd & Hor). injection Hd as ->. simpl in Hin.
    rewrite !elem_of_cons, elem_of_nil in Hin. destruct Hor; naive_solver.
Defined.

