(* ===== verification/Watch.v ===== *)
(** * The reload loop: [watch_config] and its helpers of [configuration.rs]

    A thread receives file events from [notify] and sends them over a [watch] channel of
    tokio; the task [watch_config] takes them and reloads the configuration.  Thread and
    task run concurrently; the channel is an interface with its documented behaviour. *)
From S2P Require Import Prelude RustStd Http HttpModel Pom LoadBalancing StickyCookie Strategy Matcher Effects.
From S2P Require Import Events Middleware RateLimiter Compression MaxBodySize HttpsRedirector Toml CustomErrorPages.
From S2P Require Import Authentication Pool Acme Server Tls Configuration.

Local Open Scope Z_scope.

(** ** Errors, of which the kind is kept *)
Definition broken_pipe : ErrorKind := BrokenPipe.
Definition not_found_error : ErrorKind := NotFound.
Definition other : ErrorKind := Other.

(** [notify::Error]. *)
Inductive NotifyError : Type :=
| Generic
| NotifyIo (e : ErrorKind)
| PathNotFound
| WatchNotFound.

Definition map_notify_error (error : NotifyError) : ErrorKind :=
  match error with
  | Generic => other
  | NotifyIo e => e
  | PathNotFound => not_found_error
  | WatchNotFound => not_found_error
  end.

(** ** The [watch] channel of tokio

    [WatchCrate] has the operations of [tokio::sync::watch] that the code uses, on
    the state of a channel with one receiver: [changed] is [None] while it has to wait. *)
Class WatchCrate := {
  Channel : Type -> Type;
  watch_channel : forall {A}, A -> Channel A;
  watch_send : forall {A}, Channel A -> A -> Channel A;
  watch_drop_sender : forall {A}, Channel A -> Channel A;
  watch_borrow : forall {A}, Channel A -> A;
  watch_changed : forall {A}, Channel A -> option (result (Channel A) unit);
  (** the newest value is not marked as seen; the sender is alive *)
  watch_unseen : forall {A}, Channel A -> bool;
  watch_open : forall {A}, Channel A -> bool;
}.

(** The documentation: the channel keeps the last value; [changed] marks an unseen newest
    value as seen and returns at once, otherwise it waits until a value is sent or the
    sender is dropped, which is its only error; the initial value counts as seen. *)
Class WatchLaws `{WatchCrate} : Prop := {
  watch_borrow_channel {A} (a : A) : watch_borrow (watch_channel a) = a;
  watch_borrow_send {A} (c : Channel A) a : watch_borrow (watch_send c a) = a;
  watch_borrow_drop {A} (c : Channel A) : watch_borrow (watch_drop_sender c) = watch_borrow c;
  watch_unseen_channel {A} (a : A) : watch_unseen (watch_channel a) = false;
  watch_unseen_send {A} (c : Channel A) a : watch_unseen (watch_send c a) = true;
  watch_unseen_drop {A} (c : Channel A) : watch_unseen (watch_drop_sender c) = watch_unseen c;
  watch_open_channel {A} (a : A) : watch_open (watch_channel a) = true;
  watch_open_send {A} (c : Channel A) a : watch_open (watch_send c a) = watch_open c;
  watch_open_drop {A} (c : Channel A) : watch_open (watch_drop_sender c) = false;
  watch_changed_unseen {A} (c : Channel A) :
    watch_unseen c = true -> exists c', watch_changed c = Some (Ok c') /\
      watch_borrow c' = watch_borrow c /\ watch_unseen c' = false /\ watch_open c' = watch_open c;
  watch_changed_seen {A} (c : Channel A) :
    watch_unseen c = false -> watch_changed c = if watch_open c then None else Some (Err tt);
}.

Section Watch.
Context `{HT : Http} `{RX : RegexCrate} `{UC : UrlCrate} `{PC : Pom} `{CK : CookieCrate} `{MC : !MiddlewareCrates}
  `{SH : StdHash} `{TC : TlsCrate} `{WC : WatchCrate}.

Definition warn_about_ineffectual_config_changes (old new : RuntimeConfig) : list Warning :=
  (if decide (http_address old <> http_address new) then [HttpAddressNeedsRestart (http_address new)] else []) ++
  (if decide (https_address old <> https_address new) then [HttpsAddressNeedsRestart (https_address new)] else []).

(** ** State *)
Inductive DebouncedEvent : Type :=
| WriteEvent (path : string)
| RemoveEvent (path : string)
| OtherEvent.

(** Where the thread of [watch_config_blocking] is: in [watcher], in [watcher.watch], in
    [receiver.recv()], or returned. *)
Inductive ThreadPhase : Type :=
| ThreadCreating
| ThreadWatching
| ThreadReceiving
| ThreadReturned (r : result unit ErrorKind).

(** Where the task of [watch_config] is: at the [match] on the channel's value, in
    [receiver.changed()], returned with an error, or panicked. *)
Inductive TaskPhase : Type :=
| TaskMatching
| TaskWaiting
| TaskReturned (e : ErrorKind)
| TaskPanicked.

Record WatchState := {
  ws_config : RuntimeConfig;
  ws_acme : AcmeHandler;
  ws_next : loc;
  ws_channel : Channel DebouncedEvent;
  ws_thread : ThreadPhase;
  ws_task : TaskPhase;
  ws_log : list Warning;
}.

(** [start_config_watcher]: the channel starts with a write event for the path,
    which the first iteration processes. *)
Definition watch_start (path : string) (config : RuntimeConfig) (log : list Warning) : WatchState := {|
  ws_config := config; ws_acme := acme_handler (shared_data config);
  ws_next := length (backend_pools (shared_data config)); ws_channel := watch_channel (WriteEvent path);
  ws_thread := ThreadCreating; ws_task := TaskMatching; ws_log := log |}.

Definition with_thread (st : WatchState) (thread : ThreadPhase) (channel : Channel DebouncedEvent) : WatchState := {|
  ws_config := ws_config st; ws_acme := ws_acme st; ws_next := ws_next st; ws_channel := channel;
  ws_thread := thread; ws_task := ws_task st; ws_log := ws_log st |}.

Definition with_task (st : WatchState) (task : TaskPhase) (channel : Channel DebouncedEvent) : WatchState := {|
  ws_config := ws_config st; ws_acme := ws_acme st; ws_next := ws_next st; ws_channel := channel;
  ws_thread := ws_thread st; ws_task := task; ws_log := ws_log st |}.

(** ** The thread of [watch_config_blocking] *)

(** The answers of [notify], and of the receiver of its events. *)
Inductive NotifyAnswer : Type :=
| WatcherCreated (r : result unit NotifyError)
| WatcherWatches (r : result unit NotifyError)
| EventReceived (r : result DebouncedEvent unit).

(** The receiver of the channel is dropped with the task. *)
Definition task_over (task : TaskPhase) : bool :=
  match task with TaskReturned _ | TaskPanicked => true | _ => false end.

(** Returning drops [async_sender]. *)
Definition thread_returns (st : WatchState) (e : ErrorKind) : WatchState :=
  with_thread st (ThreadReturned (Err e)) (watch_drop_sender (ws_channel st)).

(** [watch_config_blocking] from one answer to the next; [None] for an answer to
    another question.  [send] fails when the receiver is gone. *)
Definition watch_config_blocking (st : WatchState) (answer : NotifyAnswer) : option WatchState :=
  match ws_thread st, answer with
  | ThreadCreating, WatcherCreated r =>
      Some (match map_err map_notify_error r with
            | Ok _ => with_thread st ThreadWatching (ws_channel st)
            | Err e => thread_returns st e
            end)
  | ThreadWatching, WatcherWatches r =>
      Some (match map_err map_notify_error r with
            | Ok _ => with_thread st ThreadReceiving (ws_channel st)
            | Err e => thread_returns st e
            end)
  | ThreadReceiving, EventReceived r =>
      Some (match r with
            | Err _ => thread_returns st broken_pipe
            | Ok evt =>
                if task_over (ws_task st) then thread_returns st broken_pipe
                else with_thread st ThreadReceiving (watch_send (ws_channel st) evt)
            end)
  | _, _ => None
  end.

(** ** The task of [watch_config] *)

(** The state after the [match] on the value of the channel. *)
Definition watch_done (st : WatchState) (config : RuntimeConfig) (handler : AcmeHandler) (next : loc)
  (warnings : list Warning) : WatchState := {|
  ws_config := config; ws_acme := handler; ws_next := next; ws_channel := ws_channel st;
  ws_thread := ws_thread st; ws_task := TaskWaiting; ws_log := ws_log st ++ warnings |}.

(** One iteration of the loop up to [changed].  The borrow of the value holds the
    channel's lock, so nothing is sent in between. *)
Definition watch_process (env : Environment) (st : WatchState) : outcome WatchState :=
  match watch_borrow (ws_channel st) with
  | WriteEvent path =>
      match read_runtime_config env (ws_next st) path (ws_acme st) true with
      | (Returned (Ok new_config), handler, warnings) =>
          Returned (watch_done st new_config handler
                      (ws_next st + length (backend_pools (shared_data new_config)))
                      (warnings ++ warn_about_ineffectual_config_changes (ws_config st) new_config))
      | (Returned (Err e), handler, warnings) =>
          Returned (watch_done st (ws_config st) handler (ws_next st) (warnings ++ [ReloadFailed e]))
      | (Panic, _, _) => Panic
      end
  | RemoveEvent path => Returned (watch_done st (ws_config st) (ws_acme st) (ws_next st) [Deleted path])
  | OtherEvent => Returned (watch_done st (ws_config st) (ws_acme st) (ws_next st) [])
  end.

(** [watch_config] from one await to the next; [None] while it has to wait, or is over. *)
Definition watch_config (env : Environment) (st : WatchState) : option WatchState :=
  match ws_task st with
  | TaskMatching =>
      Some (match watch_process env st with
            | Returned st' => st'
            | Panic => with_task st TaskPanicked (ws_channel st)
            end)
  | TaskWaiting =>
      changed ← watch_changed (ws_channel st);
      Some (match map_err (fun _ => broken_pipe) changed with
            | Ok channel => with_task st TaskMatching channel
            | Err e => with_task st (TaskReturned e) (ws_channel st)
            end)
  | TaskReturned _ | TaskPanicked => None
  end.

(** Thread and task. *)
Inductive watch_step : WatchState -> WatchState -> Prop :=
| step_thread st answer st' : watch_config_blocking st answer = Some st' -> watch_step st st'
| step_task st env st' : watch_config env st = Some st' -> watch_step st st'.

(** ** The running configuration *)
Lemma watch_thread_keeps st answer st' :
  watch_config_blocking st answer = Some st' ->
  ws_config st' = ws_config st /\ ws_next st' = ws_next st /\ ws_task st' = ws_task st.
Proof.
  unfold watch_config_blocking, thread_returns. destruct (ws_thread st), answer as [[]|[]|[]]; try done;
    intros [= <-]; try done. by destruct (task_over _).
Qed.

(** A step keeps the configuration or replaces it by one with fresh pools. *)
Lemma watch_step_config st st' :
  watch_step st st' ->
  (ws_config st' = ws_config st /\ ws_next st' = ws_next st) \/
  (config_ok (ws_next st') (ws_config st') /\ (ws_next st <= ws_next st')%nat /\
   Forall (fun l => (ws_next st <= l)%nat) (pool <$> backend_pools (shared_data (ws_config st')))).
Proof.
  destruct 1 as [st answer st' (-> & -> & _)%watch_thread_keeps|st env st' Hc]; [by left|].
  unfold watch_config in Hc. destruct (ws_task st); [..|done|done].
  - destruct (watch_process env st) as [st1|] eqn:Hp; injection Hc as <-; [|by left].
    unfold watch_process in Hp. destruct (watch_borrow (ws_channel st)); [|injection Hp as <-; by left..].
    destruct (read_runtime_config _ _ _ _ _) as [[[[new|e]|] h] w] eqn:Hr; simplify_eq/=; [|by left].
    right. apply read_runtime_config_ok in Hr as [Hok Hfresh]. split_and!; [done|lia|done].
  - left. destruct (watch_changed (ws_channel st)) as [[c|e]|]; simplify_eq/=; done.
Qed.

Lemma watch_step_ok st st' :
  watch_step st st' -> config_ok (ws_next st) (ws_config st) -> config_ok (ws_next st') (ws_config st').
Proof. intros [[-> ->]|(? & _)]%watch_step_config; done. Qed.

Lemma watch_start_ok env path config handler log :
  read_initial_config env path = (Returned (Ok config), handler, log) ->
  config_ok (ws_next (watch_start path config log)) config.
Proof. by intros [? _]%read_runtime_config_ok. Qed.

(** ** Reloads that go wrong *)

(** A matcher that does not parse does not make a reload fail with an error
    that keeps the old configuration: it panics, and with the task of the reload
    loop the whole program ends. *)
Theorem reload_invalid_matcher_panics env st path text toml dir http https pool_config :
  watch_borrow (ws_channel st) = WriteEvent path -> env_read_file env path = Ok text ->
  env_from_str env text = Some toml -> env_canonical_dir env path = Ok dir ->
  env_parse_socket_addr env (toml_http_address toml) = Some http ->
  env_parse_socket_addr env (toml_https_address toml) = Some https ->
  pool_config ∈ toml_backend_pools toml -> matcher_from_string (cfg_matcher pool_config) = Panic ->
  watch_process env st = Panic.
Proof.
  intros Hslot Hfile Htoml Hdir Hhttp Hhttps Hin Hm. unfold watch_process. rewrite Hslot.
  unfold read_runtime_config, toml_config_read. rewrite Hfile. simpl. rewrite Htoml. simpl. rewrite Hdir.
  unfold runtime_config_from_toml_config. rewrite Hhttp, Hhttps.
  by rewrite (backend_pools_from_panics _ _ pool_config).
Qed.

Section Laws.
Context `{WL : !WatchLaws}.

(** The channel between the file watcher and the reload loop keeps only the last
    event: when a write is followed by another event before the loop looks, the loop goes
    back to waiting with the old configuration, and the write is never processed. *)
Theorem watch_may_miss_write env st path :
  ws_task st = TaskWaiting -> ws_thread st = ThreadReceiving -> watch_open (ws_channel st) = true ->
  exists st1 st2 st3 st4, watch_config_blocking st (EventReceived (Ok (WriteEvent path))) = Some st1 /\
    watch_config_blocking st1 (EventReceived (Ok OtherEvent)) = Some st2 /\
    watch_config env st2 = Some st3 /\ watch_config env st3 = Some st4 /\
    ws_config st4 = ws_config st /\ ws_task st4 = TaskWaiting /\ watch_config env st4 = None.
Proof.
  intros Ht Hth Ho. set (st1 := with_thread st ThreadReceiving (watch_send (ws_channel st) (WriteEvent path))).
  set (c := watch_send (ws_channel st1) OtherEvent).
  destruct (watch_changed_unseen c) as (c' & Hc & Hb & Hu & Hop); [apply watch_unseen_send|].
  exists st1, (with_thread st1 ThreadReceiving c), (with_task (with_thread st1 ThreadReceiving c) TaskMatching c').
  eexists. split_and!.
  - unfold watch_config_blocking. by rewrite Hth, Ht.
  - unfold watch_config_blocking. simpl. by rewrite Ht.
  - unfold watch_config. simpl. rewrite Ht. by rewrite Hc.
  - unfold watch_config, watch_process. simpl. unfold c in Hb. by rewrite Hb, watch_borrow_send.
  - done.
  - done.
  - unfold watch_config. simpl. rewrite watch_changed_seen by done. unfold c in Hop. simpl in Hop.
    by rewrite Hop, !watch_open_send, Ho.
Qed.

(** ** The end of the loop *)
Definition watch_inv (st : WatchState) : Prop :=
  match ws_thread st with
  | ThreadReturned r => watch_open (ws_channel st) = false /\ exists e, r = Err e
  | _ => watch_open (ws_channel st) = true
  end /\
  match ws_task st with
  | TaskReturned e => e = BrokenPipe /\ exists r, ws_thread st = ThreadReturned r
  | _ => True
  end.

Lemma watch_thread_inv st answer st' :
  watch_config_blocking st answer = Some st' -> watch_inv st -> watch_inv st'.
Proof.
  intros Hb [Hth Ht]. pose proof (watch_thread_keeps _ _ _ Hb) as (_ & _ & Htask).
  assert (match ws_thread st with ThreadReturned _ => False | _ => True end) as Hrun.
  { unfold watch_config_blocking in Hb. by destruct (ws_thread st). }
  assert (match ws_task st with TaskReturned _ => False | _ => True end) as Hgo.
  { destruct (ws_task st); try done. destruct Ht as (_ & r & Hr). by rewrite Hr in Hrun. }
  split; [|rewrite Htask; by destruct (ws_task st)].
  assert (watch_open (watch_drop_sender (ws_channel st)) = false) as Hd by apply watch_open_drop.
  unfold watch_config_blocking in Hb.
  destruct (ws_thread st), answer as [[]|[]|[]]; try done; injection Hb as <-; simpl; eauto.
  destruct (task_over (ws_task st)); simpl; [split; [apply Hd|by eexists]|]. by rewrite watch_open_send.
Qed.

Lemma watch_task_inv env st st' : watch_config env st = Some st' -> watch_inv st -> watch_inv st'.
Proof.
  intros Hc [Hth Ht]. unfold watch_config in Hc. destruct (ws_task st) eqn:Et; [..|done|done].
  - assert (ws_channel st' = ws_channel st /\ ws_thread st' = ws_thread st /\
      match ws_task st' with TaskReturned _ => False | _ => True end) as (Hch & Htr & Htk).
    { destruct (watch_process env st) as [st1|] eqn:Hp; injection Hc as <-; [|done].
      unfold watch_process in Hp. by repeat case_match; simplify_eq/=. }
    unfold watch_inv. rewrite Hch, Htr. split; [done|]. by destruct (ws_task st').
  - destruct (watch_unseen (ws_channel st)) eqn:Hu.
    + destruct (watch_changed_unseen _ Hu) as (c' & Hch & _ & _ & Ho). rewrite Hch in Hc. injection Hc as <-.
      split; [|done]. simpl. by rewrite Ho.
    + rewrite watch_changed_seen in Hc by done. destruct (watch_open (ws_channel st)) eqn:Ho; [done|].
      injection Hc as <-. split; simpl; [by rewrite Ho|]. split; [done|]. destruct (ws_thread st); try done. eauto.
Qed.

Lemma watch_reachable_inv path config log st :
  rtc watch_step (watch_start path config log) st -> watch_inv st.
Proof.
  apply (rtc_ind_r watch_inv); [split; [apply watch_open_channel|done]|].
  intros s1 s2 _ [? ? ? Hb|? ? ? Hc] Hi; [by eapply watch_thread_inv|by eapply watch_task_inv].
Qed.

(** The task alone, in environments that change between its steps. *)
Definition task_run (envs : list Environment) (st : WatchState) : WatchState :=
  foldl (fun st env => default st (watch_config env st)) st envs.

Definition watch_closing (st : WatchState) : Prop := watch_open (ws_channel st) = false.

Lemma task_over_run envs st : task_over (ws_task st) = true -> task_run envs st = st.
Proof.
  intros Ho. induction envs as [|env envs IH]; [done|]. simpl.
  assert (watch_config env st = None) as ->; [|done]. unfold watch_config. by destruct (ws_task st).
Qed.

(** The steps of the task that are left once the sender is gone. *)
Definition task_steps (st : WatchState) : nat :=
  match ws_task st with
  | TaskMatching => if watch_unseen (ws_channel st) then 4 else 2
  | TaskWaiting => if watch_unseen (ws_channel st) then 3 else 1
  | _ => 0
  end.

Lemma task_step_closing env st :
  watch_closing st -> task_over (ws_task st) = false ->
  exists st', watch_config env st = Some st' /\ watch_closing st' /\ (task_steps st' < task_steps st)%nat /\
    (forall e, ws_task st' = TaskReturned e -> e = BrokenPipe).
Proof.
  unfold watch_closing, task_steps, watch_config. intros Ho Hgo. destruct (ws_task st) eqn:Et; try done.
  - eexists. split; [done|].
    assert (forall st1, watch_process env st = Returned st1 -> ws_channel st1 = ws_channel st /\ ws_task st1 = TaskWaiting)
      as Hp by (intros st1; unfold watch_process; repeat case_match; intros; by simplify_eq/=).
    destruct (watch_process env st) as [st1|]; simpl.
    + destruct (Hp st1) as [-> ->]; [done|]. split_and!; [done| |done]. destruct (watch_unseen _); lia.
    + split_and!; [done| |done]. destruct (watch_unseen _); lia.
  - destruct (watch_unseen (ws_channel st)) eqn:Hu.
    + destruct (watch_changed_unseen _ Hu) as (c' & -> & _ & Hu' & Ho'). eexists. split; [done|]. simpl.
      rewrite Hu', Ho'. split_and!; [done|lia|done].
    + rewrite watch_changed_seen, Ho by done. eexists. split; [done|]. simpl. split_and!; [done|lia|]. by intros e [= <-].
Qed.

Lemma task_run_closing envs st :
  watch_closing st -> (forall e, ws_task st = TaskReturned e -> e = BrokenPipe) -> (task_steps st <= length envs)%nat ->
  ws_task (task_run envs st) = TaskReturned BrokenPipe \/ ws_task (task_run envs st) = TaskPanicked.
Proof.
  revert st. induction envs as [|env envs IH]; intros st Hc He Hn.
  - simpl in *. unfold task_steps in Hn. destruct (ws_task st) eqn:Et; [destruct (watch_unseen _); lia..| |by right].
    left. by rewrite (He e).
  - destruct (task_over (ws_task st)) eqn:Ho.
    + rewrite task_over_run by done. destruct (ws_task st) eqn:Et; try done; [left|by right]. by rewrite (He e).
    + destruct (task_step_closing env st Hc Ho) as (st' & Hs & Hc' & Hlt & He'). simpl. rewrite Hs. simpl.
      apply IH; [done..|]. simpl in Hn. lia.
Qed.

(** C19: The task of the reload loop and the thread that watches the file, in every
    interleaving: the task returns only after the thread has returned, and only with
    [BrokenPipe]; the thread returns only with an error (the watch cannot be set up, its
    event source fails, or the task is gone).  Once the thread has returned, the task ends by
    itself, whatever the file holds: within four of its own steps (those of the iteration it
    is in and of one more for an event that is still unseen) it has returned [BrokenPipe],
    whatever the thread's error was, unless a reload in these steps panicked. *)
Theorem watch_ends_with_thread path config log st :
  rtc watch_step (watch_start path config log) st ->
  (forall e, ws_task st = TaskReturned e -> e = BrokenPipe /\ exists e', ws_thread st = ThreadReturned (Err e')) /\
  (forall r envs, ws_thread st = ThreadReturned r -> (4 <= length envs)%nat ->
     (exists e, r = Err e) /\
     (ws_task (task_run envs st) = TaskReturned BrokenPipe \/ ws_task (task_run envs st) = TaskPanicked)).
Proof.
  intros [Hth Ht]%watch_reachable_inv. split.
  - intros e He. rewrite He in Ht. destruct Ht as (-> & r & Hr). rewrite Hr in Hth. destruct Hth as (_ & e' & ->).
    eauto.
  - intros r envs Hr Hn. rewrite Hr in Hth. destruct Hth as [Ho He]. split; [done|]. apply task_run_closing; [done| |].
    + intros e Het. rewrite Het in Ht. by destruct Ht.
    + unfold task_steps. destruct (ws_task st); try destruct (watch_unseen _); lia.
Qed.

End Laws.
End Watch.

(** ** A concrete channel, and witnesses *)
Definition watch_model : WatchCrate := {|
  Channel A := (A * (bool * bool))%type;
  watch_channel A a := (a, (false, true));
  watch_send A c a := (a, (true, c.2.2));
  watch_drop_sender A c := (c.1, (c.2.1, false));
  watch_borrow A c := c.1;
  watch_changed A c :=
    if c.2.1 then Some (Ok (c.1, (false, c.2.2))) else if c.2.2 then None else Some (Err tt);
  watch_unseen A c := c.2.1;
  watch_open A c := c.2.2 |}.

Lemma watch_model_laws : @WatchLaws watch_model.
Proof. split; try done; intros A [a [u o]] Hu; simpl in *; subst; eauto. Qed.

#[local] Existing Instance watch_model.
#[local] Existing Instance http_model.
#[local] Existing Instance sample_regex.
#[local] Existing Instance sample_url.
#[local] Existing Instance pom_model.
#[local] Existing Instance cookie_model.
#[local] Existing Instance sample_crates.
#[local] Existing Instance sample_hash.
#[local] Existing Instance sample_tls.

Definition sample_watch : WatchState := watch_start "lb.toml" sample_config [].

Lemma reload_invalid_matcher_panics_witness : watch_process (sample_env "bad") sample_watch = Panic.
Proof.
  eapply (reload_invalid_matcher_panics (sample_env "bad") sample_watch "lb.toml");
    try reflexivity; [by left|]. vm_compute. reflexivity.
Defined.

(** After the first iteration, with the watch set up. *)
Definition sample_idle : WatchState :=
  with_thread (watch_done sample_watch sample_config acme_handler_new 1 []) ThreadReceiving (ws_channel sample_watch).

Lemma watch_may_miss_write_witness :
  exists st', ws_config st' = sample_config /\ ws_task st' = TaskWaiting.
Proof.
  destruct (watch_may_miss_write (WL := watch_model_laws) (sample_env "good") sample_idle "lb.toml" eq_refl eq_refl eq_refl)
    as (st1 & st2 & st3 & st4 & _ & _ & _ & _ & Hc & Ht & _).
  exists st4. split; [exact Hc|exact Ht].
Defined.

(** The file to watch does not exist: after the reloads the task returns [BrokenPipe]. *)
Definition sample_unwatched : WatchState :=
  thread_returns (with_thread sample_watch ThreadWatching (ws_channel sample_watch)) NotFound.

Lemma watch_ends_with_thread_witness :
  ws_task (task_run (replicate 4 (sample_env "good")) sample_unwatched) = TaskReturned BrokenPipe.
Proof.
  destruct (watch_ends_with_thread (WL := watch_model_laws) "lb.toml" sample_config [] sample_unwatched) as [_ Hend].
  - eapply rtc_l; [by apply (step_thread _ (WatcherCreated (Ok tt)))|].
    eapply rtc_once. by apply (step_thread _ (WatcherWatches (Err PathNotFound))).
  - destruct (Hend (Err NotFound) (replicate 4 (sample_env "good"))) as [_ [H|H]];
      [reflexivity|simpl; lia|exact H|vm_compute in H; discriminate].
Defined.
