(* ===== verification/System.v ===== *)
(** * The running system

    The request handlers, the health checks, the reload loop, the clients of the pools
    and the clock run concurrently over one World.  A step of the system is one effect
    of one of them; every interleaving is a sequence of [system_step].  The reachable
    states satisfy [system_ok], from which the theorems about single handlers get their
    hypotheses. *)
From S2P Require Import Prelude RustStd Http HttpModel Pom LoadBalancing LeastConnection StickyCookie Strategy Matcher Effects.
From S2P Require Import Events HttpClient Middleware RateLimiter Compression Toml Authentication Pool Health HealthLoop.
From S2P Require Import Acme Server World Tls Configuration Watch.

Local Open Scope Z_scope.

Section System.
Context `{HT : Http} `{RX : RegexCrate} `{UC : UrlCrate} `{PC : Pom} `{CK : CookieCrate} `{MC : !MiddlewareCrates}
  `{SH : StdHash} `{TC : TlsCrate} `{LH : LinkedHashMap} `{WC : WatchCrate}.

(** ** State *)

(** A request being served: the configuration it started with, the effects it has
    performed, and what is left to do. *)
Record Thread := {
  th_service : MainService;
  th_shared : SharedData;
  th_request : Request;
  th_trace : list (obs effect);
  th_rest : handler Response;
}.

Definition spawn (self : MainService) (shared : SharedData) (request : Request) : Thread := {|
  th_service := self; th_shared := shared; th_request := request; th_trace := [];
  th_rest := call self shared request |}.

Definition thread_next (th : Thread) (o : obs effect) (rest : handler Response) : Thread := {|
  th_service := th_service th; th_shared := th_shared th; th_request := th_request th;
  th_trace := th_trace th ++ [o]; th_rest := rest |}.

Record System := {
  s_watch : WatchState;
  s_world : World;
  s_health : HealthPhase;
  s_threads : list Thread;
}.

Definition running (s : System) : RuntimeConfig := ws_config (s_watch s).
Definition running_pools (s : System) : list BackendPool := backend_pools (shared_data (running s)).

Definition system_start (path : string) (config : RuntimeConfig) (log : list Warning) (now : Instant) : System := {|
  s_watch := watch_start path config log;
  s_world := alloc_pools (world_new now) (backend_pools (shared_data config));
  s_health := Top; s_threads := [] |}.

Definition with_world (s : System) (w : World) : System :=
  {| s_watch := s_watch s; s_world := w; s_health := s_health s; s_threads := s_threads s |}.
Definition with_threads (s : System) (ths : list Thread) : System :=
  {| s_watch := s_watch s; s_world := s_world s; s_health := s_health s; s_threads := ths |}.
Definition with_health (s : System) (phase : HealthPhase) : System :=
  {| s_watch := s_watch s; s_world := s_world s; s_health := phase; s_threads := s_threads s |}.

(** A step of the reload loop; the pools of a new configuration get their state. *)
Definition after_watch (s : System) (st : WatchState) : System := {|
  s_watch := st; s_world := alloc_pools (s_world s) (backend_pools (shared_data (ws_config st)));
  s_health := s_health s; s_threads := s_threads s |}.

(** ** Steps *)
Inductive system_step : System -> System -> Prop :=
(** a request arrives; the open ACME challenges are any, since a certificate may be
    requested at the same time *)
| sys_request s self request acme :
    let shared := {| backend_pools := running_pools s; acme_handler := acme |} in
    system_step s (with_threads s (s_threads s ++ [spawn self shared request]))
(** a handler performs its next effect *)
| sys_thread s oracle i th B (e : effect B) k b w :
    draw_ok (o_draw oracle) -> s_threads s !! i = Some th -> th_rest th = Vis e k ->
    handle oracle B e (s_world s) = (b, w) ->
    system_step s (with_threads (with_world s w) (<[i := thread_next th (Obs e b) (k b)]> (s_threads s)))
(** a health check performs its next effect *)
| sys_check s oracle t checks i B (e : effect B) k b w :
    draw_ok (o_draw oracle) -> s_health s = Checking t checks -> checks !! i = Some (Vis e k) ->
    handle oracle B e (s_world s) = (b, w) ->
    system_step s (with_health (with_world s w) (Checking t (<[i := k b]> checks)))
(** the loop of the health checks goes on *)
| sys_health s phase :
    health_advance (w_now (s_world s)) (health_interval (running s)) (running_pools s) (s_health s)
      = Returned (Some phase) ->
    system_step s (with_health s phase)
(** file events and reloads *)
| sys_watch s st : watch_step (s_watch s) st -> system_step s (after_watch s st)
(** connections to backends are opened and closed *)
| sys_client s l cs cs' :
    w_clients (s_world s) !! l = Some cs -> client_step cs cs' ->
    system_step s (with_world s (set_client l cs' (s_world s)))
(** time passes *)
| sys_clock s now : w_now (s_world s) <= now -> system_step s (with_world s (set_now now (s_world s))).

(** ** Invariant *)
Record thread_ok (w : World) (th : Thread) : Prop := {
  ok_chains : chains_forward (th_shared th);
  ok_offered : Forall selection_offered (th_trace th);
  ok_residual tr o : runs (th_rest th) tr o ->
    runs (call (th_service th) (th_shared th) (th_request th)) (th_trace th ++ tr) o;
  ok_rest : effects_in (fun B => allocated w) (th_rest th);
}.

Definition phase_ok (w : World) (phase : HealthPhase) : Prop :=
  match phase with Checking _ checks => Forall (effects_in (fun B => allocated w)) checks | _ => True end.

Record system_ok (s : System) : Prop := {
  ok_world : world_ok (s_world s);
  ok_config : config_ok (ws_next (s_watch s)) (running s);
  ok_pools : Forall (pool_allocated (s_world s)) (running_pools s);
  ok_fresh l : is_Some (w_clients (s_world s) !! l) -> (l < ws_next (s_watch s))%nat;
  ok_fresh_flags l i : is_Some (w_health (s_world s) !! (l, i)) -> is_Some (w_clients (s_world s) !! l);
  ok_threads : Forall (thread_ok (s_world s)) (s_threads s);
  ok_phase : phase_ok (s_world s) (s_health s);
}.

(** ** Growing worlds *)
Lemma effects_allocated_extends {A} w w' (p : handler A) :
  extends w w' -> effects_in (fun B => allocated w) p -> effects_in (fun B => allocated w') p.
Proof. intros He. apply effects_in_mono. intros B e. by apply allocated_extends. Qed.

Lemma thread_ok_extends w w' th : extends w w' -> thread_ok w th -> thread_ok w' th.
Proof. intros He [? ? ? ?]. split; try done. by eapply effects_allocated_extends. Qed.

Lemma phase_ok_extends w w' phase : extends w w' -> phase_ok w phase -> phase_ok w' phase.
Proof.
  intros He. destruct phase; try done. simpl. intros Hall.
  apply (Forall_impl _ _ _ Hall). intros p. by apply effects_allocated_extends.
Qed.

(** ** What is allocated for a request and for a round of checks *)
Lemma filter_addresses_allocated w l keep i addrs :
  (forall j, (j < length addrs)%nat -> is_Some (w_health w !! (l, (i + j)%nat))) ->
  effects_in (fun B => allocated w) (filter_addresses l keep i addrs).
Proof.
  revert i. induction addrs as [|[a h] addrs IH]; intros i Ha; simpl; [done|]. split.
  - specialize (Ha 0%nat). rewrite Nat.add_0_r in Ha. apply Ha. simpl. lia.
  - intros h'. apply effects_in_bind; [|done]. apply IH. intros j Hj. specialize (Ha (S j)).
    rewrite Nat.add_succ_r in Ha. apply Ha. simpl. lia.
Qed.

Lemma chain_effect_allocated w B (e : effect B) : chain_effect B e -> allocated w e.
Proof. by destruct e. Qed.

Lemma call_allocated w self shared request :
  Forall (pool_allocated w) (backend_pools shared) -> chains_local shared ->
  effects_in (fun B => allocated w) (call self shared request).
Proof.
  intros Hal Hch. unfold call. destruct (respond_to_challenge _ _); [done|].
  destruct (pool_by_req shared request (service_scheme self)) as [p|] eqn:Hp; [|done].
  apply pool_by_req_elem in Hp. rewrite Forall_forall in Hal. destruct (Hal p Hp) as [Hc Hh].
  unfold chains_local in Hch. rewrite Forall_forall in Hch. specialize (Hch p Hp).
  assert (forall keep, effects_in (fun B => allocated w) (filter_addresses (pool p) keep 0 (addresses p))) as Hf.
  { intros keep. by apply filter_addresses_allocated. }
  apply effects_in_bind; [apply effects_in_bind; [done|]; intros [|? ?]; [apply Hf|done]|].
  intros [|a working]; [done|]. simpl. split; [done|]. intros selected.
  apply effects_in_bind; [apply effects_in_lift|]. intros fw.
  eapply effects_in_mono; [intros B e; apply chain_effect_allocated|]. by apply forward_request_local.
Qed.

Lemma check_allocated w address c config :
  is_Some (w_health w !! c) -> effects_in (fun B => allocated w) (check_server_health_once address c config).
Proof.
  destruct c as [l i]. intros Hc. apply effects_in_bind; [apply effects_in_lift|]. intros uri. simpl. split; [done|].
  intros previous. split; [done|]. intros answer. apply effects_in_bind.
  - destruct answer as [status|]; [|done]. destruct (is_success status); [|done]. simpl. split; [done|].
    intros elapsed. apply effects_in_bind; [apply effects_in_lift|]. intros time.
    apply effects_in_bind; [apply effects_in_lift|done].
  - intros verdict. by case_decide.
Qed.

Lemma round_allocated w pools :
  Forall (pool_allocated w) pools -> Forall (effects_in (fun B => allocated w)) (health_round pools).
Proof.
  intros Hal. apply Forall_forall. rewrite Forall_forall in Hal. intros c Hc.
  unfold health_round in Hc. apply list_elem_of_bind in Hc as (p & Hc & Hp).
  apply elem_of_lookup_imap in Hc as (i & a & -> & Ha). apply check_allocated. simpl.
  apply (Hal p Hp). by eapply lookup_lt_Some.
Qed.

(** ** Every step keeps the invariant *)

(** A new world for the same configuration and the same programs. *)
Lemma system_ok_world s w :
  system_ok s -> world_ok w -> extends (s_world s) w ->
  (forall l, is_Some (w_clients w !! l) -> is_Some (w_clients (s_world s) !! l)) ->
  (forall c, is_Some (w_health w !! c) -> is_Some (w_health (s_world s) !! c)) ->
  system_ok (with_world s w).
Proof.
  intros [Hw Hc Hp Hf Hff Ht Hph] Hw' He Hdc Hdh. split; simpl; try done.
  - eapply Forall_impl; [exact Hp|]. intros p. by apply pool_allocated_extends.
  - intros l Hl. by apply Hf, Hdc.
  - intros l i Hi. apply He. by eapply Hff, Hdh.
  - eapply Forall_impl; [exact Ht|]. intros th. by apply thread_ok_extends.
  - by eapply phase_ok_extends.
Qed.

(** An allocated effect allocates nothing. *)
Lemma handle_same_domain oracle B (e : effect B) w :
  allocated w e ->
  (forall l, is_Some (w_clients (handle oracle B e w).2 !! l) -> is_Some (w_clients w !! l)) /\
  (forall c, is_Some (w_health (handle oracle B e w).2 !! c) -> is_Some (w_health w !! c)).
Proof.
  intros Ha. destruct e; try done; simpl in *.
  - unfold do_register. by destruct (register_request _ _ _).
  - split; [done|]. intros c. destruct (decide ((pool, address) = c)) as [<-|?]; [done|]. by rewrite lookup_insert_ne.
  - unfold do_select. destruct (w_clients w !! pool) as [cs|] eqn:Hl; [|done].
    destruct (select_backend _ _ _ _) as [o s']. split; [|done]. simpl. intros l.
    destruct (decide (pool = l)) as [<-|?]; [by rewrite Hl|]. by rewrite lookup_insert_ne.
Qed.

Lemma system_ok_handle s oracle B (e : effect B) b w :
  system_ok s -> allocated (s_world s) e -> handle oracle B e (s_world s) = (b, w) -> system_ok (with_world s w).
Proof.
  intros Hs Ha Hh. destruct (handle_same_domain oracle B e (s_world s) Ha) as [Hdc Hdh].
  pose proof (handle_ok oracle B e (s_world s) (ok_world _ Hs)) as Hw.
  pose proof (handle_extends oracle B e (s_world s)) as He. rewrite Hh in Hdc, Hdh, Hw, He.
  by apply system_ok_world.
Qed.

Lemma thread_next_ok w oracle th B (e : effect B) k b w' :
  draw_ok (o_draw oracle) -> world_ok w -> thread_ok w th -> th_rest th = Vis e k ->
  handle oracle B e w = (b, w') -> extends w w' -> thread_ok w' (thread_next th (Obs e b) (k b)).
Proof.
  intros Hd Hw [Hc Ho Hr Hal] Hrest Hh He. rewrite Hrest in Hr, Hal. split; simpl; [done|..].
  - apply Forall_app. split; [done|]. constructor; [|constructor].
    pose proof (handle_offered oracle B e w Hd Hw) as Hoff. by rewrite Hh in Hoff.
  - intros tr o Hk. rewrite <-app_assoc. apply Hr. by exists b, tr.
  - eapply effects_allocated_extends; [done|]. apply Hal.
Qed.

Lemma spawn_ok s self request acme :
  system_ok s ->
  thread_ok (s_world s) (spawn self {| backend_pools := running_pools s; acme_handler := acme |} request).
Proof.
  intros [Hw (Hch & Hlo & _) Hp _ _ _ _]. split; simpl; [done|constructor|done|]. by apply call_allocated.
Qed.

(** Allocation of the pools of a configuration. *)
Lemma alloc_pools_dom w ps :
  (forall l, is_Some (w_clients (alloc_pools w ps) !! l) <-> is_Some (w_clients w !! l) \/ l ∈ pool <$> ps) /\
  (forall l i, is_Some (w_health (alloc_pools w ps) !! (l, i)) -> is_Some (w_health w !! (l, i)) \/ l ∈ pool <$> ps).
Proof.
  unfold alloc_pools. revert w. induction ps as [|p ps IH]; intros w; simpl.
  { split; intros; [|by left]. set_solver. }
  destruct (IH (alloc_pool w p)) as [IHc IHh]. split.
  - intros l. rewrite IHc, elem_of_cons. simpl. rewrite union_is_Some.
    assert (is_Some (({[pool p := client_new (strategy p)]} : gmap loc (ClientState DynStrategy)) !! l) <-> l = pool p) as ->.
    { split; [by intros [? [-> _]%lookup_singleton_Some]|intros ->; rewrite lookup_singleton_eq; eauto]. }
    tauto.
  - intros l i Hl. apply IHh in Hl as [Hl|Hl]; [|right; set_solver]. simpl in Hl.
    apply union_is_Some in Hl as [?|[h Hh]]; [by left|]. right. apply elem_of_list_to_map_2 in Hh.
    apply elem_of_lookup_imap in Hh as (j & a & [= -> ->] & _). set_solver.
Qed.

Lemma after_watch_ok s st : system_ok s -> watch_step (s_watch s) st -> system_ok (after_watch s st).
Proof.
  intros [Hw Hc Hp Hf Hff Ht Hph] Hstep. pose proof (watch_step_ok _ _ Hstep Hc) as Hc'.
  destruct (alloc_pools_spec (s_world s) (backend_pools (shared_data (ws_config st)))) as (He & Ha & Hok).
  destruct (alloc_pools_dom (s_world s) (backend_pools (shared_data (ws_config st)))) as [Hdc Hdh].
  destruct Hc' as (Hch & Hlo & Hk & Hh & Hnd & Hlt). rewrite Forall_forall in Hlt.
  split; simpl; try done.
  - by apply Hok.
  - by split_and!; [..|apply Forall_forall].
  - intros l [Hl|Hl]%Hdc; [|by apply Hlt]. specialize (Hf l Hl).
    apply watch_step_config in Hstep as [[_ ->]|(_ & Hle & _)]; [done|lia].
  - intros l i [Hl|Hl]%Hdh; apply Hdc; [left; by eapply Hff|by right].
  - eapply Forall_impl; [exact Ht|]. intros th. by apply thread_ok_extends.
  - by eapply phase_ok_extends.
Qed.

Lemma system_step_ok s s' : system_step s s' -> system_ok s -> system_ok s'.
Proof.
  intros Hstep Hs. destruct Hstep as [s self request acme shared|s oracle i th B e k b w Hd Hi Hr Hh
    |s oracle t checks i B e k b w Hd Hc Hi Hh|s phase Ha|s st Hst|s l cs cs' Hl Hcs|s now Hn].
  - pose proof (spawn_ok s self request acme Hs). destruct Hs. split; try done. simpl. apply Forall_app. auto.
  - pose proof (ok_threads _ Hs) as Hts. rewrite Forall_lookup in Hts. pose proof (Hts _ _ Hi) as Hth.
    assert (allocated (s_world s) e) as Hal by (pose proof (ok_rest _ _ Hth) as Hrest; rewrite Hr in Hrest; apply Hrest).
    pose proof (handle_extends oracle B e (s_world s)) as He. rewrite Hh in He.
    pose proof (thread_next_ok _ _ _ _ _ _ _ _ Hd (ok_world _ Hs) Hth Hr Hh He) as Hth'.
    destruct (system_ok_handle _ _ _ _ _ _ Hs Hal Hh). split; try done. simpl. by apply Forall_insert.
  - pose proof (ok_phase _ Hs) as Hp. rewrite Hc in Hp. simpl in Hp. rewrite Forall_lookup in Hp.
    destruct (Hp _ _ Hi) as [Hal Hk]. destruct (system_ok_handle _ _ _ _ _ _ Hs Hal Hh). split; try done.
    simpl in ok_phase0 |- *. rewrite Hc in ok_phase0. apply Forall_insert; [done|].
    pose proof (handle_extends oracle B e (s_world s)) as He. rewrite Hh in He.
    eapply effects_allocated_extends; [exact He|]. apply Hk.
  - pose proof (ok_pools _ Hs) as Hp. destruct Hs. split; try done. simpl. unfold health_advance in Ha.
    destruct (s_health s); repeat case_decide; simplify_eq/=; try done; [by apply round_allocated|].
    destruct (existsb is_crashed checks); [done|]. destruct (forallb is_returned checks); [|done]. by injection Ha as <-.
  - by apply after_watch_ok.
  - pose proof (ok_world _ Hs) as Hw. apply system_ok_world; try done.
    + apply set_client_ok; [done|]. eapply client_step_keeps; [done|]. by eapply ok_strategies.
    + split; [done|]. intros l'. simpl. apply insert_is_Some.
    + intros l'. simpl. destruct (decide (l = l')) as [<-|?]; [by rewrite Hl|by rewrite lookup_insert_ne].
  - pose proof (ok_world _ Hs) as [Hst Hli]. apply system_ok_world; try done. split; [done|].
    intros l. specialize (Hli l). simpl. unfold limiter_record in *. destruct (verdicts_at l _); [done|].
    destruct Hli as (? & ? & ? & Hlast & ?). split_and!; try done. intros v' Hv'. specialize (Hlast v' Hv'). lia.
Qed.

(** ** Reachable states *)
Definition reachable (env : Environment) (path : string) (now : Instant) (s : System) : Prop :=
  exists config handler log,
    read_initial_config env path = (Returned (Ok config), handler, log) /\
    rtc system_step (system_start path config log now) s.

Lemma system_start_ok env path config handler log now :
  read_initial_config env path = (Returned (Ok config), handler, log) -> system_ok (system_start path config log now).
Proof.
  intros Hread. pose proof (watch_start_ok _ _ _ _ _ Hread) as Hc.
  destruct (alloc_pools_spec (world_new now) (backend_pools (shared_data config))) as (He & Ha & Hok).
  destruct (alloc_pools_dom (world_new now) (backend_pools (shared_data config))) as [Hdc Hdh].
  pose proof Hc as (_ & _ & Hk & _ & _ & Hlt). rewrite Forall_forall in Hlt.
  split; simpl; try done.
  - apply Hok; [|done]. split; [intros l cs; simpl; by rewrite lookup_empty|]. intros l. simpl. by rewrite lookup_empty.
  - intros l [[? Hl]|Hl]%Hdc; [simpl in Hl; by rewrite lookup_empty in Hl|by apply Hlt].
  - intros l i [[? Hl]|Hl]%Hdh; [simpl in Hl; by rewrite lookup_empty in Hl|]. apply Hdc. by right.
Qed.

Lemma reachable_ok env path now s : reachable env path now s -> system_ok s.
Proof.
  intros (config & handler & log & Hread & Hr). revert Hr. apply (rtc_ind_r system_ok).
  - by eapply system_start_ok.
  - intros s1 s2 _ Hstep. by apply system_step_ok.
Qed.

(** ** Requests *)

(** C1: In the running system, whatever the clients, backends, the files and the clock
    do and however requests, health checks, connections and reloads interleave: every
    request, answered or not yet, has been forwarded at most once, and only to a backend of the
    pool that the configuration of its arrival chooses for it, whose health flag it read
    as healthy or slow, at the scheme http, the configured authority and the client's path
    and query. *)
Theorem system_forwards_once `{!HttpLaws} env path now s th :
  reachable env path now s -> th ∈ s_threads s ->
  (length (backend_calls (th_trace th)) <= 1)%nat /\
  Forall (rightly_sent (th_service th) (th_shared th) (th_request th) (th_trace th)) (backend_calls (th_trace th)).
Proof.
  intros Hr%reachable_ok Hth. pose proof (ok_threads _ Hr) as Hall. rewrite Forall_forall in Hall.
  destruct (Hall th Hth) as [Hch Hoff Hres _].
  destruct (exec_runs (handle {| o_answer B := effect_default; o_draw := fun _ => Panic |})
    (th_rest th) (s_world s)) as [tr Htr].
  apply Hres in Htr. by eapply call_forwards_prefix.
Qed.

(** C12: In the running system every rate limiter implements its specification: the
    verdicts that the limiter of a pool gave so far, to any number of concurrent requests
    in the order in which they took its lock, are those of independent counters per client
    that restart when the client's last request is more than the window old. *)
Theorem system_limiters_refine `{!LinkedHashMapLaws} env path now s l :
  reachable env path now s ->
  match verdicts_at l (w_verdicts (s_world s)) with
  | [] => True
  | (v0 :: _) as vs =>
      Forall (fun v => v_limit v = v_limit v0 /\ v_window v = v_window v0) vs /\
      v_accepted <$> vs = spec_register_all (v_limit v0) (v_window v0) spec_new (v_call <$> vs)
  end.
Proof.
  intros Hr%reachable_ok. pose proof (ok_limiters _ (ok_world _ Hr) l) as Hl. unfold limiter_record in Hl.
  destruct (verdicts_at l _) as [|v0 vs]; [done|]. destruct Hl as (Hcfg & _ & Hacc & _ & Hord). split; [done|].
  rewrite Hacc.
  by apply (register_all_represents (rate_limiter_new (v_limit v0) (v_window v0)) (v_time v0)); [apply represents_new|].
Qed.

(** ** Reloads *)
Lemma alloc_pools_other w ps l :
  l ∉ pool <$> ps ->
  w_clients (alloc_pools w ps) !! l = w_clients w !! l /\
  forall i, w_health (alloc_pools w ps) !! (l, i) = w_health w !! (l, i).
Proof.
  unfold alloc_pools. revert w. induction ps as [|p ps IH]; intros w; simpl; [done|].
  rewrite elem_of_cons. intros Hl. destruct (IH (alloc_pool w p)) as [Hc Hh]; [tauto|]. split.
  - rewrite Hc. simpl. apply lookup_union_l. apply lookup_singleton_None. naive_solver.
  - intros i. rewrite Hh. simpl. apply lookup_union_l. apply not_elem_of_list_to_map_1.
    rewrite fmap_imap. intros (j & a & Heq & _)%elem_of_lookup_imap. simpl in Heq. naive_solver.
Qed.

Lemma alloc_pools_new w ps p i address :
  NoDup (pool <$> ps) -> p ∈ ps -> w_clients w !! pool p = None -> w_health w !! (pool p, i) = None ->
  addresses p !! i = Some address ->
  w_clients (alloc_pools w ps) !! pool p = Some (client_new (strategy p)) /\
  w_health (alloc_pools w ps) !! (pool p, i) = Some address.2.
Proof.
  unfold alloc_pools. revert w. induction ps as [|q ps IH]; intros w; [by intros _ ?%elem_of_nil|].
  rewrite fmap_cons. intros [Hq Hnd]%NoDup_cons [->|Hp]%elem_of_cons Hc Hh Ha; simpl.
  - destruct (alloc_pools_other (alloc_pool w q) ps (pool q) Hq) as [Hc' Hh']. unfold alloc_pools in Hc', Hh'.
    rewrite Hc', Hh'. simpl. rewrite !lookup_union_r by done.
    by rewrite lookup_singleton_eq, (pool_flags_lookup _ _ _ Ha).
  - assert (pool p <> pool q) as Hne. { intros Heq. apply Hq. rewrite <-Heq. by apply list_elem_of_fmap_2. }
    destruct (alloc_pools_other w [q] (pool p)) as [Hc' Hh']; [set_solver|].
    apply IH; try done; [etrans; [exact Hc'|done]|etrans; [apply Hh'|done]].
Qed.

(** C17: A reload starts from scratch: in the new configuration every backend counts as
    healthy until the first check after the reload, whatever its flag was before, and
    every strategy is new, without the connections that are still open; the state of
    the old pools stays as it is for the requests that still use them. *)
Theorem reload_starts_afresh env path now s st p i address :
  reachable env path now s -> watch_step (s_watch s) st -> ws_config st <> running s ->
  p ∈ running_pools (after_watch s st) -> addresses p !! i = Some address ->
  w_health (s_world (after_watch s st)) !! (pool p, i) = Some Healthy /\
  w_clients (s_world (after_watch s st)) !! pool p = Some (client_new (strategy p)) /\
  (forall q, q ∈ running_pools s ->
     pool q <> pool p /\ w_clients (s_world (after_watch s st)) !! pool q = w_clients (s_world s) !! pool q /\
     forall j, w_health (s_world (after_watch s st)) !! (pool q, j) = w_health (s_world s) !! (pool q, j)).
Proof.
  intros Hr%reachable_ok Hstep Hnew Hp Ha.
  destruct (watch_step_config _ _ Hstep) as [[Hsame _]|((_ & _ & _ & Hh & Hnd & _) & _ & Hge)]; [by destruct Hnew|].
  rewrite Forall_forall in Hge. rewrite Forall_forall in Hh.
  assert (forall l, l ∈ pool <$> running_pools (after_watch s st) -> w_clients (s_world s) !! l = None) as Hfresh.
  { intros l Hl. apply eq_None_not_Some. intros Hsome%(ok_fresh _ Hr). specialize (Hge l Hl). lia. }
  assert (pool p ∈ pool <$> running_pools (after_watch s st)) as Hin by (by apply list_elem_of_fmap_2).
  destruct (alloc_pools_new (s_world s) (running_pools (after_watch s st)) p i address) as [Hc Hf]; try done.
  { by apply Hfresh. }
  { apply eq_None_not_Some. intros Hsome%(ok_fresh_flags _ Hr). rewrite (Hfresh _ Hin) in Hsome. by destruct Hsome. }
  specialize (Hh p Hp). rewrite Forall_lookup in Hh. rewrite (Hh _ _ Ha) in Hf. split_and!; [done..|].
  intros q Hq. pose proof (ok_pools _ Hr) as Hall. rewrite Forall_forall in Hall. destruct (Hall q Hq) as [[cs Hcs] _].
  assert (pool q ∉ pool <$> running_pools (after_watch s st)) as Hout. { intros Hl%Hfresh. congruence. }
  split; [intros Heq; apply Hout; by rewrite Heq|]. by apply alloc_pools_other.
Qed.

(** ** Connections *)

(** The client of a pool changes only by its own steps. *)
Lemma handle_clients oracle B (e : effect B) w l cs' :
  w_clients (handle oracle B e w).2 !! l = Some cs' ->
  exists cs, w_clients w !! l = Some cs /\ rtc client_step cs cs'.
Proof.
  destruct e; simpl; try (intros Hl; by exists cs').
  - unfold do_register. destruct (register_request _ _ _). simpl. intros Hl. by exists cs'.
  - unfold do_select. destruct (w_clients w !! pool) as [cs|] eqn:Hl; [|intros Hl'; by exists cs'].
    pose proof (step_select cs (o_draw oracle) request ctx) as Hstep.
    destruct (select_backend (cs_strategy cs) _ request ctx) as [o s']. simpl in *.
    destruct (decide (pool = l)) as [->|Hne]; [|rewrite lookup_insert_ne by done; intros Hl'; by exists cs'].
    rewrite lookup_insert_eq. intros [= <-]. exists cs. split; [done|]. by apply rtc_once.
Qed.

Lemma alloc_pools_keeps w ps l cs :
  w_clients w !! l = Some cs -> w_clients (alloc_pools w ps) !! l = Some cs.
Proof.
  unfold alloc_pools. revert w. induction ps as [|p ps IH]; intros w Hl; simpl; [done|]. apply IH. simpl.
  by apply lookup_union_Some_l.
Qed.

Lemma alloc_pools_client w ps p :
  NoDup (pool <$> ps) -> p ∈ ps -> w_clients w !! pool p = None ->
  w_clients (alloc_pools w ps) !! pool p = Some (client_new (strategy p)).
Proof.
  unfold alloc_pools. revert w. induction ps as [|q ps IH]; intros w; [by intros _ ?%elem_of_nil|].
  rewrite fmap_cons. intros [Hq Hnd]%NoDup_cons [->|Hp]%elem_of_cons Hc; simpl.
  - apply alloc_pools_keeps. simpl. rewrite lookup_union_r by done. by rewrite lookup_singleton_eq.
  - apply IH; [done..|]. simpl. rewrite lookup_union_r by done. apply lookup_singleton_None.
    intros Heq. apply Hq. rewrite Heq. by apply list_elem_of_fmap_2.
Qed.

(** The client of every pool of the running configuration started with the pool. *)
Definition clients_ok (s : System) : Prop :=
  forall p cs, p ∈ running_pools s -> w_clients (s_world s) !! pool p = Some cs ->
    rtc client_step (client_new (strategy p)) cs.

Lemma clients_ok_world s w :
  clients_ok s ->
  (forall l cs', w_clients w !! l = Some cs' -> exists cs, w_clients (s_world s) !! l = Some cs /\ rtc client_step cs cs') ->
  clients_ok (with_world s w).
Proof.
  intros Hs Hw p cs Hp Hl. apply Hw in Hl as (cs0 & Hl & Hr). etrans; [|exact Hr]. by apply Hs.
Qed.

Lemma after_watch_clients s st :
  system_ok s -> watch_step (s_watch s) st -> clients_ok s -> clients_ok (after_watch s st).
Proof.
  intros Hok Hstep Hs p cs Hp. unfold running_pools, running, after_watch in *. simpl in *.
  destruct (watch_step_config _ _ Hstep) as [[Heq _]|((_ & _ & _ & _ & Hnd & _) & _ & Hge)].
  - rewrite Heq in *. pose proof (ok_pools _ Hok) as Hall. rewrite Forall_forall in Hall.
    destruct (Hall p Hp) as [[cs0 Hcs0] _]. rewrite (alloc_pools_keeps _ _ _ _ Hcs0). intros [= <-]. by apply Hs.
  - rewrite alloc_pools_client; [by intros [= <-]|done..|].
    apply eq_None_not_Some. intros Hsome%(ok_fresh _ Hok). rewrite Forall_forall in Hge.
    specialize (Hge (pool p)). rewrite list_elem_of_fmap in Hge. specialize (Hge ltac:(eauto)). lia.
Qed.

Lemma system_step_clients s s' : system_step s s' -> system_ok s -> clients_ok s -> clients_ok s'.
Proof.
  intros Hstep Hok Hs. destruct Hstep as [s self request acme shared|s oracle i th B e k b w Hd Hi Hr Hh
    |s oracle t checks i B e k b w Hd Hc Hi Hh|s phase Ha|s st Hst|s l cs cs' Hl Hcs|s now Hn]; try exact Hs.
  - apply (clients_ok_world s w Hs). intros l cs'. pose proof (handle_clients oracle B e (s_world s) l cs') as Hcl.
    by rewrite Hh in Hcl.
  - apply (clients_ok_world s w Hs). intros l cs'. pose proof (handle_clients oracle B e (s_world s) l cs') as Hcl.
    by rewrite Hh in Hcl.
  - by apply after_watch_clients.
  - apply (clients_ok_world s _ Hs). intros l' cs0. simpl. destruct (decide (l = l')) as [->|Hne].
    + rewrite lookup_insert_eq. intros [= <-]. exists cs. split; [done|]. by apply rtc_once.
    + rewrite lookup_insert_ne by done. intros Hl'. by exists cs0.
Qed.

Lemma reachable_clients env path now s : reachable env path now s -> clients_ok s.
Proof.
  intros (config & handler & log & Hread & Hr). pose proof (system_start_ok _ _ _ _ _ now Hread) as H0.
  assert (system_ok s /\ clients_ok s) as [_ ?]; [|done]. revert Hr.
  apply (rtc_ind_r (fun s => system_ok s /\ clients_ok s)).
  - split; [done|]. intros p cs Hp Hl. pose proof (ok_config _ H0) as (_ & _ & _ & _ & Hnd & _).
    unfold running_pools, running, system_start in *. simpl in *.
    rewrite alloc_pools_client in Hl by (done || apply lookup_empty). by injection Hl as <-.
  - intros s1 s2 _ Hstep [Hok Hs]. split; [by eapply system_step_ok|by eapply system_step_clients].
Qed.


End System.

(** ** Executing requests *)
Section Run.
Context `{HT : Http} `{RX : RegexCrate} `{UC : UrlCrate} `{PC : Pom} `{CK : CookieCrate} `{MC : !MiddlewareCrates}
  `{SH : StdHash} `{TC : TlsCrate} `{LH : LinkedHashMap} `{WC : WatchCrate}.

Definition run_thread (oracle : Oracle) (i : nat) (s : System) : System :=
  match s_threads s !! i with
  | Some th =>
      match th_rest th with
      | @Vis _ _ B e k =>
          let '(b, w) := handle oracle B e (s_world s) in
          with_threads (with_world s w) (<[i := thread_next th (Obs e b) (k b)]> (s_threads s))
      | _ => s
      end
  | None => s
  end.

(** A request arrives and performs [n] effects. *)
Definition serve_request (oracle : Oracle) (n : nat) (self : MainService) (request : Request) (s : System) : System :=
  let shared := {| backend_pools := running_pools s; acme_handler := acme_handler_new |} in
  Nat.iter n (run_thread oracle (length (s_threads s)))
    (with_threads s (s_threads s ++ [spawn self shared request])).

Lemma run_thread_rtc oracle i s : draw_ok (o_draw oracle) -> rtc system_step s (run_thread oracle i s).
Proof.
  intros Hd. unfold run_thread. destruct (s_threads s !! i) as [th|] eqn:Hi; [|done].
  destruct (th_rest th) as [a| |B e k] eqn:Hr; [done..|].
  destruct (handle oracle B e (s_world s)) as [b w] eqn:Hh. apply rtc_once. by eapply sys_thread.
Qed.

Lemma serve_request_rtc oracle n self request s :
  draw_ok (o_draw oracle) -> rtc system_step s (serve_request oracle n self request s).
Proof.
  intros Hd. unfold serve_request. eapply rtc_l; [apply (sys_request s self request acme_handler_new)|]. cbv zeta.
  induction n as [|n IH]; [done|]. etrans; [exact IH|]. by apply run_thread_rtc.
Qed.

(** The statuses of the answered requests. *)
Definition statuses (s : System) : list (option Z) :=
  (fun th => match th_rest th with Ret response => Some (resp_status response) | _ => None end) <$> s_threads s.

End Run.

(** ** Witnesses: three requests of one client to a pool with a limit of two *)
#[local] Existing Instance http_model.
#[local] Existing Instance sample_regex.
#[local] Existing Instance sample_url.
#[local] Existing Instance pom_model.
#[local] Existing Instance cookie_model.
#[local] Existing Instance sample_crates.
#[local] Existing Instance sample_hash.
#[local] Existing Instance sample_tls.
#[local] Existing Instance lhm_model.
#[local] Existing Instance lhm_model_laws.
#[local] Existing Instance watch_model.

(** The backend answers every request. *)
Definition sample_oracle : Oracle := {|
  o_answer B e := match e in effect B return B with
                  | ClientRequest _ => Ok (sample_response 200 [] "hi")
                  | e => effect_default e
                  end;
  o_draw := sample_draw |}.

Definition sample_get : Request := sample_request "GET" (Some "/x") [("host", "a")].

Definition sample_system : System := system_start "lb.toml" sample_config [] 0.

Definition sample_serve (s : System) : System := serve_request sample_oracle 8 example_service sample_get s.

Definition sample_served : System := sample_serve (sample_serve (sample_serve sample_system)).

Example sample_statuses : statuses sample_served = [Some 200; Some 200; Some 429].
Proof. vm_compute. reflexivity. Qed.

Lemma sample_reachable : reachable (sample_env "good") "lb.toml" 0 sample_served.
Proof.
  exists sample_config, acme_handler_new, []. split; [reflexivity|].
  do 2 (etrans; [|apply serve_request_rtc, sample_draw_ok]). apply serve_request_rtc, sample_draw_ok.
Qed.

Definition first_thread : Thread :=
  default (spawn example_service (shared_data sample_config) sample_get) (s_threads sample_served !! 0%nat).

(** A list with an element at [i] has the default-free lookup there. *)
Lemma lookup_default {A} (l : list A) (i : nat) (x : A) : (i < length l)%nat -> l !! i = Some (default x (l !! i)).
Proof. intros [y Hy]%lookup_lt_is_Some. by rewrite Hy. Qed.

Lemma first_thread_served : s_threads sample_served !! 0%nat = Some first_thread.
Proof. apply lookup_default. vm_compute. lia. Qed.

(** The first request was forwarded. *)
Lemma system_forwards_once_witness :
  length (backend_calls (th_trace first_thread)) = 1%nat /\
  Forall (rightly_sent (th_service first_thread) (th_shared first_thread) (th_request first_thread)
    (th_trace first_thread)) (backend_calls (th_trace first_thread)).
Proof.
  split; [vm_compute; reflexivity|].
  apply (system_forwards_once (H := http_model_laws) _ _ _ _ _ sample_reachable).
  exact (list_elem_of_lookup_2 _ _ _ first_thread_served).
Defined.

Definition sample_verdicts : list Verdict := verdicts_at 0 (w_verdicts (s_world sample_served)).

Lemma system_limiters_refine_witness :
  v_accepted <$> sample_verdicts = [true; true; false] /\
  match sample_verdicts with
  | [] => True
  | v0 :: _ => v_accepted <$> sample_verdicts =
      spec_register_all (v_limit v0) (v_window v0) spec_new (v_call <$> sample_verdicts)
  end.
Proof.
  split; [vm_compute; reflexivity|].
  pose proof (system_limiters_refine _ _ _ _ 0%nat sample_reachable) as Hl.
  unfold sample_verdicts. destruct (verdicts_at _ _) as [|v0 vs]; [exact I|]. exact (proj2 Hl).
Defined.

(** The reload that the loop does first, at the location after that of the first pool. *)
Definition sample_reloaded : WatchState :=
  match watch_process (sample_env "good") (s_watch sample_system) with Returned st => st | Panic => s_watch sample_system end.

Lemma sample_reload_step : watch_step (s_watch sample_system) sample_reloaded.
Proof.
  apply (step_task _ (sample_env "good")). unfold sample_reloaded, watch_config.
  destruct (watch_process _ _) eqn:E; [reflexivity|].
  assert (match watch_process (sample_env "good") (s_watch sample_system) with Returned _ => true | Panic => false end = true)
    as Hok by (vm_compute; reflexivity).
  rewrite E in Hok. discriminate.
Qed.

Definition sample_new_pool : BackendPool :=
  default (example_pool Empty) (running_pools (after_watch sample_system sample_reloaded) !! 0%nat).

Lemma reload_starts_afresh_witness :
  pool sample_new_pool = 1%nat /\
  w_health (s_world (after_watch sample_system sample_reloaded)) !! (pool sample_new_pool, 0%nat) = Some Healthy.
Proof.
  split; [vm_compute; reflexivity|].
  apply (reload_starts_afresh (sample_env "good") "lb.toml" 0 sample_system sample_reloaded sample_new_pool
    0%nat ("a:1", Healthy)).
  - exists sample_config, acme_handler_new, []. split; [reflexivity|apply rtc_refl].
  - exact sample_reload_step.
  - intros Heq. apply (f_equal (fun c => pool <$> backend_pools (shared_data c))) in Heq.
    vm_compute in Heq. discriminate.
  - apply (list_elem_of_lookup_2 _ 0%nat). apply lookup_default. vm_compute. lia.
  - vm_compute. reflexivity.
Defined.

(** A pool with least connection, after one connection was opened. *)
Definition lc_pool_config : BackendPoolConfig := {|
  cfg_matcher := "Host('a')"; cfg_addresses := ["a:1"; "b:1"]; cfg_schemes := [HTTP]; cfg_client := None;
  cfg_health_config := default_health_config; cfg_strategy := CLeastConnection; cfg_middlewares := [] |}.

Definition lc_env : Environment := {|
  env_read_file := env_read_file (sample_env "good"); env_open_file := env_open_file (sample_env "good");
  env_parse_socket_addr := env_parse_socket_addr (sample_env "good");
  env_from_str _ := Some {|
    toml_http_address := default_http_address; toml_https_address := default_https_address;
    toml_backend_pools := [lc_pool_config]; toml_certificates := [];
    toml_health_interval := default_health_interval_config |};
  env_canonical_dir := env_canonical_dir (sample_env "good"); env_acme := env_acme (sample_env "good");
  env_valid_days_left := env_valid_days_left (sample_env "good"); env_cross_check := env_cross_check (sample_env "good") |}.

Definition lc_config : RuntimeConfig :=
  match read_initial_config lc_env "lb.toml" with (Returned (Ok config), _, _) => config | _ => sample_config end.

Definition lc_pool : BackendPool := default (example_pool Empty) (backend_pools (shared_data lc_config) !! 0%nat).

Definition lc_client : ClientState DynStrategy := open_to "a:1" (client_new (strategy lc_pool)).

Definition lc_system : System :=
  let s := system_start "lb.toml" lc_config [] 0 in with_world s (set_client (pool lc_pool) lc_client (s_world s)).

Lemma lc_reachable : reachable lc_env "lb.toml" 0 lc_system.
Proof.
  exists lc_config, acme_handler_new, []. split; [reflexivity|]. apply rtc_once.
  apply (sys_client _ _ (client_new (strategy lc_pool))); [reflexivity|]. apply open_to_step. by vm_compute.
Qed.

