(* ===== verification/Equivalence.v ===== *)
(** * Chains with the same behaviour

    Two chains are equivalent for a context when they have the same runs for every
    request.  Every configured middleware respects the equivalence of the rest of its chain,
    so an entry that does nothing in a context can be left out of the configuration. *)
From S2P Require Import Prelude RustStd Http HttpModel LoadBalancing Effects Events Middleware RateLimiter.
From S2P Require Import Compression MaxBodySize HttpsRedirector Toml CustomErrorPages Authentication Configuration.

Section Equivalence.
Context `{HT : Http} `{MC : !MiddlewareCrates}.

Definition chain_equiv (context : MwContext) (c1 c2 : MiddlewareChain) : Prop :=
  forall request, same_runs (chain_forward_request c1 request context) (chain_forward_request c2 request context).

#[export] Instance chain_equiv_equivalence context : Equivalence (chain_equiv context).
Proof.
  split; [by intros c request|by intros c1 c2 Hc request; symmetry|].
  intros c1 c2 c3 H12 H23 request. by rewrite (H12 request).
Qed.

(** A middleware that uses the rest of the chain only by running it, in its own context. *)
Definition respectful_mw (m : Middleware) : Prop :=
  forall request context c1 c2, (forall r, same_runs (c1 r context) (c2 r context)) ->
    same_runs (mw_forward_request m request c1 context) (mw_forward_request m request c2 context).

Lemma boxed_respectful m : respectful_mw (boxed m).
Proof.
  intros request context c1 c2 Hc. simpl. unfold default_forward_request. f_equiv. intros [r|r]; [|done].
  by rewrite (Hc r).
Qed.

Lemma compression_respectful encode : respectful_mw (compression encode).
Proof. intros request context c1 c2 Hc. simpl. unfold compression_forward_request. by rewrite (Hc request). Qed.

#[local] Hint Resolve boxed_respectful compression_respectful : arlb.

Lemma middleware_try_from_respectful self name payload m :
  middleware_try_from self name payload = Ok m -> respectful_mw m.
Proof.
  unfold middleware_try_from, ok_or_else.
  intros H. repeat (case_match; try discriminate H); injection H as <-; auto with arlb.
Qed.

Lemma entry_equiv context m c1 c2 : respectful_mw m -> chain_equiv context c1 c2 -> chain_equiv context (Entry m c1) (Entry m c2).
Proof. intros Hm Hc request. by apply Hm. Qed.

(** The entries of a table before [c]. *)
Definition chain_before (self : loc) (table : Table) (c : MiddlewareChain) : MiddlewareChain :=
  foldr (fun entry chain =>
           match middleware_try_from self entry.1 entry.2 with
           | Ok middleware => Entry middleware chain
           | Err _ => chain
           end) c table.

Lemma chain_from_app self t1 t2 : chain_from self (t1 ++ t2) = chain_before self t1 (chain_from self t2).
Proof. unfold chain_from, chain_before. rewrite !foldl_reverse_foldr. apply foldr_app. Qed.

#[export] Instance chain_before_proper self table context :
  Proper (chain_equiv context ==> chain_equiv context) (chain_before self table).
Proof.
  intros c1 c2 Hc. induction table as [|entry table IH]; simpl; [done|].
  destruct (middleware_try_from self entry.1 entry.2) as [m|] eqn:Hm; [|done].
  apply entry_equiv; [by eapply middleware_try_from_respectful|done].
Qed.

(** A middleware that does nothing in a context. *)
Definition transparent (context : MwContext) (m : Middleware) : Prop :=
  forall request chain, same_runs (mw_forward_request m request chain context) (chain request context).

Lemma transparent_entry context m c : transparent context m -> chain_equiv context (Entry m c) c.
Proof. intros Hm request. apply Hm. Qed.

Lemma https_redirector_transparent context e :
  mw_client_scheme context = HTTPS -> transparent context (boxed (https_redirector e)).
Proof.
  intros Hs request chain. simpl. unfold default_forward_request. simpl. unfold https_redirector_modify_request.
  rewrite Hs. apply prog_bind_ret.
Qed.

(** C16: On an HTTPS connection the HTTPS redirector makes no difference, wherever it
    stands in a configured chain and whatever the other middlewares are: the chain with it and
    the chain without it perform the same effects and give the same response for every
    request and every behaviour of the environment; so a pool that serves both schemes can
    have the redirector for its HTTP clients. *)
Theorem https_redirector_no_difference self t1 payload t2 context :
  mw_client_scheme context = HTTPS ->
  chain_equiv context (chain_from self (t1 ++ ("HttpsRedirector", payload) :: t2)) (chain_from self (t1 ++ t2)).
Proof.
  intros Hs. rewrite !chain_from_app. f_equiv.
  change (("HttpsRedirector", payload) :: t2) with ([("HttpsRedirector", payload)] ++ t2).
  rewrite (chain_from_app self [_] t2). cbn [chain_before foldr fst snd].
  assert (middleware_try_from self "HttpsRedirector" payload = Ok (boxed (https_redirector mc_to_str_error))) as ->
    by (by destruct payload).
  by apply transparent_entry, https_redirector_transparent.
Qed.

End Equivalence.

(** ** Witness *)
#[local] Existing Instance http_model.
#[local] Existing Instance sample_crates.

Lemma https_redirector_no_difference_witness :
  chain_equiv sample_mw_context (chain_from 0 [("Compression", VTable []); ("HttpsRedirector", VTable [])])
    (chain_from 0 [("Compression", VTable [])]).
Proof. exact (https_redirector_no_difference 0 [("Compression", VTable [])] (VTable []) [] sample_mw_context eq_refl). Defined.
