(* ===== verification/Listeners.v ===== *)
(** * Listeners and the server around them: [listeners.rs], [server::create]

    The [stream!] of a listener is a state machine driven by the answers of the
    futures it awaits: [accept] of the socket and, for HTTPS, the TLS handshake.  Inside
    [stream!] the operator [?] yields the error and ends the stream. *)
From S2P Require Import Prelude RustStd Http HttpModel LoadBalancing StickyCookie Strategy Matcher Effects.
From S2P Require Import Events Middleware Pool Acme Server Tls.

Local Open Scope Z_scope.

(** ** Connections *)

(** A connection is its identity and the answer of [peer_addr]. *)
Record TcpStream := { tcp_id : nat; peer_addr : result SocketAddr ErrorKind }.
Record TlsStream := { tls_get_ref : TcpStream }.

Class RemoteAddress (T : Type) := remote_addr : T -> result SocketAddr ErrorKind.

#[export] Instance tcp_remote_address : RemoteAddress TcpStream := fun self => peer_addr self.
#[export] Instance tls_remote_address : RemoteAddress TlsStream := fun self =>
  let stream := tls_get_ref self in peer_addr stream.

(** ** The streams of accepted connections *)

(** Where a [stream!] waits. *)
Inductive AcceptorState : Type :=
| Accepting
| Handshaking (socket : TcpStream)
| Ended.

(** The answer of an awaited future. *)
Inductive AcceptorEvent : Type :=
| Accepted (r : result TcpStream ErrorKind)
| Handshaken (r : result unit ErrorKind).

(** A step gives the next state and the item yielded by it, if any; [None] when the
    stream does not wait for that answer. *)
Definition http_next (st : AcceptorState) (ev : AcceptorEvent) :
  option (AcceptorState * option (result TcpStream ErrorKind)) :=
  match st, ev with
  | Accepting, Accepted (Ok socket) => Some (Accepting, Some (Ok socket))
  | Accepting, Accepted (Err e) => Some (Ended, Some (Err e))
  | _, _ => None
  end.

Definition https_next (st : AcceptorState) (ev : AcceptorEvent) :
  option (AcceptorState * option (result TlsStream ErrorKind)) :=
  match st, ev with
  | Accepting, Accepted (Ok socket) => Some (Handshaking socket, None)
  | Accepting, Accepted (Err e) => Some (Ended, Some (Err e))
  | Handshaking socket, Handshaken (Ok _) => Some (Accepting, Some (Ok {| tls_get_ref := socket |}))
  | Handshaking socket, Handshaken (Err e) => Some (Accepting, None)
  | _, _ => None
  end.

(** ** [HyperAcceptor]: polling the stream

    The futures that are ready when the task is polled are [ready], in the order in which
    the stream awaits them.  Polling runs the stream until it yields or has to wait. *)
Inductive Poll (A : Type) : Type :=
| Pending
| Ready (a : A).
Arguments Pending {A}.
Arguments Ready {A} a.

Section Acceptor.
Context {T : Type} (next : AcceptorState -> AcceptorEvent -> option (AcceptorState * option (result T ErrorKind))).

Fixpoint poll_accept (st : AcceptorState) (ready : list AcceptorEvent) :
  Poll (option (result T ErrorKind)) * AcceptorState * list AcceptorEvent :=
  match st with
  | Ended => (Ready None, Ended, ready)
  | _ =>
      match ready with
      | [] => (Pending, st, [])
      | ev :: rest =>
          match next st ev with
          | None => (Pending, st, ready)
          | Some (st', Some item) => (Ready (Some item), st', rest)
          | Some (st', None) => poll_accept st' rest
          end
      end
  end.

(** Everything a stream yields for a history of answers, and where it then waits. *)
Fixpoint run_acceptor (st : AcceptorState) (evs : list AcceptorEvent) :
  option (AcceptorState * list (result T ErrorKind)) :=
  match evs with
  | [] => Some (st, [])
  | ev :: evs =>
      '(st', item) ← next st ev;
      '(st'', items) ← run_acceptor st' evs;
      Some (st'', option_list item ++ items)
  end.

(** What polling yields is what the stream yields. *)
Lemma poll_accept_yields st ready item st' rest :
  poll_accept st ready = (Ready (Some item), st', rest) ->
  exists used, ready = used ++ rest /\ run_acceptor st used = Some (st', [item]).
Proof.
  revert st. induction ready as [|ev ready IH]; intros st; simpl; [by destruct st|].
  assert (match next st ev with
          | None => (Pending, st, ev :: ready)
          | Some (st', Some item) => (Ready (Some item), st', ready)
          | Some (st', None) => poll_accept st' ready
          end = (Ready (Some item), st', rest) ->
          exists used, ev :: ready = used ++ rest /\ run_acceptor st used = Some (st', [item])) as Hgo.
  { destruct (next st ev) as [[st1 [item1|]]|] eqn:E; [| |done].
    - intros [= -> -> ->]. exists [ev]. split; [done|]. simpl. by rewrite E.
    - intros (used & -> & Hr)%IH. exists (ev :: used). split; [done|]. simpl. rewrite E. simpl. by rewrite Hr. }
  by destruct st.
Qed.

End Acceptor.

(** [HyperAcceptor]: a stream and where it waits. *)
Record HyperAcceptor (T : Type) := {
  ha_next : AcceptorState -> AcceptorEvent -> option (AcceptorState * option (result T ErrorKind));
  ha_state : AcceptorState;
}.
Arguments ha_next {T}.
Arguments ha_state {T}.

Definition acceptor_items {T} (acceptor : HyperAcceptor T) (evs : list AcceptorEvent) :
  option (AcceptorState * list (result T ErrorKind)) :=
  run_acceptor (ha_next acceptor) (ha_state acceptor) evs.

(** ** [AcceptorProducer]: the socket is bound before anything is accepted *)
Class AcceptorProducer (P T : Type) :=
  produce_acceptor : P -> (SocketAddr -> result unit ErrorKind) -> SocketAddr -> result (HyperAcceptor T) ErrorKind.

Record HttpListener := mk_Http {}.

#[export] Instance http_producer : AcceptorProducer HttpListener TcpStream := fun self bind address =>
  let? listener := bind address in Ok {| ha_next := http_next; ha_state := Accepting |}.

(** The TLS configuration is its certificate resolver, which [rustls] asks during a
    handshake. *)
Record HttpsListener `{TC : TlsCrate} := { cert_resolver : option string -> option CertifiedKey }.

#[export] Instance https_producer `{TC : TlsCrate} : AcceptorProducer HttpsListener TlsStream := fun self bind address =>
  let? listener := bind address in Ok {| ha_next := https_next; ha_state := Accepting |}.

(** ** [server::create]

    [hyper] polls the acceptor and calls the service maker with each connection; an error
    of the acceptor ends the server with an error, the end of the stream ends it. *)
Section Create.
Context {T : Type} `{RA : !RemoteAddress T}.

(** The closure of [make_service_fn]; a connection without a peer address panics. *)
Definition make_service (scheme : Scheme) (stream : T) : outcome MainService :=
  client_address ← unwrap (ok (remote_addr stream));
  Returned {| service_client_address := client_address; service_scheme := scheme |}.

(** The services made for the connections yielded so far, and the result of the server
    once it has one. *)
Fixpoint create (scheme : Scheme) (items : list (result T ErrorKind)) :
  outcome (list MainService * option (result unit ErrorKind)) :=
  match items with
  | [] => Returned ([], None)
  | Err e :: _ => Returned ([], Some (Err Other))
  | Ok stream :: items =>
      service ← make_service scheme stream;
      '(services, r) ← create scheme items;
      Returned (service :: services, r)
  end.

End Create.

(** ** HTTPS: who gets through *)

(** A connection attempt: the socket and the result of its handshake. *)
Definition attempt_events (a : TcpStream * result unit ErrorKind) : list AcceptorEvent :=
  [Accepted (Ok a.1); Handshaken a.2].

Definition attempt_item (a : TcpStream * result unit ErrorKind) : option (result TlsStream ErrorKind) :=
  match a.2 with Ok _ => Some (Ok {| tls_get_ref := a.1 |}) | Err _ => None end.

(** How a history ends: idle, within a handshake, or with a failed [accept]. *)
Inductive history_end : list AcceptorEvent -> AcceptorState -> list (result TlsStream ErrorKind) -> Prop :=
| end_idle : history_end [] Accepting []
| end_handshake socket : history_end [Accepted (Ok socket)] (Handshaking socket) []
| end_failed e : history_end [Accepted (Err e)] Ended [Err e].

Lemma run_acceptor_ended {T} (next : AcceptorState -> AcceptorEvent -> option (AcceptorState * option (result T ErrorKind))) evs st items :
  (forall ev, next Ended ev = None) -> run_acceptor next Ended evs = Some (st, items) ->
  evs = [] /\ st = Ended /\ items = [].
Proof. intros Hn. destruct evs as [|ev evs]; simpl; [by intros [= <- <-]|]. by rewrite Hn. Qed.

Lemma https_attempt socket r evs :
  run_acceptor https_next Accepting (Accepted (Ok socket) :: Handshaken r :: evs) =
  '(st, items) ← run_acceptor https_next Accepting evs; Some (st, option_list (attempt_item (socket, r)) ++ items).
Proof. destruct r as [[]|e]; simpl; by destruct (run_acceptor https_next Accepting evs) as [[st items]|]. Qed.

(** C15: The HTTPS listener yields exactly the connections whose handshake succeeded, in
    the order in which they were accepted; a failed handshake is skipped and affects no
    other connection.  Handshakes are not concurrent: between two accepts there is always the end
    of the first one's handshake, so a client that does not finish its handshake keeps all
    others out.  A failed [accept] is yielded as an error and ends the stream. *)
Theorem https_acceptor_yields evs st items :
  run_acceptor https_next Accepting evs = Some (st, items) <->
  exists attempts last last_items,
    evs = concat (attempt_events <$> attempts) ++ last /\ history_end last st last_items /\
    items = omap attempt_item attempts ++ last_items.
Proof.
  split.
  - revert st items. induction evs as [evs IH] using (induction_ltof1 _ length). unfold ltof in IH. intros st items.
    destruct evs as [|[[socket|e]|r] evs]; [..|done].
    + intros [= <- <-]. exists [], [], []. split_and!; [done|constructor|done].
    + destruct evs as [|[r|r] evs]; [|done|].
      { intros [= <- <-]. exists [], [Accepted (Ok socket)], []. split_and!; [done|constructor|done]. }
      rewrite https_attempt. destruct (run_acceptor https_next Accepting evs) as [[st' its]|] eqn:E; [|done].
      intros [= <- <-]. destruct (IH evs ltac:(simpl; lia) _ _ E) as (attempts & last & li & -> & Hend & ->).
      exists ((socket, r) :: attempts), last, li. split_and!; [done..|]. simpl. by destruct (attempt_item _).
    + simpl. destruct (run_acceptor https_next Ended evs) as [[st' its]|] eqn:E; [|done]. intros [= <- <-].
      apply run_acceptor_ended in E as (-> & -> & ->); [|done].
      exists [], [Accepted (Err e)], [Err e]. split_and!; [done|constructor|done].
  - intros (attempts & last & li & -> & Hend & ->). induction attempts as [|[socket r] attempts IH]; [by destruct Hend|].
    rewrite fmap_cons. cbn [concat attempt_events app]. rewrite https_attempt. simpl fst. simpl snd.
    rewrite IH. cbn [mbind option_bind omap list_omap]. by destruct (attempt_item _).
Qed.

(** The HTTP listener yields the accepted connections, until [accept] fails. *)
Lemma http_acceptor_yields evs st items :
  run_acceptor http_next Accepting evs = Some (st, items) <->
  exists sockets,
    (evs = (fun s => Accepted (Ok s)) <$> sockets /\ items = Ok <$> sockets /\ st = Accepting) \/
    (exists e, evs = ((fun s => Accepted (Ok s)) <$> sockets) ++ [Accepted (Err e)] /\
       items = (Ok <$> sockets) ++ [Err e] /\ st = Ended).
Proof.
  split.
  - revert st items. induction evs as [|[[socket|e]|r] evs IH]; intros st items; simpl; [..|done].
    + intros [= <- <-]. exists []. by left.
    + destruct (run_acceptor http_next Accepting evs) as [[st' its]|]; [|done]. intros [= <- <-].
      destruct (IH st' its eq_refl) as (sockets & [(-> & -> & ->)|(e & -> & -> & ->)]);
        exists (socket :: sockets); [by left|right; by exists e].
    + destruct (run_acceptor http_next Ended evs) as [[st' its]|] eqn:E; [|done]. intros [= <- <-].
      apply run_acceptor_ended in E as (-> & -> & ->); [|done]. exists []. right. by exists e.
  - intros (sockets & [(-> & -> & ->)|(e & -> & -> & ->)]); induction sockets as [|s sockets IH]; try done;
      rewrite !fmap_cons; cbn [app run_acceptor http_next mbind option_bind]; by rewrite IH.
Qed.

(** ** [create] *)
Section CreateSpec.
Context {T : Type} `{RA : !RemoteAddress T}.

(** C18: A server makes one service per accepted connection, in order, with the scheme of
    its listener and the address of the peer; the first error of the acceptor ends it with
    an error of kind [Other], and nothing else does.  If a connection has no peer address any
    more (the client has reset it already), the server panics instead. *)
Theorem create_services scheme (items : list (result T ErrorKind)) :
  match create scheme items with
  | Returned (services, r) =>
      exists connections addresses,
        remote_addr <$> connections = Ok <$> addresses /\
        services = (fun a => {| service_client_address := a; service_scheme := scheme |}) <$> addresses /\
        ((r = None /\ items = Ok <$> connections) \/
         (r = Some (Err Other) /\ exists e rest, items = (Ok <$> connections) ++ Err e :: rest))
  | Panic => exists connections stream rest e,
      items = (Ok <$> connections) ++ Ok stream :: rest /\ remote_addr stream = Err e
  end.
Proof.
  induction items as [|[stream|e] items IH]; simpl.
  - exists [], []. split_and!; [done..|]. by left.
  - unfold make_service. destruct (remote_addr stream) as [a|e] eqn:Ha; simpl.
    2: { exists [], stream, items, e. done. }
    destruct (create scheme items) as [[services r]|]; simpl.
    + destruct IH as (conns & addrs & Hra & -> & Hor). exists (stream :: conns), (a :: addrs).
      split_and!; [rewrite !fmap_cons; by f_equal|done|].
      destruct Hor as [[-> ->]|(-> & e & rest & ->)]; [by left|]. right. split; [done|]. by exists e, rest.
    + destruct IH as (conns & stream' & rest & e & -> & He). exists (stream :: conns), stream', rest, e. done.
  - exists [], []. split_and!; [done..|]. right. split; [done|]. by exists e, items.
Qed.

End CreateSpec.

(** ** Witnesses *)
Definition tcp (i : nat) : TcpStream := {| tcp_id := i; peer_addr := Ok sample_client |}.

(** The second of three clients fails its handshake. *)
Example https_skips_failed_handshake :
  run_acceptor https_next Accepting
    [Accepted (Ok (tcp 1)); Handshaken (Ok tt); Accepted (Ok (tcp 2)); Handshaken (Err InvalidData);
     Accepted (Ok (tcp 3)); Handshaken (Ok tt)]
  = Some (Accepting, [Ok {| tls_get_ref := tcp 1 |}; Ok {| tls_get_ref := tcp 3 |}]).
Proof. reflexivity. Qed.

(** A client that has gone before its service is made. *)
Example reset_connection_panics :
  create HTTP [Ok {| tcp_id := 1; peer_addr := Err (OsError 107) |}] = Panic.
Proof. reflexivity. Qed.
