(* ===== verification/Logging.v ===== *)
(** * Log levels: [logging.rs] *)
From S2P Require Import Prelude RustStd.

Inductive LevelFilter : Type := Off | Error | Warn | Info | Debug | Trace.

(** No letter outside ASCII has one of the letters of these names as its lower
    case, so the lower case of ASCII text decides. *)
Definition parse_level_filter (str : string) : option LevelFilter :=
  let s := str_to_lowercase str in
  if decide (s = "off") then Some Off
  else if decide (s = "error") then Some Error
  else if decide (s = "warn") then Some Warn
  else if decide (s = "info") then Some Info
  else if decide (s = "debug") then Some Debug
  else if decide (s = "trace") then Some Trace
  else None.

(** ** The configuration of [log4rs] that [initialize] builds *)
Record LogConfig := {
  log_pattern : string;
  log_appenders : list string;
  log_loggers : list (string * LevelFilter);
  log_root_appenders : list string;
  log_root_level : LevelFilter;
}.

(** [Config::builder().build(...)]: names are unique, and the appenders that are used
    exist. *)
Definition log_config_valid (c : LogConfig) : bool :=
  bool_decide (NoDup (log_appenders c)) && bool_decide (NoDup (log_loggers c).*1) &&
  forallb (fun a => bool_decide (a ∈ log_appenders c)) (log_root_appenders c).

Definition build_log_config (c : LogConfig) : option LogConfig := if log_config_valid c then Some c else None.

(** [initialize]: the level is the variable [LOG_LEVEL], by default [INFO]; an unknown level
    panics.  [init_config] is the answer of [log4rs::init_config]. *)
Definition initialize (log_level : option string) (init_config : LogConfig -> bool) : outcome LogConfig :=
  level_filter ← unwrap (parse_level_filter (default "INFO" log_level));
  config ← unwrap (build_log_config {|
    log_pattern := "{d(%Y-%m-%d %H:%M:%S%.9f)} {({l}):5} {t} - {m}{n}";
    log_appenders := ["stdout"]; log_loggers := [("ureq", Warn)];
    log_root_appenders := ["stdout"]; log_root_level := level_filter |});
  if init_config config then Returned config else Panic.

Definition level_name (l : LevelFilter) : string :=
  match l with
  | Off => "off" | Error => "error" | Warn => "warn" | Info => "info" | Debug => "debug" | Trace => "trace"
  end.

(** The case of the text does not matter, and every level can be named. *)
Lemma parse_level_filter_name l s :
  str_to_lowercase s = level_name l -> parse_level_filter s = Some l.
Proof. intros Hs. unfold parse_level_filter. rewrite Hs. by destruct l. Qed.

Lemma parse_level_filter_Some s l : parse_level_filter s = Some l -> str_to_lowercase s = level_name l.
Proof. unfold parse_level_filter. intros Hp. by repeat (case_decide; [by injection Hp as <-|]). Qed.

(** Start-up panics for exactly the unknown levels. *)
Lemma initialize_spec log_level :
  (exists c, initialize log_level (fun _ => true) = Returned c) <->
  exists l, str_to_lowercase (default "INFO" log_level) = level_name l.
Proof.
  unfold initialize. split.
  - intros [c Hc]. destruct (parse_level_filter _) as [l|] eqn:E; [|done]. exists l. by apply parse_level_filter_Some.
  - intros [l Hl]. rewrite (parse_level_filter_name l) by done. eexists. reflexivity.
Qed.

Example default_level : log_root_level <$> initialize None (fun _ => true) = Returned Info.
Proof. reflexivity. Qed.
