(* ===== verification/Main.v ===== *)
(** * Process start: [main.rs]

    After the logger and the first configuration are set up, [main] runs four tasks with
    [try_join!]: the reload loop, the loop of the health checks and the two listeners.  It
    ends with the first error or panic of one of them.  The tasks are given by their
    histories: a state of the running system and the events of the listeners. *)
From S2P Require Import Prelude RustStd Http HttpModel Pom LoadBalancing StickyCookie Strategy Matcher Effects.
From S2P Require Import Events HttpClient Middleware RateLimiter Compression Toml Authentication Pool Health HealthLoop.
From S2P Require Import Acme Server World Tls Configuration Watch System Listeners Logging.

Local Open Scope Z_scope.

(** A task: what polling it gives so far, [None] while it runs, or a panic. *)
Abbreviation task := (outcome (option (result unit ErrorKind))) (only parsing).

#[local] Instance ErrorKind_eq_dec : EqDecision ErrorKind.
Proof. solve_decision. Defined.
#[local] Instance task_eq_dec : EqDecision task.
Proof. intros x y. unfold Decision. repeat decide equality; apply ErrorKind_eq_dec. Defined.

(** ** [try_join!] of tokio, by its documented behaviour

    It returns when all branches have completed with [Ok], or with the first [Err]; all
    branches run on the current task, so the panic of one of them is its panic. *)
Class TryJoin := try_join : list task -> task.

Definition stops (t : task) : Prop := t = Panic \/ exists e, t = Returned (Some (Err e)).

Class TryJoinLaws `{TryJoin} : Prop := {
  try_join_stops tasks : Exists stops tasks -> exists t, t ∈ tasks /\ stops t /\ try_join tasks = t;
  try_join_waits tasks : ~ Exists stops tasks -> Returned None ∈ tasks -> try_join tasks = Returned None;
  try_join_done tasks : Forall (fun t => t = Returned (Some (Ok tt))) tasks -> try_join tasks = Returned (Some (Ok tt));
}.

Section Main.
Context `{HT : Http} `{RX : RegexCrate} `{UC : UrlCrate} `{PC : Pom} `{CK : CookieCrate} `{MC : !MiddlewareCrates}
  `{SH : StdHash} `{TC : TlsCrate} `{LH : LinkedHashMap} `{WC : WatchCrate} `{TJ : TryJoin}.

(** ** The tasks *)

(** [watch_config], in the state its loop has reached. *)
Definition watch_config_task (st : WatchState) : task :=
  match ws_task st with
  | TaskReturned e => Returned (Some (Err e))
  | TaskPanicked => Panic
  | TaskMatching | TaskWaiting => Returned None
  end.

(** [watch_health]: the loop on the running configuration has no way out but a panic, so
    the [Ok(())] behind it is never reached. *)
Definition watch_health (s : System) : task :=
  match health_advance (w_now (s_world s)) (health_interval (running s)) (running_pools s) (s_health s) with
  | Panic => Panic
  | Returned _ => Returned None
  end.

(** The address is that of the configuration at this moment. *)
Definition listen_for_http_request (bind : SocketAddr -> result unit ErrorKind) (config : RuntimeConfig)
  (evs : list AcceptorEvent) : task :=
  let http := mk_Http in
  let address := http_address config in
  match produce_acceptor http bind address with
  | Err e => Returned (Some (Err e))
  | Ok acceptor =>
      match acceptor_items acceptor evs with
      | Some (_, items) => '(_, r) ← create HTTP items; Returned r
      | None => Returned None
      end
  end.

(** The resolver looks certificates up in the configuration of the moment of the
    handshake, [current]. *)
Definition listen_for_https_request (bind : SocketAddr -> result unit ErrorKind) (config current : RuntimeConfig)
  (evs : list AcceptorEvent) : task :=
  let https := {| cert_resolver server_name := resolve (certificates current) server_name |} in
  let address := https_address config in
  match produce_acceptor https bind address with
  | Err e => Returned (Some (Err e))
  | Ok acceptor =>
      match acceptor_items acceptor evs with
      | Some (_, items) => '(_, r) ← create HTTPS items; Returned r
      | None => Returned None
      end
  end.

(** ** [main] *)

(** What has happened so far: the state of the system, the configuration at the
    moment the listeners were started, and their events. *)
Record History := {
  h_system : System;
  h_listen_config : RuntimeConfig;
  h_bind : SocketAddr -> result unit ErrorKind;
  h_http : list AcceptorEvent;
  h_https : list AcceptorEvent;
}.

Definition main (env : Environment) (config_path : string) (log_level : option string) (init_config : LogConfig -> bool)
  (history : RuntimeConfig -> list Warning -> History) : task :=
  _ ← initialize log_level init_config;
  match read_initial_config env config_path with
  | (Panic, _, _) => Panic
  | (Returned (Err e), _, _) => Returned (Some (Err e))
  | (Returned (Ok config), _, log) =>
      let h := history config log in
      try_join
        [watch_config_task (s_watch (h_system h));
         watch_health (h_system h);
         listen_for_http_request (h_bind h) (h_listen_config h) (h_http h);
         listen_for_https_request (h_bind h) (h_listen_config h) (running (h_system h)) (h_https h)]
  end.

(** ** How the program ends *)

(** The errors with which a started program ends. *)
Inductive fatal (h : History) : ErrorKind -> Prop :=
| fatal_watch e :
    ws_thread (s_watch (h_system h)) = ThreadReturned (Err e) ->
    ws_task (s_watch (h_system h)) = TaskReturned BrokenPipe -> fatal h BrokenPipe
| fatal_bind_http e : h_bind h (http_address (h_listen_config h)) = Err e -> fatal h e
| fatal_bind_https e : h_bind h (https_address (h_listen_config h)) = Err e -> fatal h e
| fatal_accept e : Accepted (Err e) ∈ h_http h \/ Accepted (Err e) ∈ h_https h -> fatal h Other.

(** A client whose HTTPS handshake succeeded. *)
Definition handshake_done (socket : TcpStream) (evs : list AcceptorEvent) : Prop :=
  exists evs1 evs2, evs = evs1 ++ Accepted (Ok socket) :: Handshaken (Ok tt) :: evs2.

(** The panics with which it ends: of a reload, of a health check, or for a client that
    has no address any more. *)
Inductive crashes (h : History) : Prop :=
| crash_reload : ws_task (s_watch (h_system h)) = TaskPanicked -> crashes h
| crash_check tick checks : s_health (h_system h) = Checking tick checks -> Crash ∈ checks -> crashes h
| crash_http socket e : Accepted (Ok socket) ∈ h_http h -> peer_addr socket = Err e -> crashes h
| crash_https socket e : handshake_done socket (h_https h) -> peer_addr socket = Err e -> crashes h.

(** The events are a possible history of each listener. *)
Definition listeners_ok (h : History) : Prop :=
  is_Some (run_acceptor http_next Accepting (h_http h)) /\ is_Some (run_acceptor https_next Accepting (h_https h)).

(** A server: it runs, it has got an error, or a connection without an address. *)
Lemma create_ends {T} `{RA : !RemoteAddress T} scheme (items : list (result T ErrorKind)) :
  match create scheme items with
  | Panic => exists stream e, Ok stream ∈ items /\ remote_addr stream = Err e
  | Returned (_, None) => (forall e, Err e ∉ items) /\ forall stream e, Ok stream ∈ items -> remote_addr stream <> Err e
  | Returned (_, Some r) => r = Err Other /\ exists e, Err e ∈ items
  end.
Proof.
  induction items as [|[stream|e] items IH]; simpl.
  - split; [by intros e ?%elem_of_nil|by intros stream e ?%elem_of_nil].
  - unfold make_service. destruct (remote_addr stream) as [a|e] eqn:Ha; simpl.
    2:{ exists stream, e. split; [by left|done]. }
    destruct (create scheme items) as [[services [r|]]|]; simpl.
    + destruct IH as [-> [e He]]. split; [done|]. exists e. by right.
    + destruct IH as [Hn Hr]. split.
      * intros e [?|?]%elem_of_cons; [done|by eapply Hn].
      * intros stream' e [[= ->]|Hin]%elem_of_cons; [congruence|by eapply Hr].
    + destruct IH as (stream' & e & Hin & He). exists stream', e. split; [by right|done].
  - split; [done|]. exists e. by left.
Qed.

Lemma http_items_err evs st items e :
  run_acceptor http_next Accepting evs = Some (st, items) -> Err e ∈ items <-> Accepted (Err e) ∈ evs.
Proof.
  intros (sockets & [(-> & -> & _)|(e' & -> & -> & _)])%http_acceptor_yields.
  - split; intros (? & ? & _)%list_elem_of_fmap; done.
  - rewrite !elem_of_app, !list_elem_of_singleton, !list_elem_of_fmap. naive_solver.
Qed.

Lemma https_items_err evs st items e :
  run_acceptor https_next Accepting evs = Some (st, items) -> Err e ∈ items <-> Accepted (Err e) ∈ evs.
Proof.
  revert st items. induction evs as [evs IH] using (induction_ltof1 _ length). unfold ltof in IH. intros st items.
  destruct evs as [|[[socket|e']|r] evs]; [..|done].
  - intros [= <- <-]. split; by intros ?%elem_of_nil.
  - destruct evs as [|[r|r] evs]; [|done|].
    { intros [= <- <-]. rewrite elem_of_cons, !elem_of_nil. naive_solver. }
    rewrite https_attempt. destruct (run_acceptor https_next Accepting evs) as [[st' its]|] eqn:E; [|done].
    intros [= <- <-]. rewrite elem_of_app, !elem_of_cons, (IH evs ltac:(simpl; lia) _ _ E).
    destruct r as [[]|e0]; simpl; rewrite ?list_elem_of_singleton, ?elem_of_nil; naive_solver.
  - simpl. destruct (run_acceptor https_next Ended evs) as [[st' its]|] eqn:E; [|done]. intros [= <- <-].
    apply run_acceptor_ended in E as (-> & -> & ->); [|done]. simpl. rewrite !list_elem_of_singleton. naive_solver.
Qed.

Lemma http_items_ok evs st items socket :
  run_acceptor http_next Accepting evs = Some (st, items) -> Ok socket ∈ items <-> Accepted (Ok socket) ∈ evs.
Proof.
  intros (sockets & [(-> & -> & _)|(e' & -> & -> & _)])%http_acceptor_yields;
    rewrite ?elem_of_app, ?list_elem_of_singleton, !list_elem_of_fmap; naive_solver.
Qed.

Lemma https_items_ok evs st items stream :
  run_acceptor https_next Accepting evs = Some (st, items) ->
  Ok stream ∈ items <-> handshake_done (tls_get_ref stream) evs.
Proof.
  destruct stream as [socket]. simpl.
  revert st items. induction evs as [evs IH] using (induction_ltof1 _ length). unfold ltof in IH. intros st items.
  destruct evs as [|[[socket'|e']|r] evs]; [..|done].
  - intros [= <- <-]. split; [by intros ?%elem_of_nil|]. intros (evs1 & evs2 & Heq). by destruct evs1.
  - destruct evs as [|[r|r] evs]; [|done|].
    { intros [= <- <-]. split; [by intros ?%elem_of_nil|]. intros ([|? [|? ?]] & evs2 & Heq); simplify_eq/=. }
    rewrite https_attempt. destruct (run_acceptor https_next Accepting evs) as [[st' its]|] eqn:E; [|done].
    intros [= <- <-]. rewrite elem_of_app, (IH evs ltac:(simpl; lia) _ _ E). split.
    + intros [Hin|(evs1 & evs2 & ->)].
      * destruct r as [[]|e0]; simpl in Hin; [|by apply elem_of_nil in Hin].
        apply list_elem_of_singleton in Hin as [= ->]. by exists [], evs.
      * by exists (Accepted (Ok socket') :: Handshaken r :: evs1), evs2.
    + intros ([|x [|y evs1]] & evs2 & Heq); simplify_eq/=; [left; by left|]. right. by exists evs1, evs2.
  - simpl. destruct (run_acceptor https_next Ended evs) as [[st' its]|] eqn:E; [|done]. intros [= <- <-].
    apply run_acceptor_ended in E as (-> & -> & ->); [|done]. simpl. split; [by intros ?%list_elem_of_singleton|].
    intros ([|? [|? ?]] & evs2 & Heq); simplify_eq/=.
Qed.

Lemma listen_http_task bind config evs :
  is_Some (run_acceptor http_next Accepting evs) ->
  match listen_for_http_request bind config evs with
  | Panic => exists socket e, Accepted (Ok socket) ∈ evs /\ peer_addr socket = Err e
  | Returned None => bind (http_address config) = Ok tt /\ (forall e, Accepted (Err e) ∉ evs) /\
      forall socket e, Accepted (Ok socket) ∈ evs -> peer_addr socket <> Err e
  | Returned (Some (Ok _)) => False
  | Returned (Some (Err e)) => bind (http_address config) = Err e \/ (e = Other /\ exists e', Accepted (Err e') ∈ evs)
  end.
Proof.
  intros [[st items] Hr]. unfold listen_for_http_request, produce_acceptor, http_producer.
  destruct (bind (http_address config)) as [[]|e] eqn:Hb; [|by left].
  unfold acceptor_items. simpl. rewrite Hr.
  pose proof (create_ends HTTP items) as Hc. pose proof (fun x => http_items_err evs st items x Hr) as He.
  pose proof (fun x => http_items_ok evs st items x Hr) as Ho.
  destruct (create HTTP items) as [[services [[|e]|]]|]; simpl.
  - by destruct Hc.
  - destruct Hc as [[= ->] [e' He']]. right. split; [done|]. exists e'. by apply He.
  - destruct Hc as [H1 H2]. split; [done|]. split; [intros e Hin; eapply H1, He, Hin|].
    intros socket e Hin. apply H2. by apply Ho.
  - destruct Hc as (stream & e & Hin & Hs). exists stream, e. split; [by apply Ho|done].
Qed.

Lemma listen_https_task bind config current evs :
  is_Some (run_acceptor https_next Accepting evs) ->
  match listen_for_https_request bind config current evs with
  | Panic => exists socket e, handshake_done socket evs /\ peer_addr socket = Err e
  | Returned None => bind (https_address config) = Ok tt /\ (forall e, Accepted (Err e) ∉ evs) /\
      forall socket e, handshake_done socket evs -> peer_addr socket <> Err e
  | Returned (Some (Ok _)) => False
  | Returned (Some (Err e)) => bind (https_address config) = Err e \/ (e = Other /\ exists e', Accepted (Err e') ∈ evs)
  end.
Proof.
  intros [[st items] Hr]. unfold listen_for_https_request, produce_acceptor, https_producer.
  destruct (bind (https_address config)) as [[]|e] eqn:Hb; [|by left].
  unfold acceptor_items. simpl. rewrite Hr.
  pose proof (create_ends HTTPS items) as Hc. pose proof (fun x => https_items_err evs st items x Hr) as He.
  pose proof (fun x => https_items_ok evs st items x Hr) as Ho.
  destruct (create HTTPS items) as [[services [[|e]|]]|]; simpl.
  - by destruct Hc.
  - destruct Hc as [[= ->] [e' He']]. right. split; [done|]. exists e'. by apply He.
  - destruct Hc as [H1 H2]. split; [done|]. split; [intros e Hin; eapply H1, He, Hin|].
    intros socket e Hin. apply (H2 {| tls_get_ref := socket |} e). by apply Ho.
  - destruct Hc as ([socket] & e & Hin & Hs). exists socket, e. split; [by apply Ho in Hin|done].
Qed.

Lemma watch_health_task s :
  match watch_health s with
  | Panic => exists tick checks, s_health s = Checking tick checks /\ Crash ∈ checks
  | Returned None => forall tick checks, s_health s = Checking tick checks -> Crash ∉ checks
  | Returned (Some _) => False
  end.
Proof.
  unfold watch_health, health_advance. destruct (s_health s) as [| | |tick checks|]; try by repeat case_decide.
  destruct (existsb is_crashed checks) eqn:E; simpl.
  - apply existsb_exists in E as (c & Hin%list_elem_of_In & Hc). exists tick, checks. split; [done|]. by destruct c.
  - intros ? ? [= <- <-] Hin%list_elem_of_In. assert (existsb is_crashed checks = true); [|congruence].
    apply existsb_exists. by exists Crash.
Qed.

(** The watcher of a reachable system is one of the reload loop. *)
Lemma reachable_watch env path now s :
  reachable env path now s -> exists config log, rtc watch_step (watch_start path config log) (s_watch s).
Proof.
  intros (config & handler & log & _ & Hr). exists config, log. revert Hr.
  apply (rtc_ind_r (fun s => rtc watch_step (watch_start path config log) (s_watch s))); [done|].
  intros s1 s2 _ Hstep IH. destruct Hstep; try done. by eapply rtc_r.
Qed.

(** The four tasks one by one: which of them stops, and why. *)
Lemma tasks_stop `{WL : !WatchLaws} env path now h t :
  reachable env path now (h_system h) -> listeners_ok h ->
  t ∈ [watch_config_task (s_watch (h_system h)); watch_health (h_system h);
       listen_for_http_request (h_bind h) (h_listen_config h) (h_http h);
       listen_for_https_request (h_bind h) (h_listen_config h) (running (h_system h)) (h_https h)] ->
  match t with
  | Panic => crashes h
  | Returned (Some (Err e)) => fatal h e
  | Returned (Some (Ok _)) => False
  | Returned None => True
  end.
Proof.
  intros Hr [Hl1 Hl2]. rewrite !elem_of_cons, elem_of_nil. intros [->|[->|[->|[->|[]]]]].
  - unfold watch_config_task. destruct (ws_task _) as [| |e|] eqn:Ht; try done; [|by apply crash_reload].
    apply reachable_watch in Hr as (config & log & [Hth Hv]%watch_reachable_inv). rewrite Ht in Hv.
    destruct Hv as [-> [r Hrt]]. rewrite Hrt in Hth. destruct Hth as [_ [e ->]]. by eapply fatal_watch.
  - pose proof (watch_health_task (h_system h)) as Hh. destruct (watch_health _) as [[r|]|]; try done.
    destruct Hh as (tick & checks & Hp & Hc). by eapply crash_check.
  - pose proof (listen_http_task (h_bind h) (h_listen_config h) _ Hl1) as Hh.
    destruct (listen_for_http_request _ _ _) as [[[|e]|]|]; try done.
    + destruct Hh as [?|[-> [e' ?]]]; [by apply fatal_bind_http|]. eapply fatal_accept. by left.
    + destruct Hh as (socket & e & Hin & He). by eapply crash_http.
  - pose proof (listen_https_task (h_bind h) (h_listen_config h) (running (h_system h)) _ Hl2) as Hh.
    destruct (listen_for_https_request _ _ _ _) as [[[|e]|]|]; try done.
    + destruct Hh as [?|[-> [e' ?]]]; [by apply fatal_bind_https|]. eapply fatal_accept. by right.
    + destruct Hh as (socket & e & Hin & He). by eapply crash_https.
Qed.

(** C14: A started program, in every reachable state of the system and for every history
    of its listeners: it still runs if and only if nothing fatal has happened, that is,
    the file watch is not lost, both listeners could be bound, not a single [accept] has
    failed, no reload and no health check has panicked, and no client without an address
    was given a service.  Otherwise it has ended, with one of the errors or panics that
    have happened; it never ends successfully.  In particular no failed handshake and no
    reload that fails with an error ends it. *)
Theorem main_ends `{WL : !WatchLaws} `{TL : !TryJoinLaws} env path level init_config history logger config handler log now :
  initialize level init_config = Returned logger ->
  read_initial_config env path = (Returned (Ok config), handler, log) ->
  reachable env path now (h_system (history config log)) -> listeners_ok (history config log) ->
  match main env path level init_config history with
  | Returned None => (forall e, ~ fatal (history config log) e) /\ ~ crashes (history config log)
  | Returned (Some (Err e)) => fatal (history config log) e
  | Returned (Some (Ok _)) => False
  | Panic => crashes (history config log)
  end.
Proof.
  intros Hinit Hread Hr Hl. unfold main. rewrite Hinit. cbn [mbind outcome_bind]. rewrite Hread.
  set (h := history config log) in *. set (tasks := [_; _; _; _]).
  pose proof (fun t => tasks_stop env path now h t Hr Hl) as Hstop. fold tasks in Hstop.
  destruct (decide (Forall (fun t => t = Returned None) tasks)) as [Hall|Hex].
  - rewrite try_join_waits; [..|rewrite Forall_forall in Hall; rewrite <-(Hall (watch_health (h_system h))); subst tasks; set_solver].
    2:{ rewrite Exists_exists. rewrite Forall_forall in Hall. intros (t & Hin & [->|[e ->]]); by apply Hall in Hin. }
    subst tasks. rewrite !Forall_cons in Hall. destruct Hall as (H1 & H2 & H3 & H4 & _). destruct Hl as [Hl1 Hl2].
    pose proof (watch_health_task (h_system h)) as Hh. rewrite H2 in Hh.
    pose proof (listen_http_task (h_bind h) (h_listen_config h) _ Hl1) as Hp. rewrite H3 in Hp.
    pose proof (listen_https_task (h_bind h) (h_listen_config h) (running (h_system h)) _ Hl2) as Hs. rewrite H4 in Hs.
    unfold watch_config_task in H1. destruct Hp as (Hp1 & Hp2 & Hp3), Hs as (Hs1 & Hs2 & Hs3). split.
    + intros e [e' _ Ht|e' Hb|e' Hb|e' [Hin|Hin]]; [by rewrite Ht in H1|congruence..|by eapply Hp2|by eapply Hs2].
    + intros [Ht|tick checks Hc Hin|socket e Hin He|socket e Hin He]; [by rewrite Ht in H1|by eapply Hh|by eapply Hp3|by eapply Hs3].
  - assert (Exists stops tasks) as Hst.
    { apply not_Forall_Exists in Hex; [|apply _].
      apply Exists_exists in Hex as (t & Hin & Hne). apply Exists_exists. exists t. split; [done|].
      specialize (Hstop t Hin). destruct t as [[[|e]|]|]; [done|right; eauto|by destruct Hne|by left]. }
    destruct (try_join_stops tasks Hst) as (t & Hin & Hs & ->). specialize (Hstop t Hin).
    destruct Hs as [->|[e ->]]; done.
Qed.

End Main.

(** ** A concrete [try_join!], polling the tasks in order *)
Fixpoint poll_in_order (tasks : list task) : task :=
  match tasks with
  | [] => Returned (Some (Ok tt))
  | Panic :: _ => Panic
  | Returned (Some (Err e)) :: _ => Returned (Some (Err e))
  | Returned (Some (Ok _)) :: tasks => poll_in_order tasks
  | Returned None :: tasks =>
      match poll_in_order tasks with Returned (Some (Ok _)) => Returned None | t => t end
  end.

#[local] Instance try_join_model : TryJoin := poll_in_order.

Lemma poll_in_order_stops tasks : Exists stops tasks -> poll_in_order tasks ∈ tasks /\ stops (poll_in_order tasks).
Proof.
  induction tasks as [|[[[[]|e]|]|] tasks IH]; [by intros ?%Exists_nil|..].
  - intros [[?|[e ?]]|Hex]%Exists_cons; [done..|]. destruct (IH Hex). simpl. split; [by right|done].
  - intros _. simpl. split; [by left|right; eauto].
  - intros [[?|[e ?]]|Hex]%Exists_cons; [done..|]. destruct (IH Hex) as [Hin Hs]. simpl.
    destruct Hs as [Hs|[e Hs]]; rewrite Hs in *; (split; [by right|]); [by left|right; eauto].
  - intros _. simpl. split; [by left|by left].
Qed.

Lemma poll_in_order_runs tasks :
  ~ Exists stops tasks ->
  (Returned None ∈ tasks /\ poll_in_order tasks = Returned None) \/
  (Returned None ∉ tasks /\ poll_in_order tasks = Returned (Some (Ok tt))).
Proof.
  induction tasks as [|[[[[]|e]|]|] tasks IH]; intros Hno.
  - right. split; [apply not_elem_of_nil|done].
  - rewrite elem_of_cons. simpl. destruct IH as [[? ->]|[? ->]]; [intros ?; by apply Hno; right|naive_solver..].
  - destruct Hno. left. right. eauto.
  - left. split; [by left|]. simpl. by destruct IH as [[_ ->]|[_ ->]]; [intros ?; apply Hno; right|..].
  - destruct Hno. left. by left.
Qed.

Lemma try_join_model_laws : TryJoinLaws.
Proof.
  split.
  - intros tasks Hex. exists (poll_in_order tasks). destruct (poll_in_order_stops tasks Hex). done.
  - intros tasks Hno Hin. by destruct (poll_in_order_runs tasks Hno) as [[_ H]|[H _]].
  - intros tasks Hall. rewrite Forall_forall in Hall. destruct (poll_in_order_runs tasks) as [[H _]|[_ H]]; [|by apply Hall in H|done].
    rewrite Exists_exists. intros (t & Hin%Hall & [->|[e ->]]); done.
Qed.

(** ** Witness: a connection without handshake, then no file descriptor for the next one *)
#[local] Existing Instance http_model.
#[local] Existing Instance sample_regex.
#[local] Existing Instance sample_url.
#[local] Existing Instance pom_model.
#[local] Existing Instance cookie_model.
#[local] Existing Instance sample_crates.
#[local] Existing Instance sample_hash.
#[local] Existing Instance sample_tls.
#[local] Existing Instance lhm_model.
#[local] Existing Instance watch_model.

Definition sample_socket : TcpStream := {| tcp_id := 1; peer_addr := Ok sample_client |}.

Definition sample_history (config : RuntimeConfig) (log : list Warning) : History := {|
  h_system := system_start "lb.toml" config log 0; h_listen_config := config; h_bind _ := Ok tt;
  h_http := [Accepted (Ok sample_socket)];
  h_https := [Accepted (Ok sample_socket); Handshaken (Err InvalidData); Accepted (Err (OsError 24))] |}.

Lemma main_ends_witness :
  main (sample_env "good") "lb.toml" None (fun _ => true) sample_history = Returned (Some (Err Other)) /\
  fatal (sample_history sample_config []) Other.
Proof.
  assert (main (sample_env "good") "lb.toml" None (fun _ => true) sample_history = Returned (Some (Err Other))) as Hm
    by (vm_compute; reflexivity).
  split; [exact Hm|].
  pose proof (fun logger => main_ends (WL := watch_model_laws) (TL := try_join_model_laws) (sample_env "good") "lb.toml" None
    (fun _ => true) sample_history logger sample_config acme_handler_new [] 0) as Hends.
  rewrite Hm in Hends. eapply Hends.
  - reflexivity.
  - exact sample_reads.
  - exists sample_config, acme_handler_new, []. split; [exact sample_reads|apply rtc_refl].
  - split; eexists; reflexivity.
Defined.
